(* ===== verification/_CoqProject ===== *)
-Q . S2P
Prelude.v
FileIO.v
BufferPool.v
PoolLogic.v
PoolClient.v
PoolDurable.v
PoolCache.v
Block.v
HashMap.v
HashMapSpec.v
HashMapPop.v
HashMapProps.v
Table.v
HeapStore.v
TableSpec.v
TableHeap.v
HeapWrite.v
TableRoom.v
Str.v
StrSpec.v
StrWrite.v
StrDelete.v
BTree.v
NodeSpec.v
NodeFocus.v
TreeSpec.v
NodeOps.v
TreeFrame.v
BTreeSearch.v
TreeInsert.v
TreeDelete.v
TreeBrothers.v
NodeDelete.v
BTreeInsert.v
BTreeDelete.v
BTreeInsertSpec.v
BTreeDeleteSpec.v
BTreeLeaf.v
BTreeDeleteTree.v
Myjql.v
MyjqlGet.v
MyjqlOwners.v
MyjqlWrite.v
MyjqlWorld.v
MyjqlMap.v
MyjqlSet.v
MyjqlDel.v
MyjqlLeaf.v
MyjqlInit.v
MyjqlStore.v
MyjqlSetProps.v
MyjqlSession.v
MyjqlHang.v
MyjqlDurable.v
MyjqlSmall.v
DeepStore.v
MyjqlCompare.v
RowsInMemory.v
BTreeInsertProps.v
BTreeDeleteProps.v
Net.v
Server.v
ServerSteps.v
ServerSpec.v
ServerMemory.v
Client.v
ClientSpec.v
SystemSpec.v
Shell.v
ShellSpec.v
