(* ===== verification/Prelude.v ===== *)
(** * MyJQL: a verification development

    MyJQL is a key-value store in C: a server ([main/myjqlserver.c]) owns one
    store and serves [get], [set] and [del] requests over sockets; a client
    library ([driver/myjqlclient.cpp]) sends them, and a shell
    ([main/myjqlshell.cpp]) reads them from a terminal.  The store
    ([src/myjql.c]) keeps keys and values in a table of strings, pairs them in
    a table of records, and finds a record by its key through a B+ tree.
    This development translates all of these into executable Rocq functions
    and proves what they compute.

    ** Layers

    Each layer calls only those above it in this list.  A file in the first
    column holds definitions translated from the C source; those in the
    second column hold what is proved about them.

    - Outcomes, loops, machine integers, bytes, triples: [Prelude].
    - Paged files, [src/file_io.c]: [FileIO].  A file is its bytes and a
      position; [read_page] and [write_page] return the codes of the enum.
    - Buffer pool, [src/buffer_pool.c]: [BufferPool]; [PoolLogic], [PoolClient],
      [PoolDurable], [PoolCache].  Eight slots, hit counters, reference counts.  The pool
      refines a store of pages indexed by address, some of them pinned
      ([pstate]); everything above works with that store only.
    - Slotted pages, [src/block.c]: [Block], on the 128 bytes of the page.
    - Free-space map, [src/hash_map.c]: [HashMap]; [HashMapSpec], [HashMapPop],
      [HashMapProps].  It refines a bag of addresses for each size.
    - Tables, [src/table.c]: [Table]; [TableSpec], [TableHeap], [TableRoom].
      A table refines a heap of byte strings; [HeapStore.HeapReader] and
      [HeapWrite.HeapWriter] are the interfaces of heaps, which the files
      of the later layers are proved against and which tables are shown to
      implement.  What is known of the free bytes of a table is an interface
      as well, [TableRoom.PageSupply]: [paged_supply] for tables of any number
      of pages, [tidy_supply] for those of one page, where what is deleted gives
      its bytes back ([HeapWrite.HeapRegains]).
    - Strings, [src/str.c]: [Str]; [StrSpec], [StrWrite], [StrDelete].  A string
      is a chain of chunks in a heap.  The triples of writing and freeing name
      the piece of the heap a chain takes, apart from everything else.
    - B+ tree, [src/b_tree.c]: [BTree]; [NodeSpec] (nodes on pages), [NodeFocus]
      (a few pinned nodes at a time), [TreeSpec] (shape and order), [NodeOps],
      [TreeFrame].  Search: [BTreeSearch].  Insertion: [TreeInsert] (on trees of
      rows), [BTreeInsert], [BTreeInsertSpec].  Removal: [TreeDelete] (on trees
      of rows), [TreeBrothers] (two neighbours under a parent), [NodeDelete] (on
      nodes), [BTreeDelete] (one operation at a time), [BTreeDeleteSpec] (the
      leaves), [BTreeLeaf] (an index of one leaf, for insertion and removal),
      [BTreeDeleteTree] (the inner nodes and the root).
      [RowsInMemory] has callbacks over rows kept in memory, with which
      [BTreeInsertProps] and [BTreeDeleteProps] run concrete indexes.  The
      comparisons, the copying and the freeing of a key are arguments of the C
      functions; what they promise is stated by the classes
      [TreeSpec.Comparer], [BTreeInsert.RowComparer], [BTreeInsert.KeyCopier]
      and [BTreeDelete.KeyDropper].
    - Key-value store, [src/myjql.c]: [Myjql].  Its callbacks over the two
      tables are proved to be instances of those classes: [MyjqlGet] (reading),
      [MyjqlOwners] (which record and which key of the index owns which chunks
      of the string table), [MyjqlWrite] (copying and freeing keys),
      [MyjqlWorld] (the instances).  [MyjqlMap] says when the index and the two
      tables stand for a finite map; [MyjqlSet] and [MyjqlDel] are the
      branches of [myjql_set] and [myjql_del], proved against what the index
      promises ([MyjqlSet.RowInserter], [MyjqlDel.RowRemover]), which an index
      of any depth implements there and an index of one leaf in [MyjqlLeaf];
      [MyjqlInit] has the empty store.
      [MyjqlStore] joins them: the predicate [store] over the three files,
      with the limits a store still has.  [MyjqlSetProps] has the theorems on
      one call, [MyjqlSession] those on sequences of calls, [MyjqlDurable] those
      on closing the store and opening it again, [MyjqlCompare] the
      order the two comparisons compute.  [MyjqlSmall] has a second predicate,
      [small], for a store whose strings fit a page, and any number of calls;
      [DeepStore] has tables of several pages, as processes leave them, and a
      store on them whose index is split, where the theorems of one call and of
      restarts are evaluated;
      [MyjqlHang] shows a store beyond its limits.  Sessions, restarts and the
      server are proved against [MyjqlSession.MapStore] and
      [MyjqlDurable.DurableStore], which both predicates implement.
    - Sockets: [Net].  A thread is a finite tree of calls, whose answers the
      environment chooses.
    - Server: [Server]; [ServerSpec] (one turn against the bytes that have
      arrived), [ServerSteps] (threads, mutex and signal as a step relation),
      [ServerMemory] (what a thread allocates it frees).
    - Client library: [Client]; [ClientSpec].  Shell: [Shell]; [ShellSpec].
    - Client, server and store together: [SystemSpec], sequences of requests.

    ** How code is modelled

    A C function is a state-passing program [M S A] over the state of its
    layer (a file, a pool, a table, ...), whose outcome is a value, undefined
    behaviour or the end of the fuel ([res]).  Pages and structs are the lists
    of their bytes, read and written at the offsets of the fields in their
    width and signedness; integers are [Z] with wrap-around written out, and
    signed overflow is undefined.  A page pointer is the slot of the pool it
    points into, so that a page used after it was evicted is the page that
    replaced it, as in the code.  Values of uninitialised locals and of malloc
    are arguments.  Loops without a bound in the code take fuel.

    Programs are verified with total-correctness triples: [wp] over the state
    itself and [awp] over the abstraction of it that an instance of [Rep]
    relates to it.  Every triple says that the program returns: with the fuel
    stated, it neither runs out nor meets undefined behaviour.

    ** Bounds

    - Fuel is needed by the chain search of [hash_table_pop] (the number of
      pages of the file is enough), by the walk along the free-space
      directory (129), by the descent of the index (its depth) and by the loops
      over a string (its length).
    - A hit counter of the pool may not reach [2^64 - 1], the mark of an empty
      slot: representations carry a number of accesses that are certain to be
      safe, and each triple says how many of them are used up.
    - Files stay below [MAX_LEN], so that offsets do not overflow.
    - A failed search of the free-space map releases a page twice
      ([HashMapProps.failed_search_over_releases]), and after it the map may be
      destroyed ([failed_search_then_pop_overwrites_control]).  Theorems about
      writing therefore ask that the search succeeds or the map is new:
      [TableSpec.search_is_safe] for one item, and the [room] of
      [HeapWrite.wview] for the many items of a request: the free bytes of one
      page, or those of all pages together without the last 35 of each, since
      no item takes more than 36.
    - The first search that fails on a table with a page is such a search.  But
      the reference counts are forgotten when the table is closed: a process
      whose search failed leaves a table with one more page, and
      [DeepStore.processes] is a run of [table_insert], [table_delete],
      [table_close] and [table_init] that leaves six.
    - The file of a table grows by at most a page at each insertion or
      deletion; [TableRoom.write_cost] is what one of them takes from the
      supply of accesses, growth included, so that a file stays short enough
      for the fuel.
    - [MyjqlStore.limits] is the account of a store: bounds on the depth of its
      index, on the length of the index file and of a key, the operations left
      and the free bytes of the pages of records and of the pages of strings.
      [set_limits], [del_limits] and [get_limits] say what a
      call takes; a session is allowed when nothing runs out ([session_fits]).
      It is what the branches of the calls need when the index may be deep, and
      it never gets bytes back.  A new store has one page of each; the witnesses
      are over a store with six ([DeepStore.six_pairs_store]), with more keys
      than a leaf holds.
    - A small store ([MyjqlSmall.small]) does get them back: a call is allowed when the strings
      that are in the store after it fit [HeapWrite.page_room] bytes with four
      more for each item ([pair_fits]), which is one page with seven items or
      less, so that three keys at most are there at a time.  The number of calls
      is bounded by the fuel alone: 52 for each, since a call takes
      [call_cost] operations and each of these may add two pages to the
      free-space map, whose length is the fuel of its searches.  A fuel of at
      most [2^25], for some 645000 calls, keeps the accesses they are given
      below what a hit counter can count.
    - That strings fit a page is no artefact of the proofs: the first page that
      is full makes a search of the free-space map fail, and
      [MyjqlHang.five_sets_never_return] is a new store, two keys and five calls
      of [myjql_set], the last of which does not return at any fuel.

    ** The theorems

    - Refinement: of the page store by the pool, of bags by the free-space
      map, of a heap by a table, of a sorted list of rows by the index (both
      insertion and removal, with the balance of the tree), of a finite map by
      the store (a key set, its value replaced, a key deleted, a value got; one
      call, and sessions of any length over any number of processes), and of
      the calls of the store by sequences of requests.
    - Ownership: every chunk of a string table belongs to one string, of one
      record or of one key the index copied, and freeing a string leaves the
      others as they are.
    - Equivalence: both comparisons of the index, chunk by chunk, are the
      lexicographic order of whole keys.
    - Well-formedness: an index stays one through every session of insertions
      and removals.
    - Replacement: the pool evicts the unpinned page with the least counter, and
      writes it back.
    - Round trips: pages through a file, a pool and the whole store through
      close and open, item identifiers, a row inserted and searched, a value
      set and got, by calls of the store and by requests.
    - Invariants of the server: a thread that calls the store holds the
      mutex, in every reachable state; allocated blocks are freed.
    - Errors and undefined behaviour: the codes of [read_page], a pool with
      every slot pinned, the damage after a failed search and the hang of the
      store it ends in, a client that disappears, a signal in the critical
      section, the end of the input.

    ** Not modelled

    - A specification of the store once the free bytes of its pages are used
      up: there is none that the code meets, since the free-space map may be
      destroyed; the theorems above show two such runs.
    - The Windows side of the conditional compilation, failures of the
      standard library (I/O errors, malloc returning NULL), output to the
      console other than the shell's, and the time threads take.
    - Test drivers and build files. *)
From stdpp Require Import base gmap list fin_maps countable.
From Stdlib Require Import ZArith Lia Strings.Byte.

(** ** Outcomes *)

(** The outcome of running a piece of the program: a value, undefined
    behaviour of the C source (an access outside an object, a null
    dereference, the missing return of [get_page], an index that runs off an
    array), or the exhaustion of the fuel given to an unbounded loop. *)
Inductive res (A : Type) : Type :=
  | Ok (a : A)
  | Undef
  | NoFuel.
Arguments Ok {A} a.
Arguments Undef {A}.
Arguments NoFuel {A}.

(** State-passing programs. *)
Definition M (S A : Type) : Type := S → res (A * S).

#[export] Instance M_ret S : MRet (M S) := λ A a s, Ok (a, s).
#[export] Instance M_bind S : MBind (M S) := λ A B f m s,
  match m s with
  | Ok (a, s') => f a s'
  | Undef => Undef
  | NoFuel => NoFuel
  end.

Definition undef {S A} : M S A := λ _, Undef.
Definition no_fuel {S A} : M S A := λ _, NoFuel.
Definition gets {S A} (f : S → A) : M S A := λ s, Ok (f s, s).
Definition modify {S} (f : S → S) : M S unit := λ s, Ok (tt, f s).
(** a C condition that must hold for the next access to be defined *)
Definition need {S} (b : bool) : M S unit := λ s, if b then Ok (tt, s) else Undef.
Definition of_opt {S A} (o : option A) : M S A := λ s,
  match o with Some a => Ok (a, s) | None => Undef end.

(** Run a program on a component of a larger state. *)
Definition zoom {S T A} (get : S → T) (set : T → S → S) (m : M T A) : M S A := λ s,
  match m (get s) with
  | Ok (a, t) => Ok (a, set t s)
  | Undef => Undef
  | NoFuel => NoFuel
  end.

(** what a sequence does, from what its first step does *)
Lemma bind_ok {S A B} (m : M S A) (k : A → M S B) s a s' : m s = Ok (a, s') → (m ≫= k) s = k a s'.
Proof. unfold mbind, M_bind. by intros ->. Qed.
Lemma bind_run {S A B} (m : M S A) (k : A → M S B) s r : (m ≫= k) s = Ok r →
  ∃ a s', m s = Ok (a, s') ∧ k a s' = Ok r.
Proof. unfold mbind, M_bind. destruct (m s) as [[a s']| |]; [|done..]. eauto. Qed.
Lemma bind_no_fuel {S A B} (m : M S A) (k : A → M S B) s : m s = NoFuel → (m ≫= k) s = NoFuel.
Proof. unfold mbind, M_bind. by intros ->. Qed.
Lemma zoom_no_fuel {S T A} (get : S → T) set (m : M T A) s : m (get s) = NoFuel → zoom get set m s = NoFuel.
Proof. unfold zoom. by intros ->. Qed.

(** ** Loops *)

Section loops.
Context {St : Type}.

(** [n] iterations with the index counting up from [i] *)
Fixpoint iter_up (n : nat) (i : Z) (body : Z → M St unit) : M St unit :=
  match n with
  | O => mret tt
  | S n' => body i;; iter_up n' (i + 1)%Z body
  end.

(** [for (i = lo; i < hi; i++) body] *)
Definition for_lt (lo hi : Z) (body : Z → M St unit) : M St unit :=
  iter_up (Z.to_nat (hi - lo)) lo body.

(** [for (i = lo; i != hi; i++) body]: entered with [hi < lo] the index
    runs off the arrays the body indexes *)
Definition for_ne (lo hi : Z) (body : Z → M St unit) : M St unit :=
  if (hi <? lo)%Z then undef else iter_up (Z.to_nat (hi - lo)) lo body.

(** [for (i = hi; i > lo; i--) body] *)
Fixpoint iter_down (n : nat) (i : Z) (body : Z → M St unit) : M St unit :=
  match n with
  | O => mret tt
  | S n' => body i;; iter_down n' (i - 1)%Z body
  end.
Definition for_down (hi lo : Z) (body : Z → M St unit) : M St unit :=
  iter_down (Z.to_nat (hi - lo)) hi body.

(** [for (i = lo; i < hi; i++) if (test i) break;]: the final index *)
Fixpoint iter_find (n : nat) (i : Z) (test : Z → M St bool) : M St Z :=
  match n with
  | O => mret i
  | S n' =>
      b ← test i;
      if b : bool then mret i else iter_find n' (i + 1)%Z test
  end.
Definition find_lt (lo hi : Z) (test : Z → M St bool) : M St Z :=
  iter_find (Z.to_nat (hi - lo)) lo test.
Definition find_ne (lo hi : Z) (test : Z → M St bool) : M St Z :=
  if (hi <? lo)%Z then undef else iter_find (Z.to_nat (hi - lo)) lo test.

(** [for (i = lo; i != hi; i++) a = body(i, a)]: a loop with one local
    variable *)
Fixpoint iter_fold {A} (n : nat) (i : Z) (body : Z → A → M St A) (a : A) : M St A :=
  match n with
  | O => mret a
  | S n' => b ← body i a; iter_fold n' (i + 1)%Z body b
  end.
Definition fold_ne {A} (lo hi : Z) (body : Z → A → M St A) (a : A) : M St A :=
  if (hi <? lo)%Z then undef else iter_fold (Z.to_nat (hi - lo)) lo body a.
End loops.

(** ** Machine integers *)

#[local] Open Scope Z_scope.

Definition uwrap (w : Z) (z : Z) : Z := z mod 2 ^ w.
Definition swrap (w : Z) (z : Z) : Z := (z + 2 ^ (w - 1)) mod 2 ^ w - 2 ^ (w - 1).

Definition in_s (w z : Z) : Prop := - 2 ^ (w - 1) <= z < 2 ^ (w - 1).
Definition in_u (w z : Z) : Prop := 0 <= z < 2 ^ w.

Lemma uwrap_id w z : in_u w z → uwrap w z = z.
Proof. intros H. unfold uwrap. apply Z.mod_small, H. Qed.

Lemma swrap_id w z : 0 < w → in_s w z → swrap w z = z.
Proof.
  intros Hw H. unfold swrap, in_s in *.
  assert (2 ^ w = 2 * 2 ^ (w - 1)) as Heq.
  { rewrite <- Z.pow_succ_r by lia. f_equal. lia. }
  rewrite Z.mod_small by lia. lia.
Qed.

Lemma swrap_range w z : 0 < w → in_s w (swrap w z).
Proof.
  intros Hw. unfold swrap, in_s.
  assert (2 ^ w = 2 * 2 ^ (w - 1)) as Heq.
  { rewrite <- Z.pow_succ_r by lia. f_equal. lia. }
  pose proof (Z.mod_pos_bound (z + 2 ^ (w - 1)) (2 ^ w)). lia.
Qed.

Lemma uwrap_range w z : 0 <= w → in_u w (uwrap w z).
Proof. intros Hw. apply Z.mod_pos_bound. lia. Qed.

(** A signed 64-bit result: overflow is undefined. *)
Definition chk64 {S} (z : Z) : M S Z :=
  need ((- 2 ^ 63 <=? z) && (z <? 2 ^ 63));; mret z.

Lemma swrap_uwrap w z : 0 < w → swrap w (uwrap w z) = swrap w z.
Proof.
  intros Hw. unfold swrap, uwrap. by rewrite Zplus_mod_idemp_l.
Qed.

(** ** Bytes, little-endian integers *)

#[export] Instance byte_eq_dec : EqDecision byte := Byte.byte_eq_dec.
#[export] Instance byte_countable : Countable byte :=
  inj_countable Byte.to_N Byte.of_N Byte.of_to_N.

Definition byte_to_Z (b : byte) : Z := Z.of_N (Byte.to_N b).
Definition Z_to_byte (z : Z) : byte := default x00 (Byte.of_N (Z.to_N (z mod 256))).

Fixpoint le_enc (n : nat) (z : Z) : list byte :=
  match n with
  | O => []
  | S n' => Z_to_byte z :: le_enc n' (z / 256)
  end.
Fixpoint le_dec (bs : list byte) : Z :=
  match bs with
  | [] => 0
  | b :: bs' => byte_to_Z b + 256 * le_dec bs'
  end.

Lemma byte_to_Z_range b : 0 <= byte_to_Z b < 256.
Proof. unfold byte_to_Z. pose proof (Byte.to_N_bounded b). lia. Qed.

Lemma byte_to_Z_to_byte z : byte_to_Z (Z_to_byte z) = z mod 256.
Proof.
  unfold byte_to_Z, Z_to_byte.
  pose proof (Z.mod_pos_bound z 256 eq_refl) as Hb.
  destruct (Byte.of_N (Z.to_N (z mod 256))) as [b|] eqn:E; simpl.
  - apply Byte.to_of_N in E. rewrite E. lia.
  - apply Byte.of_N_None_iff in E. lia.
Qed.

Lemma byte_to_Z_inj b1 b2 : byte_to_Z b1 = byte_to_Z b2 → b1 = b2.
Proof.
  unfold byte_to_Z. intros H. assert (Byte.to_N b1 = Byte.to_N b2) as Hn by lia.
  pose proof (Byte.of_to_N b1) as H1. pose proof (Byte.of_to_N b2) as H2.
  rewrite Hn in H1. congruence.
Qed.

Lemma Z_to_byte_to_Z b : Z_to_byte (byte_to_Z b) = b.
Proof.
  apply byte_to_Z_inj. rewrite byte_to_Z_to_byte.
  apply Z.mod_small, byte_to_Z_range.
Qed.

Lemma le_enc_length n z : length (le_enc n z) = n.
Proof. revert z. induction n; intros z; simpl; auto. Qed.

Lemma le_dec_enc n z : le_dec (le_enc n z) = z mod 2 ^ (8 * Z.of_nat n).
Proof.
  revert z. induction n as [|n IH]; intros z; [by rewrite Z.mod_1_r|].
  simpl le_enc. simpl le_dec. rewrite IH, byte_to_Z_to_byte.
  replace (8 * Z.of_nat (S n)) with (8 + 8 * Z.of_nat n) by lia.
  rewrite Z.pow_add_r by lia. change (2 ^ 8) with 256.
  rewrite Z.rem_mul_r by (try apply Z.pow_nonzero; lia). lia.
Qed.

Lemma le_dec_range bs : 0 <= le_dec bs < 2 ^ (8 * Z.of_nat (length bs)).
Proof.
  induction bs as [|b bs IH]; simpl length; [simpl; lia|].
  replace (8 * Z.of_nat (S (length bs))) with (8 + 8 * Z.of_nat (length bs)) by lia.
  rewrite Z.pow_add_r by lia. change (2 ^ 8) with 256.
  simpl le_dec. pose proof (byte_to_Z_range b). lia.
Qed.

Lemma le_enc_dec bs : le_enc (length bs) (le_dec bs) = bs.
Proof.
  induction bs as [|b bs IH]; [done|]. simpl.
  pose proof (byte_to_Z_range b) as Hb. f_equal.
  - apply byte_to_Z_inj. rewrite byte_to_Z_to_byte.
    rewrite (Z.mul_comm 256), Z_mod_plus_full. by apply Z.mod_small.
  - rewrite (Z.mul_comm 256), Z.div_add by lia.
    by rewrite (Z.div_small (byte_to_Z b)) by done.
Qed.

(** Signed and unsigned reads of a byte string. *)
Definition dec_u (bs : list byte) : Z := le_dec bs.
Definition dec_s (bs : list byte) : Z := swrap (8 * Z.of_nat (length bs)) (le_dec bs).

Lemma dec_s_enc n z : (0 < n)%nat → in_s (8 * Z.of_nat n) z → dec_s (le_enc n z) = z.
Proof.
  intros Hn Hz. unfold dec_s. rewrite le_enc_length, le_dec_enc.
  change (z mod _) with (uwrap (8 * Z.of_nat n) z).
  rewrite swrap_uwrap by lia. apply swrap_id; [lia|done].
Qed.
Lemma dec_u_enc n z : in_u (8 * Z.of_nat n) z → dec_u (le_enc n z) = z.
Proof. intros Hz. unfold dec_u. rewrite le_dec_enc. by apply Z.mod_small. Qed.

(** ** Slices of byte strings *)

Definition slice {A} (off n : nat) (l : list A) : list A := take n (drop off l).
Definition splice {A} (off : nat) (bs l : list A) : list A :=
  take off l ++ bs ++ drop (off + length bs) l.

Section slices.
Context {A : Type}.
Implicit Types l bs : list A.

Lemma slice_length off n l : (off + n <= length l)%nat → length (slice off n l) = n.
Proof. intros H. unfold slice. rewrite length_take, length_drop. lia. Qed.

Lemma slice_lookup off n l i :
  (i < n)%nat → slice off n l !! i = l !! (off + i)%nat.
Proof. intros H. unfold slice. rewrite lookup_take_lt by done. by rewrite lookup_drop. Qed.

Lemma splice_length off bs l :
  (off + length bs <= length l)%nat → length (splice off bs l) = length l.
Proof.
  intros H. unfold splice. rewrite !length_app, length_take, length_drop. lia.
Qed.

Lemma splice_lookup off bs l i :
  (off + length bs <= length l)%nat →
  splice off bs l !! i =
    if decide (off <= i < off + length bs)%nat then bs !! (i - off)%nat else l !! i.
Proof.
  intros H. unfold splice. case_decide as Hi.
  - rewrite lookup_app_r by (rewrite length_take; lia).
    rewrite length_take, lookup_app_l by lia. f_equal. lia.
  - destruct (decide (i < off)%nat).
    + rewrite lookup_app_l by (rewrite length_take; lia).
      by rewrite lookup_take_lt by lia.
    + rewrite lookup_app_r by (rewrite length_take; lia).
      rewrite length_take, lookup_app_r by lia.
      rewrite lookup_drop. f_equal. lia.
Qed.

Lemma slice_splice_eq off bs l :
  (off + length bs <= length l)%nat → slice off (length bs) (splice off bs l) = bs.
Proof.
  intros H. apply list_eq. intros i.
  destruct (decide (i < length bs)%nat).
  - rewrite slice_lookup, splice_lookup by done.
    rewrite decide_True by lia. f_equal. lia.
  - rewrite !lookup_ge_None_2; [done|lia|].
    rewrite slice_length; [lia|]. rewrite splice_length by done. lia.
Qed.

Lemma slice_splice_ne off n off' bs l :
  (off' + length bs <= length l)%nat →
  (off + n <= off')%nat ∨ (off' + length bs <= off)%nat →
  slice off n (splice off' bs l) = slice off n l.
Proof.
  intros H Hd. apply list_eq. intros i.
  destruct (decide (i < n)%nat).
  - rewrite !slice_lookup, splice_lookup by done. by rewrite decide_False by lia.
  - rewrite !lookup_ge_None_2; [done|..]; unfold slice; rewrite length_take; lia.
Qed.

(** inside the written region *)
Lemma slice_splice_in off d n bs l :
  (off + length bs <= length l)%nat → (d + n <= length bs)%nat →
  slice (off + d) n (splice off bs l) = slice d n bs.
Proof.
  intros H Hd. apply list_eq. intros i.
  destruct (decide (i < n)%nat).
  - rewrite !slice_lookup, splice_lookup by done.
    rewrite decide_True by lia. f_equal. lia.
  - rewrite !lookup_ge_None_2; [done|..]; unfold slice; rewrite length_take; lia.
Qed.

Lemma slice_slice s n d m l :
  (d + m <= n)%nat → slice d m (slice s n l) = slice (s + d) m l.
Proof.
  intros H. apply list_eq. intros i. destruct (decide (i < m)%nat).
  - rewrite !slice_lookup by lia. f_equal. lia.
  - rewrite !lookup_ge_None_2; [done|..]; unfold slice; rewrite length_take; lia.
Qed.

Lemma splice_slice off n l :
  (off + n <= length l)%nat → splice off (slice off n l) l = l.
Proof.
  intros H. unfold splice. rewrite slice_length by done. unfold slice.
  rewrite <- (take_drop off l) at 4. f_equal.
  rewrite <- (take_drop n (drop off l)) at 2. f_equal.
  by rewrite drop_drop.
Qed.
(** writing one element and then those after it *)
Lemma splice_cons i x l bs :
  (i + S (length bs) <= length l)%nat →
  splice (S i) bs (splice i [x] l) = splice i (x :: bs) l.
Proof.
  intros Hi. apply list_eq. intros j.
  assert (length (splice i [x] l) = length l) as Hl by (apply splice_length; simpl; lia).
  rewrite splice_lookup by lia. rewrite !splice_lookup by (simpl; lia). simpl length.
  destruct (decide (j = i)) as [->|Hne].
  { rewrite decide_False by lia. rewrite !decide_True by lia. by rewrite Nat.sub_diag. }
  destruct (decide (S i <= j < S i + length bs)%nat).
  - rewrite decide_True by lia. replace (j - i)%nat with (S (j - S i)) by lia. done.
  - rewrite !decide_False by lia. done.
Qed.

(** one element in the middle *)
Lemma splice_middle l x y r : splice (length l) [y] (l ++ x :: r) = l ++ y :: r.
Proof.
  unfold splice. rewrite take_app_length. cbn [length]. rewrite drop_app, drop_ge by lia.
  by replace (length l + 1 - length l)%nat with 1%nat by lia.
Qed.
End slices.

(** ** Total-correctness triples

    [wp m Φ s]: the program [m] run from [s] returns (no undefined behaviour,
    enough fuel) and its result and final state satisfy [Φ]. *)
Definition wp {S A} (m : M S A) (Φ : A → S → Prop) (s : S) : Prop :=
  match m s with Ok (a, s') => Φ a s' | _ => False end.

Section wp.
Context {St : Type}.

Lemma wp_ret {A} (a : A) (Φ : A → St → Prop) s : Φ a s → wp (mret a) Φ s.
Proof. done. Qed.

Lemma wp_bind {A B} (m : M St A) (f : A → M St B) Φ s :
  wp m (λ a, wp (f a) Φ) s → wp (m ≫= f) Φ s.
Proof. unfold wp, mbind, M_bind. destruct (m s) as [[a s']| |]; done. Qed.

Lemma wp_bind_inv {A B} (m : M St A) (f : A → M St B) Φ s :
  wp (m ≫= f) Φ s → wp m (λ a, wp (f a) Φ) s.
Proof. unfold wp, mbind, M_bind. destruct (m s) as [[a s']| |]; done. Qed.

(** a triple gives the run *)
Lemma wp_elim {A} (m : M St A) (Φ : A → St → Prop) s :
  wp m Φ s → ∃ a s', m s = Ok (a, s') ∧ Φ a s'.
Proof. unfold wp. destruct (m s) as [[a s']| |]; [eauto|done..]. Qed.

Lemma wp_mono {A} (m : M St A) (Φ Ψ : A → St → Prop) s :
  wp m Φ s → (∀ a s', Φ a s' → Ψ a s') → wp m Ψ s.
Proof. unfold wp. destruct (m s) as [[a s']| |]; auto. Qed.

Lemma wp_gets {A} (f : St → A) (Φ : A → St → Prop) s : Φ (f s) s → wp (gets f) Φ s.
Proof. done. Qed.
Lemma wp_modify (f : St → St) (Φ : unit → St → Prop) s : Φ tt (f s) → wp (modify f) Φ s.
Proof. done. Qed.
Lemma wp_need b (Φ : unit → St → Prop) s : b = true → Φ tt s → wp (need b) Φ s.
Proof. intros -> ?. done. Qed.
Lemma wp_of_opt {A} (o : option A) a (Φ : A → St → Prop) s :
  o = Some a → Φ a s → wp (of_opt o) Φ s.
Proof. intros -> ?. done. Qed.

Lemma wp_zoom {T A} (get : St → T) set (m : M T A) Φ s :
  wp m (λ a t, Φ a (set t s)) (get s) → wp (zoom get set m) Φ s.
Proof. unfold wp, zoom. destruct (m (get s)) as [[a t]| |]; done. Qed.

Lemma wp_iter_up n lo body (I : Z → St → Prop) s :
  I lo s →
  (∀ i s, lo <= i < lo + Z.of_nat n → I i s → wp (body i) (λ _, I (i + 1)) s) →
  wp (iter_up n lo body) (λ _, I (lo + Z.of_nat n)) s.
Proof.
  revert lo s. induction n as [|n IH]; intros lo s H0 Hb.
  - apply wp_ret. by rewrite Z.add_0_r.
  - simpl iter_up. apply wp_bind. eapply wp_mono; [apply Hb; [lia|done]|].
    intros [] s' HI. replace (lo + Z.of_nat (S n)) with (lo + 1 + Z.of_nat n) by lia.
    apply IH; [done|]. intros i s'' Hi. apply Hb. lia.
Qed.

Lemma wp_iter_fold {A} n lo (body : Z → A → M St A) (I : Z → A → St → Prop) a s :
  I lo a s →
  (∀ i a s, lo <= i < lo + Z.of_nat n → I i a s → wp (body i a) (I (i + 1)) s) →
  wp (iter_fold n lo body a) (I (lo + Z.of_nat n)) s.
Proof.
  revert lo a s. induction n as [|n IH]; intros lo a s H0 Hb.
  - apply wp_ret. by rewrite Z.add_0_r.
  - simpl iter_fold. apply wp_bind. eapply wp_mono; [apply Hb; [lia|done]|].
    intros b s' HI. replace (lo + Z.of_nat (S n)) with (lo + 1 + Z.of_nat n) by lia.
    apply IH; [done|]. intros i c s'' Hi. apply Hb. lia.
Qed.

Lemma wp_iter_find n lo test (P : Z → bool) s (Φ : Z → St → Prop) :
  (∀ i, lo <= i < lo + Z.of_nat n → wp (test i) (λ (b : bool) (s' : St), b = P i ∧ s' = s) s) →
  (∀ i, lo <= i <= lo + Z.of_nat n → (∀ j, lo <= j < i → P j = false) →
    (i < lo + Z.of_nat n → P i = true) → Φ i s) →
  wp (iter_find n lo test) Φ s.
Proof.
  revert lo. induction n as [|n IH]; intros lo Ht HΦ; simpl.
  - apply wp_ret, HΦ; intros; lia.
  - apply wp_bind. eapply wp_mono; [apply Ht; lia|]. intros b s' [-> ->].
    destruct (P lo) eqn:HP.
    + apply wp_ret, HΦ; intros; first [lia | done].
    + apply IH; [intros; apply Ht; lia|]. intros i Hi Hj Hp. apply HΦ.
      * lia.
      * intros j Hlj. destruct (decide (j = lo)); [by subst|]. apply Hj. lia.
      * intros. apply Hp. lia.
Qed.
End wp.

(** ** Ghost abstraction

    A component's concrete state [S] is related to an abstract ("ghost")
    state [G]; [awp m Φ g] is total correctness at the abstract level: from
    every concrete state that represents [g] the program returns, in a state
    that represents some [g'] satisfying [Φ]. *)
Class Rep (S G : Type) := rep : S → G → Prop.

Definition awp {S G} `{Rep S G} {A} (m : M S A) (Φ : A → G → Prop) (g : G) : Prop :=
  ∀ s, rep s g → wp m (λ a s', ∃ g', rep s' g' ∧ Φ a g') s.

Section awp.
Context {St G : Type} `{Rep St G}.

Lemma awp_ret {A} (a : A) (Φ : A → G → Prop) g : Φ a g → awp (mret a) Φ g.
Proof. intros HΦ s Hs. apply wp_ret. eauto. Qed.

Lemma awp_bind {A B} (m : M St A) (f : A → M St B) Φ g :
  awp m (λ a, awp (f a) Φ) g → awp (m ≫= f) Φ g.
Proof.
  intros Hm s Hs. apply wp_bind. eapply wp_mono; [by apply Hm|].
  intros a s' (g' & Hs' & Hf). by apply Hf.
Qed.

Lemma awp_mono {A} (m : M St A) (Φ Ψ : A → G → Prop) g :
  awp m Φ g → (∀ a g', Φ a g' → Ψ a g') → awp m Ψ g.
Proof.
  intros Hm HΦ s Hs. eapply wp_mono; [by apply Hm|].
  intros a s' (g' & Hs' & Hf). eauto.
Qed.

(** a triple proved for every representation may use facts of it *)
Lemma awp_rep {A} (m : M St A) (Φ : A → G → Prop) g :
  (∀ s, rep s g → awp m Φ g) → awp m Φ g.
Proof. intros Hm s Hs. by apply (Hm s Hs s). Qed.

Lemma awp_need b (Φ : unit → G → Prop) g : b = true → Φ tt g → awp (need b) Φ g.
Proof. intros Hb HΦ s Hs. apply wp_need; eauto. Qed.

Lemma awp_iter_up n lo body (I : Z → G → Prop) g :
  I lo g →
  (∀ i g, lo <= i < lo + Z.of_nat n → I i g → awp (body i) (λ _, I (i + 1)) g) →
  awp (iter_up n lo body) (λ _, I (lo + Z.of_nat n)) g.
Proof.
  revert lo g. induction n as [|n IH]; intros lo g H0 Hb.
  - apply awp_ret. by rewrite Z.add_0_r.
  - simpl iter_up. apply awp_bind. eapply awp_mono; [apply Hb; [lia|done]|].
    intros [] g' HI. replace (lo + Z.of_nat (S n)) with (lo + 1 + Z.of_nat n) by lia.
    apply IH; [done|]. intros i g'' Hi. apply Hb. lia.
Qed.

Lemma awp_iter_fold {A} n lo (body : Z → A → M St A) (I : Z → A → G → Prop) a g :
  I lo a g →
  (∀ i a g, lo <= i < lo + Z.of_nat n → I i a g → awp (body i a) (I (i + 1)) g) →
  awp (iter_fold n lo body a) (I (lo + Z.of_nat n)) g.
Proof.
  revert lo a g. induction n as [|n IH]; intros lo a g H0 Hb.
  - apply awp_ret. by rewrite Z.add_0_r.
  - simpl iter_fold. apply awp_bind. eapply awp_mono; [apply Hb; [lia|done]|].
    intros b g' HI. replace (lo + Z.of_nat (S n)) with (lo + 1 + Z.of_nat n) by lia.
    apply IH; [done|]. intros i c g'' Hi. apply Hb. lia.
Qed.

(** a search loop whose test decides [P] while the ghost state moves
    along a preserved relation [J] *)
Lemma awp_iter_find n lo test (P : Z → bool) (J : Z → G → Prop) g (Φ : Z → G → Prop) :
  J lo g →
  (∀ i g, lo <= i < lo + Z.of_nat n → J i g →
    awp (test i) (λ (b : bool) g', b = P i ∧ J (i + 1) g') g) →
  (∀ i j g, lo <= i <= lo + Z.of_nat n → (∀ j, lo <= j < i → P j = false) →
    (i < lo + Z.of_nat n → P i = true) → i <= j <= lo + Z.of_nat n → J j g → Φ i g) →
  awp (iter_find n lo test) Φ g.
Proof.
  revert lo g. induction n as [|n IH]; intros lo g HJ Ht HΦ; simpl.
  - apply awp_ret. eapply HΦ; [..|exact HJ]; intros; lia.
  - apply awp_bind. eapply awp_mono; [apply Ht; [lia|done]|]. intros b g' [-> HJ'].
    destruct (P lo) eqn:HP.
    + apply awp_ret. eapply HΦ; [..|exact HJ']; intros; first [lia | done].
    + apply IH; [done|intros; apply Ht; [lia|done]|].
      intros i j g'' Hi Hj Hp Hij HJi. apply HΦ with j; [lia| | |lia|done].
      * intros k Hk. destruct (decide (k = lo)); [by subst|]. apply Hj. lia.
      * intros. apply Hp. lia.
Qed.
End awp.

(** Stepping tactics: one step of the program in head position. *)
Ltac wp_step := lazymatch goal with
  | |- wp (mbind _ _) _ _ => apply wp_bind
  | |- wp (mret _) _ _ => apply wp_ret
  | |- wp (gets _) _ _ => apply wp_gets
  | |- wp (modify _) _ _ => apply wp_modify
  | |- wp (zoom _ _ _) _ _ => apply wp_zoom
  end; cbv beta.
Ltac awp_step := lazymatch goal with
  | |- awp (mbind _ _) _ _ => apply awp_bind
  | |- awp (mret _) _ _ => apply awp_ret
  end; cbv beta.

(** ** Objects in memory

    A C object (a page, a chunk, a record) is the list of its bytes; typed
    accesses read and write little-endian fields at byte offsets.  An access
    outside the object is undefined. *)
Definition in_obj (off : Z) (n : nat) (o : list byte) : bool :=
  (0 <=? off) && (off + Z.of_nat n <=? Z.of_nat (length o)).

Definition rd (off : Z) (n : nat) : M (list byte) (list byte) := λ o,
  if in_obj off n o then Ok (slice (Z.to_nat off) n o, o) else Undef.
Definition wr (off : Z) (bs : list byte) : M (list byte) unit := λ o,
  if in_obj off (length bs) o then Ok (tt, splice (Z.to_nat off) bs o) else Undef.

Definition rd_s (n : nat) (off : Z) : M (list byte) Z := bs ← rd off n; mret (dec_s bs).
Definition rd_u (n : nat) (off : Z) : M (list byte) Z := bs ← rd off n; mret (dec_u bs).
Definition wr_i (n : nat) (off v : Z) : M (list byte) unit := wr off (le_enc n v).

(** the typed views used by the program *)
Definition rd_i16 : Z → M (list byte) Z := rd_s 2.   (* short *)
Definition rd_i64 : Z → M (list byte) Z := rd_s 8.   (* off_t *)
Definition rd_u32 : Z → M (list byte) Z := rd_u 4.   (* unsigned int *)
Definition rd_u64 : Z → M (list byte) Z := rd_u 8.   (* size_t *)
Definition rd_u8 : Z → M (list byte) Z := rd_u 1.
Definition wr_16 : Z → Z → M (list byte) unit := wr_i 2.
Definition wr_32 : Z → Z → M (list byte) unit := wr_i 4.
Definition wr_64 : Z → Z → M (list byte) unit := wr_i 8.
Definition wr_8 : Z → Z → M (list byte) unit := wr_i 1.

(** an access to a local object, whose state is a value of the program *)
Definition on_obj {S A} (o : list byte) (m : M (list byte) A) : M S A :=
  zoom (λ _, o) (λ _ s, s) m.
(** ... that changes it: the object afterwards *)
Definition edit_obj {S} (o : list byte) (m : M (list byte) unit) : M S (list byte) :=
  on_obj o (m;; gets (λ o', o')).

(** their values as pure functions of the object *)
Definition get_s (n : nat) (o : list byte) (off : Z) : Z := dec_s (slice (Z.to_nat off) n o).
Definition get_u (n : nat) (o : list byte) (off : Z) : Z := dec_u (slice (Z.to_nat off) n o).
Definition set_i (n : nat) (off v : Z) (o : list byte) : list byte :=
  splice (Z.to_nat off) (le_enc n v) o.

Section objects.
Implicit Types o : list byte.

Lemma in_obj_true off n o :
  0 <= off → off + Z.of_nat n <= Z.of_nat (length o) → in_obj off n o = true.
Proof. intros. unfold in_obj. rewrite !(proj2 (Z.leb_le _ _)) by done. done. Qed.

Lemma wp_rd off n Φ o :
  0 <= off → off + Z.of_nat n <= Z.of_nat (length o) →
  Φ (slice (Z.to_nat off) n o) o → wp (rd off n) Φ o.
Proof. intros. unfold wp, rd. by rewrite in_obj_true. Qed.

Lemma wp_wr off bs Φ o :
  0 <= off → off + Z.of_nat (length bs) <= Z.of_nat (length o) →
  Φ tt (splice (Z.to_nat off) bs o) → wp (wr off bs) Φ o.
Proof. intros. unfold wp, wr. by rewrite in_obj_true. Qed.

Lemma wp_rd_s n off Φ o :
  0 <= off → off + Z.of_nat n <= Z.of_nat (length o) →
  Φ (get_s n o off) o → wp (rd_s n off) Φ o.
Proof. intros. unfold rd_s. apply wp_bind, wp_rd; [done..|]. by apply wp_ret. Qed.

Lemma wp_rd_u n off Φ o :
  0 <= off → off + Z.of_nat n <= Z.of_nat (length o) →
  Φ (get_u n o off) o → wp (rd_u n off) Φ o.
Proof. intros. unfold rd_u. apply wp_bind, wp_rd; [done..|]. by apply wp_ret. Qed.

Lemma wp_wr_i n off v Φ o :
  0 <= off → off + Z.of_nat n <= Z.of_nat (length o) →
  Φ tt (set_i n off v o) → wp (wr_i n off v) Φ o.
Proof. intros. unfold wr_i. apply wp_wr; rewrite ?le_enc_length; done. Qed.

Lemma set_i_length n off v o :
  0 <= off → off + Z.of_nat n <= Z.of_nat (length o) →
  length (set_i n off v o) = length o.
Proof. intros. unfold set_i. apply splice_length. rewrite le_enc_length. lia. Qed.

Lemma slice_set_i_eq n off v o :
  0 <= off → off + Z.of_nat n <= Z.of_nat (length o) →
  slice (Z.to_nat off) n (set_i n off v o) = le_enc n v.
Proof.
  intros. unfold set_i. rewrite <- (le_enc_length n v) at 1.
  apply slice_splice_eq. rewrite le_enc_length. lia.
Qed.

Lemma slice_set_i_ne m off' n off v o :
  0 <= off → off + Z.of_nat n <= Z.of_nat (length o) → 0 <= off' →
  off' + Z.of_nat m <= off ∨ off + Z.of_nat n <= off' →
  slice (Z.to_nat off') m (set_i n off v o) = slice (Z.to_nat off') m o.
Proof. intros. unfold set_i. apply slice_splice_ne; rewrite le_enc_length; lia. Qed.

Lemma get_s_set_eq n off v o :
  (0 < n)%nat → 0 <= off → off + Z.of_nat n <= Z.of_nat (length o) →
  in_s (8 * Z.of_nat n) v → get_s n (set_i n off v o) off = v.
Proof. intros. unfold get_s. rewrite slice_set_i_eq by done. by apply dec_s_enc. Qed.

Lemma get_u_set_eq n off v o :
  0 <= off → off + Z.of_nat n <= Z.of_nat (length o) →
  in_u (8 * Z.of_nat n) v → get_u n (set_i n off v o) off = v.
Proof. intros. unfold get_u. rewrite slice_set_i_eq by done. by apply dec_u_enc. Qed.

Lemma get_s_set_ne m off' n off v o :
  0 <= off → off + Z.of_nat n <= Z.of_nat (length o) → 0 <= off' →
  off' + Z.of_nat m <= off ∨ off + Z.of_nat n <= off' →
  get_s m (set_i n off v o) off' = get_s m o off'.
Proof. intros. unfold get_s. by rewrite slice_set_i_ne. Qed.

Lemma get_u_set_ne m off' n off v o :
  0 <= off → off + Z.of_nat n <= Z.of_nat (length o) → 0 <= off' →
  off' + Z.of_nat m <= off ∨ off + Z.of_nat n <= off' →
  get_u m (set_i n off v o) off' = get_u m o off'.
Proof. intros. unfold get_u. by rewrite slice_set_i_ne. Qed.
End objects.

(** ** Permutations by counting *)

Section occ.
Context {A : Type} `{EqDecision A}.

Fixpoint occ (x : A) (l : list A) : nat :=
  match l with [] => 0 | y :: l' => (if decide (y = x) then 1 else 0) + occ x l' end%nat.

Lemma occ_app x l1 l2 : occ x (l1 ++ l2) = (occ x l1 + occ x l2)%nat.
Proof. induction l1 as [|y l1 IH]; simpl; [done|]. lia. Qed.

Lemma occ_cons x y l : occ x (y :: l) = (occ x [y] + occ x l)%nat.
Proof. simpl. lia. Qed.

Lemma occ_elem x l : (1 <= occ x l)%nat ↔ x ∈ l.
Proof.
  induction l as [|y l IH]; simpl; [rewrite elem_of_nil; lia|]. rewrite elem_of_cons, <- IH.
  case_decide as E; [split; [intros _; by left|lia]|].
  split; [intros H; by right|intros [->|H]; [done|done]].
Qed.

Lemma perm_occ l1 l2 : l1 ≡ₚ l2 ↔ ∀ x, occ x l1 = occ x l2.
Proof.
  split.
  - induction 1 as [|y l l' _ IH|y z l|l l' l3 _ IH1 _ IH2]; intros x; simpl; [done|by rewrite IH|lia|by rewrite IH1, IH2].
  - revert l2. induction l1 as [|y l1 IH]; intros l2 H.
    + destruct l2 as [|z l2]; [done|]. specialize (H z). simpl in H. case_decide; [lia|done].
    + assert (y ∈ l2) as (p & s & ->)%list_elem_of_split.
      { apply occ_elem. rewrite <- H. simpl. case_decide; [lia|done]. }
      rewrite <- Permutation_middle. constructor. apply IH. intros x. specialize (H x).
      rewrite occ_app in *. simpl in *. lia.
Qed.
End occ.

Ltac occ_split := repeat match goal with
  | |- context [occ ?x (?y :: ?l)] => lazymatch l with [] => fail | _ => rewrite (occ_cons x y l) end
  | H : context [occ ?x (?y :: ?l)] |- _ => lazymatch l with [] => fail | _ => rewrite (occ_cons x y l) in H end
  | |- context [occ _ (_ ++ _)] => rewrite occ_app
  | H : context [occ _ (_ ++ _)] |- _ => rewrite occ_app in H
  | |- context [occ ?x []] => change (occ x []) with O
  | H : context [occ ?x []] |- _ => change (occ x []) with O in H
  end.
(** permutations of appended lists, from those in the context *)
Ltac perm :=
  let x := fresh "x" in apply perm_occ; intros x;
  repeat match goal with H : _ ≡ₚ _ |- _ => rewrite perm_occ in H; specialize (H x) end;
  occ_split; lia.

Lemma nodup_perm {A} (l1 l2 : list A) : l1 ≡ₚ l2 → NoDup l1 → NoDup l2.
Proof. by intros ->. Qed.
