(* ===== verification/FileIO.v ===== *)
(** The file layer ([include/file_io.h], [src/file_io.c]): pages, the
    standard-library stream a [FileInfo] holds, and reading and writing one
    page of a file. *)
From stdpp Require Import base gmap list.
From Stdlib Require Import ZArith Lia Strings.Byte.
From S2P Require Import Prelude.
#[local] Open Scope Z_scope.

Definition PAGE_SIZE : Z := 128.
Definition PAGE_MASK : Z := PAGE_SIZE - 1.

Abbreviation Page := (list byte).
Definition EMPTY_PAGE : Page := replicate 128 x00.

(** ** The standard-library stream *)

(** An open stream: the bytes of its file and the file position. *)
Record FILE := mkFILE { f_content : list byte; f_pos : Z }.

(** What a path names when it is opened: nothing, a file the process may
    open, or something it can neither open nor create. *)
Inductive PathState := NoFile | HasFile (bs : list byte) | Denied.

(** [fopen(path, "rb+")] and [fopen(path, "wb+")] *)
Definition fopen_rbp (p : PathState) : option FILE :=
  match p with HasFile bs => Some (mkFILE bs 0) | _ => None end.
Definition fopen_wbp (p : PathState) : option FILE :=
  match p with Denied => None | _ => Some (mkFILE [] 0) end.

Definition fseek_set (f : FILE) (off : Z) : Z * FILE :=
  if off <? 0 then (-1, f) else (0, mkFILE (f_content f) off).
Definition fseek_end (f : FILE) : Z * FILE :=
  (0, mkFILE (f_content f) (Z.of_nat (length (f_content f)))).

(** [fread(buf, size, 1, f)]: the number of complete items (0 or 1); a short
    read leaves the bytes it did read in the buffer. *)
Definition fread (buf : list byte) (size : nat) (f : FILE) : Z * list byte * FILE :=
  let got := slice (Z.to_nat (f_pos f)) size (f_content f) in
  (if bool_decide (length got = size) then 1 else 0,
   got ++ drop (length got) buf,
   mkFILE (f_content f) (f_pos f + Z.of_nat (length got))).

(** the bytes of a file after [bs] is written at [pos]: a gap before [pos]
    reads as zeros *)
Definition put_bytes (pos : nat) (bs content : list byte) : list byte :=
  splice pos bs (content ++ replicate (pos + length bs - length content) x00).

Definition fwrite (buf : list byte) (f : FILE) : Z * FILE :=
  (1, mkFILE (put_bytes (Z.to_nat (f_pos f)) buf (f_content f))
             (f_pos f + Z.of_nat (length buf))).

(** ** [file_io.c] *)

Record FileInfo := mkFileInfo { fp : option FILE; flen : Z }.

Inductive FileIOResult :=
  | FILE_IO_SUCCESS
  | FILE_IO_FAILED
  | INVALID_LEN
  | INVALID_ADDR
  | ADDR_OUT_OF_RANGE.

#[export] Instance FileIOResult_eq_dec : EqDecision FileIOResult.
Proof. solve_decision. Defined.

Definition close_file : M FileInfo FileIOResult := λ file,
  match fp file with
  | None => Undef                       (* fclose(NULL) *)
  | Some _ => Ok (FILE_IO_SUCCESS, mkFileInfo None 0)
  end.

Definition open_file (path : PathState) : M FileInfo FileIOResult := λ file,
  let opened := match fopen_rbp path with
                | Some f => Some f
                | None => fopen_wbp path
                end in
  match opened with
  | None => Ok (FILE_IO_FAILED, mkFileInfo None (flen file))
  | Some f =>
      let '(r, f1) := fseek_end f in
      if negb (r =? 0) then Ok (FILE_IO_FAILED, mkFileInfo (Some f1) (flen file))
      else
        let file1 := mkFileInfo (Some f1) (f_pos f1) in      (* ftell *)
        if negb (Z.land (flen file1) PAGE_MASK =? 0) then
          (_ ← close_file; mret INVALID_LEN) file1
        else Ok (FILE_IO_SUCCESS, file1)
  end.

(** [read_page(page, file, addr)]; the state is the destination page and the
    file (whose stream position moves). *)
Definition read_page (addr : Z) : M (Page * FileInfo) FileIOResult := λ '(page, file),
  if negb (Z.land addr PAGE_MASK =? 0) then Ok (INVALID_ADDR, (page, file))
  else if (addr <? 0) || (flen file <=? addr) then Ok (ADDR_OUT_OF_RANGE, (page, file))
  else match fp file with
       | None => Undef
       | Some f =>
           let '(r, f1) := fseek_set f addr in
           if negb (r =? 0) then
             Ok (FILE_IO_FAILED, (page, mkFileInfo (Some f1) (flen file)))
           else
             let '(bytes_read, page', f2) := fread page (Z.to_nat PAGE_SIZE) f1 in
             let file' := mkFileInfo (Some f2) (flen file) in
             if negb (bytes_read =? 1) then Ok (FILE_IO_FAILED, (page', file'))
             else Ok (FILE_IO_SUCCESS, (page', file'))
       end.

Definition write_page (page : Page) (addr : Z) : M FileInfo FileIOResult := λ file,
  if negb (Z.land addr PAGE_MASK =? 0) then Ok (INVALID_ADDR, file)
  else if (addr <? 0) || (flen file <? addr) then Ok (ADDR_OUT_OF_RANGE, file)
  else match fp file with
       | None => Undef
       | Some f =>
           let '(r, f1) := fseek_set f addr in
           if negb (r =? 0) then Ok (FILE_IO_FAILED, mkFileInfo (Some f1) (flen file))
           else
             let '(bytes_written, f2) := fwrite page f1 in
             if negb (bytes_written =? 1) then
               Ok (FILE_IO_FAILED, mkFileInfo (Some f2) (flen file))
             else if addr =? flen file then
               Ok (FILE_IO_SUCCESS, mkFileInfo (Some f2) (flen file + PAGE_SIZE))
             else Ok (FILE_IO_SUCCESS, mkFileInfo (Some f2) (flen file))
       end.

(** ** Lemmas *)

Lemma mask_mod a : Z.land a PAGE_MASK = a mod 128.
Proof. change PAGE_MASK with (Z.ones 7). by rewrite Z.land_ones. Qed.

Lemma put_bytes_length pos bs c :
  length (put_bytes pos bs c) = (length c `max` (pos + length bs))%nat.
Proof.
  unfold put_bytes. rewrite splice_length; rewrite length_app, length_replicate; lia.
Qed.

Lemma put_bytes_lookup pos bs c i :
  put_bytes pos bs c !! i =
    if decide (pos <= i < pos + length bs)%nat then bs !! (i - pos)%nat
    else if decide (i < length c)%nat then c !! i
    else if decide (i < pos)%nat then Some x00 else None.
Proof.
  unfold put_bytes.
  rewrite splice_lookup by (rewrite length_app, length_replicate; lia).
  case_decide as H1; [done|]. repeat case_decide.
  - by rewrite lookup_app_l.
  - rewrite lookup_app_r by lia. apply lookup_replicate_2. lia.
  - apply lookup_ge_None_2. rewrite length_app, length_replicate. lia.
Qed.

Lemma slice_put_bytes_eq pos bs c n :
  n = length bs → slice pos n (put_bytes pos bs c) = bs.
Proof.
  intros ->. apply list_eq. intros i. destruct (decide (i < length bs)%nat).
  - rewrite slice_lookup, put_bytes_lookup by done.
    rewrite decide_True by lia. f_equal. lia.
  - rewrite !lookup_ge_None_2; [done|lia|]. unfold slice. rewrite length_take. lia.
Qed.

Lemma slice_put_bytes_ne a n pos bs c :
  (a + n <= length c)%nat → (a + n <= pos)%nat ∨ (pos + length bs <= a)%nat →
  slice a n (put_bytes pos bs c) = slice a n c.
Proof.
  intros Hc Hd. apply list_eq. intros i. destruct (decide (i < n)%nat).
  - rewrite !slice_lookup, put_bytes_lookup by done.
    rewrite decide_False, decide_True by lia. done.
  - rewrite !lookup_ge_None_2; [done|..]; unfold slice; rewrite length_take; lia.
Qed.

Lemma fread_full buf f n bs :
  slice (Z.to_nat (f_pos f)) n (f_content f) = bs → length bs = n → length buf = n →
  fread buf n f = (1, bs, mkFILE (f_content f) (f_pos f + Z.of_nat n)).
Proof.
  intros Hs Hn Hb. unfold fread. rewrite Hs, Hn, bool_decide_true by done.
  f_equal. f_equal. rewrite drop_ge by lia. by rewrite app_nil_r.
Qed.

(** The page stored at [addr] in a stream, when the file physically reaches
    its end. *)
Definition page_at (f : FILE) (addr : Z) : option Page :=
  if decide (0 <= addr ∧ addr + 128 <= Z.of_nat (length (f_content f)))
  then Some (slice (Z.to_nat addr) 128 (f_content f)) else None.

Lemma page_at_length f a pg : page_at f a = Some pg → length pg = 128%nat.
Proof.
  unfold page_at. case_decide; [|done]. intros [= <-]. apply slice_length. lia.
Qed.

(** [read_page] on a page the file holds *)
Lemma read_page_success buf file addr f pg :
  length buf = 128%nat → fp file = Some f → page_at f addr = Some pg →
  addr mod 128 = 0 → addr < flen file →
  read_page addr (buf, file) =
    Ok (FILE_IO_SUCCESS, (pg, mkFileInfo (Some (mkFILE (f_content f) (addr + 128))) (flen file))).
Proof.
  intros Hb Hf Hp Hm Hl. pose proof (page_at_length _ _ _ Hp) as Hpl.
  unfold page_at in Hp. case_decide as Hd; [|done]. simplify_eq.
  unfold read_page. rewrite mask_mod, Hm. simpl negb. cbv iota.
  rewrite (proj2 (Z.ltb_ge addr 0)), (proj2 (Z.leb_gt (flen file) addr)) by lia.
  simpl orb. cbv iota. rewrite Hf. unfold fseek_set.
  rewrite (proj2 (Z.ltb_ge addr 0)) by lia. simpl negb. cbv iota beta.
  erewrite (fread_full buf); [..|done|done]; done.
Qed.

(** [write_page] in range *)
Lemma write_page_success page file addr f :
  fp file = Some f → addr mod 128 = 0 → 0 <= addr <= flen file →
  write_page page addr file =
    Ok (FILE_IO_SUCCESS,
        mkFileInfo (Some (mkFILE (put_bytes (Z.to_nat addr) page (f_content f))
                                 (addr + Z.of_nat (length page))))
                   (if addr =? flen file then flen file + 128 else flen file)).
Proof.
  intros Hf Hm Hl. unfold write_page. rewrite mask_mod, Hm. simpl negb. cbv iota.
  rewrite (proj2 (Z.ltb_ge addr 0)), (proj2 (Z.ltb_ge (flen file) addr)) by lia.
  simpl orb. cbv iota. rewrite Hf. unfold fseek_set.
  rewrite (proj2 (Z.ltb_ge addr 0)) by lia. simpl. by case_match.
Qed.

Lemma page_at_put_eq f addr pg pos :
  0 <= addr → length pg = 128%nat →
  page_at (mkFILE (put_bytes (Z.to_nat addr) pg (f_content f)) pos) addr = Some pg.
Proof.
  intros Ha Hl. unfold page_at. simpl. rewrite put_bytes_length, decide_True by lia.
  f_equal. by apply slice_put_bytes_eq.
Qed.

Lemma page_at_put_ne f addr addr' pg pos pg' :
  0 <= addr → length pg = 128%nat → addr mod 128 = 0 → addr' mod 128 = 0 → addr ≠ addr' →
  page_at f addr' = Some pg' →
  page_at (mkFILE (put_bytes (Z.to_nat addr) pg (f_content f)) pos) addr' = Some pg'.
Proof.
  intros Ha Hl Hm Hm' Hne. unfold page_at. simpl. rewrite put_bytes_length.
  case_decide as Hd; [|done]. intros [= <-]. rewrite decide_True by lia.
  f_equal. apply slice_put_bytes_ne; [lia|].
  pose proof (Z.div_mod addr 128). pose proof (Z.div_mod addr' 128). lia.
Qed.

Lemma read_page_inv buf file addr r buf' file' :
  length buf = 128%nat → read_page addr (buf, file) = Ok (r, (buf', file')) →
  r = FILE_IO_SUCCESS →
  ∃ f, fp file = Some f ∧ addr mod 128 = 0 ∧ 0 <= addr < flen file ∧
       page_at f addr = Some buf'.
Proof.
  intros Hb Hr ->. unfold read_page in Hr. rewrite mask_mod in Hr.
  destruct (addr mod 128 =? 0) eqn:Hm; [|done]. apply Z.eqb_eq in Hm. simpl in Hr.
  destruct (addr <? 0) eqn:Ha; [done|]. apply Z.ltb_ge in Ha.
  destruct (flen file <=? addr) eqn:Hl; [done|]. apply Z.leb_gt in Hl.
  destruct (fp file) as [f|]; [|done]. exists f.
  unfold fseek_set in Hr. rewrite (proj2 (Z.ltb_ge addr 0)) in Hr by lia. simpl in Hr.
  case_bool_decide as Hg; [|done]. simpl in Hr. simplify_eq. split_and!; try done.
  unfold page_at. change (Z.to_nat PAGE_SIZE) with 128%nat in *.
  assert (addr + 128 <= Z.of_nat (length (f_content f))).
  { unfold slice in Hg. rewrite length_take, length_drop in Hg. lia. }
  rewrite decide_True by lia. f_equal. simpl. rewrite drop_ge; [by rewrite app_nil_r|].
  rewrite Hg. lia.
Qed.

(** A page written with [write_page] is what [read_page] of the same
    address returns afterwards, and every other page that could be read
    before is still read unchanged. *)
Theorem write_page_read_page page buf addr file file' :
  length page = 128%nat → length buf = 128%nat →
  write_page page addr file = Ok (FILE_IO_SUCCESS, file') →
  (∃ file'', read_page addr (buf, file') = Ok (FILE_IO_SUCCESS, (page, file''))) ∧
  (∀ addr' pg file1, addr' ≠ addr →
    read_page addr' (buf, file) = Ok (FILE_IO_SUCCESS, (pg, file1)) →
    ∃ file2, read_page addr' (buf, file') = Ok (FILE_IO_SUCCESS, (pg, file2))).
Proof.
  intros Hp Hb Hw.
  assert (addr mod 128 = 0 ∧ 0 <= addr <= flen file ∧ ∃ f, fp file = Some f)
    as (Hm & Hl & f & Hf).
  { unfold write_page in Hw. rewrite mask_mod in Hw.
    destruct (addr mod 128 =? 0) eqn:Hm; [|done]. apply Z.eqb_eq in Hm. simpl in Hw.
    destruct (addr <? 0) eqn:Ha; [done|]. apply Z.ltb_ge in Ha.
    destruct (flen file <? addr) eqn:Hl; [done|]. apply Z.ltb_ge in Hl.
    destruct (fp file) as [f|]; [|done]. split_and!; [done..|lia|eauto]. }
  rewrite (write_page_success page file addr f) in Hw by done. simplify_eq.
  set (fl' := if addr =? flen file then _ else _).
  assert (flen file <= fl' ∧ addr < fl') as [Hfl1 Hfl2].
  { unfold fl'. destruct (Z.eqb_spec addr (flen file)); lia. }
  split.
  - eexists. eapply read_page_success; [done|done| |done|done].
    apply page_at_put_eq; [lia|done].
  - intros addr' pg file1 Hne Hr.
    destruct (read_page_inv _ _ _ _ _ _ Hb Hr eq_refl) as (f' & Hf' & Hm' & Hl' & Hpg).
    simplify_eq. eexists. eapply read_page_success; [done|done| |done|simpl; lia].
    apply page_at_put_ne; try done; lia.
Qed.

Lemma write_page_read_page_witness :
  ∃ file', write_page (replicate 128 x2a) 128
    (mkFileInfo (Some (mkFILE (replicate 128 x01) 0)) 128) = Ok (FILE_IO_SUCCESS, file') ∧
  (∃ file'', read_page 128 (EMPTY_PAGE, file') =
     Ok (FILE_IO_SUCCESS, (replicate 128 x2a, file''))) ∧
  (∀ addr' pg file1, addr' ≠ 128 →
    read_page addr' (EMPTY_PAGE, mkFileInfo (Some (mkFILE (replicate 128 x01) 0)) 128)
      = Ok (FILE_IO_SUCCESS, (pg, file1)) →
    ∃ file2, read_page addr' (EMPTY_PAGE, file') = Ok (FILE_IO_SUCCESS, (pg, file2))).
Proof.
  eexists. split; [vm_compute; reflexivity|].
  eapply (write_page_read_page (replicate 128 x2a) EMPTY_PAGE 128
           (mkFileInfo (Some (mkFILE (replicate 128 x01) 0)) 128));
    [reflexivity | reflexivity | vm_compute; reflexivity].
Defined.

(** C30: the result code of [read_page] on an open file, on every branch, and
    what is left in the page: success exactly when the address is a multiple
    of the page size below the recorded length and the file physically holds
    the page. *)
Theorem read_page_codes buf addr file f :
  length buf = 128%nat → fp file = Some f →
  ∃ r buf' file', read_page addr (buf, file) = Ok (r, (buf', file')) ∧
    flen file' = flen file ∧ length buf' = 128%nat ∧
    r = (if negb (addr mod 128 =? 0) then INVALID_ADDR
         else if (addr <? 0) || (flen file <=? addr) then ADDR_OUT_OF_RANGE
         else if Z.of_nat (length (f_content f)) <? addr + 128 then FILE_IO_FAILED
         else FILE_IO_SUCCESS) ∧
    (r = FILE_IO_SUCCESS → page_at f addr = Some buf') ∧
    (r ≠ FILE_IO_SUCCESS → r ≠ FILE_IO_FAILED → buf' = buf ∧ file' = file).
Proof.
  intros Hb Hf. unfold read_page. rewrite mask_mod.
  destruct (addr mod 128 =? 0) eqn:Hm; simpl; [|naive_solver].
  destruct (addr <? 0) eqn:Ha; simpl; [naive_solver|].
  destruct (flen file <=? addr) eqn:Hl; simpl; [naive_solver|].
  rewrite Hf. unfold fseek_set. rewrite Ha. simpl. apply Z.ltb_ge in Ha.
  change (Z.to_nat PAGE_SIZE) with 128%nat.
  set (got := slice (Z.to_nat addr) 128 (f_content f)).
  assert (length got = 128 `min` (length (f_content f) - Z.to_nat addr))%nat as Hgl.
  { unfold got, slice. by rewrite length_take, length_drop. }
  destruct (Z.ltb_spec (Z.of_nat (length (f_content f))) (addr + 128)).
  - rewrite bool_decide_false by lia. simpl. do 3 eexists. split; [done|].
    rewrite length_app, length_drop. split_and!; [done|lia|done|done|done].
  - rewrite bool_decide_true by lia. simpl. do 3 eexists. split; [done|].
    rewrite length_app, length_drop. split_and!; [done|lia|done| |done].
    intros _. unfold page_at. rewrite decide_True by lia. f_equal.
    rewrite drop_ge by lia. by rewrite app_nil_r.
Qed.

Lemma read_page_codes_witness :
  ∃ r buf' file', read_page 256 (EMPTY_PAGE,
      mkFileInfo (Some (mkFILE (replicate 200 x01) 0)) 384) = Ok (r, (buf', file')) ∧
    r = FILE_IO_FAILED.
Proof.
  destruct (read_page_codes EMPTY_PAGE 256
    (mkFileInfo (Some (mkFILE (replicate 200 x01) 0)) 384) (mkFILE (replicate 200 x01) 0)
    eq_refl eq_refl) as (r & b & f & Hr & _ & _ & Hc & _).
  exists r, b, f. split; [exact Hr|]. rewrite Hc. reflexivity.
Defined.
