(* ===== verification/BufferPool.v ===== *)
(** The buffer pool ([include/buffer_pool.h], [src/buffer_pool.c]): eight
    page slots caching a file, with the hit counters that choose a victim and
    the reference counts that pin a page. *)
From stdpp Require Import base gmap list.
From Stdlib Require Import ZArith Lia Strings.Byte.
From S2P Require Import Prelude FileIO.
#[local] Open Scope Z_scope.

Definition CACHE_PAGE : nat := 8.
(** [(size_t)-1], the counter of a slot that holds no page *)
Definition SIZE_MAX : Z := 2 ^ 64 - 1.
(** the largest [off_t] *)
Definition OFF_MAX : Z := 2 ^ 63 - 1.

Record BufferPool := mkPool {
  file : FileInfo;
  pages : list Page;
  addrs : list Z;
  cnt : list Z;
  ref : list Z;
}.

(** A [Page *] returned by the pool is the index of the slot it points into. *)
Abbreviation Ptr := nat.

(** ** Updates of the control block *)

Definition set_file (x : FileInfo) (p : BufferPool) : BufferPool :=
  mkPool x (pages p) (addrs p) (cnt p) (ref p).
Definition set_page (k : nat) (x : Page) (p : BufferPool) : BufferPool :=
  mkPool (file p) (<[k:=x]> (pages p)) (addrs p) (cnt p) (ref p).
Definition set_addr (k : nat) (x : Z) (p : BufferPool) : BufferPool :=
  mkPool (file p) (pages p) (<[k:=x]> (addrs p)) (cnt p) (ref p).
Definition set_cnt (k : nat) (x : Z) (p : BufferPool) : BufferPool :=
  mkPool (file p) (pages p) (addrs p) (<[k:=x]> (cnt p)) (ref p).
Definition set_ref (k : nat) (x : Z) (p : BufferPool) : BufferPool :=
  mkPool (file p) (pages p) (addrs p) (cnt p) (<[k:=x]> (ref p)).

(** an indeterminate local [FileInfo] *)
Definition uninit_FileInfo : FileInfo := mkFileInfo None 0.

(** ** Operations *)

(** [init_buffer_pool]: the pages keep whatever the memory held *)
Definition init_buffer_pool (path : PathState) : M BufferPool unit := λ pool,
  match open_file path uninit_FileInfo with
  | Ok (_, f) => Ok (tt, mkPool f (pages pool) (replicate CACHE_PAGE (-1))
                           (replicate CACHE_PAGE SIZE_MAX) (replicate CACHE_PAGE 0))
  | Undef => Undef
  | NoFuel => NoFuel
  end.

(** [write_page(&pool->pages[k], &pool->file, pool->addrs[k])] *)
Definition write_slot (k : nat) : M BufferPool FileIOResult := λ pool,
  match pages pool !! k, addrs pool !! k with
  | Some pg, Some a => zoom file set_file (write_page pg a) pool
  | _, _ => Undef
  end.

(** [read_page(&pool->pages[k], &pool->file, addr)] *)
Definition read_slot (k : nat) (addr : Z) : M BufferPool FileIOResult := λ pool,
  match pages pool !! k with
  | Some pg =>
      zoom (λ p, (pg, file p)) (λ '(pg', f) p, set_file f (set_page k pg' p))
           (read_page addr) pool
  | None => Undef
  end.

(** the body of the loop of [close_buffer_pool] *)
Definition close_slot (i : Z) : M BufferPool unit :=
  let k := Z.to_nat i in
  _ ← write_slot k;
  modify (λ p, set_ref k 0 (set_cnt k 0 (set_addr k 0 p))).

(** [close_buffer_pool] closes a copy of the [FileInfo] taken on entry; the
    pool keeps the stream, whose bytes are those left on the disk. *)
Definition close_buffer_pool : M BufferPool unit :=
  file0 ← gets file;
  for_lt 0 (Z.of_nat CACHE_PAGE) close_slot;;
  match close_file file0 with
  | Ok _ => mret tt
  | Undef => undef
  | NoFuel => no_fuel
  end.

(** the first slot whose address is [addr] *)
Definition find_addr (addr : Z) (pool : BufferPool) : option nat :=
  fst <$> list_find (λ a, a = addr) (addrs pool).

(** the first loop of the search for a victim: the array [changeable_page], of
    zeros at first, gets the slots nobody holds, and [sum] counts them *)
Definition note_slot (pool : BufferPool) (acc : list nat * nat) (i : nat) : list nat * nat :=
  let '(changeable, sum) := acc in
  if ref pool !!! i =? 0 then (<[sum:=i]> changeable, S sum) else (changeable, sum).
Definition changeable_page (pool : BufferPool) : list nat * nat :=
  foldl (note_slot pool) (replicate CACHE_PAGE O, O) (seq 0 CACHE_PAGE).

(** the second loop, [for (i = 1; i != sum; i++)], keeps the slot with the least
    counter; [rest] is the array from index [i] on, and reading beyond its end
    is undefined *)
Fixpoint pick_loop (pool : BufferPool) (sum i : nat) (target : nat) (rest : list nat) : option nat :=
  if (i =? sum)%nat then Some target
  else
    match rest with
    | [] => None
    | k :: rest' =>
        let target' := if cnt pool !!! target >? cnt pool !!! k then k else target in
        pick_loop pool sum (S i) target' rest'
    end.

(** the test [target == -1] that follows is never true: every element of the
    array is the index of a slot *)
Definition pick_target (pool : BufferPool) : option nat :=
  let '(changeable, sum) := changeable_page pool in
  target ← changeable !! O;
  pick_loop pool sum 1 target (drop 1 changeable).

(** slot [target] now holds [addr], pinned once; every other counter restarts *)
Definition install (target : nat) (addr : Z) : M BufferPool unit :=
  modify (λ p, mkPool (file p) (pages p) (<[target:=addr]> (addrs p))
    (<[target:=1]> ((λ c, if c =? SIZE_MAX then c else 0) <$> cnt p))
    (<[target:=1]> (ref p))).

Definition get_page (addr : Z) : M BufferPool Ptr :=
  hit ← gets (find_addr addr);
  match hit with
  | Some k =>
      modify (λ p, set_ref k (uwrap 64 (ref p !!! k + 1))
                     (set_cnt k (uwrap 64 (cnt p !!! k + 1)) p));;
      mret k
  | None =>
      choice ← gets pick_target;
      target ← of_opt choice;
      c ← gets (λ p, cnt p !!! target);
      (if c =? SIZE_MAX then mret tt else _ ← write_slot target; mret tt);;
      result ← read_slot target addr;
      if bool_decide (result = ADDR_OUT_OF_RANGE) && (0 <=? addr) then
        need (addr + PAGE_SIZE <=? OFF_MAX);;
        modify (λ p, set_page target EMPTY_PAGE
                       (set_file (mkFileInfo (fp (file p)) (addr + PAGE_SIZE)) p));;
        install target addr;;
        mret target
      else if bool_decide (result = FILE_IO_SUCCESS) then
        install target addr;;
        mret target
      else undef                        (* falls off the end of the function *)
  end.

Definition release (addr : Z) : M BufferPool unit :=
  hit ← gets (find_addr addr);
  match hit with
  | Some k => modify (λ p, set_ref k (uwrap 64 (ref p !!! k - 1)) p)
  | None => mret tt
  end.

(** Access through a pointer into slot [k]. *)
Definition at_page {A} (k : Ptr) (m : M Page A) : M BufferPool A := λ pool,
  match pages pool !! k with
  | Some pg => zoom (λ _, pg) (set_page k) m pool
  | None => Undef
  end.

(** [pool->file.length] *)
Definition file_length : M BufferPool Z := gets (λ p, flen (file p)).
Definition set_file_length (l : Z) : M BufferPool unit :=
  modify (λ p, set_file (mkFileInfo (fp (file p)) l) p).
