(* ===== verification/PoolLogic.v ===== *)
(** What the buffer pool promises to its clients: at the abstract level it is
    a store of pages indexed by address, with pinned pages at stable
    pointers.  Caching, eviction and write-back disappear: the ghost state
    [pstate] has the contents of every page of the file, cached or not. *)
From stdpp Require Import base gmap list fin_maps.
From Stdlib Require Import ZArith Lia Strings.Byte.
From S2P Require Import Prelude FileIO BufferPool.
#[local] Open Scope Z_scope.

(** [mem]: the contents of each page below [plen]; [pins]: the slot and the
    reference count of each pinned address; [hits]: how many further calls
    of [get_page] are certain not to overflow a hit counter (a [size_t]). *)
Record pstate := PState {
  mem : gmap Z Page;
  plen : Z;
  pins : gmap Z (nat * Z);
  hits : Z;
}.

Definition upd (a : Z) (pg : Page) (g : pstate) : pstate :=
  PState (<[a:=pg]> (mem g)) (plen g) (pins g) (hits g).
Definition spend (g : pstate) : pstate :=
  PState (mem g) (plen g) (pins g) (hits g - 1).
Definition pin_count (g : pstate) (a : Z) : Z :=
  match pins g !! a with Some (_, c) => c | None => 0 end.
Definition pin (a : Z) (k : nat) (g : pstate) : pstate :=
  PState (mem g) (plen g) (<[a:=(k, pin_count g a + 1)]> (pins g)) (hits g).
Definition unpin (a : Z) (g : pstate) : pstate :=
  PState (mem g) (plen g)
    (match pins g !! a with
     | Some (k, c) => if c =? 1 then delete a (pins g) else <[a:=(k, c - 1)]> (pins g)
     | None => pins g
     end) (hits g).
(** the file grows by one zero page *)
Definition extend (g : pstate) : pstate :=
  PState (<[plen g := EMPTY_PAGE]> (mem g)) (plen g + PAGE_SIZE) (pins g) (hits g).

(** no file grows beyond this length *)
Definition MAX_LEN : Z := 2 ^ 62.

(** What slot [k] of address [a] holds. *)
Definition slot_ok (p : BufferPool) (g : pstate) (k : nat) (a : Z) : Prop :=
  (a = -1 ∧ cnt p !! k = Some SIZE_MAX ∧ ref p !! k = Some 0) ∨
  (∃ pg c, mem g !! a = Some pg ∧ pages p !! k = Some pg ∧
           cnt p !! k = Some c ∧ 0 <= c ∧ c + hits g < SIZE_MAX).

Record pool_rep (p : BufferPool) (g : pstate) : Prop := {
  r_plen : flen (file p) = plen g ∧ plen g mod 128 = 0 ∧ 0 <= plen g <= MAX_LEN;
  r_dom : ∀ a, is_Some (mem g !! a) ↔ 0 <= a < plen g ∧ a mod 128 = 0;
  r_pages : ∀ a pg, mem g !! a = Some pg → length pg = 128%nat;
  r_shape : length (pages p) = 8%nat ∧ length (addrs p) = 8%nat ∧
            length (cnt p) = 8%nat ∧ length (ref p) = 8%nat;
  r_buf : ∀ k pg, pages p !! k = Some pg → length pg = 128%nat;
  r_slot : ∀ k a, addrs p !! k = Some a → slot_ok p g k a;
  r_uniq : ∀ k k' a, addrs p !! k = Some a → addrs p !! k' = Some a → a ≠ -1 → k = k';
  r_ref : ∀ k a c, addrs p !! k = Some a → ref p !! k = Some c →
            0 <= c < 2 ^ 64 ∧ (c ≠ 0 → pins g !! a = Some (k, c));
  r_pin : ∀ a k c, pins g !! a = Some (k, c) →
            addrs p !! k = Some a ∧ ref p !! k = Some c ∧ c ≠ 0 ∧ a ≠ -1;
  r_disk : ∃ f, fp (file p) = Some f ∧
            Z.of_nat (length (f_content f)) <= plen g ∧
            ∀ a pg, mem g !! a = Some pg → a ∉ addrs p → page_at f a = Some pg;
  r_hits : 0 <= hits g < SIZE_MAX;
}.

#[export] Instance pool_Rep : Rep BufferPool pstate := pool_rep.

(** ** The victim *)

(** the slots nobody holds *)
Definition unheld (p : BufferPool) : list nat := filter (λ i, ref p !!! i = 0) (seq 0 CACHE_PAGE).

Lemma elem_of_unheld p k : k ∈ unheld p ↔ (k < 8)%nat ∧ ref p !!! k = 0.
Proof. unfold unheld, CACHE_PAGE. rewrite list_elem_of_filter, elem_of_seq. intuition lia. Qed.

(** the first loop writes them to the start of the array *)
Lemma note_slots p l : ∀ done n, (length l <= n)%nat →
  ∃ m, foldl (note_slot p) (done ++ replicate n O, length done) l =
    (done ++ filter (λ i, ref p !!! i = 0) l ++ replicate m O,
     length (done ++ filter (λ i, ref p !!! i = 0) l)).
Proof.
  induction l as [|i l IH]; intros done n Hn; cbn [foldl length] in *.
  - exists n. by rewrite app_nil_r.
  - rewrite filter_cons. unfold note_slot at 2. destruct (Z.eqb_spec (ref p !!! i) 0) as [E|E].
    + rewrite decide_True by done. destruct n as [|n]; [lia|]. cbn [replicate].
      replace (<[length done:=i]> (done ++ O :: replicate n O)) with ((done ++ [i]) ++ replicate n O).
      2: { rewrite insert_app_r_alt, Nat.sub_diag by lia. by rewrite <- app_assoc. }
      replace (S (length done)) with (length (done ++ [i])) by (rewrite length_app; simpl; lia).
      destruct (IH (done ++ [i]) n ltac:(lia)) as (m & ->). exists m. by rewrite <- !app_assoc.
    + rewrite decide_False by done. destruct (IH done n ltac:(lia)) as (m & ->). by exists m.
Qed.

Lemma changeable_unheld p : ∃ m, changeable_page p = (unheld p ++ replicate m O, length (unheld p)).
Proof. exact (note_slots p (seq 0 CACHE_PAGE) [] CACHE_PAGE ltac:(by rewrite length_seq)). Qed.

(** the second loop stops after them *)
Lemma pick_loop_stops p l : ∀ i t rest,
  pick_loop p (i + length l) i t (l ++ rest) =
    Some (foldl (λ t k, if cnt p !!! t >? cnt p !!! k then k else t) t l).
Proof.
  induction l as [|k l IH]; intros i t rest; cbn [app foldl length].
  - rewrite Nat.add_0_r. destruct rest; cbn [pick_loop]; by rewrite Nat.eqb_refl.
  - cbn [pick_loop]. rewrite (proj2 (Nat.eqb_neq _ _)) by lia.
    replace (i + S (length l))%nat with (S i + length l)%nat by lia. apply IH.
Qed.

(** ... but when there is none it does not stop within the array *)
Lemma pick_loop_runs_off p sum rest : ∀ i t, (sum < i)%nat → pick_loop p sum i t rest = None.
Proof.
  induction rest as [|k rest IH]; intros i t Hi; cbn [pick_loop]; rewrite (proj2 (Nat.eqb_neq _ _)) by lia; [done|].
  apply IH. lia.
Qed.

Lemma pick_target_unheld p : pick_target p =
  match unheld p with
  | [] => None
  | t :: l => Some (foldl (λ t k, if cnt p !!! t >? cnt p !!! k then k else t) t l)
  end.
Proof.
  unfold pick_target. destruct (changeable_unheld p) as (m & ->). destruct (unheld p) as [|t l]; cbn [app length].
  - destruct m as [|m]; [done|]. cbn. destruct (replicate m O); [done|]. by apply pick_loop_runs_off; lia.
  - cbn. rewrite drop_0. apply (pick_loop_stops p l 1).
Qed.

(** the loop that keeps the least counter returns one of the slots, and none
    has less *)
Lemma fold_least (f : nat → Z) l : ∀ t,
  let r := foldl (λ target i, if f target >? f i then i else target) t l in
  r ∈ t :: l ∧ ∀ k, k ∈ t :: l → f r <= f k.
Proof.
  induction l as [|i l IH]; intros t; cbn [foldl].
  - split; [by left|]. intros k [->|[]%not_elem_of_nil]%elem_of_cons. done.
  - destruct (IH (if f t >? f i then i else t)) as [H1 H2]. cbv zeta in *. split.
    + destruct (f t >? f i); set_solver.
    + intros k Hk. destruct (Z.gtb_spec (f t) (f i)) as [Hlt|Hge].
      * pose proof (H2 i (list_elem_of_here _ _)).
        apply elem_of_cons in Hk as [->|Hk]; [lia|by apply H2].
      * pose proof (H2 t (list_elem_of_here _ _)).
        apply elem_of_cons in Hk as [->|[->|Hk]%elem_of_cons]; [done|lia|]. apply H2. by right.
Qed.

(** ** Facts of represented states *)

Section facts.
Context (p : BufferPool) (g : pstate) (Hr : pool_rep p g).

Lemma find_addr_Some a k :
  find_addr a p = Some k → addrs p !! k = Some a.
Proof using.
  clear Hr. unfold find_addr. intros H.
  destruct (list_find _ _) as [[k' a']|] eqn:E; [|done]. simplify_eq/=.
  apply list_find_Some in E. naive_solver.
Qed.

Lemma find_addr_None a : find_addr a p = None → a ∉ addrs p.
Proof using.
  clear Hr. unfold find_addr. intros H Ha.
  destruct (list_find _ _) as [[k' a']|] eqn:E; [done|].
  apply list_find_None in E. rewrite Forall_forall in E. naive_solver.
Qed.

Lemma find_addr_lookup a k :
  addrs p !! k = Some a → a ≠ -1 → find_addr a p = Some k.
Proof.
  intros Hk Ha. destruct (find_addr a p) as [k'|] eqn:E.
  - apply find_addr_Some in E. f_equal. by eapply (r_uniq _ _ Hr).
  - apply find_addr_None in E. destruct E. by eapply list_elem_of_lookup_2.
Qed.

Lemma mem_ne_neg a pg : mem g !! a = Some pg → 0 <= a < plen g ∧ a mod 128 = 0.
Proof. intros H. apply (r_dom _ _ Hr). eauto. Qed.

Lemma lookup_slot k : (k < 8)%nat →
  ∃ a c r pg, addrs p !! k = Some a ∧ cnt p !! k = Some c ∧ ref p !! k = Some r ∧
              pages p !! k = Some pg ∧ length pg = 128%nat.
Proof.
  intros Hk. destruct (r_shape _ _ Hr) as (H1 & H2 & H3 & H4).
  destruct (lookup_lt_is_Some_2 (addrs p) k ltac:(lia)) as [a Ha].
  destruct (lookup_lt_is_Some_2 (cnt p) k ltac:(lia)) as [c Hc].
  destruct (lookup_lt_is_Some_2 (ref p) k ltac:(lia)) as [r Hrf].
  destruct (lookup_lt_is_Some_2 (pages p) k ltac:(lia)) as [pg Hpg].
  pose proof (r_buf _ _ Hr _ _ Hpg). naive_solver.
Qed.

Lemma addrs_lt k a : addrs p !! k = Some a → (k < 8)%nat.
Proof.
  intros H. apply lookup_lt_Some in H. destruct (r_shape _ _ Hr) as (_ & ? & _). lia.
Qed.

(** an address in the pool, other than the marker of an empty slot, is a page *)
Lemma slot_full k a pg : addrs p !! k = Some a → mem g !! a = Some pg →
  pages p !! k = Some pg ∧ ∃ c, cnt p !! k = Some c ∧ 0 <= c ∧ c + hits g < SIZE_MAX.
Proof.
  intros Ha Hm. destruct (r_slot _ _ Hr _ _ Ha) as [(-> & _)|(pg' & c & Hm' & Hp & Hc)].
  - apply mem_ne_neg in Hm. lia.
  - simplify_eq. naive_solver.
Qed.

(** with fewer than eight pinned pages some slot may be replaced *)
Lemma unheld_nonempty :
  (size (pins g) < 8)%nat → unheld p ≠ [].
Proof.
  intros Hs Hc.
  assert (∀ k, (k < 8)%nat → ∃ a, addrs p !! k = Some a ∧ is_Some (pins g !! a) ∧ a ≠ -1)
    as Hall.
  { intros k Hk. destruct (lookup_slot k Hk) as (a & c & r & pg & Ha & _ & Hrk & _).
    exists a. assert (r ≠ 0) as Hne.
    { intros ->. assert (k ∈ unheld p) as Hin.
      { apply elem_of_unheld. split; [done|]. by rewrite (list_lookup_total_correct _ _ _ Hrk). }
      rewrite Hc in Hin. by apply not_elem_of_nil in Hin. }
    destruct (r_ref _ _ Hr _ _ _ Ha Hrk) as [_ Hp]. specialize (Hp Hne).
    pose proof (r_pin _ _ Hr _ _ _ Hp) as (_ & _ & _ & ?). naive_solver. }
  assert (NoDup (addrs p)) as Hnd.
  { apply NoDup_alt. intros i j a Hi Hj. eapply (r_uniq _ _ Hr); [done..|].
    destruct (Hall i) as (a' & ? & _ & ?); [by eapply addrs_lt|]. by simplify_eq. }
  assert (list_to_set (addrs p) ⊆ dom (pins g)) as Hsub.
  { intros a. rewrite elem_of_list_to_set, list_elem_of_lookup. intros [k Ha].
    destruct (Hall k) as (a' & Ha' & Hp & _); [by eapply addrs_lt|]. simplify_eq.
    by apply elem_of_dom. }
  apply subseteq_size in Hsub. rewrite size_list_to_set in Hsub by done.
  rewrite size_dom in Hsub. destruct (r_shape _ _ Hr) as (_ & ? & _). lia.
Qed.

Lemma pick_target_spec :
  (size (pins g) < 8)%nat →
  ∃ t, pick_target p = Some t ∧ (t < 8)%nat ∧ ref p !! t = Some 0.
Proof.
  intros Hs. pose proof (unheld_nonempty Hs) as Hne.
  rewrite pick_target_unheld. destruct (unheld p) as [|t rest] eqn:E; [done|].
  eexists. split; [done|]. destruct (fold_least (λ k, cnt p !!! k) rest t) as [Hin _]. cbv beta zeta in Hin.
  rewrite <- E in Hin. apply elem_of_unheld in Hin as [Hlt Hz]. split; [done|].
  set (t' := foldl _ _ _) in *. destruct (lookup_slot t' Hlt) as (a & c & r & pg & _ & _ & Hrk & _).
  rewrite (list_lookup_total_correct _ _ _ Hrk) in Hz. by subst.
Qed.
End facts.

(** ** The operations preserve the representation *)

Definition reset (c : Z) : Z := if c =? SIZE_MAX then c else 0.

(** *** A page comes into a slot *)

Section install.
Context (p : BufferPool) (g g' : pstate) (fl : FileInfo) (t : nat) (a0 addr : Z) (pg : Page) (f : FILE).
Context (Hr : pool_rep p g) (Ht : (t < 8)%nat) (Ha0 : addrs p !! t = Some a0) (Href0 : ref p !! t = Some 0).
Context (Hnin : addr ∉ addrs p) (Haddr : mem g' !! addr = Some pg).
Context (Hmem : ∀ a, a ≠ addr → mem g' !! a = mem g !! a) (Hpins : pins g' = <[addr:=(t, 1)]> (pins g)).
Context (Hhits : hits g' = hits g - 1) (Hpos : 0 < hits g) (Hhm : hits g < SIZE_MAX).

Lemma install_others k a : k ≠ t → addrs p !! k = Some a → a ≠ addr.
Proof using All. intros _ Hk ->. destruct Hnin. by eapply list_elem_of_lookup_2. Qed.

Lemma install_slots k a : <[t:=addr]> (addrs p) !! k = Some a → slot_ok (mkPool fl (<[t:=pg]> (pages p)) (<[t:=addr]> (addrs p)) (<[t:=1]> (reset <$> cnt p)) (<[t:=1]> (ref p))) g' k a.
Proof using All.
  intros Hk. destruct (r_shape _ _ Hr) as (S1 & S2 & S3 & S4). unfold slot_ok. simpl.
  destruct (decide (k = t)) as [->|Hne].
  - rewrite list_lookup_insert_eq in Hk by lia. simplify_eq. right. exists pg, 1.
    rewrite !list_lookup_insert_eq by (rewrite ?length_fmap; lia). split_and!; [done..|lia|lia].
  - rewrite list_lookup_insert_ne in Hk by done. rewrite !list_lookup_insert_ne by done. rewrite list_lookup_fmap.
    destruct (r_slot _ _ Hr _ _ Hk) as [(-> & Hc & Hrf)|(q & c & Hq & Hp & Hc & ?)].
    + left. rewrite Hc. repeat split; done.
    + right. exists q, 0. rewrite Hc, Hmem, Hq by (by eapply install_others).
      split_and!; [done|done| |lia|lia]. simpl. unfold reset. rewrite (proj2 (Z.eqb_neq c SIZE_MAX)); [done|lia].
Qed.

Lemma install_uniq k k' a : <[t:=addr]> (addrs p) !! k = Some a → <[t:=addr]> (addrs p) !! k' = Some a → a ≠ -1 → k = k'.
Proof using All.
  intros Hk Hk' Ha. destruct (r_shape _ _ Hr) as (S1 & S2 & S3 & S4). 
  apply list_lookup_insert_Some in Hk as [(<- & <- & _)|[Hn Hk]];
    apply list_lookup_insert_Some in Hk' as [(<- & E & _)|[Hn' Hk']]; [done|..].
  - by destruct (install_others k' addr (not_eq_sym Hn')).
  - subst a. by destruct (install_others k addr (not_eq_sym Hn)).
  - by eapply (r_uniq _ _ Hr).
Qed.

Lemma install_refs k a c : <[t:=addr]> (addrs p) !! k = Some a → <[t:=1]> (ref p) !! k = Some c →
  0 <= c < 2 ^ 64 ∧ (c ≠ 0 → pins g' !! a = Some (k, c)).
Proof using All.
  intros Hk Hc. destruct (r_shape _ _ Hr) as (S1 & S2 & S3 & S4). rewrite Hpins.
  destruct (decide (k = t)) as [->|Hne].
  - rewrite list_lookup_insert_eq in Hk by lia. rewrite list_lookup_insert_eq in Hc by lia. simplify_eq.
    split; [done|]. intros _. by rewrite lookup_insert_eq.
  - rewrite list_lookup_insert_ne in Hk by done. rewrite list_lookup_insert_ne in Hc by done.
    destruct (r_ref _ _ Hr _ _ _ Hk Hc) as [? Hp]. split; [done|]. intros Hn.
    rewrite lookup_insert_ne; [by apply Hp|]. intros E. by eapply install_others.
Qed.

Lemma install_pins a k c : 0 <= addr → pins g' !! a = Some (k, c) →
  <[t:=addr]> (addrs p) !! k = Some a ∧ <[t:=1]> (ref p) !! k = Some c ∧ c ≠ 0 ∧ a ≠ -1.
Proof using All.
  intros Hge. destruct (r_shape _ _ Hr) as (S1 & S2 & S3 & S4). rewrite Hpins. destruct (decide (a = addr)) as [->|].
  - rewrite lookup_insert_eq. intros [= <- <-]. rewrite !list_lookup_insert_eq by lia. split_and!; [done|done|done|lia].
  - rewrite lookup_insert_ne by done. intros Hp. destruct (r_pin _ _ Hr _ _ _ Hp) as (Hk & Hc & ? & ?).
    assert (k ≠ t) by (intros ->; simplify_eq). by rewrite !list_lookup_insert_ne by done.
Qed.

Lemma install_disk : fp fl = Some f → Z.of_nat (length (f_content f)) <= plen g' →
  (∀ a q, mem g !! a = Some q → a ≠ addr → a ∉ addrs p ∨ a = a0 → page_at f a = Some q) →
  ∃ f, fp fl = Some f ∧ Z.of_nat (length (f_content f)) <= plen g' ∧
    ∀ a q, mem g' !! a = Some q → a ∉ <[t:=addr]> (addrs p) → page_at f a = Some q.
Proof using All.
  intros Hfp Hcl Hdisk. destruct (r_shape _ _ Hr) as (S1 & S2 & S3 & S4).
  exists f. split; [done|]. split; [done|]. intros a q Hq Ha.
  assert (a ≠ addr) as Hne.
  { intros ->. apply Ha. eapply list_elem_of_lookup_2. apply list_lookup_insert_eq. lia. }
  rewrite Hmem in Hq by done. apply Hdisk; [done..|].
  destruct (decide (a = a0)) as [|Hn0]; [by right|left]. intros Hin. apply Ha.
  apply list_elem_of_lookup in Hin as [k Hk]. eapply list_elem_of_lookup_2 with k.
  rewrite list_lookup_insert_ne; [done|]. intros ->. simplify_eq.
Qed.
End install.

(** Slot [t] gave up [a0] and now holds [addr]. *)
Lemma install_rep p g g' fl t a0 addr pg f :
  pool_rep p g → (t < 8)%nat → addrs p !! t = Some a0 → ref p !! t = Some 0 →
  addr ∉ addrs p → mem g' !! addr = Some pg → length pg = 128%nat →
  (∀ a, a ≠ addr → mem g' !! a = mem g !! a) →
  pins g' = <[addr:=(t, 1)]> (pins g) → hits g' = hits g - 1 → 0 < hits g →
  (∀ a, is_Some (mem g' !! a) ↔ 0 <= a < plen g' ∧ a mod 128 = 0) →
  flen fl = plen g' ∧ plen g' mod 128 = 0 ∧ 0 <= plen g' <= MAX_LEN →
  fp fl = Some f → Z.of_nat (length (f_content f)) <= plen g' →
  (∀ a q, mem g !! a = Some q → a ≠ addr → a ∉ addrs p ∨ a = a0 → page_at f a = Some q) →
  hits g < SIZE_MAX →
  pool_rep (mkPool fl (<[t:=pg]> (pages p)) (<[t:=addr]> (addrs p))
              (<[t:=1]> (reset <$> cnt p)) (<[t:=1]> (ref p))) g'.
Proof.
  intros Hr Ht Ha0 Href0 Hnin Haddr Hpg Hmem Hpins Hhits Hpos Hdom Hplen Hfp Hcl Hdisk Hhm.
  destruct (r_shape _ _ Hr) as (S1 & S2 & S3 & S4).
  assert (0 <= addr) as Hge by (destruct (proj1 (Hdom addr)) as [? _]; [eauto|lia]).
  constructor; [done|done| | | |intros k a Hk; by eapply install_slots|intros k k' a Hk Hk' Ha; by eapply (install_uniq p g g')
    |intros k a c Hk Hc; by eapply (install_refs p g g')|intros a k c Hc; by eapply (install_pins p g g')
    |by eapply (install_disk p g g' fl t a0 addr pg f)|lia].
  - intros a q Hq. destruct (decide (a = addr)) as [->|]; [by simplify_eq|].
    rewrite Hmem in Hq by done. by eapply (r_pages _ _ Hr).
  - simpl. by rewrite !length_insert, length_fmap.
  - intros k q [(<- & <- & _)|[_ Hq]]%list_lookup_insert_Some; [done|]. by eapply (r_buf _ _ Hr).
Qed.

(** Writing back the page of slot [t]. *)
Lemma write_slot_rep p g t a0 pg0 :
  pool_rep p g → addrs p !! t = Some a0 → mem g !! a0 = Some pg0 →
  ∃ f, write_slot t p = Ok (FILE_IO_SUCCESS, set_file (mkFileInfo (Some f) (plen g)) p) ∧
    Z.of_nat (length (f_content f)) <= plen g ∧
    ∀ a q, mem g !! a = Some q → a ∉ addrs p ∨ a = a0 → page_at f a = Some q.
Proof.
  intros Hr Ha Hm. destruct (slot_full _ _ Hr _ _ _ Ha Hm) as [Hp _].
  destruct (r_disk _ _ Hr) as (f & Hf & Hcl & Hd). destruct (r_plen _ _ Hr) as (Hl & Hpm & _).
  destruct (mem_ne_neg _ _ Hr _ _ Hm) as [Hb Hmod].
  pose proof (r_pages _ _ Hr _ _ Hm) as Hlen.
  unfold write_slot. rewrite Hp, Ha. unfold zoom.
  rewrite (write_page_success _ _ _ f) by (done || lia). rewrite Hl.
  rewrite (proj2 (Z.eqb_neq a0 (plen g))) by lia. eexists. split; [done|]. split.
  { simpl. rewrite put_bytes_length, Hlen.
    pose proof (Z.div_mod (plen g) 128 ltac:(lia)).
    pose proof (Z.div_mod a0 128 ltac:(lia)). lia. }
  intros a q Hq Hor. destruct (decide (a = a0)) as [->|].
  - simplify_eq. apply page_at_put_eq; [lia|done].
  - destruct Hor as [Hn|]; [|done]. destruct (mem_ne_neg _ _ Hr _ _ Hq).
    apply page_at_put_ne; [lia|done|done|done|done|]. by apply Hd.
Qed.

(** The write-back step of [get_page]. *)
Lemma evict_rep p g t a0 :
  pool_rep p g → hits g < SIZE_MAX → addrs p !! t = Some a0 →
  ∃ f fl, ((if cnt p !!! t =? SIZE_MAX then mret tt else _ ← write_slot t; mret tt)
           : M BufferPool unit) p = Ok (tt, set_file fl p) ∧
    fp fl = Some f ∧ flen fl = plen g ∧ Z.of_nat (length (f_content f)) <= plen g ∧
    ∀ a q, mem g !! a = Some q → a ∉ addrs p ∨ a = a0 → page_at f a = Some q.
Proof.
  intros Hr Hh Ha. destruct (r_slot _ _ Hr _ _ Ha) as [(-> & Hc & _)|(q & c & Hq & _ & Hc & ? & ?)].
  - rewrite (list_lookup_total_correct _ _ _ Hc), Z.eqb_refl.
    destruct (r_disk _ _ Hr) as (f & Hf & Hcl & Hd). exists f, (file p). split_and!.
    + by destruct p.
    + done.
    + apply (r_plen _ _ Hr).
    + done.
    + intros a q Hq [?| ->]; [by apply Hd|]. apply (mem_ne_neg _ _ Hr) in Hq. lia.
  - rewrite (list_lookup_total_correct _ _ _ Hc), (proj2 (Z.eqb_neq c SIZE_MAX)).
    2: { pose proof (r_hits _ _ Hr). lia. }
    destruct (write_slot_rep _ _ _ _ _ Hr Ha Hq) as (f & Hw & Hcl & Hd).
    exists f, (mkFileInfo (Some f) (plen g)). unfold mbind, M_bind. rewrite Hw. done.
Qed.

(** a page in a slot is pinned once more *)
Lemma pin_rep p g a pg k c r : pool_rep p g → 0 < hits g → mem g !! a = Some pg → addrs p !! k = Some a →
  cnt p !! k = Some c → 0 <= c → c + hits g < SIZE_MAX → ref p !! k = Some r → r + 1 < 2 ^ 64 → pin_count g a = r →
  pool_rep (set_ref k (r + 1) (set_cnt k (c + 1) p)) (pin a k (spend g)).
Proof.
  intros Hr Hh Hm Hk Hc Hc0 Hcm Hrf Hrb Hpin. destruct (r_shape _ _ Hr) as (S1 & S2 & S3 & S4).
  pose proof (lookup_lt_Some _ _ _ Hk) as Hk8. destruct (mem_ne_neg _ _ Hr _ _ Hm) as [Hrange Hmod].
  destruct (r_ref _ _ Hr _ _ _ Hk Hrf) as [Hr0 _].
  unfold pin, pin_count in *. cbn [pins mem plen hits spend]. rewrite Hpin.
  constructor; unfold set_ref, set_cnt, spend; simpl;
    [apply (r_plen _ _ Hr)|apply (r_dom _ _ Hr)|apply (r_pages _ _ Hr)|by rewrite !length_insert|apply (r_buf _ _ Hr)
    | |apply (r_uniq _ _ Hr)| | |apply (r_disk _ _ Hr)|pose proof (r_hits _ _ Hr); lia].
  - intros k1 a1 Hk1. unfold slot_ok. simpl.
    destruct (r_slot _ _ Hr _ _ Hk1) as [(-> & ? & ?)|(q & c1 & Hq & Hp & Hc1 & ?)].
    + assert (k ≠ k1) by (intros ->; simplify_eq; lia).
      left. by rewrite !list_lookup_insert_ne by done.
    + right. destruct (decide (k = k1)) as [<-|].
      * exists q, (c + 1). rewrite list_lookup_insert_eq by lia.
        simplify_eq. split_and!; [done|done|done|lia|lia].
      * exists q, c1. rewrite list_lookup_insert_ne by done.
        split_and!; [done|done|done|lia|lia].
  - intros k1 a1 c1 Hk1 Hc1. destruct (decide (k = k1)) as [<-|].
    + rewrite list_lookup_insert_eq in Hc1 by lia. simplify_eq. split; [lia|]. intros _.
      by rewrite lookup_insert_eq.
    + rewrite list_lookup_insert_ne in Hc1 by done.
      destruct (r_ref _ _ Hr _ _ _ Hk1 Hc1) as [? Hp]. split; [done|]. intros Hn.
      rewrite lookup_insert_ne; [by apply Hp|]. intros ->.
      assert (k = k1); [|done]. eapply (r_uniq _ _ Hr); [done..|lia].
  - intros a1 k1 c1 E. destruct (decide (a = a1)) as [<-|].
    + rewrite lookup_insert_eq in E. simplify_eq. rewrite list_lookup_insert_eq by lia.
      split_and!; [done|done|lia|lia].
    + rewrite lookup_insert_ne in E by done.
      destruct (r_pin _ _ Hr _ _ _ E) as (? & ? & ? & ?).
      assert (k ≠ k1) by (intros ->; simplify_eq).
      by rewrite list_lookup_insert_ne by done.
Qed.

Lemma get_page_hit p g a pg k :
  pool_rep p g → 0 < hits g → mem g !! a = Some pg → find_addr a p = Some k →
  (∀ k' c, pins g !! a = Some (k', c) → c + 1 < 2 ^ 64) →
  wp (get_page a) (λ k' p', k' = k ∧ pool_rep p' (pin a k (spend g)) ∧
        ∀ k' c, pins g !! a = Some (k', c) → k = k') p.
Proof.
  intros Hr Hh Hm Hfind Hpc. unfold get_page.
  repeat wp_step. rewrite Hfind. repeat wp_step.
  pose proof (find_addr_Some _ _ _ Hfind) as Hk.
  pose proof (addrs_lt _ _ Hr _ _ Hk) as Hk8.
  destruct (slot_full _ _ Hr _ _ _ Hk Hm) as (Hpg & c & Hc & Hc0 & Hcm).
  destruct (lookup_slot _ _ Hr k Hk8) as (a' & c' & r & pg' & ? & ? & Hrf & ? & _).
  simplify_eq. destruct (r_ref _ _ Hr _ _ _ Hk Hrf) as [Hr0 Hrp].
  destruct (r_shape _ _ Hr) as (S1 & S2 & S3 & S4).
  destruct (mem_ne_neg _ _ Hr _ _ Hm) as [Hrange Hmod].
  assert (pin_count g a = r) as Hpin.
  { unfold pin_count. destruct (pins g !! a) as [[k' c']|] eqn:E.
    - destruct (r_pin _ _ Hr _ _ _ E) as (Hk' & Hc' & _).
      assert (k = k') as <- by (eapply (r_uniq _ _ Hr); [done..|lia]). by simplify_eq.
    - destruct (decide (r = 0)) as [|Hn]; [done|]. specialize (Hrp Hn). congruence. }
  assert (r + 1 < 2 ^ 64) as Hrb.
  { destruct (decide (r = 0)) as [->|Hn]; [lia|]. by apply (Hpc k r), Hrp. }
  rewrite (list_lookup_total_correct _ _ _ Hc), (list_lookup_total_correct _ _ _ Hrf).
  rewrite !uwrap_id by (unfold in_u, SIZE_MAX in *; pose proof (r_hits _ _ Hr); lia).
  split; [done|]. split.
  2: { intros k' c' E. destruct (r_pin _ _ Hr _ _ _ E) as (Hk' & _).
       eapply (r_uniq _ _ Hr); [done..|lia]. }
  apply (pin_rep p g a pg); done.
Qed.

(** The read step of [get_page], on a page of the file that is not cached. *)
Lemma read_slot_page p t a f q :
  (t < length (pages p))%nat → (∀ k pg, pages p !! k = Some pg → length pg = 128%nat) →
  fp (file p) = Some f → page_at f a = Some q → a mod 128 = 0 → a < flen (file p) →
  ∃ f', f_content f' = f_content f ∧ read_slot t a p =
    Ok (FILE_IO_SUCCESS, set_file (mkFileInfo (Some f') (flen (file p))) (set_page t q p)).
Proof.
  intros Ht Hb Hf Hq Hm Hl. destruct (lookup_lt_is_Some_2 (pages p) t Ht) as [b Hbt].
  unfold read_slot. rewrite Hbt. unfold zoom.
  rewrite (read_page_success _ _ _ f q); [|by eapply Hb|done..].
  eexists (mkFILE (f_content f) _). done.
Qed.

(** ... and on the address just past the end of the file. *)
Lemma read_slot_past p t a :
  (t < length (pages p))%nat → a mod 128 = 0 → flen (file p) <= a →
  read_slot t a p = Ok (ADDR_OUT_OF_RANGE, p).
Proof.
  intros Ht Hm Hl. destruct (lookup_lt_is_Some_2 (pages p) t Ht) as [b Hbt].
  unfold read_slot, zoom, read_page. rewrite Hbt, mask_mod, Hm. simpl.
  rewrite (proj2 (Z.leb_le _ _) Hl), orb_true_r. unfold set_file, set_page. simpl.
  rewrite list_insert_id by done. by destruct p.
Qed.

Lemma get_page_miss p g a pg :
  pool_rep p g → 0 < hits g → find_addr a p = None → (size (pins g) < 8)%nat →
  mem g !! a = Some pg →
  wp (get_page a) (λ k' p', pool_rep p' (pin a k' (spend g))) p.
Proof.
  intros Hr Hh Hfind Hs Hm. unfold get_page. repeat wp_step. rewrite Hfind.
  destruct (pick_target_spec _ _ Hr Hs) as (t & Hpick & Ht & Hrf0).
  pose proof (find_addr_None _ _ Hfind) as Hnin.
  destruct (lookup_slot _ _ Hr t Ht) as (a0 & c & r & b & Ha0 & _ & _ & Hb & _).
  destruct (r_shape _ _ Hr) as (S1 & _). destruct (r_hits _ _ Hr) as [_ Hhm].
  destruct (mem_ne_neg _ _ Hr _ _ Hm) as [Hrange Hmod].
  repeat wp_step. rewrite Hpick. eapply wp_of_opt; [done|]. repeat wp_step.
  destruct (evict_rep _ _ _ _ Hr Hhm Ha0) as (f & fl & Hev & Hfp & Hfl & Hcl & Hd).
  unfold wp at 1. rewrite Hev. wp_step.
  destruct (read_slot_page (set_file fl p) t a f pg) as (f' & Hcont & Hread);
    simpl; [lia|apply (r_buf _ _ Hr)|done|apply Hd; auto|done|lia|].
  unfold wp at 1. rewrite Hread. simpl. repeat wp_step.
  assert (pin_count (spend g) a = 0) as Hpc.
  { unfold pin_count. destruct (pins _ !! a) as [[k1 c1]|] eqn:E; [|done].
    destruct (r_pin _ _ Hr _ _ _ E) as (Hk & _). destruct Hnin.
    by eapply list_elem_of_lookup_2. }
  unfold pin. rewrite Hpc. simpl.
  eapply (install_rep p g _ _ t a0 a pg f'); simpl; try done.
  - by eapply (r_pages _ _ Hr).
  - apply (r_dom _ _ Hr).
  - rewrite Hfl. split; [done|]. apply (r_plen _ _ Hr).
  - by rewrite Hcont.
  - intros a1 q Hq _ Hor. unfold page_at. rewrite Hcont. by apply Hd.
Qed.

Lemma get_page_past p g :
  pool_rep p g → 0 < hits g → (size (pins g) < 8)%nat → plen g + PAGE_SIZE <= MAX_LEN →
  wp (get_page (plen g)) (λ k' p', pool_rep p' (pin (plen g) k' (spend (extend g)))) p.
Proof.
  intros Hr Hh Hs Hmax. set (a := plen g).
  destruct (r_plen _ _ Hr) as (Hfl0 & Hmod & Hpl). fold a in Hfl0, Hmod, Hpl.
  assert (a ∉ addrs p) as Hnin.
  { intros Hin. apply list_elem_of_lookup in Hin as [k Hk].
    destruct (r_slot _ _ Hr _ _ Hk) as [(? & _)|(q & c & Hq & _)]; [lia|].
    apply (mem_ne_neg _ _ Hr) in Hq. fold a in Hq. lia. }
  assert (find_addr a p = None) as Hfind.
  { destruct (find_addr a p) as [k|] eqn:E; [|done]. apply find_addr_Some in E.
    destruct Hnin. by eapply list_elem_of_lookup_2. }
  unfold get_page. repeat wp_step. rewrite Hfind.
  destruct (pick_target_spec _ _ Hr Hs) as (t & Hpick & Ht & Hrf0).
  destruct (lookup_slot _ _ Hr t Ht) as (a0 & c & r & b & Ha0 & _ & _ & Hb & _).
  destruct (r_shape _ _ Hr) as (S1 & _). destruct (r_hits _ _ Hr) as [_ Hhm].
  repeat wp_step. rewrite Hpick. eapply wp_of_opt; [done|]. repeat wp_step.
  destruct (evict_rep _ _ _ _ Hr Hhm Ha0) as (f & fl & Hev & Hfp & Hfl & Hcl & Hd).
  unfold wp at 1. rewrite Hev. wp_step. unfold wp at 1.
  rewrite (read_slot_past (set_file fl p)); simpl; [|rewrite S1; lia|done|rewrite Hfl; lia].
  rewrite (proj2 (Z.leb_le 0 a)) by lia. cbv iota.
  wp_step. apply wp_need.
  { apply Z.leb_le. unfold MAX_LEN, OFF_MAX in *. lia. }
  repeat wp_step.
  assert (pin_count (spend (extend g)) a = 0) as Hpc.
  { unfold pin_count. destruct (pins _ !! a) as [[k1 c1]|] eqn:E; [|done].
    destruct (r_pin _ _ Hr _ _ _ E) as (Hk & _). destruct Hnin.
    by eapply list_elem_of_lookup_2. }
  unfold pin. rewrite Hpc. simpl.
  eapply (install_rep p g _ _ t a0 a EMPTY_PAGE f); simpl; try done.
  - apply lookup_insert_eq.
  - intros a1 Hne. by apply lookup_insert_ne.
  - intros a1. rewrite lookup_insert_is_Some, (r_dom _ _ Hr). fold a. unfold PAGE_SIZE.
    pose proof (Z.div_mod a1 128 ltac:(lia)). pose proof (Z.div_mod a 128 ltac:(lia)).
    split.
    + intros [<-|[_ ?]]; lia.
    + intros [? ?]. destruct (decide (a = a1)); [by left|right]. lia.
  - fold a. unfold PAGE_SIZE in *. split_and!; [done| |lia|lia].
    rewrite <- Z.add_mod_idemp_r by lia. simpl. by rewrite Z.add_0_r.
  - unfold PAGE_SIZE. lia.
  - intros a1 q Hq _ Hor. by apply Hd.
Qed.

(** ** The client rules *)

Lemma awp_get_page g a pg (Φ : Ptr → pstate → Prop) :
  mem g !! a = Some pg → 0 < hits g →
  (pins g !! a = None → (size (pins g) < 8)%nat) →
  (∀ k c, pins g !! a = Some (k, c) → c + 1 < 2 ^ 64) →
  (∀ k, (∀ k' c, pins g !! a = Some (k', c) → k = k') → Φ k (pin a k (spend g))) →
  awp (get_page a) Φ g.
Proof.
  intros Hm Hh Hs Hc HΦ p Hr. destruct (find_addr a p) as [k|] eqn:E.
  - eapply wp_mono; [by eapply get_page_hit|]. intros k' p' (-> & Hr' & Hk).
    eexists. split; [exact Hr'|]. by apply HΦ.
  - assert (pins g !! a = None) as Hn.
    { destruct (pins g !! a) as [[k c]|] eqn:E'; [|done].
      destruct (r_pin _ _ Hr _ _ _ E') as (Hk & _). apply find_addr_None in E.
      destruct E. by eapply list_elem_of_lookup_2. }
    eapply wp_mono; [by apply (get_page_miss p g a pg Hr Hh E (Hs Hn) Hm)|].
    intros k' p' Hr'. eexists. split; [exact Hr'|]. apply HΦ. intros. congruence.
Qed.

(** the common case: a page nobody holds yet *)
Lemma awp_get_unpinned g a pg (Φ : Ptr → pstate → Prop) :
  mem g !! a = Some pg → 0 < hits g → pins g !! a = None → (size (pins g) < 8)%nat →
  (∀ k, Φ k (PState (mem g) (plen g) (<[a:=(k, 1)]> (pins g)) (hits g - 1))) →
  awp (get_page a) Φ g.
Proof.
  intros Hm Hh Hn Hs HΦ. eapply awp_get_page; [done|done|done|naive_solver|].
  intros k _. specialize (HΦ k). unfold pin, pin_count. simpl. by rewrite Hn.
Qed.

(** a new page at the end of the file *)
Lemma awp_get_past g (Φ : Ptr → pstate → Prop) :
  0 < hits g → (size (pins g) < 8)%nat → plen g + PAGE_SIZE <= MAX_LEN →
  pins g !! plen g = None →
  (∀ k, Φ k (PState (<[plen g:=EMPTY_PAGE]> (mem g)) (plen g + PAGE_SIZE)
                    (<[plen g:=(k, 1)]> (pins g)) (hits g - 1))) →
  awp (get_page (plen g)) Φ g.
Proof.
  intros Hh Hs Hmax Hn HΦ p Hr. eapply wp_mono; [by eapply get_page_past|].
  intros k p' Hr'. eexists. split; [exact Hr'|]. specialize (HΦ k).
  unfold pin, pin_count. simpl. by rewrite Hn.
Qed.

Lemma awp_release g a k c (Φ : unit → pstate → Prop) :
  pins g !! a = Some (k, c) → Φ tt (unpin a g) → awp (release a) Φ g.
Proof.
  intros Hp HΦ p Hr. destruct (r_pin _ _ Hr _ _ _ Hp) as (Hk & Hc & Hne & Hn1).
  unfold release. repeat wp_step. rewrite (find_addr_lookup _ _ Hr _ _ Hk Hn1). wp_step.
  exists (unpin a g). split; [|done]. clear HΦ Φ.
  destruct (r_shape _ _ Hr) as (S1 & S2 & S3 & S4).
  pose proof (addrs_lt _ _ Hr _ _ Hk) as Hk8.
  destruct (r_ref _ _ Hr _ _ _ Hk Hc) as [Hcb _].
  rewrite (list_lookup_total_correct _ _ _ Hc), uwrap_id by (unfold in_u; lia).
  assert (∀ a', a' ≠ a → pins (unpin a g) !! a' = pins g !! a') as Hother.
  { intros a' Hne'. unfold unpin. simpl. rewrite Hp. case_match.
    - by rewrite lookup_delete_ne.
    - by rewrite lookup_insert_ne. }
  assert (pins (unpin a g) !! a = if c =? 1 then None else Some (k, c - 1)) as Hself.
  { unfold unpin. simpl. rewrite Hp. case_match.
    - by rewrite lookup_delete_eq.
    - by rewrite lookup_insert_eq. }
  constructor; try apply Hr.
  - simpl. by rewrite length_insert.
  - intros k1 a1 Hk1. destruct (r_slot _ _ Hr _ _ Hk1) as [(-> & ? & ?)|?]; [|by right].
    left. simpl. rewrite list_lookup_insert_ne; [done|]. intros ->. simpl in Hk1.
    simplify_eq.
  - cbn [set_ref addrs ref]. intros k1 a1 c1 Hk1 Hc1. destruct (decide (k1 = k)) as [->|].
    + rewrite list_lookup_insert_eq in Hc1 by lia. simplify_eq. split; [lia|].
      intros Hn. rewrite Hself. rewrite (proj2 (Z.eqb_neq c 1)) by lia. done.
    + rewrite list_lookup_insert_ne in Hc1 by done. rewrite Hother.
      * by eapply (r_ref _ _ Hr).
      * intros ->. assert (k = k1); [|done]. by eapply (r_uniq _ _ Hr).
  - cbn [set_ref addrs ref]. intros a1 k1 c1 E. destruct (decide (a1 = a)) as [->|].
    + rewrite Hself in E. destruct (Z.eqb_spec c 1); [done|]. simplify_eq.
      rewrite list_lookup_insert_eq by lia. split_and!; [done|done|lia|done].
    + rewrite Hother in E by done. destruct (r_pin _ _ Hr _ _ _ E) as (? & ? & ? & ?).
      assert (k ≠ k1) by (intros ->; simplify_eq).
      by rewrite list_lookup_insert_ne by done.
Qed.

(** Access through the pointer of a pinned page. *)
Lemma awp_at_page {A} g a k c pg (m : M Page A) (Φ : A → pstate → Prop) :
  pins g !! a = Some (k, c) → mem g !! a = Some pg →
  wp m (λ v pg', length pg' = 128%nat ∧ Φ v (upd a pg' g)) pg →
  awp (at_page k m) Φ g.
Proof.
  intros Hp Hm Hw p Hr. destruct (r_pin _ _ Hr _ _ _ Hp) as (Hk & Hc & Hne & Hn1).
  destruct (slot_full _ _ Hr _ _ _ Hk Hm) as [Hpg _].
  unfold at_page, wp at 1. rewrite Hpg. unfold zoom, wp in *.
  destruct (m pg) as [[v pg']| |]; [|done|done]. destruct Hw as [Hl HΦ].
  exists (upd a pg' g). split; [|done]. clear HΦ Φ.
  destruct (r_shape _ _ Hr) as (S1 & S2 & S3 & S4).
  pose proof (addrs_lt _ _ Hr _ _ Hk) as Hk8.
  constructor; simpl; try apply Hr.
  - intros a1. rewrite <- (r_dom _ _ Hr), lookup_insert_is_Some.
    destruct (decide (a = a1)); naive_solver.
  - intros a1 q. destruct (decide (a = a1)) as [<-|].
    + rewrite lookup_insert_eq. naive_solver.
    + rewrite lookup_insert_ne by done. apply (r_pages _ _ Hr).
  - by rewrite length_insert.
  - intros k1 q. destruct (decide (k = k1)) as [<-|].
    + rewrite list_lookup_insert_eq by lia. naive_solver.
    + rewrite list_lookup_insert_ne by done. apply (r_buf _ _ Hr).
  - intros k1 a1 Hk1. destruct (r_slot _ _ Hr _ _ Hk1) as [?|(q & c1 & Hq & Hpq & Hc1)].
    + by left.
    + right. simpl. destruct (decide (k = k1)) as [<-|].
      * simpl in Hk1. simplify_eq. exists pg', c1. rewrite lookup_insert_eq.
        by rewrite list_lookup_insert_eq by lia.
      * exists q, c1. rewrite lookup_insert_ne.
        -- by rewrite list_lookup_insert_ne by done.
        -- intros ->. assert (k = k1); [|done]. by eapply (r_uniq _ _ Hr).
  - destruct (r_disk _ _ Hr) as (f & Hf & Hcl & Hd). exists f. split; [done|].
    split; [done|]. intros a1 q Hq Ha1.
    rewrite lookup_insert_ne in Hq; [by apply Hd|]. intros ->. destruct Ha1.
    by eapply list_elem_of_lookup_2.
Qed.

Lemma awp_file_length g (Φ : Z → pstate → Prop) : Φ (plen g) g → awp file_length Φ g.
Proof.
  intros HΦ p Hr. unfold file_length. wp_step. destruct (r_plen _ _ Hr) as [-> _]. eauto.
Qed.
