(* ===== verification/PoolClient.v ===== *)
(** Working with a buffer pool: the client rules on explicit ghost states, the
    tactics that discharge their side conditions, and pages seen as sixteen
    64-bit words. *)
From stdpp Require Import base gmap list fin_maps.
From Stdlib Require Import ZArith Lia Strings.Byte.
From S2P Require Import Prelude FileIO BufferPool PoolLogic.
#[local] Open Scope Z_scope.

(** ** Composition *)

Section compose.
Context {St G : Type} `{Rep St G}.

Lemma awp_ext {A} (m m' : M St A) (Φ : A → G → Prop) g :
  (∀ s, m s = m' s) → awp m' Φ g → awp m Φ g.
Proof. intros He Hm s Hs. unfold wp. rewrite He. by apply Hm. Qed.

Lemma awp_bind_assoc {A B C} (m : M St A) (f : A → M St B) (k : B → M St C)
    (Φ : C → G → Prop) g :
  awp (x ← m; f x ≫= k) Φ g → awp ((m ≫= f) ≫= k) Φ g.
Proof.
  apply awp_ext. intros s. unfold mbind, M_bind. by destruct (m s) as [[]| |].
Qed.

Lemma awp_ret_bind {A B} (a : A) (k : A → M St B) (Φ : B → G → Prop) g :
  awp (k a) Φ g → awp (mret a ≫= k) Φ g.
Proof. by apply awp_ext. Qed.
End compose.

(** ** The rules *)

Section rules.
Context (m : gmap Z Page) (l : Z) (ps : gmap Z (nat * Z)) (h : Z).

Lemma ps_get a pg (Φ : Ptr → pstate → Prop) :
  m !! a = Some pg → ps !! a = None → (size ps < 8)%nat → 0 < h →
  (∀ k, Φ k (PState m l (<[a:=(k, 1)]> ps) (h - 1))) →
  awp (get_page a) Φ (PState m l ps h).
Proof. intros. by eapply awp_get_unpinned. Qed.

Lemma ps_get_past a (Φ : Ptr → pstate → Prop) :
  a = l → ps !! a = None → (size ps < 8)%nat → 0 < h → l + PAGE_SIZE <= MAX_LEN →
  (∀ k, Φ k (PState (<[a:=EMPTY_PAGE]> m) (l + PAGE_SIZE) (<[a:=(k, 1)]> ps) (h - 1))) →
  awp (get_page a) Φ (PState m l ps h).
Proof. intros ->. intros. by apply (awp_get_past (PState m l ps h)). Qed.

Lemma ps_release a k (Φ : unit → pstate → Prop) :
  ps !! a = Some (k, 1) → Φ tt (PState m l (delete a ps) h) →
  awp (release a) Φ (PState m l ps h).
Proof. intros Hp HΦ. eapply awp_release; [exact Hp|]. unfold unpin. simpl. by rewrite Hp. Qed.

(** an access that changes the page *)
Lemma ps_edit {A} a k c pg (e : M Page A) (Φ : A → pstate → Prop) :
  ps !! a = Some (k, c) → m !! a = Some pg →
  wp e (λ v pg', length pg' = 128%nat ∧ Φ v (PState (<[a:=pg']> m) l ps h)) pg →
  awp (at_page k e) Φ (PState m l ps h).
Proof. intros. by eapply awp_at_page. Qed.

(** ... and one that does not *)
Lemma ps_read {A} a k c pg (e : M Page A) (Φ : A → pstate → Prop) :
  ps !! a = Some (k, c) → m !! a = Some pg → length pg = 128%nat →
  wp e (λ v pg', pg' = pg ∧ Φ v (PState m l ps h)) pg →
  awp (at_page k e) Φ (PState m l ps h).
Proof.
  intros Hp Hm Hl He. eapply ps_edit; [done|done|]. eapply wp_mono; [exact He|].
  intros v pg' [-> HΦ]. by rewrite insert_id.
Qed.

(** releasing a page twice takes its reference count below zero *)
Lemma ps_release_twice a k (Φ : unit → pstate → Prop) :
  ps !! a = Some (k, 1) → Φ tt (PState m l (<[a:=(k, 2 ^ 64 - 1)]> ps) h) →
  awp (release a;; release a) Φ (PState m l ps h).
Proof.
  intros Hp HΦ p Hr. destruct (r_pin _ _ Hr _ _ _ Hp) as (Hk & Hc & _ & Hn1).
  pose proof (find_addr_lookup _ _ Hr _ _ Hk Hn1) as Hf.
  pose proof (addrs_lt _ _ Hr _ _ Hk) as Hk8.
  destruct (r_shape _ _ Hr) as (S1 & S2 & S3 & S4).
  unfold release. repeat wp_step. rewrite Hf. repeat wp_step.
  change (find_addr a (set_ref k (uwrap 64 (ref p !!! k - 1)) p)) with (find_addr a p).
  rewrite Hf. wp_step. unfold set_ref. cbn [file pages addrs cnt ref].
  rewrite (list_lookup_total_correct _ _ _ Hc).
  rewrite list_lookup_total_insert_eq by lia.
  change (uwrap 64 (uwrap 64 (1 - 1) - 1)) with (2 ^ 64 - 1).
  rewrite list_insert_insert_eq.
  eexists. split; [|exact HΦ].
  constructor; try apply Hr; cbn [set_ref ref addrs pins].
  - by rewrite length_insert.
  - intros k1 a1 Hk1. destruct (r_slot _ _ Hr _ _ Hk1) as [(-> & ? & ?)|?]; [|by right].
    left. cbn [ref cnt]. rewrite list_lookup_insert_ne; [done|]. intros ->. cbn in Hk1.
    simplify_eq.
  - intros k1 a1 c1 Hk1 Hc1. destruct (decide (k1 = k)) as [->|].
    + rewrite list_lookup_insert_eq in Hc1 by lia. simplify_eq. split; [lia|].
      intros _. by rewrite lookup_insert_eq.
    + rewrite list_lookup_insert_ne in Hc1 by done. rewrite lookup_insert_ne.
      * by eapply (r_ref _ _ Hr).
      * intros ->. assert (k = k1); [|done]. by eapply (r_uniq _ _ Hr).
  - intros a1 k1 c1 E. destruct (decide (a1 = a)) as [->|].
    + rewrite lookup_insert_eq in E. simplify_eq.
      rewrite list_lookup_insert_eq by lia. split_and!; [done|done|lia|done].
    + rewrite lookup_insert_ne in E by done.
      destruct (r_pin _ _ Hr _ _ _ E) as (H1 & ? & ? & ?). cbn in H1.
      assert (k ≠ k1) by (intros ->; simplify_eq).
      by rewrite list_lookup_insert_ne by done.
Qed.

Lemma ps_length (Φ : Z → pstate → Prop) :
  Φ l (PState m l ps h) → awp file_length Φ (PState m l ps h).
Proof. apply (awp_file_length (PState m l ps h)). Qed.
End rules.

(** facts of any represented state *)
Record pstate_ok (g : pstate) : Prop := {
  k_dom : ∀ a, is_Some (mem g !! a) ↔ 0 <= a < plen g ∧ a mod 128 = 0;
  k_page : ∀ a pg, mem g !! a = Some pg → length pg = 128%nat;
  k_len : plen g mod 128 = 0 ∧ 0 <= plen g <= MAX_LEN;
}.

Lemma rep_ok p g : pool_rep p g → pstate_ok g.
Proof. intros Hr. constructor; apply Hr. Qed.

(** a triple may assume its state is well-formed *)
Lemma awp_ok {A} (m : M BufferPool A) (Φ : A → pstate → Prop) g :
  (pstate_ok g → awp m Φ g) → awp m Φ g.
Proof. intros Hm. apply awp_rep. intros s Hs. by apply Hm, (rep_ok s). Qed.

(** ... and so may its postcondition *)
Lemma awp_post_ok {A} (m : M BufferPool A) (Φ : A → pstate → Prop) g :
  awp m Φ g → awp m (λ a g', pstate_ok g' ∧ Φ a g') g.
Proof.
  intros Hm s Hs. eapply wp_mono; [by apply Hm|]. intros a s' (g' & Hr & HΦ).
  exists g'. split; [done|]. split; [by eapply rep_ok|done].
Qed.

(** ** Side conditions *)

Lemma size_insert_le (a : Z) (x : nat * Z) (ps : gmap Z (nat * Z)) n :
  (size ps < n)%nat → (size (<[a:=x]> ps) < S n)%nat.
Proof. intros H. rewrite map_size_insert. case_match; simpl; lia. Qed.

Lemma size_delete_le (a : Z) (ps : gmap Z (nat * Z)) n :
  (size ps < n)%nat → (size (delete a ps) < n)%nat.
Proof. intros H. rewrite map_size_delete. case_match; simpl; lia. Qed.

(** the number of pins of an explicit map *)
Ltac pins_size := idtac;
  lazymatch goal with
  | |- (size (<[_:=_]> _) < _)%nat => apply size_insert_le; pins_size
  | |- (size (delete _ _) < _)%nat => apply size_delete_le; pins_size
  | |- _ => rewrite ?map_size_empty; lia
  end.

(** lookups in an explicit map whose keys are known to be different *)
Ltac map_find :=
  repeat first
    [ rewrite lookup_insert_eq
    | rewrite lookup_delete_eq
    | rewrite lookup_insert_ne by first [done | lia | congruence]
    | rewrite lookup_delete_ne by first [done | lia | congruence] ];
  first [done | eassumption | apply lookup_empty].

Lemma no_pins (ps : gmap Z (nat * Z)) : (∀ i, ps !! i = None) → ps = ∅.
Proof. apply map_empty. Qed.

(** an explicit map of pins whose entries are all deleted *)
Ltac pins_empty :=
  cbn [pins]; apply no_pins; let i := fresh "i" in intros i;
  rewrite ?lookup_delete, ?lookup_insert, ?lookup_empty;
  repeat case_decide; first [done | congruence].

(** ** Pages as words *)

Definition word (pg : Page) (i : Z) : Z := get_s 8 pg (8 * i).
Definition set_word (i v : Z) (pg : Page) : Page := set_i 8 (8 * i) v pg.

Section words.
Context (pg : Page) (Hl : length pg = 128%nat).

Lemma word_range i : in_s 64 (word pg i).
Proof using.
  clear Hl. unfold word, get_s, dec_s.
  assert (length (slice (Z.to_nat (8 * i)) 8 pg) <= 8)%nat as Hb
    by (unfold slice; rewrite length_take; lia).
  revert Hb. generalize (slice (Z.to_nat (8 * i)) 8 pg). intros [|b bs] Hb.
  { vm_compute. by split. }
  set (n := length (b :: bs)) in *. assert (0 < n)%nat by (unfold n; simpl; lia).
  pose proof (swrap_range (8 * Z.of_nat n) (le_dec (b :: bs)) ltac:(lia)) as Hr.
  unfold in_s in *.
  pose proof (Z.pow_le_mono_r 2 (8 * Z.of_nat n - 1) (64 - 1) ltac:(lia) ltac:(lia)).
  revert Hr. generalize (swrap (8 * Z.of_nat n) (le_dec (b :: bs))). intros z Hr.
  clearbody n. clear - Hr H0. lia.
Qed.

Lemma set_word_length i v : 0 <= i < 16 → length (set_word i v pg) = 128%nat.
Proof. intros. unfold set_word. rewrite set_i_length; lia. Qed.

Lemma word_set_word i j v :
  0 <= i < 16 → 0 <= j → in_s 64 v →
  word (set_word i v pg) j = if decide (i = j) then v else word pg j.
Proof.
  intros Hi Hj Hv. unfold word, set_word. case_decide.
  - subst. by apply get_s_set_eq; [lia|lia|lia|].
  - apply get_s_set_ne; lia.
Qed.

Lemma wp_rd_word i off (Φ : Z → Page → Prop) :
  off = 8 * i → 0 <= i < 16 → Φ (word pg i) pg → wp (rd_i64 off) Φ pg.
Proof. intros -> Hi HΦ. apply wp_rd_s; [lia|lia|done]. Qed.

Lemma wp_wr_word i off v (Φ : unit → Page → Prop) :
  off = 8 * i → 0 <= i < 16 → Φ tt (set_word i v pg) → wp (wr_64 off v) Φ pg.
Proof. intros -> Hi HΦ. apply wp_wr_i; [lia|lia|done]. Qed.
End words.

Lemma in_s64 z : - 2 ^ 63 <= z < 2 ^ 63 → in_s 64 z.
Proof. done. Qed.

Section word_rules.
Context (m : gmap Z Page) (l : Z) (ps : gmap Z (nat * Z)) (h : Z).
Context (a : Z) (k : nat) (c : Z) (pg : Page).
Context (Hp : ps !! a = Some (k, c)) (Hm : m !! a = Some pg) (Hl : length pg = 128%nat).

Lemma ps_rd_word i off (Φ : Z → pstate → Prop) :
  off = 8 * i → 0 <= i < 16 → Φ (word pg i) (PState m l ps h) →
  awp (at_page k (rd_i64 off)) Φ (PState m l ps h).
Proof.
  intros Ho Hi HΦ. eapply ps_read; [done..|]. eapply wp_rd_word; [done|done|done|]. by split.
Qed.

Lemma ps_wr_word i off v (Φ : unit → pstate → Prop) :
  off = 8 * i → 0 <= i < 16 → Φ tt (PState (<[a:=set_word i v pg]> m) l ps h) →
  awp (at_page k (wr_64 off v)) Φ (PState m l ps h).
Proof.
  intros Ho Hi HΦ. eapply ps_edit; [done..|]. eapply wp_wr_word; [done|done|done|].
  split; [by apply set_word_length|done].
Qed.
End word_rules.

(** the address of the page pointed to by [k] *)
Ltac pinned_at ps k tac :=
  match ps with
  | <[?a := (k, _)]> _ => tac a
  | <[_ := _]> ?ps' => pinned_at ps' k tac
  | delete _ ?ps' => pinned_at ps' k tac
  end.

(** the length of a page made of word writes *)
Ltac pg_len := repeat (apply set_word_length; [|lia]); first [done | eassumption].

(** reads and writes of word [i] through a pinned pointer *)
Ltac rd_word i :=
  lazymatch goal with
  | |- awp (at_page ?k (rd_i64 _)) _ (PState _ _ ?ps _) =>
      pinned_at ps k ltac:(fun a =>
        eapply (ps_rd_word _ _ _ _ a k _ _); [map_find|map_find|pg_len|apply (eq_refl (8 * i))|lia|])
  end.
Ltac wr_word i :=
  lazymatch goal with
  | |- awp (at_page ?k (wr_64 _ _)) _ (PState _ _ ?ps _) =>
      pinned_at ps k ltac:(fun a =>
        eapply (ps_wr_word _ _ _ _ a k _ _); [map_find|map_find|pg_len|apply (eq_refl (8 * i))|lia|])
  end.
(** pinning a page of the store, and releasing one *)
Ltac get_pg k := eapply ps_get; [map_find|map_find|pins_size|lia|intros k].
Ltac rel := eapply ps_release; [map_find|].

(** words of a page made of word writes *)
Ltac words :=
  repeat (rewrite word_set_word by first [lia | apply in_s64; lia | apply word_range | assumption | pg_len];
          first [rewrite decide_True by lia | rewrite decide_False by lia]).
