(* ===== verification/PoolDurable.v ===== *)
(** Opening and closing a buffer pool: what [init_buffer_pool] establishes on
    a new or an existing file, and that [close_buffer_pool] leaves every page
    of the logical store on the disk. *)
From stdpp Require Import base gmap list fin_maps.
From Stdlib Require Import ZArith Lia Strings.Byte.
From S2P Require Import Prelude FileIO BufferPool PoolLogic.
#[local] Open Scope Z_scope.

(** The pages of a file's bytes. *)
Definition file_pages (bs : list byte) : gmap Z Page :=
  list_to_map ((λ i, (128 * Z.of_nat i, slice (128 * i) 128 bs)) <$> seq 0 (length bs / 128)).

(** The store of a pool that has just been opened on a file. *)
Definition opened (bs : list byte) : pstate :=
  PState (file_pages bs) (Z.of_nat (length bs)) ∅ (SIZE_MAX - 1).

(** The memory a pool is initialised in: eight pages of any contents. *)
Definition pool_space (p : BufferPool) : Prop :=
  length (pages p) = 8%nat ∧ ∀ k pg, pages p !! k = Some pg → length pg = 128%nat.

Lemma file_pages_lookup bs a pg :
  (length bs mod 128 = 0)%nat →
  file_pages bs !! a = Some pg ↔
    0 <= a < Z.of_nat (length bs) ∧ a mod 128 = 0 ∧ pg = slice (Z.to_nat a) 128 bs.
Proof.
  intros Hm. unfold file_pages. rewrite <- elem_of_list_to_map.
  - rewrite list_elem_of_fmap.
    pose proof (Nat.div_mod (length bs) 128 ltac:(lia)) as Hd. split.
    + intros (i & [= -> ->] & Hi). apply elem_of_seq in Hi. split_and!.
      * lia.
      * lia.
      * rewrite Z.mul_comm. by apply Z_mod_mult.
      * f_equal. lia.
    + intros (Hr & Ha & ->). pose proof (Z.div_mod a 128 ltac:(lia)) as Hda.
      exists (Z.to_nat (a / 128)). assert (0 <= a / 128) by (apply Z.div_pos; lia).
      split.
      * f_equal; [lia|]. f_equal. lia.
      * apply elem_of_seq. lia.
  - rewrite <- list_fmap_compose. apply NoDup_fmap_2; [|apply NoDup_seq].
    intros i j. simpl. lia.
Qed.

Lemma init_pool_rep p fl f :
  pool_space p → fp fl = Some f → flen fl = Z.of_nat (length (f_content f)) →
  (length (f_content f) mod 128 = 0)%nat → flen fl <= MAX_LEN →
  pool_rep (mkPool fl (pages p) (replicate CACHE_PAGE (-1)) (replicate CACHE_PAGE SIZE_MAX)
              (replicate CACHE_PAGE 0)) (opened (f_content f)).
Proof.
  intros [Hl Hb] Hfp Hflen Hm Hmax. set (bs := f_content f) in *.
  assert (Z.of_nat (length bs) mod 128 = 0) as HmZ.
  { change 128 with (Z.of_nat 128). rewrite <- Nat2Z.inj_mod. lia. }
  assert (∀ a, is_Some (file_pages bs !! a) ↔ 0 <= a < Z.of_nat (length bs) ∧ a mod 128 = 0)
    as Hdom.
  { intros a. split.
    - intros [pg H]. apply file_pages_lookup in H; naive_solver.
    - intros [? ?]. eexists. apply file_pages_lookup; naive_solver. }
  assert (∀ k a, replicate CACHE_PAGE (-1) !! k = Some a → a = -1 ∧ (k < 8)%nat) as Hneg.
  { intros k a. rewrite lookup_replicate. unfold CACHE_PAGE. naive_solver. }
  constructor; unfold slot_ok; cbn [file pages addrs cnt ref mem plen pins hits opened].
  - split_and!; [done|done|lia|lia].
  - done.
  - intros a pg H. apply file_pages_lookup in H as (Hr & Ha & ->); [|done].
    apply slice_length. pose proof (Z.div_mod a 128 ltac:(lia)).
    pose proof (Nat.div_mod (length bs) 128 ltac:(lia)). lia.
  - done.
  - done.
  - intros k a Hk. apply Hneg in Hk as [-> Hk]. left.
    split_and!; [done|apply lookup_replicate; done..].
  - intros k k' a Hk _ Hn. by apply Hneg in Hk as [-> _].
  - intros k a c _ Hc. apply lookup_replicate in Hc as [-> _]. split; [lia|done].
  - intros a k c. by rewrite lookup_empty.
  - exists f. split; [done|]. fold bs. split; [lia|]. intros a pg H _.
    apply file_pages_lookup in H as (Hr & Ha & ->); [|done].
    unfold page_at. fold bs. rewrite decide_True; [done|].
    pose proof (Z.div_mod a 128 ltac:(lia)).
    pose proof (Nat.div_mod (length bs) 128 ltac:(lia)). lia.
  - done.
Qed.

(** [init_buffer_pool] on an existing file whose length is a multiple of the
    page size. *)
Lemma init_buffer_pool_existing p bs :
  pool_space p → (length bs mod 128 = 0)%nat → Z.of_nat (length bs) <= MAX_LEN →
  wp (init_buffer_pool (HasFile bs)) (λ _ p', pool_rep p' (opened bs)) p.
Proof.
  intros Hp Hm Hmax. unfold init_buffer_pool, open_file. simpl.
  unfold wp. rewrite mask_mod.
  assert (Z.of_nat (length bs) mod 128 = 0) as ->.
  { change 128 with (Z.of_nat 128). rewrite <- Nat2Z.inj_mod. lia. }
  simpl. by apply (init_pool_rep p _ (mkFILE bs (Z.of_nat (length bs)))).
Qed.

(** ... and where no file exists yet. *)
Lemma init_buffer_pool_new p :
  pool_space p → wp (init_buffer_pool NoFile) (λ _ p', pool_rep p' (opened [])) p.
Proof.
  intros Hp. unfold init_buffer_pool, open_file. simpl. unfold wp.
  by apply (init_pool_rep p _ (mkFILE [] 0)).
Qed.

(** ** Closing *)

(** After [i] rounds of the loop of [close_buffer_pool]: the first [i] slots
    are on the disk. *)
Record closing (p0 : BufferPool) (g : pstate) (i : nat) (p : BufferPool) : Prop := {
  c_pages : pages p = pages p0;
  c_addrs : ∀ k, (i <= k)%nat → addrs p !! k = addrs p0 !! k;
  c_len : length (addrs p) = 8%nat;
  c_flen : flen (file p) = plen g;
  c_disk : ∃ f, fp (file p) = Some f ∧ Z.of_nat (length (f_content f)) <= plen g ∧
    ∀ a pg, mem g !! a = Some pg →
      (∀ k, (i <= k)%nat → addrs p0 !! k ≠ Some a) → page_at f a = Some pg;
}.

Lemma close_slot_step p0 g i p :
  pool_rep p0 g → (i < 8)%nat → closing p0 g i p →
  wp (close_slot (Z.of_nat i)) (λ _ p', closing p0 g (S i) p') p.
Proof.
  intros Hr Hi [Hp Ha Hl Hfl (f & Hf & Hcl & Hd)].
  unfold close_slot. rewrite Nat2Z.id. wp_step.
  destruct (lookup_slot _ _ Hr i Hi) as (a & c & r & pg & Hai & _ & _ & Hpg & Hlen).
  assert (addrs p !! i = Some a) as Hai' by (rewrite Ha; [done|lia]).
  unfold wp at 1, write_slot. rewrite Hp, Hpg, Hai'. unfold zoom.
  destruct (r_slot _ _ Hr _ _ Hai) as [(-> & _)|(q & c' & Hm & Hq & _)].
  - (* an empty slot: write_page(-1) is refused *)
    unfold write_page at 1. rewrite mask_mod. simpl. wp_step. constructor; simpl.
    + done.
    + intros k Hk. rewrite list_lookup_insert_ne by lia. apply Ha. lia.
    + by rewrite length_insert.
    + done.
    + exists f. split; [done|]. split; [done|]. intros a q Hm Hk. apply Hd; [done|].
      intros k Hik. destruct (decide (k = i)) as [->|]; [|apply Hk; lia].
      rewrite Hai. intros [= <-]. apply (mem_ne_neg _ _ Hr) in Hm. lia.
  - simplify_eq. destruct (mem_ne_neg _ _ Hr _ _ Hm) as [Hb Hmod].
    destruct (r_plen _ _ Hr) as (_ & Hpm & _).
    rewrite (write_page_success _ _ _ f) by (done || lia). simpl. wp_step.
    rewrite Hfl, (proj2 (Z.eqb_neq a (plen g))) by lia. constructor; simpl.
    + done.
    + intros k Hk. rewrite list_lookup_insert_ne by lia. apply Ha. lia.
    + by rewrite length_insert.
    + done.
    + eexists. split; [done|]. split.
      { simpl. rewrite put_bytes_length, Hlen.
        pose proof (Z.div_mod (plen g) 128 ltac:(lia)).
        pose proof (Z.div_mod a 128 ltac:(lia)). lia. }
      intros a' q' Hm' Hk. destruct (decide (a' = a)) as [->|].
      * simplify_eq. apply page_at_put_eq; [lia|done].
      * destruct (mem_ne_neg _ _ Hr _ _ Hm').
        apply page_at_put_ne; [lia|done|done|done|done|]. apply Hd; [done|].
        intros k Hik. destruct (decide (k = i)) as [->|]; [|apply Hk; lia].
        rewrite Hai. congruence.
Qed.

Lemma close_buffer_pool_disk p g :
  pool_rep p g →
  wp close_buffer_pool (λ _ p', ∃ f, fp (file p') = Some f ∧
    Z.of_nat (length (f_content f)) = plen g ∧
    ∀ a pg, mem g !! a = Some pg → page_at f a = Some pg) p.
Proof.
  intros Hr. unfold close_buffer_pool. repeat wp_step.
  eapply wp_mono.
  { apply (wp_iter_up _ _ _ (λ i p', 0 <= i ∧ closing p g (Z.to_nat i) p')).
    - split; [done|]. constructor; simpl; try done.
      + apply (r_shape _ _ Hr).
      + apply (r_plen _ _ Hr).
      + destruct (r_disk _ _ Hr) as (f & Hf & Hcl & Hd). exists f. split; [done|].
        split; [done|]. intros a pg Hm Hk. apply Hd; [done|]. intros Hin.
        apply list_elem_of_lookup in Hin as [k Hk']. by destruct (Hk k ltac:(lia)).
    - intros i p' Hi [Hi0 Hc]. destruct (Z_of_nat_complete i Hi0) as [n ->].
      rewrite Nat2Z.id in Hc. eapply wp_mono; [apply (close_slot_step p g); [done| |done]|].
      + unfold CACHE_PAGE in Hi. lia.
      + intros [] p'' Hc'. split; [lia|]. by replace (Z.to_nat _) with (S n) by lia. }
  intros [] p' [_ Hc]. destruct (r_disk _ _ Hr) as (f0 & Hf0 & _).
  unfold close_file. rewrite Hf0. wp_step.
  change (Z.to_nat _) with 8%nat in Hc. destruct Hc as [_ _ _ _ (f & Hf & Hcl & Hd)].
  exists f. split; [done|].
  assert (∀ a pg, mem g !! a = Some pg → page_at f a = Some pg) as Hall.
  { intros a pg Hm. apply Hd; [done|]. intros k Hk. rewrite lookup_ge_None_2; [done|].
    destruct (r_shape _ _ Hr) as (_ & -> & _). lia. }
  split; [|done]. destruct (r_plen _ _ Hr) as (_ & Hpm & Hp0 & _).
  destruct (decide (plen g = 0)) as [E|Hne]; [lia|].
  destruct (proj2 (r_dom _ _ Hr (plen g - 128))) as [pg Hm].
  { pose proof (Z.div_mod (plen g) 128 ltac:(lia)). split; [lia|].
    rewrite Zminus_mod, Hpm. done. }
  apply Hall in Hm. unfold page_at in Hm. case_decide; [lia|done].
Qed.

Lemma close_open_run p g : pool_rep p g →
  ∃ p' f, close_buffer_pool p = Ok (tt, p') ∧ fp (file p') = Some f ∧
    ∀ q, pool_space q → ∃ q', init_buffer_pool (HasFile (f_content f)) q = Ok (tt, q') ∧
      pool_rep q' (PState (mem g) (plen g) ∅ (SIZE_MAX - 1)).
Proof.
  intros Hr. destruct (wp_elim _ _ _ (close_buffer_pool_disk p g Hr)) as ([] & p' & Hc & f & Hf & Hl & Hd).
  destruct (r_plen _ _ Hr) as (_ & Hm & Hp0 & Hmax).
  assert (length (f_content f) mod 128 = 0)%nat as Hmod.
  { apply Nat2Z.inj. rewrite Nat2Z.inj_mod, Hl. done. }
  exists p', f. split; [done|]. split; [done|]. intros q Hq.
  destruct (wp_elim _ _ _ (init_buffer_pool_existing q (f_content f) Hq Hmod ltac:(lia)))
    as ([] & q' & Hi & Hr').
  exists q'. split; [done|]. replace (PState _ _ _ _) with (opened (f_content f)); [done|].
  unfold opened. f_equal; [|done]. apply map_eq. intros a. apply option_eq. intros pg.
  rewrite file_pages_lookup by done. rewrite Hl. split.
  - intros (Hr1 & Hr2 & ->). destruct (proj2 (r_dom _ _ Hr a)) as [pg Hpg]; [done|].
    rewrite Hpg. apply Hd in Hpg. unfold page_at in Hpg. case_decide; naive_solver.
  - intros Hpg. destruct (mem_ne_neg _ _ Hr _ _ Hpg). split_and!; [lia..|].
    apply Hd in Hpg. unfold page_at in Hpg. case_decide; naive_solver.
Qed.

(** a pool determines the pages of its store *)
Lemma pool_rep_mem p g g' : pool_rep p g → pool_rep p g' → mem g' = mem g.
Proof.
  intros Hr Hr'. assert (plen g' = plen g) as El.
  { by rewrite <- (proj1 (r_plen _ _ Hr)), <- (proj1 (r_plen _ _ Hr')). }
  apply map_eq. intros a. destruct (mem g !! a) as [pg|] eqn:E.
  - destruct (proj2 (r_dom _ _ Hr' a)) as [pg' E'].
    { rewrite El. apply (r_dom _ _ Hr). eauto. }
    rewrite E'. f_equal. destruct (decide (a ∈ addrs p)) as [(k & Hk)%list_elem_of_lookup|Hn].
    + destruct (slot_full _ _ Hr _ _ _ Hk E) as [H1 _], (slot_full _ _ Hr' _ _ _ Hk E') as [H2 _]. congruence.
    + destruct (r_disk _ _ Hr) as (f & Hf & _ & Hd), (r_disk _ _ Hr') as (f' & Hf' & _ & Hd').
      specialize (Hd _ _ E Hn). specialize (Hd' _ _ E' Hn). congruence.
  - destruct (mem g' !! a) eqn:E'; [|done]. destruct (proj2 (r_dom _ _ Hr a)) as [? ?]; [|congruence].
    rewrite <- El. apply (r_dom _ _ Hr'). eauto.
Qed.

(** ** Properties of the buffer pool *)

(** a fresh memory area for a pool, used by the examples *)
Definition blank_pool : BufferPool :=
  mkPool uninit_FileInfo (replicate 8 EMPTY_PAGE) (replicate 8 0) (replicate 8 0) (replicate 8 0).

Lemma blank_pool_space : pool_space blank_pool.
Proof.
  split; [done|]. intros k pg H. apply lookup_replicate in H as [-> _]. done.
Qed.

(** a pool just opened on a file that did not exist *)
Definition new_pool : BufferPool :=
  mkPool (mkFileInfo (Some (mkFILE [] 0)) 0) (replicate 8 EMPTY_PAGE)
    (replicate 8 (-1)) (replicate 8 SIZE_MAX) (replicate 8 0).

Lemma new_pool_rep : pool_rep new_pool (opened []).
Proof. exact (init_buffer_pool_new blank_pool blank_pool_space). Qed.

Lemma opened_nil : opened [] = PState ∅ 0 ∅ (SIZE_MAX - 1).
Proof. done. Qed.

(** C17: the buffer pool refines the abstract page store: with fewer than
    eight pages pinned, [get_page] of any page of the file returns a pointer
    to that page's logical contents and pins it, whatever was cached,
    evicted or written back on the way; [get_page] of the address at the end
    of the file creates a zero page; a write through a pinned pointer changes
    that page only; [release] drops one pin and changes no contents. *)
Theorem buffer_pool_refines_page_store p g :
  pool_rep p g →
  (∀ a pg, mem g !! a = Some pg → 0 < hits g → pins g !! a = None → (size (pins g) < 8)%nat →
    ∃ k p', get_page a p = Ok (k, p') ∧ pages p' !! k = Some pg ∧
      pool_rep p' (PState (mem g) (plen g) (<[a:=(k, 1)]> (pins g)) (hits g - 1))) ∧
  (0 < hits g → (size (pins g) < 8)%nat → plen g + PAGE_SIZE <= MAX_LEN →
    ∃ k p', get_page (plen g) p = Ok (k, p') ∧ pages p' !! k = Some EMPTY_PAGE ∧
      pool_rep p' (pin (plen g) k (spend (extend g)))) ∧
  (∀ a k c pg pg', pins g !! a = Some (k, c) → mem g !! a = Some pg → length pg' = 128%nat →
    ∃ p', at_page k (λ _, Ok (tt, pg')) p = Ok (tt, p') ∧ pool_rep p' (upd a pg' g)) ∧
  (∀ a k c, pins g !! a = Some (k, c) →
    ∃ p', release a p = Ok (tt, p') ∧ pool_rep p' (unpin a g)).
Proof.
  intros Hr. split_and!.
  - intros a pg Hm Hh Hn Hs.
    pose proof (awp_get_unpinned g a pg (λ k g', g' = PState (mem g) (plen g)
      (<[a:=(k, 1)]> (pins g)) (hits g - 1)) Hm Hh Hn Hs ltac:(done) p Hr) as Hw.
    destruct (wp_elim _ _ _ Hw) as (k & p' & -> & g' & Hr' & ->). exists k, p'. split; [done|]. split; [|done].
    destruct (r_pin _ _ Hr' a k 1) as (Hk & _); [by apply lookup_insert_eq|].
    by destruct (slot_full _ _ Hr' k a pg Hk Hm).
  - intros Hh Hs Hmax. pose proof (get_page_past p g Hr Hh Hs Hmax) as Hw.
    destruct (wp_elim _ _ _ Hw) as (k & p' & -> & Hw'). clear Hw. rename Hw' into Hw.
    exists k, p'. split; [done|]. split; [|done].
    destruct (r_pin _ _ Hw (plen g) k (pin_count (spend (extend g)) (plen g) + 1)) as (Hk & _);
      [by apply lookup_insert_eq|].
    destruct (slot_full _ _ Hw k (plen g) EMPTY_PAGE Hk); [by apply lookup_insert_eq|done].
  - intros a k c pg pg' Hp Hm Hl.
    pose proof (awp_at_page g a k c pg (λ _, Ok (tt, pg')) (λ _ g', g' = upd a pg' g)
      Hp Hm (conj Hl eq_refl) p Hr) as Hw.
    destruct (wp_elim _ _ _ Hw) as ([] & p' & E & g' & Hr' & ->). eauto.
  - intros a k c Hp.
    pose proof (awp_release g a k c (λ _ g', g' = unpin a g) Hp eq_refl p Hr) as Hw.
    destruct (wp_elim _ _ _ Hw) as ([] & p' & E & g' & Hr' & ->). eauto.
Qed.

Lemma buffer_pool_refines_page_store_witness :
  ∃ k p', get_page 0 new_pool = Ok (k, p') ∧ pages p' !! k = Some EMPTY_PAGE ∧
    pool_rep p' (pin 0 k (spend (extend (opened [])))).
Proof.
  destruct (buffer_pool_refines_page_store new_pool (opened []) new_pool_rep)
    as (_ & H & _). apply H; vm_compute; first [reflexivity | discriminate | lia].
Defined.

(** C24: a page that is pinned is never evicted: whatever other page of the file
    [get_page] is then asked for, while fewer than eight are pinned, the pinned page stays in its slot with its contents. *)
Theorem pinned_page_not_evicted p g a k c pg b q :
  pool_rep p g → pins g !! a = Some (k, c) → mem g !! a = Some pg →
  mem g !! b = Some q → b ≠ a → 0 < hits g → (size (pins g) < 8)%nat →
  (∀ k c, pins g !! b = Some (k, c) → c + 1 < 2 ^ 64) →
  ∃ k' p', get_page b p = Ok (k', p') ∧ k' ≠ k ∧
    addrs p' !! k = Some a ∧ pages p' !! k = Some pg ∧ ref p' !! k = Some c.
Proof.
  intros Hr Hp Hm Hq Hne Hh Hs Hc.
  pose proof (awp_get_page g b q (λ k' g', g' = pin b k' (spend g)) Hq Hh (λ _, Hs) Hc
    ltac:(done) p Hr) as Hw.
  destruct (wp_elim _ _ _ Hw) as (k' & p' & -> & g' & Hr' & ->). exists k', p'. split; [done|].
  destruct (r_pin _ _ Hr' a k c) as (Hk & Hrf & _ & _).
  { unfold pin. simpl. by rewrite lookup_insert_ne. }
  destruct (r_pin _ _ Hr' b k' (pin_count (spend g) b + 1)) as (Hk' & _).
  { unfold pin. simpl. by apply lookup_insert_eq. }
  split_and!; [congruence|done| |done].
  by destruct (slot_full _ _ Hr' k a pg Hk Hm).
Qed.

(** a pool holding page 0 pinned once, and page 128 not pinned *)
Definition two_pages_prog : M BufferPool Ptr :=
  k0 ← get_page 0; get_page 128;; release 128;; mret k0.
Definition two_pages_pool : BufferPool :=
  match two_pages_prog new_pool with Ok (_, p) => p | _ => new_pool end.
Definition two_pages_store : pstate :=
  PState (<[128:=EMPTY_PAGE]> {[0 := EMPTY_PAGE]}) 256 {[0 := (0%nat, 1)]} (SIZE_MAX - 3).

Lemma two_pages_prog_ok :
  awp two_pages_prog (λ k g', k = 0%nat → g' = two_pages_store) (opened []).
Proof.
  unfold two_pages_prog. awp_step. apply (awp_get_past (opened []));
    [reflexivity|vm_compute; lia|discriminate|reflexivity|]. intros k. simpl.
  awp_step. apply (awp_get_past (PState _ 128 _ _));
    [reflexivity|vm_compute; lia|discriminate|simpl; by rewrite lookup_insert_ne|].
  intros k'. simpl. awp_step. eapply awp_release.
  { by apply lookup_insert_eq. }
  awp_step. intros ->. unfold unpin. simpl. rewrite lookup_insert_eq. simpl.
  unfold two_pages_store. by rewrite delete_insert_id by (by rewrite lookup_insert_ne).
Qed.

Lemma two_pages_rep : pool_rep two_pages_pool two_pages_store.
Proof.
  destruct (wp_elim _ _ _ (two_pages_prog_ok new_pool new_pool_rep))
    as (k & p & E & g' & Hr & Hg).
  assert (match two_pages_prog new_pool with Ok (k, _) => k | _ => 9%nat end = 0%nat) as Hk
    by (vm_compute; reflexivity).
  unfold two_pages_pool. rewrite E in Hk |- *. by rewrite <- Hg.
Qed.

Lemma pinned_page_not_evicted_witness :
  ∃ k' p', get_page 128 two_pages_pool = Ok (k', p') ∧ k' ≠ 0%nat ∧
    addrs p' !! 0%nat = Some 0 ∧ pages p' !! 0%nat = Some EMPTY_PAGE ∧ ref p' !! 0%nat = Some 1.
Proof.
  apply (pinned_page_not_evicted two_pages_pool two_pages_store 0 0%nat 1 EMPTY_PAGE 128
           EMPTY_PAGE two_pages_rep).
  - reflexivity.
  - reflexivity.
  - reflexivity.
  - discriminate.
  - reflexivity.
  - vm_compute. lia.
  - intros k c H. vm_compute in H. discriminate.
Defined.

(** C23: durability: after [close_buffer_pool] the file on the disk is exactly
    the logical store, and a pool opened on that file represents the same
    pages, with nothing pinned. *)
Theorem close_then_open_restores_store p g q :
  pool_rep p g → pool_space q →
  ∃ p' f, close_buffer_pool p = Ok (tt, p') ∧ fp (file p') = Some f ∧
    ∃ q', init_buffer_pool (HasFile (f_content f)) q = Ok (tt, q') ∧
      pool_rep q' (PState (mem g) (plen g) ∅ (SIZE_MAX - 1)).
Proof.
  intros Hr Hq. destruct (close_open_run p g Hr) as (p' & f & Hc & Hf & Hi). exists p', f. eauto.
Qed.

Lemma close_then_open_restores_store_witness :
  ∃ p' f, close_buffer_pool two_pages_pool = Ok (tt, p') ∧ fp (file p') = Some f ∧
    ∃ q', init_buffer_pool (HasFile (f_content f)) blank_pool = Ok (tt, q') ∧
      pool_rep q' (PState (mem two_pages_store) 256 ∅ (SIZE_MAX - 1)).
Proof.
  exact (close_then_open_restores_store two_pages_pool two_pages_store blank_pool
           two_pages_rep blank_pool_space).
Defined.

(** C29: when all eight slots are held and the page is not among them,
    [get_page] has no page to give: no slot is written to [changeable_page],
    [sum] stays 0, and the loop [i = 1; i != sum] that looks for the least
    counter reads past the end of the array, which is undefined behaviour. *)
Theorem get_page_all_pinned_undefined p g a :
  pool_rep p g → (∀ k c, ref p !! k = Some c → c ≠ 0) → a ∉ addrs p →
  get_page a p = Undef.
Proof.
  intros Hr Hall Ha. unfold get_page, mbind, M_bind, gets.
  destruct (find_addr a p) as [k|] eqn:E.
  { apply find_addr_Some in E. destruct Ha. by eapply list_elem_of_lookup_2. }
  assert (unheld p = []) as Hc.
  { destruct (unheld p) as [|i l] eqn:Hc; [done|].
    assert (i ∈ unheld p) as [Hi Hz]%elem_of_unheld by (rewrite Hc; by left).
    destruct (lookup_slot _ _ Hr i) as (? & ? & r & ? & _ & _ & Hrk & _); [lia|].
    rewrite (list_lookup_total_correct _ _ _ Hrk) in Hz. by destruct (Hall i r). }
  rewrite pick_target_unheld, Hc. done.
Qed.

(** eight pages of a new file, all pinned *)
Definition pin_eight : M BufferPool unit :=
  iter_up 8 0 (λ i, get_page (128 * i);; mret tt).
Definition eight_pinned_pool : BufferPool :=
  match pin_eight new_pool with Ok (_, p) => p | _ => new_pool end.

Lemma eight_pinned_rep : ∃ g, pool_rep eight_pinned_pool g.
Proof.
  assert (awp pin_eight (λ _ _, True) (opened [])) as Hw.
  { eapply awp_mono.
    - apply (awp_iter_up 8 0 _ (λ i g, plen g = 128 * i ∧ hits g = SIZE_MAX - 1 - i ∧
        size (pins g) = Z.to_nat i ∧ ∀ a, 128 * i <= a → pins g !! a = None)).
      + split_and!; done.
      + intros i g Hi (Hl & Hh & Hs & Hn). awp_step. rewrite <- Hl.
        unfold SIZE_MAX in *. apply awp_get_past; [lia|lia| |apply Hn; lia|].
        { unfold PAGE_SIZE, MAX_LEN. lia. }
        intros k. awp_step. simpl. unfold PAGE_SIZE. split_and!; [lia|lia| |].
        * rewrite map_size_insert_None; [lia|]. apply Hn. lia.
        * intros a Ha. rewrite lookup_insert_ne by lia. apply Hn. lia.
    - done. }
  destruct (wp_elim _ _ _ (Hw new_pool new_pool_rep)) as ([] & p & E & g & Hr & _).
  exists g. unfold eight_pinned_pool. by rewrite E.
Qed.

Lemma get_page_all_pinned_undefined_witness : get_page 1024 eight_pinned_pool = Undef.
Proof.
  destruct eight_pinned_rep as [g Hr].
  apply (get_page_all_pinned_undefined eight_pinned_pool g 1024 Hr).
  - assert (ref eight_pinned_pool = replicate 8 1) as -> by (vm_compute; reflexivity).
    intros k c H. apply lookup_replicate in H as [-> _]. discriminate.
  - assert (addrs eight_pinned_pool = [0; 128; 256; 384; 512; 640; 768; 896]) as ->
      by (vm_compute; reflexivity).
    set_solver by lia.
Defined.
