(* ===== verification/PoolCache.v ===== *)
(** The replacement policy of the buffer pool: which slot [get_page] gives to a
    page that is not cached, and how full the cache becomes. *)
From stdpp Require Import base gmap list fin_maps.
From Stdlib Require Import ZArith Lia Strings.Byte.
From S2P Require Import Prelude FileIO BufferPool PoolLogic PoolDurable.
#[local] Open Scope Z_scope.

(** ** The victim *)

Lemma pick_target_least p t : pick_target p = Some t →
  (t < 8)%nat ∧ ref p !!! t = 0 ∧ ∀ k, (k < 8)%nat → ref p !!! k = 0 → cnt p !!! t <= cnt p !!! k.
Proof.
  rewrite pick_target_unheld. destruct (unheld p) as [|t0 rest] eqn:E; [done|]. intros [= <-].
  destruct (fold_least (λ k, cnt p !!! k) rest t0) as [H1 H2]. cbv beta zeta in *. rewrite <- E in *.
  apply elem_of_unheld in H1 as [Hlt Hr]. split; [done|]. split; [done|].
  intros k Hk Hrk. apply H2. by apply elem_of_unheld.
Qed.

(** ** A miss *)

Lemma write_slot_addrs k p r p' : write_slot k p = Ok (r, p') → addrs p' = addrs p.
Proof.
  unfold write_slot. destruct (pages p !! k); [|done]. destruct (addrs p !! k); [|done]. unfold zoom.
  destruct (write_page _ _ _) as [[? ?]| |]; [|done..]. by intros [= _ <-].
Qed.

Lemma read_slot_addrs k a p r p' : read_slot k a p = Ok (r, p') → addrs p' = addrs p.
Proof.
  unfold read_slot. destruct (pages p !! k); [|done]. unfold zoom.
  destruct (read_page _ _) as [[? [? ?]]| |]; [|done..]. by intros [= _ <-].
Qed.

(** the page goes to the victim, and no other slot changes hands *)
Lemma get_page_victim a p k p' : find_addr a p = None → get_page a p = Ok (k, p') →
  pick_target p = Some k ∧ addrs p' = <[k:=a]> (addrs p).
Proof.
  intros Hf. unfold get_page. rewrite (bind_ok _ _ _ _ _ (eq_refl : gets _ p = _)), Hf.
  rewrite (bind_ok _ _ _ _ _ (eq_refl : gets _ p = _)).
  destruct (pick_target p) as [t|] eqn:Et; [|done]. cbn [of_opt].
  rewrite (bind_ok _ _ _ _ _ (eq_refl : of_opt (Some t) p = _)).
  rewrite (bind_ok _ _ _ _ _ (eq_refl : gets _ p = _)).
  intros ([] & p1 & H1 & (res & p2 & H2 & H3)%bind_run)%bind_run.
  assert (addrs p1 = addrs p) as E1.
  { destruct (cnt p !!! t =? SIZE_MAX); [by injection H1 as <-|].
    apply bind_run in H1 as (r & q & Hw & [= <-]). by eapply write_slot_addrs. }
  apply read_slot_addrs in H2. rewrite <- E1, <- H2.
  destruct (bool_decide (res = ADDR_OUT_OF_RANGE) && (0 <=? a)).
  - unfold need, modify, install, mbind, M_bind, mret, M_ret in H3.
    destruct (a + PAGE_SIZE <=? OFF_MAX); [|done]. by injection H3 as <- <-.
  - destruct (bool_decide (res = FILE_IO_SUCCESS)); [|done]. by injection H3 as <- <-.
Qed.

Lemma unpinned_slot p g k b : pool_rep p g → addrs p !! k = Some b → ref p !! k = Some 0 → pins g !! b = None.
Proof.
  intros Hr Hk Hrk. destruct (pins g !! b) as [[k' c]|] eqn:E; [|done].
  destruct (r_pin _ _ Hr _ _ _ E) as (Hk' & Hc & Hc0 & Hb).
  assert (k' = k) as -> by (eapply (r_uniq _ _ Hr); done). congruence.
Qed.

Lemma cached_or_not p g a : pool_rep p g → a ≠ -1 → find_addr a p = None ↔ a ∉ addrs p.
Proof.
  intros Hr Ha. split; [apply find_addr_None|]. intros Hn. destruct (find_addr a p) eqn:E; [|done].
  apply find_addr_Some in E. destruct Hn. by eapply list_elem_of_lookup_2.
Qed.

(** a loaded slot that nobody holds is taken before any empty one: the counter
    of an empty slot is the largest *)
Lemma victim_loaded p g t j b : pool_rep p g → pick_target p = Some t →
  addrs p !! j = Some b → b ≠ -1 → ref p !! j = Some 0 →
  ∃ b', addrs p !! t = Some b' ∧ b' ≠ -1 ∧ ref p !! t = Some 0 ∧
    ∀ i c, ref p !! i = Some 0 → cnt p !! i = Some c → cnt p !!! t <= c.
Proof.
  intros Hr (Ht & Hrt & Hleast)%pick_target_least Hj Hb Hrj.
  destruct (lookup_slot _ _ Hr t Ht) as (b' & c & r & pg & Hat & Hct & Hrt' & _).
  pose proof (r_shape _ _ Hr) as (_ & S2 & S3 & S4). pose proof (r_hits _ _ Hr) as Hh.
  rewrite (list_lookup_total_correct _ _ _ Hrt') in Hrt. subst r.
  exists b'. split; [done|]. split; [|split; [done|]].
  - intros ->. destruct (r_slot _ _ Hr _ _ Hat) as [(_ & Hc & _)|(? & ? & Hm & _)]; [|apply (mem_ne_neg _ _ Hr) in Hm; lia].
    destruct (r_slot _ _ Hr _ _ Hj) as [(-> & _)|(? & cj & _ & _ & Hcj & ? & ?)]; [done|].
    assert (cnt p !!! t <= cnt p !!! j) as Hle.
    { apply Hleast; [by pose proof (lookup_lt_Some _ _ _ Hj); lia|by apply list_lookup_total_correct]. }
    rewrite (list_lookup_total_correct _ _ _ Hc), (list_lookup_total_correct _ _ _ Hcj) in Hle. lia.
  - intros i ci Hri Hci. rewrite <- (list_lookup_total_correct _ _ _ Hci).
    apply Hleast; [pose proof (lookup_lt_Some _ _ _ Hci); lia|by apply list_lookup_total_correct].
Qed.

Lemma uncached_unpinned p g a : pool_rep p g → find_addr a p = None → pins g !! a = None.
Proof.
  intros Hr Hn. destruct (pins g !! a) as [[k c]|] eqn:E; [|done]. apply (r_pin _ _ Hr) in E as (Hk & _ & _ & Hne).
  by rewrite (find_addr_lookup _ _ Hr _ _ Hk) in Hn.
Qed.

(** the page that made room is in the file *)
Lemma evicted_on_disk p g p' g' k a b pb : pool_rep p g → pool_rep p' g' → addrs p' = <[k:=a]> (addrs p) → a ∉ addrs p →
  addrs p !! k = Some b → mem g' !! b = Some pb → ∃ f, fp (file p') = Some f ∧ page_at f b = Some pb.
Proof.
  intros Hr Hr' Ha Hn Hk Hm. destruct (r_disk _ _ Hr') as (f & Hf & _ & Hd). exists f. split; [done|].
  apply Hd; [done|]. rewrite Ha. intros (i & Hi)%list_elem_of_lookup.
  destruct (mem_ne_neg _ _ Hr' _ _ Hm) as [Hb _].
  apply list_lookup_insert_Some in Hi as [(-> & -> & _)|[Hne Hi]].
  - destruct Hn. by eapply list_elem_of_lookup_2.
  - apply Hne. eapply (r_uniq _ _ Hr); [exact Hk|exact Hi|lia].
Qed.

(** C25: the replacement policy: while some cached page is not pinned, a page
    that is not cached takes the slot of the unpinned page with the fewest hits
    since the last miss.  That page is written back: what was in the slot is in
    the file, at its address, and is read from there when the page is asked for
    again.  The slot gets the contents of the new page, pinned once, every other
    slot keeps its page, and a slot that is empty stays so. *)
Theorem cache_replaces_least_used p g a pg j b :
  pool_rep p g → mem g !! a = Some pg → a ∉ addrs p → 0 < hits g → (size (pins g) < 8)%nat →
  addrs p !! j = Some b → b ≠ -1 → ref p !! j = Some 0 →
  ∃ k b' old f p', get_page a p = Ok (k, p') ∧ addrs p' = <[k:=a]> (addrs p) ∧
    addrs p !! k = Some b' ∧ b' ≠ -1 ∧ pins g !! b' = None ∧
    (∀ i c, ref p !! i = Some 0 → cnt p !! i = Some c → cnt p !!! k <= c) ∧
    pages p !! k = Some old ∧ fp (file p') = Some f ∧ page_at f b' = Some old ∧
    pages p' !! k = Some pg ∧ ref p' !! k = Some 1 ∧
    pool_rep p' (PState (mem g) (plen g) (<[a:=(k, 1)]> (pins g)) (hits g - 1)).
Proof.
  intros Hr Hm Hn Hh Hs Hj Hb Hrj. destruct (mem_ne_neg _ _ Hr _ _ Hm) as [Hrange _].
  pose proof Hn as Hf. apply (cached_or_not p g a Hr ltac:(lia)) in Hf.
  destruct (wp_elim _ _ _ (awp_get_unpinned g a pg
    (λ k g', g' = PState (mem g) (plen g) (<[a:=(k, 1)]> (pins g)) (hits g - 1))
    Hm Hh (uncached_unpinned _ _ _ Hr Hf) Hs (λ _, eq_refl) p Hr)) as (k & p' & Hrun & g' & Hr' & ->).
  destruct (get_page_victim _ _ _ _ Hf Hrun) as [Hk Ha].
  destruct (victim_loaded _ _ _ _ _ Hr Hk Hj Hb Hrj) as (b' & Hb' & Hne & Hrk & Hleast).
  destruct (r_slot _ _ Hr _ _ Hb') as [[? _]|(old & c & Hmo & Hold & _)]; [done|].
  pose proof (evicted_on_disk _ _ _ _ _ _ _ _ Hr Hr' Ha Hn Hb' Hmo) as (f & Hfp & Hat).
  destruct (r_pin _ _ Hr' a k 1) as (Hka & Hkr & _); [apply lookup_insert_eq|].
  destruct (slot_full _ _ Hr' _ _ _ Hka Hm) as [Hpg _].
  exists k, b', old, f, p'. split_and!; try done. by eapply unpinned_slot.
Qed.

(** ** How full the cache becomes *)

(** the pages in the cache *)
Definition full_slots (l : list Z) : list Z := filter (λ a, a ≠ -1) l.
Definition loaded (p : BufferPool) : list Z := full_slots (addrs p).

Lemma loaded_insert l k a b : l !! k = Some b → a ≠ -1 →
  length (full_slots (<[k:=a]> l)) =
    (length (full_slots l) + if decide (b = -1)%Z then 1 else 0)%nat.
Proof.
  intros Hk Ha. pose proof (lookup_lt_Some _ _ _ Hk) as Hlt.
  rewrite (insert_take_drop _ _ _ Hlt). rewrite <- (take_drop_middle _ _ _ Hk) at 3.
  unfold full_slots. rewrite !filter_app, !length_app. rewrite !filter_cons. destruct (decide (a ≠ -1)); [|done].
  destruct (decide (b = -1)), (decide (b ≠ -1)); simpl; (lia || congruence).
Qed.

Lemma release_addrs a p p' : release a p = Ok (tt, p') → addrs p' = addrs p.
Proof.
  unfold release, gets, modify, mbind, M_bind. destruct (find_addr a p); by intros [= <-].
Qed.

(** pages that are used one after the other, each released before the next *)
Fixpoint use_pages (l : list Z) : M BufferPool unit :=
  match l with
  | [] => mret tt
  | a :: l => get_page a;; release a;; use_pages l
  end.

Lemma unpin_once m n a k h : unpin a (PState m n (<[a:=(k, 1)]> ∅) h) = PState m n ∅ h.
Proof. unfold unpin. cbn [pins mem plen hits]. rewrite lookup_insert_eq. by rewrite delete_insert_id. Qed.

Lemma use_page p g a : pool_rep p g → pins g = ∅ → 0 < hits g → is_Some (mem g !! a) →
  ∃ p', (get_page a;; release a) p = Ok (tt, p') ∧
    pool_rep p' (PState (mem g) (plen g) ∅ (hits g - 1)) ∧ (length (loaded p) <= 1 → length (loaded p') <= 1)%nat.
Proof.
  intros Hr Hp Hh [pg Hm]. destruct (mem_ne_neg _ _ Hr _ _ Hm) as [Hrange _].
  destruct (wp_elim _ _ _ (awp_get_unpinned g a pg (λ k g', g' = PState (mem g) (plen g) (<[a:=(k, 1)]> (pins g)) (hits g - 1))
    Hm Hh ltac:(by rewrite Hp) ltac:(rewrite Hp, map_size_empty; lia) (λ k, eq_refl) p Hr)) as (k & p1 & H1 & g1 & Hr1 & ->).
  rewrite Hp in Hr1.
  destruct (wp_elim _ _ _ (awp_release _ a k 1 (λ _ g', g' = PState (mem g) (plen g) ∅ (hits g - 1))
    (lookup_insert_eq ∅ a (k, 1)) (unpin_once _ _ _ _ _) p1 Hr1)) as ([] & p2 & H2 & g2 & Hr2 & ->).
  exists p2. split; [by rewrite (bind_ok _ _ _ _ _ H1)|]. split; [done|]. intros Hl.
  unfold loaded in *. rewrite (release_addrs _ _ _ H2).
  destruct (find_addr a p) as [k'|] eqn:Ef.
  - unfold get_page in H1. rewrite (bind_ok _ _ _ _ _ (eq_refl : gets _ p = _)), Ef in H1.
    unfold modify, mbind, M_bind, mret, M_ret in H1. by injection H1 as _ <-.
  - destruct (get_page_victim _ _ _ _ Ef H1) as [Hk ->].
    destruct (full_slots (addrs p)) as [|b l] eqn:El.
    + destruct (pick_target_least _ _ Hk) as (Hk8 & _).
      destruct (lookup_slot _ _ Hr k Hk8) as (c & _ & _ & _ & Hc & _).
      rewrite (loaded_insert _ _ _ _ Hc), El by lia. destruct (decide _); simpl; lia.
    + assert (b ∈ full_slots (addrs p)) as [Hb (j & Hj)%list_elem_of_lookup]%list_elem_of_filter.
      { rewrite El. by left. }
      assert (ref p !! j = Some 0) as Hrj.
      { destruct (lookup_slot _ _ Hr j) as (b' & ? & r & ? & Hj' & _ & Hrj & _); [exact (addrs_lt _ _ Hr _ _ Hj)|].
        destruct (decide (r = 0)) as [->|Hne]; [done|].
        destruct (r_ref _ _ Hr _ _ _ Hj' Hrj) as [_ Hpin]. specialize (Hpin Hne). by rewrite Hp, lookup_empty in Hpin. }
      destruct (victim_loaded _ _ _ _ _ Hr Hk Hj Hb Hrj) as (b' & Hb' & Hne & _).
      rewrite (loaded_insert _ _ _ _ Hb'), El by lia. destruct (decide _); [done|]. lia.
Qed.

(** when the pages of an open file are used one after the other, the cache of
    eight pages never holds more than one of them *)
Lemma one_page_cached l : ∀ p g, pool_rep p g → pins g = ∅ → Z.of_nat (length l) <= hits g →
  Forall (λ a, is_Some (mem g !! a)) l → (length (loaded p) <= 1)%nat →
  ∃ p', use_pages l p = Ok (tt, p') ∧ (length (loaded p') <= 1)%nat.
Proof.
  induction l as [|a l IH]; intros p g Hr Hp Hh Hl Hc; [by exists p|].
  apply Forall_cons in Hl as [Ha Hl]. simpl in Hh.
  destruct (use_page _ _ _ Hr Hp ltac:(lia) Ha) as (p1 & (k & q & H1 & H2)%bind_run & Hr1 & Hc1).
  destruct (IH p1 _ Hr1 eq_refl ltac:(simpl; lia) Hl (Hc1 Hc)) as (p2 & H3 & Hc2). exists p2. split; [|done].
  cbn [use_pages]. by rewrite (bind_ok _ _ _ _ _ H1), (bind_ok _ _ _ _ _ H2).
Qed.

(** the file of [two_pages_pool] has grown to three pages, of which the first
    is no longer cached *)
Definition third_page : M BufferPool unit := release 0;; get_page 256;; release 256.
Definition third_page_pool : BufferPool :=
  match third_page two_pages_pool with Ok (_, p) => p | _ => two_pages_pool end.
Definition third_page_store : pstate :=
  PState (<[256:=EMPTY_PAGE]> (mem two_pages_store)) 384 ∅ (SIZE_MAX - 4).

Lemma third_page_ok : awp third_page (λ _ g', g' = third_page_store) two_pages_store.
Proof.
  unfold third_page. awp_step. eapply awp_release; [reflexivity|].
  change (unpin 0 two_pages_store) with (PState (mem two_pages_store) 256 (delete 0 {[0 := (0%nat, 1)]}) (SIZE_MAX - 3)).
  rewrite delete_singleton_eq. awp_step.
  apply (awp_get_past (PState _ 256 _ _)); [reflexivity|vm_compute; lia|discriminate|reflexivity|].
  intros k. cbn [mem plen pins hits]. eapply awp_release; [apply lookup_insert_eq|]. by rewrite unpin_once.
Qed.

Lemma third_page_rep : pool_rep third_page_pool third_page_store.
Proof.
  destruct (wp_elim _ _ _ (third_page_ok two_pages_pool two_pages_rep)) as ([] & p & E & g' & Hr & ->).
  unfold third_page_pool. by rewrite E.
Qed.

Lemma cache_replaces_least_used_witness : ∃ k b old f p',
  get_page 0 third_page_pool = Ok (k, p') ∧ addrs p' = <[k:=0]> (addrs third_page_pool) ∧
  addrs third_page_pool !! k = Some b ∧ b ≠ -1 ∧ pins third_page_store !! b = None ∧
  (∀ i c, ref third_page_pool !! i = Some 0 → cnt third_page_pool !! i = Some c →
    cnt third_page_pool !!! k <= c) ∧
  pages third_page_pool !! k = Some old ∧ fp (file p') = Some f ∧ page_at f b = Some old ∧
  pages p' !! k = Some EMPTY_PAGE ∧ ref p' !! k = Some 1 ∧
  pool_rep p' (PState (mem third_page_store) 384 {[0 := (k, 1)]} (SIZE_MAX - 5)).
Proof.
  apply (cache_replaces_least_used third_page_pool third_page_store 0 EMPTY_PAGE 0%nat 256 third_page_rep).
  - vm_compute. reflexivity.
  - apply (bool_decide_unpack _). vm_compute. exact I.
  - vm_compute. reflexivity.
  - vm_compute. lia.
  - vm_compute. reflexivity.
  - discriminate.
  - vm_compute. reflexivity.
Defined.
