(* ===== verification/Block.v ===== *)
(** Slotted pages ([include/block.h], [src/block.c]): a page holds a header,
    an array of 32-bit item identifiers growing up and the items growing down
    from the end of the page. *)
From stdpp Require Import base gmap list.
From Stdlib Require Import ZArith Lia Strings.Byte.
From S2P Require Import Prelude FileIO.
#[local] Open Scope Z_scope.

(** ** The layout

    A [Block] is the 128 bytes of a page: [n_items], [head_ptr] and
    [tail_ptr] are shorts at offsets 0, 2 and 4 and [data] starts at 6. *)

Definition off_n_items : Z := 0.
Definition off_head_ptr : Z := 2.
Definition off_tail_ptr : Z := 4.
Definition off_data : Z := 6.

(** ** Item identifiers *)

Definition get_item_id_availability (item_id : Z) : Z := Z.land (Z.shiftr item_id 30) 1.
Definition get_item_id_offset (item_id : Z) : Z :=
  Z.land (Z.shiftr item_id 15) (Z.shiftl 1 15 - 1).
Definition get_item_id_size (item_id : Z) : Z := Z.land item_id (Z.shiftl 1 15 - 1).

Definition compose_item_id (availability offset size : Z) : Z :=
  Z.lor (Z.lor (Z.shiftl (Z.land availability 1) 30)
               (Z.shiftl (Z.land offset (Z.shiftl 1 15 - 1)) 15))
        (Z.land size (Z.shiftl 1 15 - 1)).

(** [get_item_id(block, idx)], read and assigned *)
Definition get_item_id (idx : Z) : M Page Z := rd_u32 (off_data + 4 * idx).
Definition set_item_id (idx id : Z) : M Page unit := wr_32 (off_data + 4 * idx) id.

(** ** Operations *)

Definition init_block : M Page unit :=
  wr_16 off_n_items 0;;
  wr_16 off_head_ptr off_data;;
  wr_16 off_tail_ptr PAGE_SIZE.

(** [get_item]: the offset of the item in the page, or NULL *)
Definition get_item (idx : Z) : M Page (option Z) :=
  n_items ← rd_i16 off_n_items;
  if (idx <? 0) || (n_items <=? idx) then mret None
  else
    item_id ← get_item_id idx;
    if negb (get_item_id_availability item_id =? 0) then mret None
    else mret (Some (swrap 16 (get_item_id_offset item_id))).

(** [memcpy] of [n] bytes of [src] to offset [off] of the block *)
Definition memcpy_to (off : Z) (src : list byte) (n : Z) : M Page unit :=
  need ((0 <=? n) && (n <=? Z.of_nat (length src)));;
  wr off (take (Z.to_nat n) src).

(** the item and its identifier are written below [tail_ptr] *)
Definition place_item (idx : Z) (item : list byte) (item_size : Z) : M Page unit :=
  tail_ptr ← rd_i16 off_tail_ptr;
  set_item_id idx (compose_item_id 0 (tail_ptr - item_size) item_size);;
  tail_ptr ← rd_i16 off_tail_ptr;
  memcpy_to (tail_ptr - item_size) item item_size.

Definition new_item (item : list byte) (item_size : Z) : M Page Z :=
  n_items ← rd_i16 off_n_items;
  i ← find_lt 0 n_items (λ i,
        item_id ← get_item_id i;
        mret (negb (get_item_id_availability item_id =? 0)));
  if i <? n_items then
    place_item i item item_size;;
    tail_ptr ← rd_i16 off_tail_ptr;
    wr_16 off_tail_ptr (tail_ptr - item_size);;
    mret i
  else
    idx ← rd_i16 off_n_items;
    place_item n_items item item_size;;
    n ← rd_i16 off_n_items;
    wr_16 off_n_items (n + 1);;
    tail_ptr ← rd_i16 off_tail_ptr;
    wr_16 off_tail_ptr (tail_ptr - item_size);;
    head_ptr ← rd_i16 off_head_ptr;
    wr_16 off_head_ptr (head_ptr + 4);;
    mret idx.

(** the slide of [delete_item]: [cp_target[i] = cp_start[i]], from the last
    byte to the first *)
Definition slide_items (start target len : Z) : M Page unit :=
  for_down (len - 1) (-1) (λ i, b ← rd (start + i) 1; wr (target + i) b).

(** the loop of [delete_item] over the identifiers *)
Definition shift_ids (item_offset item_size n : Z) : M Page unit :=
  for_ne 0 n (λ i,
    item_id ← get_item_id i;
    let tmp_offset := get_item_id_offset item_id in
    if get_item_id_availability item_id =? 0 then
      if tmp_offset <? item_offset then
        set_item_id i (compose_item_id 0 (tmp_offset + item_size) (get_item_id_size item_id))
      else mret tt
    else mret tt).

Definition delete_item (idx : Z) : M Page unit :=
  item_id ← get_item_id idx;
  let item_size := get_item_id_size item_id in
  let item_offset := get_item_id_offset item_id in
  set_item_id idx (compose_item_id 1 item_offset item_size);;
  tail0 ← rd_i16 off_tail_ptr;
  wr_16 off_tail_ptr (tail0 + item_size);;
  tail_ptr ← rd_i16 off_tail_ptr;
  slide_items (tail_ptr - item_size) tail_ptr (item_offset - tail_ptr + item_size);;
  n_items ← rd_i16 off_n_items;
  shift_ids item_offset item_size n_items;;
  itemID_last ← get_item_id (n_items - 1);
  if negb (get_item_id_availability itemID_last =? 0) then
    head_ptr ← rd_i16 off_head_ptr;
    wr_16 off_head_ptr (head_ptr - 4);;
    n ← rd_i16 off_n_items;
    wr_16 off_n_items (n - 1)
  else mret tt.

(** ** Item identifiers pack and unpack *)

Lemma lor_shiftl_add x s n : 0 <= n → 0 <= s < 2 ^ n → Z.lor (Z.shiftl x n) s = x * 2 ^ n + s.
Proof.
  intros Hn Hs. rewrite <- Z.add_lor_land, Z.shiftl_mul_pow2 by done.
  assert (Z.land (x * 2 ^ n) s = 0) as ->; [|lia].
  apply Z.bits_inj'. intros i Hi. rewrite Z.land_spec, Z.bits_0.
  destruct (Z.lt_ge_cases i n).
  - by rewrite Z.mul_pow2_bits_low by done.
  - rewrite andb_comm. rewrite <- (Z.mod_small s (2 ^ n)) by done.
    by rewrite Z.mod_pow2_bits_high by lia.
Qed.

Lemma compose_item_id_value a o s :
  0 <= a < 2 → 0 <= o < 2 ^ 15 → 0 <= s < 2 ^ 15 →
  compose_item_id a o s = a * 2 ^ 30 + o * 2 ^ 15 + s.
Proof.
  intros Ha Ho Hs. unfold compose_item_id.
  change 1 with (Z.ones 1) at 1. change (Z.shiftl 1 15 - 1) with (Z.ones 15).
  rewrite !Z.land_ones by lia.
  rewrite (Z.mod_small a), (Z.mod_small o), (Z.mod_small s) by lia.
  rewrite <- Z.lor_assoc, (lor_shiftl_add o s 15) by lia.
  rewrite lor_shiftl_add by lia. lia.
Qed.

Section item_id.
Context (a o s : Z) (Ha : 0 <= a < 2) (Ho : 0 <= o < 2 ^ 15) (Hs : 0 <= s < 2 ^ 15).

Lemma compose_item_id_range : 0 <= compose_item_id a o s < 2 ^ 32.
Proof. rewrite compose_item_id_value by done. lia. Qed.

Lemma availability_compose : get_item_id_availability (compose_item_id a o s) = a.
Proof.
  rewrite compose_item_id_value by done. unfold get_item_id_availability.
  change 1 with (Z.ones 1). rewrite Z.land_ones, Z.shiftr_div_pow2 by lia.
  replace (a * 2 ^ 30 + o * 2 ^ 15 + s) with (a * 2 ^ 30 + (o * 2 ^ 15 + s)) by lia.
  rewrite Z.div_add_l, (Z.div_small (o * 2 ^ 15 + s)), Z.add_0_r by lia.
  apply Z.mod_small. lia.
Qed.

Lemma offset_compose : get_item_id_offset (compose_item_id a o s) = o.
Proof.
  rewrite compose_item_id_value by done. unfold get_item_id_offset.
  change (Z.shiftl 1 15 - 1) with (Z.ones 15).
  rewrite Z.land_ones, Z.shiftr_div_pow2 by lia.
  replace (a * 2 ^ 30 + o * 2 ^ 15 + s) with ((a * 2 ^ 15 + o) * 2 ^ 15 + s) by lia.
  rewrite Z.div_add_l, (Z.div_small s), Z.add_0_r by lia.
  rewrite Z.add_comm, Z.mod_add by lia. by apply Z.mod_small.
Qed.

Lemma size_compose : get_item_id_size (compose_item_id a o s) = s.
Proof.
  rewrite compose_item_id_value by done. unfold get_item_id_size.
  change (Z.shiftl 1 15 - 1) with (Z.ones 15). rewrite Z.land_ones by lia.
  replace (a * 2 ^ 30 + o * 2 ^ 15 + s) with (s + (a * 2 ^ 15 + o) * 2 ^ 15) by lia.
  rewrite Z.mod_add by lia. by apply Z.mod_small.
Qed.
End item_id.

Lemma offset_size_range id :
  0 <= get_item_id_offset id < 2 ^ 15 ∧ 0 <= get_item_id_size id < 2 ^ 15.
Proof.
  unfold get_item_id_offset, get_item_id_size.
  change (Z.shiftl 1 15 - 1) with (Z.ones 15). rewrite !Z.land_ones by lia.
  split; apply Z.mod_pos_bound; lia.
Qed.

(** ** The abstract block: its items by index, [None] where an identifier is
    available for reuse *)

Abbreviation items_t := (list (option (list byte))).

Definition used_bytes (items : items_t) : Z :=
  foldr (λ o acc, match o with Some bs => Z.of_nat (length bs) | None => 0 end + acc) 0 items.

(** bytes between [head_ptr] and [tail_ptr] *)
Definition free_space (items : items_t) : Z :=
  PAGE_SIZE - used_bytes items - (off_data + 4 * Z.of_nat (length items)).

Definition item_id_at (pg : Page) (i : nat) : Z := get_u 4 pg (off_data + 4 * Z.of_nat i).
Definition offset_at (pg : Page) (i : nat) : Z := get_item_id_offset (item_id_at pg i).

Record block_rep (pg : Page) (items : items_t) : Prop := {
  b_len : length pg = 128%nat;
  b_n_items : get_s 2 pg off_n_items = Z.of_nat (length items);
  b_head : get_s 2 pg off_head_ptr = off_data + 4 * Z.of_nat (length items);
  b_tail : get_s 2 pg off_tail_ptr = PAGE_SIZE - used_bytes items;
  b_fit : 0 <= free_space items;
  b_avail : ∀ i, items !! i = Some None →
    get_item_id_availability (item_id_at pg i) = 1;
  b_used : ∀ i bs, items !! i = Some (Some bs) →
    get_item_id_availability (item_id_at pg i) = 0 ∧
    get_item_id_size (item_id_at pg i) = Z.of_nat (length bs) ∧ (0 < length bs)%nat ∧
    PAGE_SIZE - used_bytes items <= offset_at pg i ∧
    offset_at pg i + Z.of_nat (length bs) <= PAGE_SIZE ∧
    slice (Z.to_nat (offset_at pg i)) (length bs) pg = bs;
  b_disjoint : ∀ i j bi bj, i ≠ j →
    items !! i = Some (Some bi) → items !! j = Some (Some bj) →
    offset_at pg i + Z.of_nat (length bi) <= offset_at pg j ∨
    offset_at pg j + Z.of_nat (length bj) <= offset_at pg i;
}.

Lemma used_bytes_nonneg items : 0 <= used_bytes items.
Proof. induction items as [|[bs|] items IH]; simpl; lia. Qed.

Lemma used_bytes_app l1 l2 : used_bytes (l1 ++ l2) = used_bytes l1 + used_bytes l2.
Proof. induction l1 as [|[bs|] l1 IH]; simpl; rewrite ?IH; lia. Qed.

Definition item_bytes (o : option (list byte)) : Z :=
  match o with Some bs => Z.of_nat (length bs) | None => 0 end.

Lemma used_bytes_insert items i o x :
  items !! i = Some o → used_bytes (<[i:=x]> items) = used_bytes items - item_bytes o + item_bytes x.
Proof.
  revert i. induction items as [|o' items IH]; intros [|i] Hi; simplify_eq/=.
  - unfold item_bytes. lia.
  - rewrite (IH _ Hi). unfold item_bytes. lia.
Qed.

(** ** Frames: what a write leaves alone *)

Lemma wr_frame off bs (o : list byte) :
  0 <= off → off + Z.of_nat (length bs) <= Z.of_nat (length o) →
  length (splice (Z.to_nat off) bs o) = length o ∧
  slice (Z.to_nat off) (length bs) (splice (Z.to_nat off) bs o) = bs ∧
  ∀ off' n, 0 <= off' → off' + Z.of_nat n <= off ∨ off + Z.of_nat (length bs) <= off' →
    slice (Z.to_nat off') n (splice (Z.to_nat off) bs o) = slice (Z.to_nat off') n o.
Proof.
  intros H1 H2. split_and!.
  - apply splice_length. lia.
  - apply slice_splice_eq. lia.
  - intros. apply slice_splice_ne; lia.
Qed.

Lemma set_i_frame n off v (o : list byte) :
  0 <= off → off + Z.of_nat n <= Z.of_nat (length o) →
  length (set_i n off v o) = length o ∧
  slice (Z.to_nat off) n (set_i n off v o) = le_enc n v ∧
  ∀ off' m, 0 <= off' → off' + Z.of_nat m <= off ∨ off + Z.of_nat n <= off' →
    slice (Z.to_nat off') m (set_i n off v o) = slice (Z.to_nat off') m o.
Proof.
  intros H1 H2. unfold set_i. pose proof (le_enc_length n v) as Hl.
  destruct (wr_frame off (le_enc n v) o) as (Ha & Hb & Hc); [done|lia|].
  rewrite Hl in Hb. split_and!; [done|done|]. intros. apply Hc; [done|lia].
Qed.

(** the effect of [place_item] *)
Definition placed (i : nat) (item : list byte) (tail : Z) (pg pg' : Page) : Prop :=
  length pg' = 128%nat ∧
  item_id_at pg' i = compose_item_id 0 (tail - Z.of_nat (length item)) (Z.of_nat (length item)) ∧
  slice (Z.to_nat (tail - Z.of_nat (length item))) (length item) pg' = item ∧
  ∀ off n, 0 <= off →
    off + Z.of_nat n <= off_data + 4 * Z.of_nat i ∨ off_data + 4 * Z.of_nat i + 4 <= off →
    off + Z.of_nat n <= tail - Z.of_nat (length item) ∨ tail <= off →
    slice (Z.to_nat off) n pg' = slice (Z.to_nat off) n pg.

Lemma place_item_placed pg (i : nat) item tail :
  length pg = 128%nat → get_s 2 pg off_tail_ptr = tail → tail <= PAGE_SIZE →
  off_data + 4 * Z.of_nat i + 4 <= tail - Z.of_nat (length item) →
  wp (place_item (Z.of_nat i) item (Z.of_nat (length item)))
     (λ _ pg', placed i item tail pg pg') pg.
Proof.
  intros Hlen Ht Htm Hfit. unfold place_item, off_data, PAGE_SIZE, off_tail_ptr in *.
  wp_step. apply wp_rd_s; [lia..|]. rewrite Ht.
  set (id := compose_item_id _ _ _).
  wp_step. apply wp_wr_i; [unfold off_data; lia..|]. unfold off_data.
  destruct (set_i_frame 4 (6 + 4 * Z.of_nat i) id pg) as (L1 & E1 & F1); [lia..|].
  set (pg1 := set_i _ _ _ _) in *. rewrite Hlen in L1.
  wp_step. apply wp_rd_s; [lia..|].
  assert (get_s 2 pg1 4 = tail) as ->.
  { unfold get_s. rewrite F1 by lia. done. }
  unfold memcpy_to. wp_step. apply wp_need.
  { rewrite andb_true_iff, !Z.leb_le. lia. }
  rewrite Nat2Z.id, take_ge by lia.
  destruct (wr_frame (tail - Z.of_nat (length item)) item pg1) as (L2 & E2 & F2); [lia..|].
  apply wp_wr; [lia..|]. rewrite L1 in L2.
  set (pg2 := splice _ _ _) in *. unfold placed. split_and!; [done| |done|].
  - unfold item_id_at, get_u, off_data. rewrite F2, E1 by lia. apply dec_u_enc.
    unfold in_u. change (8 * Z.of_nat 4) with 32. apply compose_item_id_range; lia.
  - unfold off_data. intros off n Hoff Hd1 Hd2. rewrite F2 by lia. apply F1; lia.
Qed.

(** One more used item, at an index that was not used. *)
Lemma block_rep_place pg pg' items items' i item :
  block_rep pg items → (∀ bs, items !! i ≠ Some (Some bs)) →
  items' !! i = Some (Some item) → (∀ j, j ≠ i → items' !! j = items !! j) →
  used_bytes items' = used_bytes items + Z.of_nat (length item) →
  (0 < length item)%nat → 0 <= free_space items' →
  length pg' = 128%nat →
  get_s 2 pg' off_n_items = Z.of_nat (length items') →
  get_s 2 pg' off_head_ptr = off_data + 4 * Z.of_nat (length items') →
  get_s 2 pg' off_tail_ptr = PAGE_SIZE - used_bytes items' →
  item_id_at pg' i =
    compose_item_id 0 (PAGE_SIZE - used_bytes items') (Z.of_nat (length item)) →
  slice (Z.to_nat (PAGE_SIZE - used_bytes items')) (length item) pg' = item →
  (∀ off n, off_data <= off →
    off + Z.of_nat n <= off_data + 4 * Z.of_nat i ∨ off_data + 4 * Z.of_nat i + 4 <= off →
    off + Z.of_nat n <= PAGE_SIZE - used_bytes items' ∨ PAGE_SIZE - used_bytes items <= off →
    slice (Z.to_nat off) n pg' = slice (Z.to_nat off) n pg) →
  block_rep pg' items'.
Proof.
  intros Hr Hno Hi Hother Hused Hpos Hfit Hlen Hn Hh Ht Hid Hsl Hframe.
  pose proof (used_bytes_nonneg items) as Hu0.
  assert (i < length items')%nat as Hi' by (by eapply lookup_lt_Some).
  unfold free_space, PAGE_SIZE, off_data in *.
  assert (0 <= 128 - used_bytes items' < 2 ^ 15) as Hor by lia.
  assert (0 <= Z.of_nat (length item) < 2 ^ 15) as Hsr by lia.
  assert (∀ j, j ≠ i → (j < length items')%nat → item_id_at pg' j = item_id_at pg j) as Hids.
  { intros j Hne Hj. unfold item_id_at, get_u, off_data. rewrite Hframe by lia. done. }
  assert (offset_at pg' i = 128 - used_bytes items') as Hoi.
  { unfold offset_at. rewrite Hid. apply offset_compose; lia. }
  assert (∀ j bs, j ≠ i → items' !! j = Some (Some bs) → (j < length items')%nat ∧
    items !! j = Some (Some bs) ∧ offset_at pg' j = offset_at pg j) as Hj.
  { intros j bs Hne Hj. pose proof (lookup_lt_Some _ _ _ Hj) as Hlt.
    rewrite Hother in Hj by done. unfold offset_at. by rewrite Hids. }
  constructor; unfold free_space, PAGE_SIZE, off_data in *; try done.
  - intros j Hnone. destruct (decide (j = i)) as [->|]; [congruence|].
    rewrite Hids by (done || by eapply lookup_lt_Some). apply (b_avail _ _ Hr).
    by rewrite <- Hother.
  - intros j bs Hb. destruct (decide (j = i)) as [->|Hne].
    + simplify_eq. rewrite Hoi, Hid, availability_compose, size_compose by lia.
      split_and!; [done|done|done|lia|lia|done].
    + destruct (Hj j bs Hne Hb) as (Hlt & Hb0 & Ho). rewrite Hids, Ho by done.
      destruct (b_used _ _ Hr _ _ Hb0) as (A & B & C & D & E & F).
      unfold PAGE_SIZE in *. split_and!; [done|done|done|lia|done|].
      rewrite Hframe by lia. done.
  - intros j k bj bk Hne Hbj Hbk.
    destruct (decide (j = i)) as [->|Hj1], (decide (k = i)) as [->|Hk1]; [done|..].
    + destruct (Hj k bk Hk1 Hbk) as (_ & Hb0 & Ho). rewrite Hoi, Ho. simplify_eq.
      destruct (b_used _ _ Hr _ _ Hb0) as (_ & _ & _ & ? & _). unfold PAGE_SIZE in *. lia.
    + destruct (Hj j bj Hj1 Hbj) as (_ & Hb0 & Ho). rewrite Hoi, Ho. simplify_eq.
      destruct (b_used _ _ Hr _ _ Hb0) as (_ & _ & _ & ? & _). unfold PAGE_SIZE in *. lia.
    + destruct (Hj j bj Hj1 Hbj) as (_ & Hb1 & ->), (Hj k bk Hk1 Hbk) as (_ & Hb2 & ->).
      by eapply (b_disjoint _ _ Hr).
Qed.

(** the index [new_item] uses: the first available identifier, else a new one *)
Definition first_free (items : items_t) : option nat :=
  fst <$> list_find (λ o, o = None) items.
Definition new_index (items : items_t) : nat := default (length items) (first_free items).
Definition add_item (items : items_t) (bs : list byte) : items_t :=
  match first_free items with
  | Some i => <[i := Some bs]> items
  | None => items ++ [Some bs]
  end.

Lemma find_free_spec pg items (Φ : Z → Page → Prop) :
  block_rep pg items → Φ (Z.of_nat (new_index items)) pg →
  wp (find_lt 0 (Z.of_nat (length items)) (λ i,
        item_id ← get_item_id i;
        mret (negb (get_item_id_availability item_id =? 0)))) Φ pg.
Proof.
  intros Hr HΦ. unfold find_lt. rewrite Z.sub_0_r, Nat2Z.id.
  pose proof (b_len _ _ Hr) as Hl. pose proof (b_fit _ _ Hr) as Hf.
  pose proof (used_bytes_nonneg items) as Hu.
  unfold free_space, PAGE_SIZE, off_data in Hf.
  apply wp_iter_find with
    (P := λ i, negb (get_item_id_availability (item_id_at pg (Z.to_nat i)) =? 0)).
  - intros i Hi. wp_step. unfold get_item_id. apply wp_rd_u; unfold off_data; [lia..|].
    wp_step. split; [|done]. unfold item_id_at, off_data. do 5 f_equal. lia.
  - intros i Hi Hbefore Hat. replace i with (Z.of_nat (new_index items)); [done|].
    assert (∀ j, (j < length items)%nat →
      negb (get_item_id_availability (item_id_at pg j) =? 0) = true ↔ items !! j = Some None)
      as Hav.
    { intros j Hj. destruct (lookup_lt_is_Some_2 items j Hj) as [[bs|] Hb].
      - destruct (b_used _ _ Hr _ _ Hb) as [-> _]. rewrite Hb. by split.
      - rewrite (b_avail _ _ Hr _ Hb), Hb. by split. }
    unfold new_index, first_free. destruct (list_find _ items) as [[k o]|] eqn:E; simpl.
    + apply list_find_Some in E as (Hk & -> & Hlt).
      pose proof (lookup_lt_Some _ _ _ Hk) as Hkl.
      destruct (Z.lt_trichotomy (Z.of_nat k) i) as [H1|[H1|H1]]; [|done|].
      * specialize (Hbefore (Z.of_nat k) ltac:(lia)). rewrite Nat2Z.id in Hbefore.
        apply Hav in Hk; [|done]. congruence.
      * specialize (Hat ltac:(lia)). apply Hav in Hat; [|lia].
        by destruct (Hlt (Z.to_nat i) None Hat ltac:(lia)).
    + apply list_find_None in E. rewrite Forall_lookup in E.
      destruct (Z.lt_ge_cases i (Z.of_nat (length items))); [|lia].
      specialize (Hat ltac:(lia)). apply Hav in Hat; [|lia]. by apply E in Hat.
Qed.

(** the space a new item takes: its bytes, and an identifier when none is free *)
Definition add_cost (items : items_t) (bs : list byte) : Z :=
  Z.of_nat (length bs) + (if first_free items then 0 else 4).

Lemma first_free_Some items i : first_free items = Some i → items !! i = Some None.
Proof.
  unfold first_free. destruct (list_find _ items) as [[k o]|] eqn:E; [|done].
  intros [= <-]. apply list_find_Some in E. naive_solver.
Qed.

Lemma add_item_facts items bs :
  add_item items bs !! new_index items = Some (Some bs) ∧
  (∀ j, j ≠ new_index items → add_item items bs !! j = items !! j) ∧
  (∀ b, items !! new_index items ≠ Some (Some b)) ∧
  used_bytes (add_item items bs) = used_bytes items + Z.of_nat (length bs) ∧
  length (add_item items bs) = (length items + if first_free items then 0 else 1)%nat.
Proof.
  unfold add_item, new_index. destruct (first_free items) as [i|] eqn:E; simpl.
  - apply first_free_Some in E. pose proof (lookup_lt_Some _ _ _ E). split_and!.
    + by apply list_lookup_insert_eq.
    + intros j Hj. by apply list_lookup_insert_ne.
    + congruence.
    + rewrite (used_bytes_insert _ _ _ _ E). simpl. lia.
    + rewrite length_insert. lia.
  - split_and!.
    + by rewrite lookup_app_r, Nat.sub_diag by lia.
    + intros j Hj. destruct (decide (j < length items)%nat).
      * by rewrite lookup_app_l.
      * rewrite !lookup_ge_None_2; [done|lia|]. rewrite length_app. simpl. lia.
    + rewrite lookup_ge_None_2; [done|lia].
    + rewrite used_bytes_app. simpl. lia.
    + rewrite length_app. done.
Qed.

Lemma add_item_fit items bs :
  add_cost items bs <= free_space items → 0 <= free_space (add_item items bs).
Proof.
  destruct (add_item_facts items bs) as (_ & _ & _ & Hu & Hl).
  unfold free_space, add_cost. rewrite Hu, Hl. destruct (first_free items); lia.
Qed.

Lemma in_s16 z : - 32768 <= z < 32768 → in_s (8 * Z.of_nat 2) z.
Proof. intros H. unfold in_s. change (8 * Z.of_nat 2 - 1) with 15. lia. Qed.

(** reads of the header after a header write *)
Lemma get_s_header off v off' (o : list byte) :
  (128 <= length o)%nat → - 32768 <= v < 32768 →
  In off [0; 2; 4] → In off' [0; 2; 4] →
  get_s 2 (set_i 2 off v o) off' = if off =? off' then v else get_s 2 o off'.
Proof.
  intros Hl Hv Ho Ho'. destruct (Z.eqb_spec off off') as [<-|Hne].
  - simpl in Ho. apply get_s_set_eq; [lia|lia|lia|by apply in_s16].
  - simpl in *. apply get_s_set_ne; lia.
Qed.

Lemma set_header_frame off v (o : list byte) :
  (128 <= length o)%nat → In off [0; 2; 4] →
  length (set_i 2 off v o) = length o ∧
  ∀ off' n, off_data <= off' → slice (Z.to_nat off') n (set_i 2 off v o) = slice (Z.to_nat off') n o.
Proof.
  intros Hl Ho. simpl in Ho. unfold off_data.
  destruct (set_i_frame 2 off v o) as (H1 & _ & H2); [lia|lia|]. split; [done|].
  intros off' n Ho'. apply H2; lia.
Qed.

Ltac hdr := rewrite get_s_header; [|lia|lia|simpl; tauto|simpl; tauto].

(** *** A new item *)

Section new_item.
Context (pg : Page) (items : items_t) (bs : list byte) (tail : Z) (Etail : tail = PAGE_SIZE - used_bytes items).
Context (Hr : block_rep pg items) (Hpos : (0 < length bs)%nat) (Hfit : add_cost items bs <= free_space items).

Lemma new_item_room : 6 + 4 * Z.of_nat (new_index items) + 4 <= tail - Z.of_nat (length bs) ∧
  6 + 4 * Z.of_nat (length (add_item items bs)) <= tail - Z.of_nat (length bs) ∧ 0 <= tail <= 128.
Proof using Etail Hr Hpos Hfit.
  pose proof (add_item_fit _ _ Hfit) as Hfit'. destruct (add_item_facts items bs) as (Hi & _ & _ & Hu & _).
  pose proof (lookup_lt_Some _ _ _ Hi). pose proof (used_bytes_nonneg items). pose proof (b_fit _ _ Hr).
  unfold free_space, PAGE_SIZE, off_data in *. rewrite Hu in Hfit'. lia.
Qed.

(** the header after the item has been placed *)
Lemma placed_header pg1 : placed (new_index items) bs tail pg pg1 →
  length pg1 = 128%nat ∧ get_s 2 pg1 0 = Z.of_nat (length items) ∧
  get_s 2 pg1 2 = 6 + 4 * Z.of_nat (length items) ∧ get_s 2 pg1 4 = tail.
Proof using Etail Hr Hpos Hfit.
  intros (Hl1 & _ & _ & Hfr). destruct new_item_room as (Hroom & _). unfold off_data in Hfr.
  unfold get_s. rewrite !Hfr by lia. split; [done|].
  split; [apply (b_n_items _ _ Hr)|]. split; [apply (b_head _ _ Hr)|]. rewrite Etail. apply (b_tail _ _ Hr).
Qed.

(** ... and the page when the header has been brought up to date *)
Lemma placed_rep pg1 pg' : placed (new_index items) bs tail pg pg1 → length pg' = 128%nat →
  get_s 2 pg' 0 = Z.of_nat (length (add_item items bs)) →
  get_s 2 pg' 2 = 6 + 4 * Z.of_nat (length (add_item items bs)) →
  get_s 2 pg' 4 = tail - Z.of_nat (length bs) →
  (∀ off n, 6 <= off → slice (Z.to_nat off) n pg' = slice (Z.to_nat off) n pg1) →
  block_rep pg' (add_item items bs).
Proof using Etail Hr Hpos Hfit.
  intros (_ & Hid & Hsl & Hfr) Hlen' H0 H2 H4 Hsame. destruct new_item_room as (Hroom & _ & Htm).
  destruct (add_item_facts items bs) as (Hi & Hother & Hno & Hu & Hl). pose proof (add_item_fit _ _ Hfit) as Hfit'.
  assert (PAGE_SIZE - used_bytes (add_item items bs) = tail - Z.of_nat (length bs)) as Et' by (rewrite Hu; lia).
  eapply (block_rep_place pg pg' items _ (new_index items) bs); try done; rewrite ?Et', <- ?Etail; unfold off_data in *; try done.
  - rewrite <- Hid. unfold item_id_at, get_u, off_data. by rewrite Hsame by lia.
  - by rewrite Hsame by lia.
  - intros off n Ho Hd1 Hd2. rewrite Hsame by done. apply Hfr; lia.
Qed.

(** the identifier of an item that was deleted is used again *)
Lemma new_item_reuse i : first_free items = Some i →
  wp (place_item (Z.of_nat i) bs (Z.of_nat (length bs));;
      tail_ptr ← rd_i16 off_tail_ptr;
      wr_16 off_tail_ptr (tail_ptr - Z.of_nat (length bs));;
      mret (Z.of_nat i)) (λ i' pg', i' = Z.of_nat i ∧ block_rep pg' (add_item items bs)) pg.
Proof using Etail Hr Hpos Hfit.
  intros E. destruct new_item_room as (Hroom & Hroom' & Htm), (add_item_facts items bs) as (_ & _ & _ & _ & Hl). rewrite E in Hl.
  assert (new_index items = i) as Hix by (unfold new_index; by rewrite E).
  wp_step. eapply wp_mono.
  { apply (place_item_placed pg i bs tail); [apply Hr|rewrite (b_tail _ _ Hr); lia|unfold PAGE_SIZE; lia|unfold off_data; lia]. }
  intros [] pg1 Hp. rewrite <- Hix in Hp. destruct (placed_header pg1 Hp) as (L & G0 & G2 & G4). unfold off_tail_ptr.
  wp_step. apply wp_rd_s; [lia..|]. rewrite G4. wp_step. apply wp_wr_i; [lia..|]. wp_step. split; [done|].
  destruct (set_header_frame 4 (tail - Z.of_nat (length bs)) pg1) as [L' F']; [lia|simpl; auto|]. unfold off_data in F'.
  apply (placed_rep pg1); [done|congruence|..|done]; hdr; simpl; lia.
Qed.

(** a new identifier is taken *)
Lemma new_item_append : first_free items = None →
  wp (idx ← rd_i16 off_n_items;
      place_item (Z.of_nat (length items)) bs (Z.of_nat (length bs));;
      n ← rd_i16 off_n_items;
      wr_16 off_n_items (n + 1);;
      tail_ptr ← rd_i16 off_tail_ptr;
      wr_16 off_tail_ptr (tail_ptr - Z.of_nat (length bs));;
      head_ptr ← rd_i16 off_head_ptr;
      wr_16 off_head_ptr (head_ptr + 4);;
      mret idx) (λ i' pg', i' = Z.of_nat (length items) ∧ block_rep pg' (add_item items bs)) pg.
Proof using Etail Hr Hpos Hfit.
  intros E. destruct new_item_room as (Hroom & Hroom' & Htm), (add_item_facts items bs) as (_ & _ & _ & _ & Hl). rewrite E in Hl.
  assert (new_index items = length items) as Hix by (unfold new_index; by rewrite E). pose proof (b_len _ _ Hr) as Hlen.
  unfold off_n_items, off_tail_ptr, off_head_ptr in *. wp_step. apply wp_rd_s; [lia..|]. rewrite (b_n_items _ _ Hr : get_s 2 pg 0 = _).
  wp_step. eapply wp_mono.
  { apply (place_item_placed pg _ bs tail); [done|rewrite (b_tail _ _ Hr); lia|unfold PAGE_SIZE; lia|unfold off_data; lia]. }
  intros [] pg1 Hp. rewrite <- Hix in Hp. destruct (placed_header pg1 Hp) as (L & G0 & G2 & G4).
  wp_step. apply wp_rd_s; [lia..|]. rewrite G0. wp_step. apply wp_wr_i; [lia..|].
  destruct (set_header_frame 0 (Z.of_nat (length items) + 1) pg1) as [L0 F0]; [lia|simpl; auto|]. set (pg2 := set_i 2 0 _ _) in *.
  assert (get_s 2 pg2 4 = tail ∧ get_s 2 pg2 2 = 6 + 4 * Z.of_nat (length items)) as [E4 E2] by (unfold pg2; by repeat hdr).
  wp_step. apply wp_rd_s; [lia..|]. rewrite E4. wp_step. apply wp_wr_i; [lia..|].
  destruct (set_header_frame 4 (tail - Z.of_nat (length bs)) pg2) as [L4 F4]; [lia|simpl; auto|]. set (pg3 := set_i 2 4 _ _) in *.
  wp_step. apply wp_rd_s; [lia..|].
  assert (get_s 2 pg3 2 = 6 + 4 * Z.of_nat (length items)) as -> by (unfold pg3; by hdr).
  wp_step. apply wp_wr_i; [lia..|].
  destruct (set_header_frame 2 (6 + 4 * Z.of_nat (length items) + 4) pg3) as [L2 F2]; [lia|simpl; auto|].
  set (pg4 := set_i 2 2 _ _) in *. unfold off_data in *. wp_step. split; [done|].
  apply (placed_rep pg1); [done|lia| | | |intros off n Ho; by rewrite F2, F4, F0 by done].
  - unfold pg4. hdr. simpl. unfold pg3. hdr. simpl. unfold pg2. hdr. simpl. lia.
  - unfold pg4. hdr. simpl. lia.
  - unfold pg4. hdr. simpl. unfold pg3. by hdr.
Qed.
End new_item.

(** [new_item] with enough space: the item is stored at the first available
    index, every other item is as it was. *)
Lemma new_item_correct pg items bs :
  block_rep pg items → (0 < length bs)%nat → add_cost items bs <= free_space items →
  wp (new_item bs (Z.of_nat (length bs)))
     (λ i pg', i = Z.of_nat (new_index items) ∧ block_rep pg' (add_item items bs)) pg.
Proof.
  intros Hr Hpos Hfit. pose proof (b_len _ _ Hr) as Hlen.
  unfold new_item. wp_step. apply wp_rd_s; [unfold off_n_items; lia..|].
  rewrite (b_n_items _ _ Hr). wp_step. apply (find_free_spec _ _ _ Hr).
  unfold new_index. destruct (first_free items) as [i|] eqn:E; cbn [from_option id].
  - assert (i < length items)%nat as Hlt by (by eapply lookup_lt_Some, first_free_Some).
    rewrite (proj2 (Z.ltb_lt _ _)) by lia. by eapply new_item_reuse.
  - rewrite Z.ltb_irrefl. by eapply new_item_append.
Qed.

(** ** [get_item] and [init_block] *)

Lemma wp_get_item_id pg items (i : nat) (Φ : Z → Page → Prop) :
  block_rep pg items → (i < length items)%nat → Φ (item_id_at pg i) pg →
  wp (get_item_id (Z.of_nat i)) Φ pg.
Proof.
  intros Hr Hi HΦ. pose proof (b_len _ _ Hr). pose proof (b_fit _ _ Hr) as Hf.
  pose proof (used_bytes_nonneg items).
  unfold free_space, PAGE_SIZE, off_data in *. apply wp_rd_u; unfold off_data; [lia..|]. done.
Qed.

(** The pointer [get_item] returns is to the item's bytes; it is NULL out of
    range and for an identifier that is not in use. *)
Lemma get_item_correct pg items idx :
  block_rep pg items →
  wp (get_item idx) (λ r pg', pg' = pg ∧
    match r with
    | Some off => 0 <= idx ∧ 0 <= off ∧
        ∃ bs, items !! Z.to_nat idx = Some (Some bs) ∧ off = offset_at pg (Z.to_nat idx) ∧
              slice (Z.to_nat off) (length bs) pg = bs
    | None => idx < 0 ∨ items !! Z.to_nat idx = None ∨ items !! Z.to_nat idx = Some None
    end) pg.
Proof.
  intros Hr. pose proof (b_len _ _ Hr) as Hl. unfold get_item.
  wp_step. apply wp_rd_s; [unfold off_n_items; lia..|]. rewrite (b_n_items _ _ Hr).
  destruct (idx <? 0) eqn:E1; cbn [orb].
  { apply Z.ltb_lt in E1. wp_step. split; [done|by left]. }
  apply Z.ltb_ge in E1. destruct (Z.of_nat (length items) <=? idx) eqn:E2.
  - apply Z.leb_le in E2. wp_step. split; [done|]. right. left.
    apply lookup_ge_None_2. lia.
  - apply Z.leb_gt in E2. wp_step. replace idx with (Z.of_nat (Z.to_nat idx)) at 1 by lia.
    eapply wp_get_item_id; [done|lia|].
    destruct (lookup_lt_is_Some_2 items (Z.to_nat idx)) as [[bs|] Hb]; [lia|..].
    + destruct (b_used _ _ Hr _ _ Hb) as (-> & _ & _ & Ht & Hm & Hs).
      cbn [Z.eqb negb]. wp_step.
      split; [done|]. fold (offset_at pg (Z.to_nat idx)). pose proof (b_fit _ _ Hr) as Hf.
      unfold free_space, PAGE_SIZE, off_data in *.
      rewrite swrap_id; [|lia|unfold in_s; lia]. split; [lia|]. split; [lia|]. eauto.
    + rewrite (b_avail _ _ Hr _ Hb). cbn [Z.eqb negb]. wp_step. auto.
Qed.

Lemma init_block_correct pg :
  length pg = 128%nat → wp init_block (λ _ pg', block_rep pg' []) pg.
Proof.
  intros Hl. unfold init_block, off_n_items, off_head_ptr, off_tail_ptr, off_data, PAGE_SIZE.
  wp_step. apply wp_wr_i; [lia..|].
  destruct (set_header_frame 0 0 pg) as [L0 _]; [lia|simpl; auto|].
  set (pg1 := set_i 2 0 _ _) in *. wp_step. apply wp_wr_i; [lia..|].
  destruct (set_header_frame 2 6 pg1) as [L1 _]; [lia|simpl; auto|].
  set (pg2 := set_i 2 2 _ _) in *. apply wp_wr_i; [lia..|].
  destruct (set_header_frame 4 128 pg2) as [L2 _]; [lia|simpl; auto|].
  set (pg3 := set_i 2 4 _ _) in *.
  constructor; unfold off_n_items, off_head_ptr, off_tail_ptr, off_data, PAGE_SIZE; try done.
  lia.
Qed.

(** ** [delete_item] *)

(** The descending byte loop copies the block of bytes as a whole: the
    regions overlap, and the order of the loop is the right one for a move
    towards higher addresses. *)
Lemma slide_items_moves start target (n : nat) o :
  0 <= start < target → target + Z.of_nat n <= Z.of_nat (length o) →
  wp (slide_items start target (Z.of_nat n))
     (λ _ o', o' = splice (Z.to_nat target) (slice (Z.to_nat start) n o) o) o.
Proof.
  intros Hs Ht. unfold slide_items, for_down.
  replace (Z.to_nat (Z.of_nat n - 1 - -1)) with n by lia.
  revert o Ht. induction n as [|n IH]; intros o Ht.
  - simpl. wp_step. unfold slice, splice. simpl. rewrite Nat.add_0_r. by rewrite take_drop.
  - simpl iter_down. wp_step. wp_step. apply wp_rd; [lia..|].
    set (b := slice _ 1 o). assert (length b = 1%nat) as Hb.
    { apply slice_length. lia. }
    apply wp_wr; [lia..|]. replace (Z.of_nat (S n) - 1 - 1) with (Z.of_nat n - 1) by lia.
    set (o1 := splice _ b o). assert (length o1 = length o) as Hl1.
    { apply splice_length. lia. }
    eapply wp_mono; [apply IH; lia|]. intros [] o' ->.
    assert (∀ m (l : list byte), (Z.to_nat start + m <= length l)%nat →
      length (slice (Z.to_nat start) m l) = m) as Hsl by (intros; by apply slice_length).
    apply list_eq. intros i.
    rewrite !splice_lookup by (rewrite Hsl; lia). rewrite !Hsl by lia.
    unfold o1 at 2. rewrite splice_lookup, Hb by lia.
    repeat case_decide; try lia.
    + rewrite !slice_lookup by lia. unfold o1. rewrite splice_lookup, Hb by lia.
      by rewrite decide_False by lia.
    + unfold b. rewrite !slice_lookup by lia. f_equal. lia.
    + done.
Qed.

(** the identifier of an item that is still there after a deletion *)
Definition shift_item_id (item_offset item_size item_id : Z) : Z :=
  if (get_item_id_availability item_id =? 0) && (get_item_id_offset item_id <? item_offset)
  then compose_item_id 0 (get_item_id_offset item_id + item_size) (get_item_id_size item_id)
  else item_id.

(** [o'] is [o] but for the identifiers below [n], which are mapped by [f] *)
Definition ids_mapped (f : Z → Z) (n : nat) (o o' : list byte) : Prop :=
  length o' = length o ∧
  (∀ j, item_id_at o' j = if decide (j < n)%nat then f (item_id_at o j) else item_id_at o j) ∧
  ∀ off m, 0 <= off →
    off + Z.of_nat m <= off_data ∨ off_data + 4 * Z.of_nat n <= off →
    slice (Z.to_nat off) m o' = slice (Z.to_nat off) m o.

Lemma set_item_id_mapped f (n : nat) o o1 id :
  ids_mapped f n o o1 → off_data + 4 * Z.of_nat n + 4 <= Z.of_nat (length o) →
  id = f (item_id_at o n) → 0 <= id < 2 ^ 32 →
  ids_mapped f (S n) o (set_i 4 (off_data + 4 * Z.of_nat n) id o1).
Proof.
  intros (L & Hid & Hfr) Hb He Hi. unfold off_data in *.
  destruct (set_i_frame 4 (6 + 4 * Z.of_nat n) id o1) as (L1 & E1 & F1); [lia..|].
  split_and!; [congruence| |].
  - intros j. unfold item_id_at, get_u, off_data in *. destruct (decide (j = n)) as [->|].
    + rewrite decide_True by lia. rewrite E1, <- He. apply dec_u_enc.
      unfold in_u. by change (8 * Z.of_nat 4) with 32.
    + rewrite F1 by lia. rewrite Hid. repeat case_decide; first [lia|done].
  - intros off m Ho Hd. unfold off_data in *. rewrite F1 by lia. apply Hfr; lia.
Qed.

Lemma shift_ids_mapped item_offset item_size (n : nat) o :
  off_data + 4 * Z.of_nat n <= Z.of_nat (length o) →
  0 <= item_size → item_offset + item_size < 2 ^ 15 →
  wp (shift_ids item_offset item_size (Z.of_nat n))
     (λ _ o', ids_mapped (shift_item_id item_offset item_size) n o o') o.
Proof.
  intros Hb Hs Hos. unfold shift_ids, for_ne.
  rewrite (proj2 (Z.ltb_ge _ _)), Z.sub_0_r by lia. rewrite Nat2Z.id.
  eapply wp_mono.
  { apply (wp_iter_up n 0 _ (λ i o', 0 <= i ∧
      ids_mapped (shift_item_id item_offset item_size) (Z.to_nat i) o o')).
    - split; [done|]. split_and!; [done|done|done].
    - intros i o1 Hi [Hi0 Hm]. destruct (Z_of_nat_complete i Hi0) as [k ->].
      rewrite Nat2Z.id in Hm. replace (Z.to_nat (Z.of_nat k + 1)) with (S k) by lia.
      pose proof Hm as (L & Hid & Hfr). unfold off_data in *.
      assert (item_id_at o1 k = item_id_at o k) as Hk.
      { rewrite Hid. by rewrite decide_False by lia. }
      wp_step. apply wp_rd_u; unfold off_data; [lia..|].
      fold (item_id_at o1 k). change (get_u 4 o1 _) with (item_id_at o1 k). rewrite Hk.
      set (id := item_id_at o k) in *.
      assert (shift_item_id item_offset item_size id = id →
        ids_mapped (shift_item_id item_offset item_size) (S k) o o1) as Hsame.
      { intros He. split_and!; [done| |].
        - intros j. rewrite Hid. destruct (decide (j = k)) as [->|].
          + rewrite decide_False, decide_True by lia. symmetry. exact He.
          + repeat case_decide; first [lia|done].
        - unfold off_data. intros off m Ho Hd. apply Hfr; lia. }
      unfold shift_item_id in Hsame at 1.
      destruct (get_item_id_availability id =? 0) eqn:E1; [|wp_step; split; [lia|by apply Hsame]].
      destruct (get_item_id_offset id <? item_offset) eqn:E2;
        [|wp_step; split; [lia|by apply Hsame]].
      apply wp_wr_i; [unfold off_data; lia..|]. split; [lia|].
      destruct (offset_size_range id) as [Ho1 Ho2]. apply Z.ltb_lt in E2 as E3.
      apply set_item_id_mapped; [done|unfold off_data; lia| |].
      + unfold shift_item_id. fold id. by rewrite E1, E2.
      + apply compose_item_id_range; lia. }
  intros [] o' [_ Hm]. by replace (Z.to_nat (0 + Z.of_nat n)) with n in Hm by lia.
Qed.

(** ** A deleted item

    [o1] is the page [pg] with the identifier of the item [idx] marked as
    available and the tail moved, [pg1] that page after the bytes have moved,
    and [pg2] the page after the identifiers have. *)

Section deleted.
Context (pg : Page) (items : items_t) (idx : nat) (bs : list byte) (o1 pg1 pg2 : Page) (size off tail : Z).
Context (Esize : size = Z.of_nat (length bs)) (Eoff : off = offset_at pg idx) (Etail : tail = PAGE_SIZE - used_bytes items).
Context (Eo1 : o1 = set_i 2 off_tail_ptr (tail + size) (set_i 4 (off_data + 4 * Z.of_nat idx) (compose_item_id 1 off size) pg)).
Context (Hr : block_rep pg items) (Hidx : items !! idx = Some (Some bs)).
Context (Hpg1 : pg1 = splice (Z.to_nat (tail + size)) (slice (Z.to_nat tail) (Z.to_nat (off - tail)) o1) o1).
Context (Hpg2 : ids_mapped (shift_item_id off size) (length items) pg1 pg2).

(** where the item is *)
Lemma deleted_bounds : length pg = 128%nat ∧ (idx < length items)%nat ∧ 0 < size ∧ tail <= off ∧ off + size <= 128 ∧
  6 + 4 * Z.of_nat (length items) <= tail.
Proof using Esize Eoff Etail Hr Hidx.
  destruct (b_used _ _ Hr _ _ Hidx) as (_ & _ & Hpos & Hlo & Hhi & _). rewrite <- Eoff, <- Etail in Hlo. rewrite <- Eoff in Hhi.
  pose proof (lookup_lt_Some _ _ _ Hidx) as Hlt. pose proof (b_fit _ _ Hr) as Hfit. unfold free_space in Hfit.
  rewrite <- Etail in Hfit. unfold PAGE_SIZE, off_data in *. split; [apply Hr|]. lia.
Qed.

Lemma deleted_marked : length o1 = 128%nat ∧ slice (Z.to_nat 4) 2 o1 = le_enc 2 (tail + size) ∧
  slice (Z.to_nat (6 + 4 * Z.of_nat idx)) 4 o1 = le_enc 4 (compose_item_id 1 off size) ∧
  ∀ o m, 0 <= o → o + Z.of_nat m <= 4 ∨ 6 <= o → o + Z.of_nat m <= 6 + 4 * Z.of_nat idx ∨ 6 + 4 * Z.of_nat idx + 4 <= o →
    slice (Z.to_nat o) m o1 = slice (Z.to_nat o) m pg.
Proof using Esize Eoff Etail Eo1 Hr Hidx.
  destruct deleted_bounds as (Hlen & Hlt & Hs & Hlo & Hhi & Hfit). unfold off_tail_ptr, off_data in *.
  destruct (set_i_frame 4 (6 + 4 * Z.of_nat idx) (compose_item_id 1 off size) pg) as (La & Ea & Fa); [lia..|].
  destruct (set_i_frame 2 4 (tail + size) (set_i 4 (6 + 4 * Z.of_nat idx) (compose_item_id 1 off size) pg)) as (Lb & Eb & Fb); [lia..|].
  rewrite <- Eo1 in Lb, Eb, Fb. split; [lia|]. split; [done|].
  split; [by rewrite Fb by lia|]. intros o m Ho H1 H2. rewrite Fb by lia. by apply Fa.
Qed.

Lemma deleted_moved : length pg1 = 128%nat ∧
  (∀ o m, 0 <= o → o + Z.of_nat m <= tail + size ∨ off + size <= o → slice (Z.to_nat o) m pg1 = slice (Z.to_nat o) m o1) ∧
  (∀ o m, tail <= o → o + Z.of_nat m <= off → slice (Z.to_nat (o + size)) m pg1 = slice (Z.to_nat o) m o1).
Proof using Esize Eoff Etail Eo1 Hr Hidx Hpg1.
  destruct deleted_bounds as (Hlen & Hlt & Hs & Hlo & Hhi & Hfit), deleted_marked as (L1 & _).
  assert (length (slice (Z.to_nat tail) (Z.to_nat (off - tail)) o1) = Z.to_nat (off - tail)) as Lm by (apply slice_length; lia).
  destruct (wr_frame (tail + size) (slice (Z.to_nat tail) (Z.to_nat (off - tail)) o1) o1) as (Lc & _ & Fc); [lia..|].
  rewrite <- Hpg1 in Lc, Fc. rewrite Lm in Fc. split; [lia|]. split; [intros; apply Fc; lia|].
  intros o m Ho Hm. rewrite Hpg1.
  replace (Z.to_nat (o + size)) with (Z.to_nat (tail + size) + Z.to_nat (o - tail))%nat by lia.
  rewrite slice_splice_in, slice_slice by lia. f_equal. lia.
Qed.

Lemma deleted_header : length pg2 = 128%nat ∧
  (∀ o m, 0 <= o → o + Z.of_nat m <= 4 → slice (Z.to_nat o) m pg2 = slice (Z.to_nat o) m pg) ∧
  slice (Z.to_nat 4) 2 pg2 = le_enc 2 (tail + size).
Proof using Esize Eoff Etail Eo1 Hr Hidx Hpg1 Hpg2.
  destruct deleted_bounds as (_ & _ & Hs & Hlo & Hhi & Hfit), deleted_marked as (_ & E1 & _ & F1), deleted_moved as (L & F2 & _).
  destruct Hpg2 as (L2 & _ & Hfr). unfold off_data in Hfr. split; [lia|]. split.
  - intros. rewrite Hfr, F2 by lia. apply F1; lia.
  - by rewrite Hfr, F2 by lia.
Qed.

Lemma deleted_ids j : (j < length items)%nat →
  item_id_at pg2 j = shift_item_id off size (if decide (j = idx) then compose_item_id 1 off size else item_id_at pg j).
Proof using Esize Eoff Etail Eo1 Hr Hidx Hpg1 Hpg2.
  intros Hj. destruct deleted_bounds as (_ & _ & Hs & Hlo & Hhi & Hfit), deleted_marked as (_ & _ & Eid & F1), deleted_moved as (_ & F2 & _).
  destruct Hpg2 as (_ & Hids & _). rewrite Hids, decide_True by done. f_equal. unfold item_id_at, get_u, off_data.
  rewrite F2 by lia. case_decide as Hji; [subst j|by rewrite F1 by lia].
  rewrite Eid. apply dec_u_enc. unfold in_u. change (8 * Z.of_nat 4) with 32. apply compose_item_id_range; lia.
Qed.

(** an item that stays: its new identifier, and its bytes *)
Lemma deleted_survivor j bj : j ≠ idx → items !! j = Some (Some bj) →
  get_item_id_availability (item_id_at pg2 j) = 0 ∧
  get_item_id_size (item_id_at pg2 j) = Z.of_nat (length bj) ∧
  (offset_at pg j + Z.of_nat (length bj) <= off ∧ offset_at pg2 j = offset_at pg j + size ∨
   off + size <= offset_at pg j ∧ offset_at pg2 j = offset_at pg j).
Proof using Esize Eoff Etail Eo1 Hr Hidx Hpg1 Hpg2.
  intros Hne Hj. pose proof (lookup_lt_Some _ _ _ Hj) as Hjl. destruct deleted_bounds as (_ & _ & Hs & Hlo & Hhi & Hfit).
  destruct (b_used _ _ Hr _ _ Hj) as (Aj & Sj & Pj & Lj & Hj' & _).
  unfold offset_at. rewrite deleted_ids, decide_False by done.
  unfold shift_item_id. rewrite Aj. fold (offset_at pg j). cbn [Z.eqb andb]. unfold PAGE_SIZE in *.
  destruct (b_disjoint _ _ Hr _ _ _ _ Hne Hj Hidx) as [Hd|Hd]; rewrite <- Eoff in Hd.
  - rewrite (proj2 (Z.ltb_lt _ _)) by lia.
    rewrite availability_compose, size_compose, offset_compose by lia.
    split; [done|]. split; [done|]. left. split; [lia|reflexivity].
  - rewrite (proj2 (Z.ltb_ge _ _)) by lia. fold (offset_at pg j).
    split; [done|]. split; [done|]. right. split; [lia|reflexivity].
Qed.

Lemma deleted_bytes j bj : j ≠ idx → items !! j = Some (Some bj) →
  slice (Z.to_nat (offset_at pg2 j)) (length bj) pg2 = bj.
Proof using Esize Eoff Etail Eo1 Hr Hidx Hpg1 Hpg2.
  intros Hne Hj. destruct (b_used _ _ Hr _ _ Hj) as (_ & _ & _ & Lj & Uj & Sj). rewrite <- Etail in Lj.
  pose proof (lookup_lt_Some _ _ _ Hj) as Hjl.
  destruct deleted_bounds as (_ & Hlt & Hs & Hlo & Hhi & Hfit), deleted_marked as (_ & _ & _ & F1), deleted_moved as (_ & F2 & F3).
  destruct Hpg2 as (_ & _ & Hfr). unfold off_data, PAGE_SIZE in *.
  destruct (deleted_survivor j bj Hne Hj) as (_ & _ & [[Hd ->]|[Hd ->]]).
  - rewrite Hfr, F3, F1 by lia. done.
  - rewrite Hfr, F2, F1 by lia. done.
Qed.

(** the page represents the items without the deleted one *)
Lemma block_rep_deleted : block_rep pg2 (<[idx := None]> items).
Proof using Esize Eoff Etail Eo1 Hr Hidx Hpg1 Hpg2.
  destruct deleted_bounds as (_ & Hlt & Hs & Hlo & Hhi & Hfit), deleted_header as (L2 & Hh & Ht).
  assert (used_bytes (<[idx:=None]> items) = used_bytes items - size) as Hused.
  { rewrite (used_bytes_insert _ _ _ _ Hidx). simpl. lia. }
  pose proof (used_bytes_nonneg items) as Hu0.
  assert (∀ j bj, <[idx:=None]> items !! j = Some (Some bj) → j ≠ idx ∧ items !! j = Some (Some bj)) as Hstay.
  { intros j bj Hj. destruct (decide (j = idx)) as [->|Hne]; [by rewrite list_lookup_insert_eq in Hj|].
    by rewrite list_lookup_insert_ne in Hj by done. }
  constructor; unfold free_space; rewrite ?length_insert, ?Hused; unfold PAGE_SIZE, off_data, off_tail_ptr, off_head_ptr, off_n_items in *.
  - done.
  - unfold get_s. rewrite (Hh 0) by lia. apply (b_n_items _ _ Hr).
  - unfold get_s. rewrite (Hh 2) by lia. apply (b_head _ _ Hr).
  - unfold get_s. rewrite Ht. rewrite dec_s_enc; [lia|lia|apply in_s16; lia].
  - lia.
  - intros j Hj. pose proof (lookup_lt_Some _ _ _ Hj) as Hjl. rewrite length_insert in Hjl.
    rewrite deleted_ids by done. unfold shift_item_id. destruct (decide (j = idx)) as [->|Hne].
    + rewrite availability_compose by lia. cbn [Z.eqb andb]. by rewrite availability_compose by lia.
    + rewrite list_lookup_insert_ne in Hj by done. pose proof (b_avail _ _ Hr _ Hj) as Hav. by rewrite Hav.
  - intros j bj [Hne Hj]%Hstay. destruct (b_used _ _ Hr _ _ Hj) as (_ & _ & Pj & Lj & Uj & _). unfold PAGE_SIZE in *.
    destruct (deleted_survivor j bj Hne Hj) as (H1 & H2 & H3).
    split_and!; [done|done|done|lia|lia|by apply deleted_bytes].
  - intros j k bj bk Hjk [Hne1 Hj]%Hstay [Hne2 Hk]%Hstay.
    destruct (deleted_survivor j bj Hne1 Hj) as (_ & _ & H1), (deleted_survivor k bk Hne2 Hk) as (_ & _ & H2).
    pose proof (b_disjoint _ _ Hr _ _ _ _ Hjk Hj Hk). lia.
Qed.
End deleted.

(** One trailing available identifier is given back. *)
Definition trim_last (items : items_t) : items_t :=
  match last items with Some None => removelast items | _ => items end.
Definition remove_item (items : items_t) (idx : nat) : items_t :=
  trim_last (<[idx := None]> items).

Lemma block_rep_drop_last pg items :
  block_rep pg (items ++ [None]) →
  block_rep (set_i 2 off_n_items (Z.of_nat (length items))
    (set_i 2 off_head_ptr (off_data + 4 * Z.of_nat (length items)) pg)) items.
Proof.
  intros Hr. pose proof (b_len _ _ Hr) as Hl. pose proof (b_fit _ _ Hr) as Hfit.
  assert (used_bytes (items ++ [None]) = used_bytes items) as Hu.
  { rewrite used_bytes_app. simpl. lia. }
  pose proof (used_bytes_nonneg items) as Hu0.
  pose proof (b_tail _ _ Hr) as Ht. rewrite Hu in Ht.
  unfold free_space in Hfit. rewrite Hu, length_app in Hfit. simpl length in Hfit.
  unfold PAGE_SIZE, off_data, off_head_ptr, off_n_items, off_tail_ptr in *.
  destruct (set_header_frame 2 (6 + 4 * Z.of_nat (length items)) pg) as [L1 F1];
    [lia|simpl; tauto|]. set (pg1 := set_i 2 2 _ pg) in *.
  destruct (set_header_frame 0 (Z.of_nat (length items)) pg1) as [L2 F2];
    [lia|simpl; tauto|]. set (pg2 := set_i 2 0 _ pg1) in *.
  assert (∀ off m, 6 <= off → slice (Z.to_nat off) m pg2 = slice (Z.to_nat off) m pg) as F.
  { intros. by rewrite F2, F1. }
  assert (∀ i, item_id_at pg2 i = item_id_at pg i) as Hid.
  { intros i. unfold item_id_at, get_u, off_data. by rewrite F by lia. }
  assert (∀ i, offset_at pg2 i = offset_at pg i) as Hoff.
  { intros i. unfold offset_at. by rewrite Hid. }
  assert (∀ i o, items !! i = Some o → (items ++ [None]) !! i = Some o) as Hin.
  { intros i o Hi. rewrite lookup_app_l; [done|]. by eapply lookup_lt_Some. }
  constructor; unfold free_space, PAGE_SIZE, off_data, off_head_ptr, off_n_items, off_tail_ptr.
  - lia.
  - unfold pg2. by hdr.
  - unfold pg2. hdr. simpl. unfold pg1. by hdr.
  - unfold pg2. hdr. simpl. unfold pg1. by hdr.
  - lia.
  - intros i Hi. rewrite Hid. apply (b_avail _ _ Hr). by apply Hin.
  - intros i bs Hi. rewrite Hid, Hoff.
    destruct (b_used _ _ Hr i bs) as (A & B & C & D & E & G); [by apply Hin|].
    rewrite Hu in D. unfold PAGE_SIZE in *. split_and!; try done. rewrite F; [done|lia].
  - intros i j bi bj Hne Hi Hj. rewrite !Hoff. eapply (b_disjoint _ _ Hr); eauto.
Qed.

(** the last identifier goes when it is available *)
Lemma drop_trailing_correct pg items : block_rep pg items → (0 < length items)%nat →
  wp (itemID_last ← get_item_id (Z.of_nat (length items) - 1);
      if negb (get_item_id_availability itemID_last =? 0) then
        head_ptr ← rd_i16 off_head_ptr;
        wr_16 off_head_ptr (head_ptr - 4);;
        n ← rd_i16 off_n_items;
        wr_16 off_n_items (n - 1)
      else mret tt) (λ _ pg', block_rep pg' (trim_last items)) pg.
Proof.
  intros Hr Hpos. wp_step. replace (Z.of_nat (length items) - 1) with (Z.of_nat (length items - 1)) by lia.
  eapply wp_get_item_id; [done|lia|]. unfold trim_last. rewrite last_lookup.
  replace (pred (length items)) with (length items - 1)%nat by lia.
  destruct (lookup_lt_is_Some_2 items (length items - 1)) as [[b|] Hb]; [lia|..]; rewrite Hb.
  - destruct (b_used _ _ Hr _ _ Hb) as [-> _]. cbn [Z.eqb negb]. by wp_step.
  - rewrite (b_avail _ _ Hr _ Hb). cbn [Z.eqb negb].
    destruct items as [|it0 items _] using rev_ind; [simpl in Hpos; lia|].
    rewrite length_app in Hb. simpl length in Hb. rewrite lookup_app_r in Hb by lia.
    replace (length items + 1 - 1 - length items)%nat with 0%nat in Hb by lia.
    simpl in Hb. simplify_eq. rewrite removelast_last.
    pose proof (b_len _ _ Hr) as L2. pose proof (b_fit _ _ Hr) as Hf2. pose proof (used_bytes_nonneg (items ++ [None])) as Hu0.
    pose proof (b_head _ _ Hr) as Hh. pose proof (b_n_items _ _ Hr) as Hn. unfold free_space in Hf2.
    rewrite length_app in Hh, Hn, Hf2. simpl length in Hh, Hn, Hf2.
    unfold off_head_ptr, off_n_items, off_data, PAGE_SIZE in *.
    wp_step. apply wp_rd_s; [lia..|]. rewrite Hh.
    replace (6 + 4 * Z.of_nat (length items + 1) - 4) with (6 + 4 * Z.of_nat (length items)) by lia.
    wp_step. apply wp_wr_i; [lia..|].
    destruct (set_header_frame 2 (6 + 4 * Z.of_nat (length items)) pg) as [L3 _]; [lia|simpl; tauto|].
    set (pg3 := set_i 2 2 _ pg) in *. wp_step. apply wp_rd_s; [lia..|].
    assert (get_s 2 pg3 0 = Z.of_nat (length items + 1)) as ->.
    { unfold pg3. hdr. simpl. exact Hn. }
    replace (Z.of_nat (length items + 1) - 1) with (Z.of_nat (length items)) by lia.
    apply wp_wr_i; [lia..|]. by apply block_rep_drop_last in Hr.
Qed.

(** [delete_item] of a used item: exactly that item disappears, the bytes it
    took are free again, and every other item keeps its index and bytes. *)
Lemma delete_item_correct pg items idx bs :
  block_rep pg items → items !! idx = Some (Some bs) →
  wp (delete_item (Z.of_nat idx)) (λ _ pg', block_rep pg' (remove_item items idx)) pg.
Proof.
  intros Hr Hidx. destruct (b_used _ _ Hr _ _ Hidx) as (Hav & Hsz & Hpos & Hlo & Hhi & Hsl).
  pose proof (lookup_lt_Some _ _ _ Hidx) as Hlt. pose proof (b_len _ _ Hr) as Hlen.
  pose proof (b_fit _ _ Hr) as Hfit. pose proof (used_bytes_nonneg items) as Hu0.
  set (size := Z.of_nat (length bs)) in *. set (off := offset_at pg idx) in *.
  set (tail := PAGE_SIZE - used_bytes items) in *.
  assert (0 < size) as Hs0 by (unfold size; lia).
  unfold free_space in Hfit. fold tail in Hfit.
  unfold delete_item. wp_step. eapply wp_get_item_id; [done..|].
  rewrite Hsz. fold (offset_at pg idx). fold off.
  wp_step. unfold PAGE_SIZE, off_data, off_tail_ptr in *.
  apply wp_wr_i; unfold off_data; [lia..|].
  destruct (set_i_frame 4 (6 + 4 * Z.of_nat idx) (compose_item_id 1 off size) pg)
    as (La & _ & Fa); [lia..|]. set (oa := set_i 4 _ _ pg) in *.
  wp_step. apply wp_rd_s; [lia..|].
  assert (get_s 2 oa 4 = tail) as ->.
  { unfold get_s. rewrite Fa by lia. apply (b_tail _ _ Hr). }
  wp_step. apply wp_wr_i; [lia..|].
  destruct (set_i_frame 2 4 (tail + size) oa) as (Lb & Eb & Fb); [lia..|].
  set (ob := set_i 2 4 _ oa) in *. wp_step. apply wp_rd_s; [lia..|].
  assert (get_s 2 ob 4 = tail + size) as ->.
  { unfold get_s. rewrite Eb. apply dec_s_enc; [lia|]. apply in_s16. lia. }
  replace (tail + size - size) with tail by lia.
  replace (off - (tail + size) + size) with (Z.of_nat (Z.to_nat (off - tail))) by lia.
  wp_step. eapply wp_mono; [apply slide_items_moves; lia|]. intros [] pg1 Hpg1.
  assert (length pg1 = 128%nat) as L1.
  { rewrite Hpg1, splice_length; [lia|]. rewrite slice_length; lia. }
  wp_step. apply wp_rd_s; [unfold off_n_items; lia..|].
  assert (get_s 2 pg1 off_n_items = Z.of_nat (length items)) as ->.
  { unfold off_n_items. rewrite <- (b_n_items _ _ Hr). unfold get_s, off_n_items.
    rewrite Hpg1. rewrite slice_splice_ne; [|rewrite slice_length; lia|lia].
    by rewrite Fb, Fa by lia. }
  wp_step. eapply wp_mono.
  { apply shift_ids_mapped; unfold off_data; [lia|lia|lia]. }
  intros [] pg2 Hm. pose proof (block_rep_deleted pg items idx bs ob pg1 pg2 size off tail eq_refl eq_refl eq_refl eq_refl Hr Hidx Hpg1 Hm) as Hdel.
  set (items1 := <[idx:=None]> items) in *.
  assert (length items1 = length items) as Hl1 by apply length_insert.
  rewrite <- Hl1. apply drop_trailing_correct; [done|lia].
Qed.

(** ** Properties of slotted pages *)

(** the pointer [get_item] gives to an item of a represented block *)
Lemma get_item_used pg items i bs :
  block_rep pg items → items !! i = Some (Some bs) →
  ∃ off, get_item (Z.of_nat i) pg = Ok (Some off, pg) ∧
         slice (Z.to_nat off) (length bs) pg = bs.
Proof.
  intros Hb Hi. destruct (wp_elim _ _ _ (get_item_correct _ _ (Z.of_nat i) Hb))
    as (r & pg' & Hrun & -> & Hr). rewrite Nat2Z.id in Hr.
  destruct r as [off|]; [|naive_solver lia].
  destruct Hr as (_ & _ & bs' & Hi' & _ & Hs). simplify_eq. eauto.
Qed.

Lemma get_item_unused pg items i :
  block_rep pg items → (∀ bs, items !! i ≠ Some (Some bs)) →
  get_item (Z.of_nat i) pg = Ok (None, pg).
Proof.
  intros Hb Hi. destruct (wp_elim _ _ _ (get_item_correct _ _ (Z.of_nat i) Hb))
    as (r & pg' & Hrun & -> & Hr). rewrite Nat2Z.id in Hr.
  destruct r as [off|]; [|done]. destruct Hr as (_ & _ & bs & Hi' & _). naive_solver.
Qed.

Lemma remove_item_lookup items idx j bs :
  remove_item items idx !! j = Some (Some bs) ↔ j ≠ idx ∧ items !! j = Some (Some bs).
Proof.
  assert (∀ l : items_t, trim_last l !! j = Some (Some bs) ↔ l !! j = Some (Some bs)) as Ht.
  { intros l. unfold trim_last. destruct l as [|x l _] using rev_ind; [done|].
    rewrite last_snoc. destruct x as [b|]; [done|]. rewrite removelast_last.
    rewrite lookup_app. destruct (l !! j) eqn:E; [done|].
    split; [done|]. by intros [_ [=]]%list_lookup_singleton_Some. }
  unfold remove_item. rewrite Ht.
  destruct (decide (j = idx)) as [->|Hne].
  - split; [|naive_solver]. intros [(_ & [=] & _)|(? & _)]%list_lookup_insert_Some. done.
  - rewrite list_lookup_insert_ne by done. naive_solver.
Qed.

(** the blank block the examples start from *)
Definition new_block : Page :=
  match init_block EMPTY_PAGE with Ok (_, pg) => pg | _ => EMPTY_PAGE end.

Lemma new_block_rep : block_rep new_block [].
Proof.
  destruct (wp_elim _ _ _ (init_block_correct EMPTY_PAGE eq_refl)) as ([] & pg & Hrun & Hb).
  unfold new_block. by rewrite Hrun.
Qed.

(** C22: storing an item in a slotted page: with room for its bytes and, when
    no identifier is free, for one more identifier, [new_item] returns an
    index that was not in use; [get_item] at that index finds exactly the
    bytes stored, and every other item is found at its old index with its
    old bytes. *)
Theorem new_item_then_get_item pg items bs :
  block_rep pg items → (0 < length bs)%nat → add_cost items bs <= free_space items →
  ∃ i pg', new_item bs (Z.of_nat (length bs)) pg = Ok (Z.of_nat i, pg') ∧
    get_item (Z.of_nat i) pg = Ok (None, pg) ∧
    block_rep pg' (add_item items bs) ∧
    (∃ off, get_item (Z.of_nat i) pg' = Ok (Some off, pg') ∧
            slice (Z.to_nat off) (length bs) pg' = bs) ∧
    (∀ j bj, items !! j = Some (Some bj) →
      ∃ off, get_item (Z.of_nat j) pg' = Ok (Some off, pg') ∧
             slice (Z.to_nat off) (length bj) pg' = bj).
Proof.
  intros Hb Hbs Hfit.
  destruct (wp_elim _ _ _ (new_item_correct _ _ _ Hb Hbs Hfit)) as (i & pg' & Hrun & -> & Hb').
  destruct (add_item_facts items bs) as (Hnew & Hold & Hun & _).
  exists (new_index items), pg'. split_and!; [done|by eapply get_item_unused|done| |].
  - by eapply get_item_used.
  - intros j bj Hj. eapply get_item_used; [done|]. rewrite Hold; [done|]. naive_solver.
Qed.

Lemma new_item_then_get_item_witness :
  ∃ i pg', new_item [x01; x02] (Z.of_nat 2) new_block = Ok (Z.of_nat i, pg') ∧
    get_item (Z.of_nat i) new_block = Ok (None, new_block) ∧
    block_rep pg' (add_item [] [x01; x02]) ∧
    (∃ off, get_item (Z.of_nat i) pg' = Ok (Some off, pg') ∧
            slice (Z.to_nat off) 2 pg' = [x01; x02]) ∧
    (∀ j bj, [] !! j = Some (Some bj) →
      ∃ off, get_item (Z.of_nat j) pg' = Ok (Some off, pg') ∧
             slice (Z.to_nat off) (length bj) pg' = bj).
Proof.
  apply (new_item_then_get_item new_block [] [x01; x02]).
  - apply new_block_rep.
  - simpl. lia.
  - vm_compute. discriminate.
Defined.

(** removing an item frees at least its bytes *)
Lemma free_space_remove its i b : its !! i = Some (Some b) →
  free_space its + Z.of_nat (length b) <= free_space (remove_item its i).
Proof.
  intros Hi. unfold free_space, remove_item, trim_last.
  pose proof (used_bytes_insert its i _ None Hi) as Hu. simpl in Hu.
  pose proof (length_insert its i None) as Hl. revert Hu Hl.
  generalize (<[i:=None]> its). intros l Hu Hl.
  destruct l as [|x l _] using rev_ind; [simpl in *; lia|]. rewrite last_snoc.
  destruct x as [c|]; [lia|]. rewrite removelast_last.
  rewrite used_bytes_app, length_app in *. simpl in *. lia.
Qed.

(** C21: deleting an item from a slotted page: [get_item] no longer finds it,
    every other item keeps its index and its bytes although the data area is
    compacted and the identifiers are rewritten, and at least the bytes of
    the item are free again. *)
Theorem delete_item_reclaims pg items idx bs :
  block_rep pg items → items !! idx = Some (Some bs) →
  ∃ pg', delete_item (Z.of_nat idx) pg = Ok (tt, pg') ∧
    block_rep pg' (remove_item items idx) ∧
    get_item (Z.of_nat idx) pg' = Ok (None, pg') ∧
    (∀ j bj, j ≠ idx → items !! j = Some (Some bj) →
      ∃ off, get_item (Z.of_nat j) pg' = Ok (Some off, pg') ∧
             slice (Z.to_nat off) (length bj) pg' = bj) ∧
    free_space items + Z.of_nat (length bs) <= free_space (remove_item items idx).
Proof.
  intros Hb Hi.
  destruct (wp_elim _ _ _ (delete_item_correct _ _ _ _ Hb Hi)) as ([] & pg' & Hrun & Hb').
  exists pg'. split_and!; [done|done| | |].
  - eapply get_item_unused; [done|]. intros b [? _]%remove_item_lookup. done.
  - intros j bj Hne Hj. eapply get_item_used; [done|]. by apply remove_item_lookup.
  - by apply free_space_remove.
Qed.

(** two items, and the page that holds them *)
Definition two_items_block : Page :=
  match (new_item [x01; x02] 2;; new_item [x03] 1) new_block with
  | Ok (_, pg) => pg | _ => EMPTY_PAGE end.

Lemma two_items_rep : block_rep two_items_block [Some [x01; x02]; Some [x03]].
Proof.
  unfold two_items_block.
  assert (wp (new_item [x01; x02] (Z.of_nat 2);; new_item [x03] (Z.of_nat 1))
             (λ _ pg, block_rep pg [Some [x01; x02]; Some [x03]]) new_block) as H.
  { wp_step. eapply wp_mono; [apply (new_item_correct _ [] [x01; x02]);
      [apply new_block_rep|simpl; lia|vm_compute; discriminate]|].
    intros i pg [_ Hb]. change (add_item [] [x01; x02]) with [Some [x01; x02]] in Hb.
    assert (add_cost [Some [x01; x02]] [x03] <= free_space [Some [x01; x02]]) as Hfit
      by (vm_compute; discriminate).
    pose proof (new_item_correct pg _ [x03] Hb ltac:(simpl; lia) Hfit) as Hw.
    eapply wp_mono; [exact Hw|]. by intros j pg' [_ Hb']. }
  apply wp_elim in H as (a & pg & Hrun & Hb). change (Z.of_nat 2) with 2 in Hrun.
  change (Z.of_nat 1) with 1 in Hrun. by rewrite Hrun.
Qed.

Lemma delete_item_reclaims_witness :
  let items := [Some [x01; x02]; Some [x03]] in
  ∃ pg', delete_item (Z.of_nat 0) two_items_block = Ok (tt, pg') ∧
    block_rep pg' (remove_item items 0) ∧
    get_item (Z.of_nat 0) pg' = Ok (None, pg') ∧
    (∀ j bj, j ≠ 0%nat → items !! j = Some (Some bj) →
      ∃ off, get_item (Z.of_nat j) pg' = Ok (Some off, pg') ∧
             slice (Z.to_nat off) (length bj) pg' = bj) ∧
    free_space items + Z.of_nat 2 <= free_space (remove_item items 0).
Proof.
  apply (delete_item_reclaims two_items_block _ 0 [x01; x02]).
  - apply two_items_rep.
  - reflexivity.
Defined.

(** An item identifier packs an availability bit, a 15-bit offset and a
    15-bit size: each of the three reads back from the packed word, which
    fits 32 bits, and reads back from a page it is stored in. *)
Theorem item_id_roundtrip pg idx a o s :
  length pg = 128%nat → 0 <= idx < 30 →
  0 <= a < 2 → 0 <= o < 2 ^ 15 → 0 <= s < 2 ^ 15 →
  ∃ pg', set_item_id idx (compose_item_id a o s) pg = Ok (tt, pg') ∧
    ∃ id, get_item_id idx pg' = Ok (id, pg') ∧
      get_item_id_availability id = a ∧ get_item_id_offset id = o ∧ get_item_id_size id = s.
Proof.
  intros Hl Hi Ha Ho Hs. pose proof (compose_item_id_range a o s Ha Ho Hs) as Hr.
  assert (0 <= off_data + 4 * idx ∧ off_data + 4 * idx + Z.of_nat 4 <= Z.of_nat (length pg))
    as [H1 H2] by (unfold off_data; lia).
  exists (set_i 4 (off_data + 4 * idx) (compose_item_id a o s) pg). split.
  { destruct (wp_elim (set_item_id idx (compose_item_id a o s))
      (λ _ pg', pg' = set_i 4 (off_data + 4 * idx) (compose_item_id a o s) pg) pg)
      as ([] & pg' & Hrun & ->); [by apply wp_wr_i|done]. }
  exists (compose_item_id a o s). split.
  { destruct (wp_elim (get_item_id idx) (λ v pg', v = compose_item_id a o s ∧
      pg' = set_i 4 (off_data + 4 * idx) (compose_item_id a o s) pg)
      (set_i 4 (off_data + 4 * idx) (compose_item_id a o s) pg)) as (v & pg' & Hrun & -> & ->);
      [|done]. apply wp_rd_u; [done|by rewrite set_i_length|].
    rewrite get_u_set_eq by done. done. }
  split_and!; [by apply availability_compose|by apply offset_compose|by apply size_compose].
Qed.

Lemma item_id_roundtrip_witness :
  ∃ pg', set_item_id 3 (compose_item_id 0 100 20) EMPTY_PAGE = Ok (tt, pg') ∧
    ∃ id, get_item_id 3 pg' = Ok (id, pg') ∧
      get_item_id_availability id = 0 ∧ get_item_id_offset id = 100 ∧ get_item_id_size id = 20.
Proof. apply item_id_roundtrip; [reflexivity|lia|lia|lia|lia]. Defined.
