(* ===== verification/HashMap.v ===== *)
(** The free-space map ([include/hash_map.h], [src/hash_map.c]): a static
    hash table from a size (the free bytes of a page) to the addresses of the
    pages with that size, in chained blocks reached from directory pages,
    with a list of free blocks. *)
From stdpp Require Import base gmap list fin_maps.
From Stdlib Require Import ZArith Lia Strings.Byte.
From S2P Require Import Prelude FileIO BufferPool.
#[local] Open Scope Z_scope.

(** ** The layout
    Page 0 is the [HashMapControlBlock]; the pages that follow it are
    [HashMapDirectoryBlock]s of sixteen [off_t]s; the others are
    [HashMapBlock]s: [next], [n_items] and fourteen entries. *)
Definition off_free_block_head : Z := 0.
Definition off_n_directory_blocks : Z := 8.
Definition off_max_size : Z := 16.
Definition off_next : Z := 0.
Definition off_block_n_items : Z := 8.
Definition off_table : Z := 16.
(** both are [size_t] expressions in the source *)
Definition HASH_MAP_DIR_BLOCK_SIZE : Z := PAGE_SIZE / 8.
Definition HASH_MAP_BLOCK_SIZE : Z := (PAGE_SIZE - 2 * 8) / 8.

(** [(size / HASH_MAP_DIR_BLOCK_SIZE + 1) * PAGE_SIZE] as an [off_t]: the
    short is converted to [size_t] first *)
Definition dir_addr_of (size : Z) : Z :=
  swrap 64 (uwrap 64 ((uwrap 64 size / HASH_MAP_DIR_BLOCK_SIZE + 1) * PAGE_SIZE)).
(** [size % HASH_MAP_DIR_BLOCK_SIZE] *)
Definition dir_index_of (size : Z) : Z := uwrap 64 size mod HASH_MAP_DIR_BLOCK_SIZE.
(** [(dir_addr / PAGE_SIZE - 1) * HASH_MAP_DIR_BLOCK_SIZE + counter] *)
Definition position (dir_addr counter : Z) : Z :=
  uwrap 64 (uwrap 64 (Z.quot dir_addr PAGE_SIZE - 1) * HASH_MAP_DIR_BLOCK_SIZE
            + uwrap 64 counter).

(** [directory[i]] and [table[i]], inside their arrays *)
Definition rd_dir (i : Z) : M Page Z :=
  need ((0 <=? i) && (i <? HASH_MAP_DIR_BLOCK_SIZE));; rd_i64 (8 * i).
Definition wr_dir (i v : Z) : M Page unit :=
  need ((0 <=? i) && (i <? HASH_MAP_DIR_BLOCK_SIZE));; wr_64 (8 * i) v.
Definition rd_table (i : Z) : M Page Z :=
  need ((0 <=? i) && (i <? HASH_MAP_BLOCK_SIZE));; rd_i64 (off_table + 8 * i).
Definition wr_table (i v : Z) : M Page unit :=
  need ((0 <=? i) && (i <? HASH_MAP_BLOCK_SIZE));; wr_64 (off_table + 8 * i) v.

(** ** Opening and closing *)

(** the body of the loop over the directory pages *)
Definition init_directory (i : Z) : M BufferPool unit :=
  let init_addr := i * PAGE_SIZE in
  init_block ← get_page init_addr;
  at_page init_block (wr 0 (replicate (Z.to_nat PAGE_SIZE) xff));;
  release init_addr.

Definition hash_table_init (path : PathState) (n_directory_blocks : Z) : M BufferPool unit :=
  init_buffer_pool path;;
  len ← file_length;
  if negb (len =? 0) then mret tt
  else
    for_lt 1 (n_directory_blocks + 1) init_directory;;
    ctrl ← get_page 0;
    at_page ctrl (wr_64 off_free_block_head (-1));;
    at_page ctrl (wr_64 off_n_directory_blocks n_directory_blocks);;
    at_page ctrl (wr_64 off_max_size (PAGE_SIZE * (n_directory_blocks + 1)));;
    max_size ← at_page ctrl (rd_i64 off_max_size);
    set_file_length max_size;;
    release 0.

Definition hash_table_close : M BufferPool unit := close_buffer_pool.

(** ** Insertion *)

(** the first block of an empty chain, taken from the free list *)
Definition insert_free_block (dir_addr : Z) (dir_block ctrl : Ptr) (size addr : Z)
    : M BufferPool unit :=
  head ← at_page ctrl (rd_i64 off_free_block_head);
  free_block ← get_page head;
  free_addr ← at_page ctrl (rd_i64 off_free_block_head);
  head ← at_page ctrl (rd_i64 off_free_block_head);
  at_page dir_block (wr_dir (dir_index_of size) head);;
  next ← at_page free_block (rd_i64 off_next);
  at_page ctrl (wr_64 off_free_block_head next);;
  at_page free_block (wr_64 off_next (-1));;
  at_page free_block (wr_64 off_block_n_items 1);;
  at_page free_block (wr_table 0 addr);;
  release free_addr;;
  release dir_addr;;
  release 0.

(** ... and at the end of the file *)
Definition insert_new_block (dir_addr : Z) (dir_block ctrl : Ptr) (size addr : Z)
    : M BufferPool unit :=
  free_addr ← at_page ctrl (rd_i64 off_max_size);
  at_page dir_block (wr_dir (dir_index_of size) free_addr);;
  free_block ← get_page free_addr;
  at_page free_block (wr_64 off_block_n_items 1);;
  at_page free_block (wr_table 0 addr);;
  at_page free_block (wr_64 off_next (-1));;
  max_size ← at_page ctrl (rd_i64 off_max_size);
  max_size' ← chk64 (max_size + PAGE_SIZE);
  at_page ctrl (wr_64 off_max_size max_size');;
  release dir_addr;;
  release free_addr;;
  release 0.

(** a chain whose first block has room *)
Definition insert_in_block (dir_addr cnt_addr : Z) (cnt_block : Ptr) (addr : Z)
    : M BufferPool unit :=
  n_items ← at_page cnt_block (rd_i64 off_block_n_items);
  at_page cnt_block (wr_table n_items addr);;
  n_items ← at_page cnt_block (rd_i64 off_block_n_items);
  n_items' ← chk64 (n_items + 1);
  at_page cnt_block (wr_64 off_block_n_items n_items');;
  release dir_addr;;
  release cnt_addr.

(** a chain whose first block is full: a new block goes in front *)
Definition insert_front_block (dir_addr cnt_addr : Z) (dir_block : Ptr) (size addr : Z)
    : M BufferPool unit :=
  ctrl ← get_page 0;
  free_addr ← at_page ctrl (rd_i64 off_max_size);
  free_block ← get_page free_addr;
  at_page free_block (wr_64 off_next cnt_addr);;
  at_page free_block (wr_64 off_block_n_items 1);;
  at_page free_block (wr_table 0 addr);;
  at_page dir_block (wr_dir (dir_index_of size) free_addr);;
  max_size ← at_page ctrl (rd_i64 off_max_size);
  max_size' ← chk64 (max_size + PAGE_SIZE);
  at_page ctrl (wr_64 off_max_size max_size');;
  release cnt_addr;;
  release free_addr;;
  release 0;;
  release dir_addr.

Definition hash_table_insert (size addr : Z) : M BufferPool unit :=
  let dir_addr := dir_addr_of size in
  dir_block ← get_page dir_addr;
  cnt_addr ← at_page dir_block (rd_dir (dir_index_of size));
  if cnt_addr =? -1 then
    ctrl ← get_page 0;
    head ← at_page ctrl (rd_i64 off_free_block_head);
    if negb (head =? -1) then insert_free_block dir_addr dir_block ctrl size addr
    else insert_new_block dir_addr dir_block ctrl size addr
  else
    cnt_block ← get_page cnt_addr;
    n_items ← at_page cnt_block (rd_i64 off_block_n_items);
    (* the comparison is one of size_t values *)
    if negb (uwrap 64 n_items =? HASH_MAP_BLOCK_SIZE) then
      insert_in_block dir_addr cnt_addr cnt_block addr
    else insert_front_block dir_addr cnt_addr dir_block size addr.

(** ** Removal *)

(** the last index of [addr] in the block, or -1 *)
Definition find_item (cnt_block : Ptr) (addr : Z) : M BufferPool Z :=
  n_items ← at_page cnt_block (rd_i64 off_block_n_items);
  fold_ne 0 n_items (λ i target,
    a ← at_page cnt_block (rd_table i);
    mret (if a =? addr then i else target)) (-1).

(** more than one item: the ones after [target] move down *)
Definition pop_item (cnt_addr : Z) (cnt_block : Ptr) (target n_items : Z) : M BufferPool unit :=
  for_lt (target + 1) n_items (λ i,
    a ← at_page cnt_block (rd_table i);
    at_page cnt_block (wr_table (i - 1) a));;
  n ← at_page cnt_block (rd_i64 off_block_n_items);
  at_page cnt_block (wr_64 off_block_n_items (n - 1));;
  n ← at_page cnt_block (rd_i64 off_block_n_items);
  at_page cnt_block (wr_table n 0);;
  release cnt_addr.

(** the block is emptied and goes to the free list *)
Definition free_block_to_list (cnt_addr : Z) (cnt_block : Ptr) : M BufferPool unit :=
  ctrl ← get_page 0;
  free_block_ptr ← at_page ctrl (rd_i64 off_free_block_head);
  at_page cnt_block (wr_64 off_block_n_items 0);;
  at_page cnt_block (wr_table 0 0);;
  at_page cnt_block (wr_64 off_next free_block_ptr);;
  at_page ctrl (wr_64 off_free_block_head cnt_addr).

(** the only item of the first block of the chain *)
Definition pop_first_block (size cnt_addr : Z) (cnt_block : Ptr) : M BufferPool unit :=
  pre_block ← get_page (dir_addr_of size);
  next ← at_page cnt_block (rd_i64 off_next);
  at_page pre_block (wr_dir (dir_index_of size) next);;
  free_block_to_list cnt_addr cnt_block;;
  release (dir_addr_of size);;
  release cnt_addr;;
  release 0.

(** ... of a later block *)
Definition pop_later_block (pre_addr cnt_addr : Z) (cnt_block : Ptr) : M BufferPool unit :=
  pre_block ← get_page pre_addr;
  next ← at_page cnt_block (rd_i64 off_next);
  at_page pre_block (wr_64 off_next next);;
  free_block_to_list cnt_addr cnt_block;;
  release pre_addr;;
  release cnt_addr;;
  release 0.

(** the loop along the chain; the fuel bounds the number of blocks visited *)
Fixpoint pop_loop (fuel : nat) (size addr pre_addr cnt_addr : Z) : M BufferPool unit :=
  match fuel with
  | O => no_fuel
  | S fuel' =>
      cnt_block ← get_page cnt_addr;
      nxt_addr ← at_page cnt_block (rd_i64 off_next);
      target ← find_item cnt_block addr;
      if target =? -1 then
        release cnt_addr;;
        pop_loop fuel' size addr cnt_addr nxt_addr
      else
        n_items ← at_page cnt_block (rd_i64 off_block_n_items);
        if n_items >? 1 then pop_item cnt_addr cnt_block target n_items
        else if pre_addr =? cnt_addr then pop_first_block size cnt_addr cnt_block
        else pop_later_block pre_addr cnt_addr cnt_block
  end.

Definition hash_table_pop (fuel : nat) (size addr : Z) : M BufferPool unit :=
  dir_block ← get_page (dir_addr_of size);
  cnt_addr ← at_page dir_block (rd_dir (dir_index_of size));
  release (dir_addr_of size);;
  pop_loop fuel size addr cnt_addr cnt_addr.

(** the search along the directory of [hash_table_pop_lower_bound]; it ends
    at a position that has a chain, whose directory page is still pinned, or
    past the directory, with the page released *)
Fixpoint scan_directory (fuel : nat) (n_directory_blocks dir_addr : Z) (dir_block : Ptr)
    (counter : Z) : M BufferPool (Z * Ptr * Z) :=
  match fuel with
  | O => no_fuel
  | S fuel' =>
      v ← at_page dir_block (rd_dir counter);
      if negb (v =? -1) then mret (dir_addr, dir_block, counter)
      else if uwrap 64 (uwrap 64 n_directory_blocks * HASH_MAP_DIR_BLOCK_SIZE)
                <=? position dir_addr counter then
        release dir_addr;;
        mret (dir_addr, dir_block, counter)
      else
        release dir_addr;;
        let counter := counter + 1 in
        '(counter, dir_addr) ←
          (if counter =? HASH_MAP_DIR_BLOCK_SIZE
           then dir_addr' ← chk64 (dir_addr + PAGE_SIZE); mret (0, dir_addr')
           else mret (counter, dir_addr));
        dir_block ← get_page dir_addr;
        scan_directory fuel' n_directory_blocks dir_addr dir_block counter
  end.

Definition hash_table_pop_lower_bound (fuel : nat) (size : Z) : M BufferPool Z :=
  ctrl ← get_page 0;
  n_directory_blocks ← at_page ctrl (rd_i64 off_n_directory_blocks);
  release 0;;
  dir_block ← get_page (dir_addr_of size);
  '(dir_addr, dir_block, counter) ←
    scan_directory fuel n_directory_blocks (dir_addr_of size) dir_block (dir_index_of size);
  if negb (position dir_addr counter
           =? uwrap 64 (uwrap 64 n_directory_blocks * HASH_MAP_DIR_BLOCK_SIZE)) then
    map_block_addr ← at_page dir_block (rd_dir counter);
    map_block ← get_page map_block_addr;
    addr ← at_page map_block (rd_table 0);
    release dir_addr;;
    release map_block_addr;;
    hash_table_pop fuel (swrap 16 (position dir_addr counter)) addr;;
    mret addr
  else
    release dir_addr;;
    mret (-1).
