(* ===== verification/HashMapSpec.v ===== *)
(** What the free-space map promises: at the abstract level it holds, for
    each size below 128, a bag of page addresses; [hash_table_insert] adds to a
    bag, [hash_table_pop] removes from one and [hash_table_pop_lower_bound]
    removes from the first non-empty bag at or above a size. *)
From stdpp Require Import base gmap list fin_maps.
From Stdlib Require Import ZArith Lia Strings.Byte.
From S2P Require Import Prelude FileIO BufferPool PoolLogic PoolClient PoolDurable HashMap.
#[local] Open Scope Z_scope.

Lemma elem_of_concat {A} (x : A) (ls : list (list A)) :
  x ∈ concat ls ↔ ∃ l, x ∈ l ∧ l ∈ ls.
Proof.
  induction ls as [|l ls IH]; simpl.
  - split; [by intros []%not_elem_of_nil|]. by intros (? & _ & []%not_elem_of_nil).
  - rewrite elem_of_app, IH. setoid_rewrite elem_of_cons. naive_solver.
Qed.

(** ** Chains of blocks *)

(** A block of the table: its address and its entries. *)
Abbreviation hblock := (Z * list Z)%type.

(** the contents of the page of a block *)
Definition block_page (pg : Page) (next : Z) (items : list Z) : Prop :=
  word pg 0 = next ∧ word pg 1 = Z.of_nat (length items) ∧
  (length items <= 14)%nat ∧
  ∀ i x, items !! i = Some x → word pg (2 + Z.of_nat i) = x.

(** the blocks [bs] are linked in the store, from address [a] to [x] *)
Fixpoint seg (m : gmap Z Page) (a : Z) (bs : list hblock) (x : Z) : Prop :=
  match bs with
  | [] => a = x
  | (b, items) :: bs' =>
      a = b ∧ ∃ pg next, m !! b = Some pg ∧ block_page pg next items ∧ seg m next bs' x
  end.

Lemma seg_app m a bs1 bs2 x :
  seg m a (bs1 ++ bs2) x ↔ ∃ y, seg m a bs1 y ∧ seg m y bs2 x.
Proof.
  revert a. induction bs1 as [|[b its] bs1 IH]; intros a; simpl.
  - naive_solver.
  - setoid_rewrite IH. naive_solver.
Qed.

Lemma seg_frame m a bs x c pg :
  c ∉ bs.*1 → seg m a bs x → seg (<[c:=pg]> m) a bs x.
Proof.
  revert a. induction bs as [|[b its] bs IH]; intros a Hc; simpl; [done|].
  rewrite fmap_cons, not_elem_of_cons in Hc. destruct Hc as [Hc1 Hc2]. simpl in Hc1.
  intros (-> & q & next & Hb & Hq & Hs). split; [done|]. exists q, next.
  split_and!; [by rewrite lookup_insert_ne|done|by apply IH].
Qed.

Lemma seg_in_store m a bs x b : seg m a bs x → b ∈ bs.*1 → is_Some (m !! b).
Proof.
  revert a. induction bs as [|[c its] bs IH]; intros a; simpl.
  - intros _ []%not_elem_of_nil.
  - intros (-> & q & next & Hb & _ & Hs) [->|Hin]%elem_of_cons; [eauto|]. by eapply IH.
Qed.

(** the first address of a chain *)
Lemma seg_head m a bs : seg m a bs (-1) →
  (∀ b its, (b, its) ∈ bs → b ≠ -1) → (a = -1 ↔ bs = []).
Proof.
  destruct bs as [|[b its] bs]; simpl; [done|]. intros (-> & _) Hne.
  split; [|done]. intros ->. by destruct (Hne (-1) its); [left|].
Qed.

(** the address after the blocks of [bs], if they start at [a] *)
Lemma seg_last m a bs b its x :
  seg m a (bs ++ [(b, its)]) x ↔
    seg m a bs b ∧ ∃ pg, m !! b = Some pg ∧ block_page pg x its.
Proof. rewrite seg_app. simpl. naive_solver. Qed.

(** ** The abstract state *)

Record hstate := HState {
  h_dir : list (list hblock);     (* the chain of each size *)
  h_free : list Z;                (* the free blocks *)
  h_max : Z;                      (* where the next new block goes *)
}.

(** the bag of addresses of a size *)
Definition items (h : hstate) (s : nat) : list Z :=
  match h_dir h !! s with Some bs => concat bs.*2 | None => [] end.

(** the addresses of all blocks but those of size [s] *)
Definition other_blocks (h : hstate) (s : nat) : list Z :=
  concat ((λ bs : list hblock, bs.*1) <$> delete s (h_dir h)) ++ h_free h.
Definition all_blocks (h : hstate) : list Z :=
  concat ((λ bs : list hblock, bs.*1) <$> h_dir h) ++ h_free h.

(** the directory page of a size *)
Definition dir_page (s : Z) : Z := 128 * (s / 16 + 1).
(** the first page that is neither the control nor a directory page *)
Definition FIRST_BLOCK : Z := 1152.

Record fsm_rep (m : gmap Z Page) (l : Z) (h : hstate) : Prop := {
  f_ctrl : ∃ pg, m !! 0 = Some pg ∧ word pg 1 = 8 ∧ word pg 2 = h_max h ∧
             seg m (word pg 0) ((λ b, (b, [])) <$> h_free h) (-1);
  f_len : length (h_dir h) = 128%nat;
  f_dir : ∀ s bs, h_dir h !! s = Some bs →
            ∃ pg, m !! dir_page (Z.of_nat s) = Some pg ∧
                  seg m (word pg (Z.of_nat s mod 16)) bs (-1);
  f_items : ∀ s bs b its, h_dir h !! s = Some bs → (b, its) ∈ bs → its ≠ [];
  f_nodup : NoDup (all_blocks h);
  f_range : ∀ b, b ∈ all_blocks h → FIRST_BLOCK <= b < h_max h;
  f_max : FIRST_BLOCK <= h_max h <= MAX_LEN ∧ h_max h mod 128 = 0 ∧
          (l = h_max h ∨ l = h_max h + 128);
}.

(** replacing the chain of one size *)
Definition set_chain (s : nat) (bs : list hblock) (h : hstate) : hstate :=
  HState (<[s:=bs]> (h_dir h)) (h_free h) (h_max h).

Lemma all_blocks_split h s bs :
  h_dir h !! s = Some bs → all_blocks h ≡ₚ bs.*1 ++ other_blocks h s.
Proof.
  intros Hs. unfold all_blocks, other_blocks. rewrite app_assoc. f_equiv.
  rewrite (delete_Permutation _ _ _ Hs) at 1. by rewrite fmap_cons, concat_cons.
Qed.

Lemma other_blocks_set h s bs f x :
  (s < length (h_dir h))%nat →
  other_blocks (HState (<[s:=bs]> (h_dir h)) f x) s =
    concat ((λ bs : list hblock, bs.*1) <$> delete s (h_dir h)) ++ f.
Proof.
  intros Hs. unfold other_blocks. simpl. do 3 f_equal.
  rewrite !delete_take_drop. rewrite take_insert_ge by lia. f_equal.
  rewrite drop_insert_lt by lia. done.
Qed.

(** bags after a change of one chain *)
Lemma items_set h s bs f x t :
  (s < length (h_dir h))%nat →
  items (HState (<[s:=bs]> (h_dir h)) f x) t =
    if decide (t = s) then concat bs.*2 else items h t.
Proof.
  intros Hs. unfold items. simpl. case_decide as E.
  - subst. by rewrite list_lookup_insert_eq.
  - by rewrite list_lookup_insert_ne by done.
Qed.

Lemma seg_agree m m' a bs x :
  (∀ b, b ∈ bs.*1 → m' !! b = m !! b) → seg m a bs x → seg m' a bs x.
Proof.
  revert a. induction bs as [|[b its] bs IH]; intros a Hm; simpl; [done|].
  intros (-> & q & next & Hb & Hq & Hs). split; [done|]. exists q, next.
  split_and!; [by rewrite Hm by left|done|]. apply IH; [|done]. intros c Hc. apply Hm. by right.
Qed.

Lemma dir_page_range s : (s < 128)%nat →
  128 <= dir_page (Z.of_nat s) < FIRST_BLOCK ∧ dir_page (Z.of_nat s) mod 128 = 0.
Proof.
  intros Hs. unfold dir_page, FIRST_BLOCK.
  pose proof (Z.div_mod (Z.of_nat s) 16 ltac:(lia)).
  pose proof (Z.mod_pos_bound (Z.of_nat s) 16 ltac:(lia)).
  split; [lia|]. rewrite Z.mul_comm. by apply Z.mod_mul.
Qed.

Lemma dir_index_range s : 0 <= Z.of_nat s mod 16 < 16.
Proof. apply Z.mod_pos_bound. lia. Qed.

Lemma dir_addr_of_page s : (s < 128)%nat → dir_addr_of (Z.of_nat s) = dir_page (Z.of_nat s).
Proof.
  intros Hs. pose proof (dir_page_range s Hs) as [Hr _]. unfold dir_page, FIRST_BLOCK in *.
  unfold dir_addr_of. change HASH_MAP_DIR_BLOCK_SIZE with 16. change PAGE_SIZE with 128.
  rewrite (uwrap_id 64 (Z.of_nat s)) by (unfold in_u; lia).
  rewrite (Z.mul_comm _ 128), uwrap_id by (unfold in_u; lia).
  apply swrap_id; [lia|]. unfold in_s. lia.
Qed.

Lemma dir_index_of_index s : (s < 128)%nat → dir_index_of (Z.of_nat s) = Z.of_nat s mod 16.
Proof.
  intros Hs. unfold dir_index_of. by rewrite (uwrap_id 64 (Z.of_nat s)) by (unfold in_u; lia).
Qed.

(** Blocks of the other sizes are neither in the chain of [s] nor free. *)
Lemma other_chain m l h s t bs bs' b :
  fsm_rep m l h → h_dir h !! s = Some bs → h_dir h !! t = Some bs' → t ≠ s → b ∈ bs'.*1 →
  FIRST_BLOCK <= b < h_max h ∧ b ∉ bs.*1 ∧ b ∉ h_free h.
Proof.
  intros Hf Hs Ht Hne Hb.
  assert (b ∈ concat ((λ bs : list hblock, bs.*1) <$> delete s (h_dir h))) as Hin.
  { apply elem_of_concat. exists (bs'.*1). split; [done|].
    apply list_elem_of_fmap_2' with bs'; [|done].
    destruct (decide (t < s)%nat).
    - apply (list_elem_of_lookup_2 _ t). by rewrite list_lookup_delete_lt.
    - apply (list_elem_of_lookup_2 _ (t - 1)). rewrite list_lookup_delete_ge by lia.
      by replace (S (t - 1)) with t by lia. }
  pose proof (f_nodup _ _ _ Hf) as Hnd. pose proof (f_range _ _ _ Hf b) as Hr.
  rewrite (all_blocks_split _ _ _ Hs) in Hnd, Hr. unfold other_blocks in Hnd, Hr.
  apply NoDup_app in Hnd as (_ & Hd & Hnd). apply NoDup_app in Hnd as (_ & Hd' & _).
  split; [apply Hr; set_solver|]. split; [|by apply Hd'].
  intros Hbs. apply (Hd _ Hbs). set_solver.
Qed.

(** the chain of another size, when only the chain of [s], the free blocks and
    one entry of the directory changed *)
Lemma other_chain_kept m l h m' s bs t bst pd pd' :
  fsm_rep m l h → h_dir h !! s = Some bs → h_dir h !! t = Some bst → t ≠ s →
  m !! dir_page (Z.of_nat s) = Some pd → m' !! dir_page (Z.of_nat s) = Some pd' →
  (∀ j, 0 <= j < 16 → j ≠ Z.of_nat s mod 16 → word pd' j = word pd j) →
  (∀ a, a ≠ 0 → a ≠ dir_page (Z.of_nat s) → a ∉ bs.*1 → a ∉ h_free h → a < h_max h → m' !! a = m !! a) →
  ∃ pt, m' !! dir_page (Z.of_nat t) = Some pt ∧ seg m' (word pt (Z.of_nat t mod 16)) bst (-1).
Proof.
  intros Hf Hs Ht Hne Hpd Hpd' Hw Hother. pose proof (f_max _ _ _ Hf) as Hmx. pose proof (f_len _ _ _ Hf) as Hlen.
  pose proof (lookup_lt_Some _ _ _ Hs) as Hlt. pose proof (lookup_lt_Some _ _ _ Ht) as Htl.
  destruct (f_dir _ _ _ Hf _ _ Ht) as (pt & Hpt & Hseg').
  assert (seg m' (word pt (Z.of_nat t mod 16)) bst (-1)) as Hst.
  { eapply seg_agree; [|exact Hseg']. intros b Hb.
    destruct (other_chain _ _ _ _ _ _ _ _ Hf Hs Ht Hne Hb) as (Hr & Hn1 & Hn2).
    pose proof (dir_page_range s ltac:(lia)). unfold FIRST_BLOCK in *.
    apply Hother; [lia|lia|done|done|lia]. }
  destruct (decide (dir_page (Z.of_nat t) = dir_page (Z.of_nat s))) as [E|E].
  - exists pd'. rewrite E in *. simplify_eq. split; [done|]. rewrite Hw; [done|apply dir_index_range|].
    unfold dir_page in E. pose proof (Z.div_mod (Z.of_nat s) 16 ltac:(lia)).
    pose proof (Z.div_mod (Z.of_nat t) 16 ltac:(lia)). lia.
  - exists pt. split; [|done].
    pose proof (dir_page_range t ltac:(lia)) as [Hdr _].
    assert (∀ b, b ∈ all_blocks h → b ≠ dir_page (Z.of_nat t)) as Hnb.
    { intros b Hb ->. apply (f_range _ _ _ Hf) in Hb. lia. }
    rewrite Hother; [done|lia|done|..].
    + intros Hb. eapply Hnb; [|reflexivity]. rewrite (all_blocks_split _ _ _ Hs). set_solver.
    + intros Hb. eapply Hnb; [|reflexivity]. unfold all_blocks. set_solver.
    + lia.
Qed.

(** The store after an operation on the chain of one size. *)
Lemma fsm_rep_update m l h m' l' s bs bs' free' max' nw d i pd pd' :
  d = dir_page (Z.of_nat s) → i = Z.of_nat s mod 16 →
  fsm_rep m l h → h_dir h !! s = Some bs →
  (∃ pg, m' !! 0 = Some pg ∧ word pg 1 = 8 ∧ word pg 2 = max' ∧
     seg m' (word pg 0) ((λ b, (b, [])) <$> free') (-1)) →
  m !! d = Some pd → m' !! d = Some pd' →
  (∀ j, 0 <= j < 16 → j ≠ i → word pd' j = word pd j) →
  seg m' (word pd' (i)) bs' (-1) →
  (∀ a, a ≠ 0 → a ≠ d → a ∉ bs.*1 → a ∉ h_free h → a < h_max h →
    m' !! a = m !! a) →
  (∀ b its, (b, its) ∈ bs' → its ≠ []) →
  bs'.*1 ++ free' ≡ₚ nw ++ bs.*1 ++ h_free h →
  (nw = [] ∧ max' = h_max h ∨ nw = [h_max h] ∧ max' = h_max h + 128) →
  max' <= MAX_LEN → (l' = max' ∨ l' = max' + 128) →
  fsm_rep m' l' (HState (<[s:=bs']> (h_dir h)) free' max').
Proof.
  intros -> -> Hf Hs Hctrl Hpd Hpd' Hw Hseg Hother Hits Hperm Hmax HM Hl.
  pose proof (lookup_lt_Some _ _ _ Hs) as Hlt. pose proof (f_len _ _ _ Hf) as Hlen.
  assert (all_blocks (HState (<[s:=bs']> (h_dir h)) free' max') ≡ₚ nw ++ all_blocks h) as Hall.
  { rewrite (all_blocks_split h s bs Hs).
    rewrite (all_blocks_split (HState _ _ _) s bs') by (by apply list_lookup_insert_eq).
    rewrite other_blocks_set by done. unfold other_blocks.
    rewrite (Permutation_app_comm _ free'), (app_assoc bs'.*1), Hperm.
    rewrite <- !app_assoc. do 2 f_equiv. apply Permutation_app_comm. }
  pose proof (f_max _ _ _ Hf) as Hmx.
  constructor; [done|by simpl; rewrite length_insert|..].
  - intros t bst Ht. simpl in Ht.
    pose proof (lookup_lt_Some _ _ _ Ht) as Htl. rewrite length_insert in Htl.
    destruct (decide (t = s)) as [->|Hne].
    { rewrite list_lookup_insert_eq in Ht by done. simplify_eq. eauto. }
    rewrite list_lookup_insert_ne in Ht by done.
    by apply (other_chain_kept m l h m' s bs t bst pd pd').
  - intros t bst b its Ht. simpl in Ht. destruct (decide (t = s)) as [->|Hne].
    + rewrite list_lookup_insert_eq in Ht by done. simplify_eq. apply Hits.
    + rewrite list_lookup_insert_ne in Ht by done. by eapply (f_items _ _ _ Hf).
  - rewrite Hall. destruct Hmax as [[-> _]|[-> _]]; [apply (f_nodup _ _ _ Hf)|].
    simpl. apply NoDup_cons. split; [|apply (f_nodup _ _ _ Hf)].
    intros Hin. apply (f_range _ _ _ Hf) in Hin. lia.
  - intros b. rewrite Hall. simpl. intros Hb.
    pose proof (f_range _ _ _ Hf b) as Hr. rewrite elem_of_app in Hb.
    destruct Hmax as [[-> ->]|[-> ->]]; destruct Hb as [Hb|Hb]; [|auto| |].
    + by apply not_elem_of_nil in Hb.
    + apply list_elem_of_singleton in Hb. subst. unfold FIRST_BLOCK in *. lia.
    + specialize (Hr Hb). lia.
  - simpl. destruct Hmx as (? & Hm1 & ?). split_and!; [lia|lia| |done].
    destruct Hmax as [[_ ->]|[_ ->]]; [done|].
    change 128 with (1 * 128) at 1. by rewrite Z_mod_plus_full.
Qed.

(** ** The rules of the table's accessors *)

Section accessors.
Context (m : gmap Z Page) (l : Z) (ps : gmap Z (nat * Z)) (h : Z).
Context (a : Z) (k : nat) (c : Z) (pg : Page).
Context (Hp : ps !! a = Some (k, c)) (Hm : m !! a = Some pg) (Hl : length pg = 128%nat).

Lemma ps_rd_dir i (Φ : Z → pstate → Prop) :
  0 <= i < 16 → Φ (word pg i) (PState m l ps h) →
  awp (at_page k (rd_dir i)) Φ (PState m l ps h).
Proof.
  intros Hi HΦ. eapply ps_read; [done..|]. unfold rd_dir. wp_step. apply wp_need.
  { change HASH_MAP_DIR_BLOCK_SIZE with 16. lia. }
  eapply wp_rd_word; [done|done|done|]. by split.
Qed.

Lemma ps_wr_dir i v (Φ : unit → pstate → Prop) :
  0 <= i < 16 → Φ tt (PState (<[a:=set_word i v pg]> m) l ps h) →
  awp (at_page k (wr_dir i v)) Φ (PState m l ps h).
Proof.
  intros Hi HΦ. eapply ps_edit; [done..|]. unfold wr_dir. wp_step. apply wp_need.
  { change HASH_MAP_DIR_BLOCK_SIZE with 16. lia. }
  eapply wp_wr_word; [done|done|done|]. split; [by apply set_word_length|done].
Qed.

Lemma ps_rd_table i (Φ : Z → pstate → Prop) :
  0 <= i < 14 → Φ (word pg (2 + i)) (PState m l ps h) →
  awp (at_page k (rd_table i)) Φ (PState m l ps h).
Proof.
  intros Hi HΦ. eapply ps_read; [done..|]. unfold rd_table. wp_step. apply wp_need.
  { change HASH_MAP_BLOCK_SIZE with 14. lia. }
  eapply (wp_rd_word _ Hl (2 + i)); [unfold off_table; lia|lia|]. by split.
Qed.

Lemma ps_wr_table i v (Φ : unit → pstate → Prop) :
  0 <= i < 14 → Φ tt (PState (<[a:=set_word (2 + i) v pg]> m) l ps h) →
  awp (at_page k (wr_table i v)) Φ (PState m l ps h).
Proof.
  intros Hi HΦ. eapply ps_edit; [done..|]. unfold wr_table. wp_step. apply wp_need.
  { change HASH_MAP_BLOCK_SIZE with 14. lia. }
  eapply (wp_wr_word _ Hl (2 + i)); [unfold off_table; lia|lia|].
  split; [apply set_word_length; [done|lia]|done].
Qed.
End accessors.

Ltac with_pin tac :=
  lazymatch goal with
  | |- awp (at_page ?k _) _ (PState _ _ ?ps _) => pinned_at ps k tac
  end.
Ltac rdir := with_pin ltac:(fun a => eapply (ps_rd_dir _ _ _ _ a); [map_find|map_find|pg_len|lia|]).
Ltac wdir := with_pin ltac:(fun a => eapply (ps_wr_dir _ _ _ _ a); [map_find|map_find|pg_len|lia|]).
Ltac rtab := with_pin ltac:(fun a => eapply (ps_rd_table _ _ _ _ a); [map_find|map_find|pg_len|lia|]).
Ltac wtab := with_pin ltac:(fun a => eapply (ps_wr_table _ _ _ _ a); [map_find|map_find|pg_len|lia|]).

(** a lookup the writes do not reach *)
Ltac map_keep :=
  repeat (rewrite lookup_insert_ne by first [done | lia | congruence | intros ->; contradiction]);
  done.

(** ** Insertion *)

(** the effect of an insertion on the bags *)
Definition added (s : nat) (addr : Z) (h h' : hstate) : Prop :=
  ∀ t, items h' t ≡ₚ if decide (t = s) then addr :: items h t else items h t.

(** the state after an operation: nothing is pinned, the map is represented *)
Definition fsm_post (l hh : Z) (cost : Z) (P : hstate → Prop) (g' : pstate) : Prop :=
  pins g' = ∅ ∧ l <= plen g' <= l + 128 ∧ hh - cost <= hits g' ∧
  ∃ h', fsm_rep (mem g') (plen g') h' ∧ P h'.

Lemma fsm_post_weaken l hh hh' c c' (P P' : hstate → Prop) g' :
  fsm_post l hh c P g' → hh' - c' <= hh - c → (∀ h, P h → P' h) → fsm_post l hh' c' P' g'.
Proof.
  intros (Hp & Hl & Hh & h' & Hf & HP) Hc HPP. split; [done|]. split; [done|].
  split; [lia|]. eauto.
Qed.

Ltac fsm_done := split; [pins_empty|]; split; [simpl; lia|]; split; [simpl; lia|].

Lemma ok_store m l ps hh : pstate_ok (PState m l ps hh) →
  (∀ a pg, m !! a = Some pg → length pg = 128%nat) ∧
  (∀ a, 0 <= a < l → a mod 128 = 0 → is_Some (m !! a)) ∧
  (∀ a, is_Some (m !! a) → 0 <= a < l ∧ a mod 128 = 0).
Proof.
  intros Hok. split_and!; [apply Hok| |].
  - intros a ? ?. by apply (k_dom _ Hok).
  - intros a Ha. by apply (k_dom _ Hok).
Qed.

(** the blocks an operation on one size works with *)
Lemma fsm_facts m l h s bs :
  fsm_rep m l h → h_dir h !! s = Some bs →
  NoDup (bs.*1 ++ h_free h) ∧
  (∀ b, b ∈ bs.*1 ++ h_free h → 1152 <= b < h_max h) ∧
  1152 <= h_max h <= 2 ^ 62.
Proof.
  intros Hf Hs. pose proof (f_nodup _ _ _ Hf) as Hnd. pose proof (f_range _ _ _ Hf) as Hr.
  assert (bs.*1 ++ h_free h ++ concat ((λ bs : list hblock, bs.*1) <$> delete s (h_dir h))
    ≡ₚ all_blocks h) as Hp.
  { rewrite (all_blocks_split _ _ _ Hs). unfold other_blocks. f_equiv. apply Permutation_app_comm. }
  rewrite app_assoc in Hp. rewrite <- Hp in Hnd. apply NoDup_app in Hnd as (Hnd & _).
  split; [done|]. split; [|apply (f_max _ _ _ Hf)].
  intros b Hb. apply Hr. rewrite <- Hp. apply elem_of_app. by left.
Qed.

(** a part of the store that the writes of an operation do not reach *)
Lemma seg_untouched m m' a bs x :
  seg m a bs x → (∀ b, b ∈ bs.*1 → m' !! b = m !! b) → seg m' a bs x.
Proof. intros Hs Hm. by eapply seg_agree. Qed.

Lemma fmap_free (free : list Z) : ((λ b, (b, @nil Z)) <$> free).*1 = free.
Proof. rewrite <- list_fmap_compose. apply list_fmap_id. Qed.

(** the facts every branch starts from *)
Ltac fsm_setup Hd Hi :=
  match goal with Hf : fsm_rep _ _ _, Hs : h_dir _ !! _ = Some _ |- _ =>
    destruct (fsm_facts _ _ _ _ _ Hf Hs) as (Hnd & Hrange & Hmx);
    pose proof (f_max _ _ _ Hf) as (_ & _ & Hl)
  end;
  apply awp_ok; let Hok := fresh in intros Hok;
  destruct (ok_store _ _ _ _ Hok) as (Hlen & Hex & Hin); clear Hok;
  match goal with Hs : (?s < 128)%nat |- _ =>
    pose proof (dir_page_range s Hs) as [Hdr _];
    pose proof (dir_index_range s) as Hir; rewrite <- Hd in Hdr; rewrite <- Hi in Hir;
    rewrite ?(dir_index_of_index s Hs), <- ?Hi
  end; unfold FIRST_BLOCK in *.

(** a chain that is empty, with a block on the free list *)
Lemma insert_free_block_spec m l hh h s addr kd kc b free d i pd pc :
  fsm_rep m l h → (s < 128)%nat → h_dir h !! s = Some [] → h_free h = b :: free →
  in_s 64 addr → 1 <= hh → d = dir_page (Z.of_nat s) → i = Z.of_nat s mod 16 →
  m !! d = Some pd → m !! 0 = Some pc → word pc 1 = 8 → word pc 2 = h_max h →
  seg m (word pc 0) ((λ b, (b, [])) <$> b :: free) (-1) →
  awp (insert_free_block d kd kc (Z.of_nat s) addr)
    (λ _ g', fsm_post l hh 1 (added s addr h) g')
    (PState m l (<[0:=(kc, 1)]> (<[d:=(kd, 1)]> ∅)) hh).
Proof.
  intros Hf Hs Hd Hfree Haddr Hh Ed Ei Hpd Hpc Hc1 Hc2 Hseg. unfold insert_free_block.
  fsm_setup Ed Ei. pose proof (Hlen _ _ Hpd) as Lpd. pose proof (Hlen _ _ Hpc) as Lpc.
  rewrite Hfree in Hnd, Hrange. simpl in Hseg, Hnd, Hrange.
  destruct Hseg as (Hcb & pb & next & Hb & (Hb0 & Hb1 & _ & _) & Hseg).
  pose proof (Hlen _ _ Hb) as Lpb. pose proof (Hrange b ltac:(by left)) as Hbr.
  apply NoDup_cons in Hnd as [Hbn Hnd].
  awp_step. rd_word 0. awp_step. rewrite Hcb. get_pg kb.
  awp_step. rd_word 0. awp_step. rd_word 0. awp_step. rewrite Hcb. wdir.
  awp_step. rd_word 0. awp_step. wr_word 0.
  awp_step. wr_word 0. awp_step. wr_word 1. awp_step. wtab.
  awp_step. rel. awp_step. rel. rel. fsm_done. rewrite Hb0.
  assert (in_s 64 next) as Hnext by (rewrite <- Hb0; apply word_range).
  exists (HState (<[s:=[(b, [addr])]]> (h_dir h)) free (h_max h)). cbn [mem plen].
  rewrite !insert_insert_eq. split.
  - eapply (fsm_rep_update m l h _ _ s [] _ free _ [] d i pd);
      [done|done|done|done| |done|map_find|..].
    + eexists. split; [map_find|]. words. split_and!; [done|done|].
      eapply seg_untouched; [exact Hseg|]. rewrite fmap_free. intros c Hc.
      pose proof (Hrange c ltac:(by right)). map_keep.
    + intros j Hj Hne. by words.
    + words. split; [done|]. eexists _, (-1). split; [map_find|]. split; [|done].
      split_and!; [by words|by words|simpl; lia|].
      intros [|[]] x Hx; simplify_eq/=. by words.
    + rewrite Hfree. intros a ? ? _ Ha ?. apply not_elem_of_cons in Ha as [? ?]. map_keep.
    + intros b' its [[= -> ->]|[]%not_elem_of_nil]%elem_of_cons. done.
    + by rewrite Hfree.
    + by left.
    + unfold MAX_LEN. lia.
    + done.
  - intros t. rewrite items_set by (by eapply lookup_lt_Some). case_decide; [|done].
    subst. unfold items. by rewrite Hd.
Qed.

(** the page at [max_size]: new, or already there after a search that ran
    past the directory *)
Lemma ps_get_new m l ps hh mx (Φ : Ptr → pstate → Prop) :
  (l = mx ∨ l = mx + 128) → mx mod 128 = 0 → 0 <= mx →
  ps !! mx = None → (size ps < 8)%nat → 0 < hh → mx + 128 <= MAX_LEN →
  (∀ k q, length q = 128%nat →
    Φ k (PState (<[mx:=q]> m) (mx + 128) (<[mx:=(k, 1)]> ps) (hh - 1))) →
  awp (get_page mx) Φ (PState m l ps hh).
Proof.
  intros [->| ->] Hm H0 Hp Hs Hh HM HΦ.
  - by apply ps_get_past; [..|intros k; apply HΦ].
  - apply awp_ok. intros Hok. destruct (ok_store _ _ _ _ Hok) as (Hlen & Hex & _).
    destruct (Hex mx) as [q Hq]; [lia|done|].
    eapply ps_get; [done..|]. intros k. rewrite <- (insert_id m mx q) by done.
    apply HΦ. by eapply Hlen.
Qed.

Ltac get_new k q Lq :=
  eapply ps_get_new; [done|done|lia|map_find|pins_size|lia|unfold MAX_LEN in *; lia|intros k q Lq].

Lemma awp_chk64 z (Φ : Z → pstate → Prop) g :
  - 2 ^ 63 <= z < 2 ^ 63 → Φ z g → awp (chk64 z) Φ g.
Proof.
  intros Hz HΦ. unfold chk64. awp_step. apply awp_need; [|by awp_step].
  apply andb_true_iff. split; [apply Z.leb_le|apply Z.ltb_lt]; apply Hz.
Qed.

Ltac chk := change PAGE_SIZE with 128; apply awp_chk64; [lia|].

(** a chain that is empty, and no free block *)
Lemma insert_new_block_spec m l hh h s addr kd kc d i pd pc :
  fsm_rep m l h → (s < 128)%nat → h_dir h !! s = Some [] → h_free h = [] →
  in_s 64 addr → 1 <= hh → h_max h + 128 <= MAX_LEN →
  d = dir_page (Z.of_nat s) → i = Z.of_nat s mod 16 →
  m !! d = Some pd → m !! 0 = Some pc → word pc 1 = 8 → word pc 2 = h_max h →
  word pc 0 = -1 →
  awp (insert_new_block d kd kc (Z.of_nat s) addr)
    (λ _ g', fsm_post l hh 1 (added s addr h) g')
    (PState m l (<[0:=(kc, 1)]> (<[d:=(kd, 1)]> ∅)) hh).
Proof.
  intros Hf Hs Hd Hfree Haddr Hh HM Ed Ei Hpd Hpc Hc1 Hc2 Hc0. unfold insert_new_block.
  fsm_setup Ed Ei. pose proof (Hlen _ _ Hpd) as Lpd. pose proof (Hlen _ _ Hpc) as Lpc.
  pose proof (f_max _ _ _ Hf) as (_ & Hmod & _). unfold MAX_LEN in *.
  awp_step. rd_word 2. rewrite Hc2. set (mx := h_max h) in *.
  awp_step. wdir. awp_step. get_new kb q Lq.
  awp_step. wr_word 1. awp_step. wtab. awp_step. wr_word 0.
  awp_step. rd_word 2. rewrite Hc2. awp_step. chk. awp_step. wr_word 2.
  awp_step. rel. awp_step. rel. rel. fsm_done.
  exists (HState (<[s:=[(mx, [addr])]]> (h_dir h)) [] (mx + 128)). cbn [mem plen].
  rewrite !insert_insert_eq. split.
  - eapply (fsm_rep_update m l h _ _ s [] _ [] _ [mx] d i pd);
      [done|done|done|done| |done|map_find|..].
    + eexists. split; [map_find|]. by words.
    + intros j Hj Hne. by words.
    + words. split; [done|]. eexists _, (-1). split; [map_find|]. split; [|done].
      split_and!; [by words|by words|simpl; lia|].
      intros [|[]] x Hx; simplify_eq/=. by words.
    + intros a ? ? _ _ ?. map_keep.
    + intros b' its [[= -> ->]|[]%not_elem_of_nil]%elem_of_cons. done.
    + by rewrite Hfree.
    + by right.
    + unfold MAX_LEN. lia.
    + by left.
  - intros t. rewrite items_set by (by eapply lookup_lt_Some). case_decide; [|done].
    subst. unfold items. by rewrite Hd.
Qed.

(** a chain whose first block has room *)
Lemma insert_in_block_spec m l hh h s addr kd kb b its bs d i pd pb next :
  fsm_rep m l h → (s < 128)%nat → h_dir h !! s = Some ((b, its) :: bs) →
  (length its < 14)%nat → in_s 64 addr → 0 <= hh →
  d = dir_page (Z.of_nat s) → i = Z.of_nat s mod 16 →
  m !! d = Some pd → word pd i = b → m !! b = Some pb → block_page pb next its →
  seg m next bs (-1) →
  awp (insert_in_block d b kb addr)
    (λ _ g', fsm_post l hh 0 (added s addr h) g')
    (PState m l (<[b:=(kb, 1)]> (<[d:=(kd, 1)]> ∅)) hh).
Proof.
  intros Hf Hs Hd Hits Haddr Hh Ed Ei Hpd Hw Hb (Hb0 & Hb1 & _ & Hbi) Hseg.
  unfold insert_in_block. fsm_setup Ed Ei. simpl in Hnd, Hrange.
  pose proof (Hlen _ _ Hpd) as Lpd. pose proof (Hlen _ _ Hb) as Lpb.
  pose proof (Hrange b ltac:(by left)) as Hbr. apply NoDup_cons in Hnd as [Hbn Hnd].
  assert (in_s 64 next) as Hnext by (rewrite <- Hb0; apply word_range).
  destruct (f_ctrl _ _ _ Hf) as (pc & Hpc & Hc1 & Hc2 & Hsegf).
  awp_step. rd_word 1. rewrite Hb1. awp_step. wtab.
  awp_step. rd_word 1. awp_step.
  assert (word (set_word (2 + Z.of_nat (length its)) addr pb) 1 = Z.of_nat (length its)) as ->
    by (by words).
  chk. awp_step. wr_word 1. awp_step. rel. rel. fsm_done.
  exists (HState (<[s:=(b, its ++ [addr]) :: bs]> (h_dir h)) (h_free h) (h_max h)).
  cbn [mem plen]. rewrite !insert_insert_eq. split.
  - eapply (fsm_rep_update m l h _ _ s _ _ (h_free h) _ [] d i pd);
      [done|done|done|done| |done|map_find|..].
    + eexists. split; [map_find|]. split_and!; [done|done|].
      eapply seg_untouched; [exact Hsegf|]. rewrite fmap_free. intros c Hc.
      pose proof (Hrange c ltac:(set_solver)). assert (b ≠ c) by set_solver. map_keep.
    + done.
    + split; [done|]. eexists _, next. split; [map_find|]. split.
      * split_and!; [by words|words; rewrite length_app; simpl; lia|rewrite length_app; simpl; lia|].
        intros j x Hx. assert (j < length its + 1)%nat as Hj.
        { apply lookup_lt_Some in Hx. rewrite length_app in Hx. simpl in Hx. lia. }
        words. destruct (decide (j = length its)) as [->|Hne].
        -- rewrite lookup_app_r, Nat.sub_diag in Hx by lia. simplify_eq/=. by words.
        -- rewrite lookup_app_l in Hx by lia. words. by apply Hbi.
      * eapply seg_untouched; [exact Hseg|]. intros c Hc.
        pose proof (Hrange c ltac:(set_solver)). assert (b ≠ c) by set_solver. map_keep.
    + intros a ? ? Ha _ ?. apply not_elem_of_cons in Ha as [? _]. map_keep.
    + intros b' its' [[= -> ->]|Hbin]%elem_of_cons; [by destruct its|].
      eapply (f_items _ _ _ Hf); [exact Hd|by right].
    + done.
    + by left.
    + unfold MAX_LEN. lia.
    + done.
  - intros t. rewrite items_set by (by eapply lookup_lt_Some). case_decide; [|done].
    subst. unfold items. rewrite Hd. simpl. rewrite <- app_assoc. simpl.
    by rewrite Permutation_middle.
Qed.

(** a chain whose first block is full *)
Lemma insert_front_block_spec m l hh h s addr kd kb b its bs d i pd pb next :
  fsm_rep m l h → (s < 128)%nat → h_dir h !! s = Some ((b, its) :: bs) →
  in_s 64 addr → 2 <= hh → h_max h + 128 <= MAX_LEN →
  d = dir_page (Z.of_nat s) → i = Z.of_nat s mod 16 →
  m !! d = Some pd → word pd i = b → m !! b = Some pb → block_page pb next its →
  seg m next bs (-1) →
  awp (insert_front_block d b kd (Z.of_nat s) addr)
    (λ _ g', fsm_post l hh 2 (added s addr h) g')
    (PState m l (<[b:=(kb, 1)]> (<[d:=(kd, 1)]> ∅)) hh).
Proof.
  intros Hf Hs Hd Haddr Hh HM Ed Ei Hpd Hw Hb Hbp Hseg.
  unfold insert_front_block. fsm_setup Ed Ei. simpl in Hnd, Hrange.
  pose proof (Hlen _ _ Hpd) as Lpd. pose proof (Hlen _ _ Hb) as Lpb.
  pose proof (Hrange b ltac:(by left)) as Hbr. apply NoDup_cons in Hnd as [Hbn Hnd].
  destruct (f_ctrl _ _ _ Hf) as (pc & Hpc & Hc1 & Hc2 & Hsegf). pose proof (Hlen _ _ Hpc) as Lpc.
  pose proof (f_max _ _ _ Hf) as (_ & Hmod & _). unfold MAX_LEN in *.
  awp_step. get_pg kc. awp_step. rd_word 2. rewrite Hc2. set (mx := h_max h) in *.
  awp_step. get_new kn q Lq. awp_step. wr_word 0. awp_step. wr_word 1. awp_step. wtab.
  awp_step. wdir. awp_step. rd_word 2. rewrite Hc2. awp_step. chk. awp_step. wr_word 2.
  awp_step. rel. awp_step. rel. awp_step. rel. rel. fsm_done.
  exists (HState (<[s:=(mx, [addr]) :: (b, its) :: bs]> (h_dir h)) (h_free h) (mx + 128)).
  cbn [mem plen]. rewrite !insert_insert_eq.
  assert (∀ c, c ∈ (b :: bs.*1) ++ h_free h → c ≠ mx ∧ c ≠ 0 ∧ c ≠ d) as Hne.
  { intros c Hc. pose proof (Hrange c Hc). lia. }
  split.
  - eapply (fsm_rep_update m l h _ _ s _ _ (h_free h) _ [mx] d i pd);
      [done|done|done|done| |done|map_find|..].
    + eexists. split; [map_find|]. words. split_and!; [done|done|].
      eapply seg_untouched; [exact Hsegf|]. rewrite fmap_free. intros c Hc.
      destruct (Hne c) as (? & ? & ?); [set_solver|]. map_keep.
    + intros j Hj Hj'. by words.
    + words. split; [done|]. eexists _, b. split; [map_find|]. split.
      * split_and!; [by words|by words|simpl; lia|].
        intros [|[]] x Hx; simplify_eq/=. by words.
      * split; [done|]. exists pb, next. split; [map_keep|]. split; [done|].
        eapply seg_untouched; [exact Hseg|]. intros c Hc.
        destruct (Hne c) as (? & ? & ?); [set_solver|]. map_keep.
    + intros a ? ? _ _ ?. map_keep.
    + intros b' its' [[= -> ->]|Hbin]%elem_of_cons; [done|].
      eapply (f_items _ _ _ Hf); [exact Hd|done].
    + done.
    + by right.
    + unfold MAX_LEN. lia.
    + by left.
  - intros t. rewrite items_set by (by eapply lookup_lt_Some). case_decide; [|done].
    subst. unfold items. by rewrite Hd.
Qed.

(** [hash_table_insert] adds the address to the bag of the size. *)
Lemma hash_table_insert_spec m l hh h s addr :
  fsm_rep m l h → (s < 128)%nat → in_s 64 addr → 4 <= hh → h_max h + 128 <= MAX_LEN →
  awp (hash_table_insert (Z.of_nat s) addr)
    (λ _ g', fsm_post l hh 4 (added s addr h) g') (PState m l ∅ hh).
Proof.
  intros Hf Hs Haddr Hh HM.
  destruct (lookup_lt_is_Some_2 (h_dir h) s) as [bs Hd]; [by rewrite (f_len _ _ _ Hf)|].
  destruct (f_dir _ _ _ Hf _ _ Hd) as (pd & Hpd & Hseg).
  destruct (f_ctrl _ _ _ Hf) as (pc & Hpc & Hc1 & Hc2 & Hsegf).
  unfold hash_table_insert. rewrite dir_addr_of_page by done.
  remember (dir_page (Z.of_nat s)) as d eqn:Ed. remember (Z.of_nat s mod 16) as i eqn:Ei.
  fsm_setup Ed Ei. pose proof (Hlen _ _ Hpd) as Lpd. pose proof (Hlen _ _ Hpc) as Lpc.
  awp_step. get_pg kd. awp_step. rdir. destruct bs as [|[b its] bs].
  - simpl in Hseg. rewrite Hseg. cbn [Z.eqb Pos.eqb].
    awp_step. get_pg kc. awp_step. rd_word 0. destruct (h_free h) as [|b free] eqn:Hfree.
    + simpl in Hsegf. rewrite Hsegf. cbn [Z.eqb Pos.eqb negb].
      eapply awp_mono; [eapply insert_new_block_spec; try done; lia|].
      intros [] g' Hp. eapply fsm_post_weaken; [exact Hp|lia|done].
    + destruct (Hrange b) as [Hb1 _]; [simpl; by left|].
      assert (word pc 0 = b) as Hb by (by destruct Hsegf).
      rewrite (proj2 (Z.eqb_neq (word pc 0) (-1))) by lia. cbn [negb].
      eapply awp_mono; [eapply insert_free_block_spec; try done; lia|].
      intros [] g' Hp. eapply fsm_post_weaken; [exact Hp|lia|done].
  - destruct Hseg as (Hb & pb & next & Hbm & Hbp & Hseg).
    destruct (Hrange b) as [Hb1 Hb2]; [simpl; by left|].
    rewrite (proj2 (Z.eqb_neq (word pd i) (-1))) by lia.
    rewrite Hb. pose proof (Hlen _ _ Hbm) as Lpb.
    awp_step. get_pg kb. awp_step. rd_word 1. pose proof Hbp as (_ & -> & Hle & _).
    rewrite uwrap_id by (unfold in_u; lia). change HASH_MAP_BLOCK_SIZE with 14.
    destruct (Z.eqb_spec (Z.of_nat (length its)) 14) as [E|E]; cbn [negb].
    + eapply awp_mono; [eapply insert_front_block_spec; try done; lia|].
      intros [] g' Hp. eapply fsm_post_weaken; [exact Hp|lia|done].
    + eapply awp_mono; [eapply insert_in_block_spec; try done; lia|].
      intros [] g' Hp. eapply fsm_post_weaken; [exact Hp|lia|done].
Qed.

