(* ===== verification/HashMapPop.v ===== *)
(** Removal from the free-space map: [hash_table_pop],
    [hash_table_pop_lower_bound], and the reference count the latter loses. *)
From stdpp Require Import base gmap list fin_maps.
From Stdlib Require Import ZArith Lia Strings.Byte.
From S2P Require Import Prelude FileIO BufferPool PoolLogic PoolClient PoolDurable HashMap HashMapSpec.
#[local] Open Scope Z_scope.

(** ** Removal *)

(** the effect of a removal on the bags *)
Definition popped (s : nat) (addr : Z) (h h' : hstate) : Prop :=
  ∀ t, items h t ≡ₚ if decide (t = s) then addr :: items h' t else items h' t.

(** [find_item] finds the last index of the address in the block *)
Lemma find_item_spec m l ps hh b k c pb next its addr (Φ : Z → pstate → Prop) :
  ps !! b = Some (k, c) → m !! b = Some pb → length pb = 128%nat → block_page pb next its →
  (addr ∉ its → Φ (-1) (PState m l ps hh)) →
  (∀ t, its !! t = Some addr → Φ (Z.of_nat t) (PState m l ps hh)) →
  awp (find_item k addr) Φ (PState m l ps hh).
Proof.
  intros Hp Hb Lpb (_ & Hn & Hle & Hi) Hno Hyes. unfold find_item.
  awp_step. eapply (ps_rd_word _ _ _ _ b k _ _ Hp Hb Lpb 1); [done|lia|]. rewrite Hn.
  unfold fold_ne. rewrite (proj2 (Z.ltb_ge _ 0)) by lia.
  set (I := λ (i target : Z) (g : pstate), g = PState m l ps hh ∧
    (target = -1 ∧ (∀ j, Z.of_nat j < i → its !! j ≠ Some addr) ∨
     ∃ t, target = Z.of_nat t ∧ its !! t = Some addr)).
  eapply awp_mono; [apply (awp_iter_fold _ _ _ I)|].
  - split; [done|]. left. split; [done|]. lia.
  - intros i target g Hir [-> HI]. awp_step.
    eapply (ps_rd_table _ _ _ _ b k _ _ Hp Hb Lpb); [lia|]. awp_step. split; [done|].
    destruct (lookup_lt_is_Some_2 its (Z.to_nat i)) as [x Hx]; [lia|].
    pose proof (Hi _ _ Hx) as Hw. rewrite Z2Nat.id in Hw by lia. rewrite Hw.
    destruct (Z.eqb_spec x addr) as [->|Hne].
    + right. exists (Z.to_nat i). split; [lia|done].
    + destruct HI as [[-> HI]|HI]; [left|by right]. split; [done|].
      intros j Hj. destruct (decide (j = Z.to_nat i)) as [->|]; [congruence|]. apply HI. lia.
  - intros target g [-> [[-> HI]|(t & -> & Ht)]]; [|by apply Hyes].
    apply Hno. intros [j Hj]%list_elem_of_lookup. eapply HI; [|exact Hj].
    apply lookup_lt_Some in Hj. lia.
Qed.

(** a block loses one of its entries *)
Lemma pop_item_spec m l ps hh b k pb next its t (Φ : unit → pstate → Prop) :
  ps !! b = Some (k, 1) → m !! b = Some pb → length pb = 128%nat → block_page pb next its →
  (t < length its)%nat →
  (∀ pb', length pb' = 128%nat → block_page pb' next (delete t its) →
    Φ tt (PState (<[b:=pb']> m) l (delete b ps) hh)) →
  awp (pop_item b k (Z.of_nat t) (Z.of_nat (length its))) Φ (PState m l ps hh).
Proof.
  intros Hp Hb Lpb (H0 & H1 & Hle & Hi) Ht HΦ. unfold pop_item.
  assert (in_s 64 next) as Hnext by (rewrite <- H0; apply word_range).
  set (n := length its) in *.
  set (I := λ (i : Z) (g : pstate), ∃ q, g = PState (<[b:=q]> m) l ps hh ∧
    length q = 128%nat ∧ word q 0 = next ∧ word q 1 = Z.of_nat n ∧
    ∀ j, 0 <= j < Z.of_nat n → word q (2 + j) =
      if decide (Z.of_nat t <= j < i - 1) then word pb (2 + j + 1) else word pb (2 + j)).
  awp_step. unfold for_lt. eapply awp_mono; [apply (awp_iter_up _ _ _ I)|].
  - exists pb. split_and!; [by rewrite insert_id|done|done|done|].
    intros j Hj. by rewrite decide_False by lia.
  - intros i g Hir (q & -> & Lq & Hq0 & Hq1 & Hq). awp_step.
    eapply (ps_rd_table _ _ _ _ b k); [done|apply lookup_insert_eq|done|lia|].
    eapply (ps_wr_table _ _ _ _ b k); [done|apply lookup_insert_eq|done|lia|].
    rewrite Hq by lia. rewrite decide_False by lia.
    exists (set_word (2 + (i - 1)) (word pb (2 + i)) q).
    rewrite insert_insert_eq. split_and!; [done|pg_len|by words|by words|].
    intros j Hj. destruct (decide (j = i - 1)) as [->|Hne].
    + words. rewrite decide_True by lia. f_equal. lia.
    + words. rewrite Hq by lia. repeat case_decide; [done|lia|lia|done].
  - intros [] g (q & -> & Lq & Hq0 & Hq1 & Hq).
    pose proof (lookup_insert_eq m b q) as Hbq.
    awp_step. eapply (ps_rd_word _ _ _ _ b k _ _ Hp Hbq Lq 1); [done|lia|]. rewrite Hq1.
    awp_step. eapply (ps_wr_word _ _ _ _ b k _ _ Hp Hbq Lq 1); [done|lia|].
    rewrite insert_insert_eq. awp_step.
    eapply (ps_rd_word _ _ _ _ b k _ _ Hp (lookup_insert_eq _ _ _)); [pg_len|apply (eq_refl (8 * 1))|lia|].
    replace (word _ 1) with (Z.of_nat n - 1) by (by words).
    awp_step. eapply (ps_wr_table _ _ _ _ b k _ _ Hp (lookup_insert_eq _ _ _)); [pg_len|lia|].
    rewrite insert_insert_eq. eapply ps_release; [done|]. apply HΦ; [pg_len|].
    assert (length (delete t its) = n - 1)%nat as Hdl.
    { rewrite length_delete; [done|]. by apply lookup_lt_is_Some_2. }
    split_and!; [by words|words; lia|lia|].
    intros j x Hx. pose proof (lookup_lt_Some _ _ _ Hx) as Hj. words. rewrite Hq by lia.
    rewrite list_lookup_delete in Hx. case_decide as Hc.
    + rewrite decide_False by lia. by apply Hi.
    + rewrite decide_True by lia. apply Hi in Hx. rewrite <- Hx. f_equal. lia.
Qed.

Lemma concat_snd_app (bs1 bs2 : list hblock) :
  concat (bs1 ++ bs2).*2 = concat bs1.*2 ++ concat bs2.*2.
Proof. by rewrite fmap_app, concat_app. Qed.

(** the bags when one entry of one chain is gone *)
Lemma popped_update h s bs bs' free mx addr :
  h_dir h !! s = Some bs → concat bs.*2 ≡ₚ addr :: concat bs'.*2 →
  popped s addr h (HState (<[s:=bs']> (h_dir h)) free mx).
Proof.
  intros Hd Hp t. rewrite items_set by (by eapply lookup_lt_Some).
  case_decide; [|done]. subst. unfold items at 1. by rewrite Hd.
Qed.

(** the writes that empty a block and put it on the free list *)
Lemma free_block_to_list_spec m l ps hh b k pb pc (Φ : unit → pstate → Prop) :
  ps !! b = Some (k, 1) → m !! b = Some pb → length pb = 128%nat →
  m !! 0 = Some pc → length pc = 128%nat → b ≠ 0 →
  ps !! 0 = None → (size ps < 8)%nat → 0 < hh → in_s 64 b →
  (∀ kc pb', length pb' = 128%nat → block_page pb' (word pc 0) [] →
    Φ tt (PState (<[0:=set_word 0 b pc]> (<[b:=pb']> m)) l (<[0:=(kc, 1)]> ps) (hh - 1))) →
  awp (free_block_to_list b k) Φ (PState m l ps hh).
Proof.
  intros Hp Hb Lpb Hc Lpc Hne Hp0 Hs Hh Hin HΦ. unfold free_block_to_list.
  awp_step. eapply ps_get; [done|done|done|done|intros kc].
  awp_step. rd_word 0. awp_step.
  eapply (ps_wr_word _ _ _ _ b k); [map_find|map_find|pg_len|apply (eq_refl (8 * 1))|lia|].
  awp_step.
  eapply (ps_wr_table _ _ _ _ b k); [map_find|map_find|pg_len|lia|].
  awp_step.
  eapply (ps_wr_word _ _ _ _ b k); [map_find|map_find|pg_len|apply (eq_refl (8 * 0))|lia|].
  wr_word 0. rewrite !insert_insert_eq.
  apply HΦ; [pg_len|]. split_and!; [by words|by words|simpl; lia|done].
Qed.

(** the only entry of the first block of the chain *)
Lemma pop_first_block_spec m l hh h s addr b bs k pb next d i pd :
  fsm_rep m l h → (s < 128)%nat → h_dir h !! s = Some ((b, [addr]) :: bs) → 2 <= hh →
  d = dir_page (Z.of_nat s) → i = Z.of_nat s mod 16 →
  m !! d = Some pd → m !! b = Some pb → word pb 0 = next → seg m next bs (-1) →
  awp (pop_first_block (Z.of_nat s) b k)
    (λ _ g', fsm_post l hh 2 (popped s addr h) g')
    (PState m l (<[b:=(k, 1)]> ∅) hh).
Proof.
  intros Hf Hs Hd Hh Ed Ei Hpd Hb Hb0 Hseg. unfold pop_first_block.
  rewrite dir_addr_of_page by done. rewrite <- Ed.
  fsm_setup Ed Ei. simpl in Hnd, Hrange.
  pose proof (Hlen _ _ Hpd) as Lpd. pose proof (Hlen _ _ Hb) as Lpb.
  pose proof (Hrange b ltac:(by left)) as Hbr. apply NoDup_cons in Hnd as [Hbn Hnd].
  destruct (f_ctrl _ _ _ Hf) as (pc & Hpc & Hc1 & Hc2 & Hsegf). pose proof (Hlen _ _ Hpc) as Lpc.
  assert (in_s 64 next) as Hnext by (rewrite <- Hb0; apply word_range).
  assert (in_s 64 b) as Hbin by (apply in_s64; lia).
  assert (∀ c, c ∈ bs.*1 ++ h_free h → c ≠ b ∧ c ≠ 0 ∧ c ≠ d) as Hne.
  { intros c Hc. pose proof (Hrange c ltac:(by right)). split; [by intros ->|lia]. }
  awp_step. get_pg kd. awp_step. rd_word 0. rewrite Hb0. awp_step. wdir. awp_step.
  eapply free_block_to_list_spec;
    [map_find|map_find|done|map_find|done|lia|map_find|pins_size|lia|done|].
  intros kc pb' Lpb' Hpb'. awp_step. rel. awp_step. rel. rel. fsm_done.
  exists (HState (<[s:=bs]> (h_dir h)) (b :: h_free h) (h_max h)). cbn [mem plen]. split.
  - eapply (fsm_rep_update m l h _ _ s _ bs (b :: h_free h) _ [] d i pd);
      [done|done|done|done| |done|map_find|..].
    + eexists. split; [map_find|]. words. split_and!; [done|done|].
      simpl. split; [done|]. exists pb', (word pc 0). split; [map_find|]. split; [done|].
      eapply seg_untouched; [exact Hsegf|]. rewrite fmap_free. intros c Hc.
      destruct (Hne c) as (? & ? & ?); [set_solver|]. map_keep.
    + intros j Hj Hj'. by words.
    + words. eapply seg_untouched; [exact Hseg|]. intros c Hc.
      destruct (Hne c) as (? & ? & ?); [set_solver|]. map_keep.
    + intros a ? ? Ha _ ?. apply not_elem_of_cons in Ha as [? _]. map_keep.
    + intros b' its Hbin'. eapply (f_items _ _ _ Hf); [exact Hd|by right].
    + simpl. by rewrite <- Permutation_middle.
    + by left.
    + unfold MAX_LEN. lia.
    + done.
  - eapply popped_update; [exact Hd|done].
Qed.

(** taking two neighbours out of a list without duplicates *)
Lemma nodup_middle {A} (l1 l2 : list A) (p b : A) :
  NoDup (l1 ++ p :: b :: l2) →
  p ≠ b ∧ b ∉ l2 ∧ p ∉ l2 ∧ ∀ c, c ∈ l1 ++ l2 → c ≠ b ∧ c ≠ p ∧ c ∈ l1 ++ p :: b :: l2.
Proof.
  intros Hnd. assert (l1 ++ p :: b :: l2 ≡ₚ p :: b :: l1 ++ l2) as Hp
    by (by rewrite <- !Permutation_middle).
  rewrite Hp in Hnd. apply NoDup_cons in Hnd as [H1 Hnd]. apply NoDup_cons in Hnd as [H2 Hnd].
  rewrite not_elem_of_cons, not_elem_of_app in H1. rewrite not_elem_of_app in H2.
  split_and!; [apply H1|apply H2|apply H1|]. intros c Hc. rewrite Hp.
  split_and!; [intros ->|intros ->|by do 2 right]; apply elem_of_app in Hc; tauto.
Qed.

(** ... of a later block *)
Lemma pop_later_block_spec m l hh h s addr pre p pits b bs k pb next d i pd :
  fsm_rep m l h → (s < 128)%nat →
  h_dir h !! s = Some (pre ++ (p, pits) :: (b, [addr]) :: bs) → 2 <= hh →
  d = dir_page (Z.of_nat s) → i = Z.of_nat s mod 16 →
  m !! d = Some pd → seg m (word pd i) pre p →
  (∃ pp, m !! p = Some pp ∧ block_page pp b pits) →
  m !! b = Some pb → word pb 0 = next → seg m next bs (-1) →
  awp (pop_later_block p b k)
    (λ _ g', fsm_post l hh 2 (popped s addr h) g')
    (PState m l (<[b:=(k, 1)]> ∅) hh).
Proof.
  intros Hf Hs Hd Hh Ed Ei Hpd Hpre (pp & Hp & Hpp) Hb Hb0 Hseg. unfold pop_later_block.
  fsm_setup Ed Ei. rewrite fmap_app in Hnd, Hrange. simpl in Hnd, Hrange.
  rewrite <- app_assoc in Hnd, Hrange. simpl in Hnd, Hrange.
  pose proof (Hlen _ _ Hpd) as Lpd. pose proof (Hlen _ _ Hb) as Lpb. pose proof (Hlen _ _ Hp) as Lpp.
  pose proof (Hrange b ltac:(set_solver)) as Hbr. pose proof (Hrange p ltac:(set_solver)) as Hpr.
  destruct (nodup_middle _ _ _ _ Hnd) as (Hpb & Hbn & Hpn & Hmid).
  destruct (f_ctrl _ _ _ Hf) as (pc & Hpc & Hc1 & Hc2 & Hsegf). pose proof (Hlen _ _ Hpc) as Lpc.
  assert (in_s 64 next) as Hnext by (rewrite <- Hb0; apply word_range).
  assert (in_s 64 b) as Hbin by (apply in_s64; lia).
  assert (∀ c, c ∈ pre.*1 ++ bs.*1 ++ h_free h → c ≠ b ∧ c ≠ p ∧ c ≠ 0 ∧ c ≠ d) as Hne.
  { intros c Hc. destruct (Hmid c Hc) as (? & ? & Hin'). pose proof (Hrange c Hin'). lia. }
  awp_step. get_pg kp. awp_step. rd_word 0. rewrite Hb0. awp_step. wr_word 0. awp_step.
  eapply free_block_to_list_spec;
    [map_find|map_find|done|map_find|done|lia|map_find|pins_size|lia|done|].
  intros kc pb' Lpb' Hpb'. awp_step. rel. awp_step. rel. rel. fsm_done.
  exists (HState (<[s:=pre ++ (p, pits) :: bs]> (h_dir h)) (b :: h_free h) (h_max h)).
  cbn [mem plen]. split.
  - eapply (fsm_rep_update m l h _ _ s _ _ (b :: h_free h) _ [] d i pd pd);
      [done|done|done|done| |done|map_find|..].
    + eexists. split; [map_find|]. words. split_and!; [done|done|].
      simpl. split; [done|]. exists pb', (word pc 0). split; [map_find|]. split; [done|].
      eapply seg_untouched; [exact Hsegf|]. rewrite fmap_free. intros c Hc.
      destruct (Hne c) as (? & ? & ? & ?); [set_solver|]. map_keep.
    + done.
    + apply seg_app. exists p. split.
      * eapply seg_untouched; [exact Hpre|]. intros c Hc.
        destruct (Hne c) as (? & ? & ? & ?); [set_solver|]. map_keep.
      * split; [done|]. destruct Hpp as (Hp0 & Hp1 & Hp2 & Hpi).
        eexists _, next. split; [map_find|]. split.
        -- split_and!; [by words|by words|done|]. intros j x Hx. words. by apply Hpi.
        -- eapply seg_untouched; [exact Hseg|]. intros c Hc.
           destruct (Hne c) as (? & ? & ? & ?); [set_solver|]. map_keep.
    + intros a ? ? Ha _ ?. rewrite fmap_app in Ha. simpl in Ha.
      rewrite not_elem_of_app, !not_elem_of_cons in Ha. destruct Ha as (_ & ? & ? & _). map_keep.
    + intros b' its Hbin'. apply (f_items _ _ _ Hf _ _ b' its Hd).
      apply elem_of_app in Hbin' as [?|Hbin']; apply elem_of_app; [by left|right].
      apply elem_of_cons in Hbin' as [->|?]; [by left|by do 2 right].
    + rewrite !fmap_app. simpl. rewrite <- !app_assoc. simpl. f_equiv. f_equiv.
      by rewrite <- Permutation_middle.
    + by left.
    + unfold MAX_LEN. lia.
    + done.
  - eapply popped_update; [exact Hd|]. rewrite !concat_snd_app. simpl.
    rewrite <- Permutation_middle. by rewrite !Permutation_middle.
Qed.

(** the address is in the block [b], with others *)
Lemma pop_within_block_spec m l hh h s addr pre b its post k pb next t d i pd :
  fsm_rep m l h → (s < 128)%nat → h_dir h !! s = Some (pre ++ (b, its) :: post) →
  its !! t = Some addr → (1 < length its)%nat → d = dir_page (Z.of_nat s) → i = Z.of_nat s mod 16 →
  m !! d = Some pd → seg m (word pd i) pre b → m !! b = Some pb → block_page pb next its → seg m next post (-1) →
  awp (pop_item b k (Z.of_nat t) (Z.of_nat (length its)))
    (λ _ g', fsm_post l hh 0 (popped s addr h) g') (PState m l (<[b:=(k, 1)]> ∅) hh).
Proof.
  intros Hf Hs Hd Ht Hn Ed Ei Hpd Hsegp Hb Hbp Hsegn. fsm_setup Ed Ei. rewrite fmap_app in Hnd, Hrange. simpl in Hnd, Hrange.
  pose proof (lookup_lt_Some _ _ _ Ht) as Htl.
  eapply pop_item_spec; [map_find|done|by eapply Hlen|done|done|]. intros pb' Lpb' Hbp'. fsm_done.
  exists (HState (<[s:=pre ++ (b, delete t its) :: post]> (h_dir h)) (h_free h) (h_max h)).
  cbn [mem plen]. destruct (f_ctrl _ _ _ Hf) as (pc & Hpc & Hc1 & Hc2 & Hsegf).
  rewrite <- app_assoc in Hnd. simpl in Hnd.
  pose proof (Hrange b ltac:(apply elem_of_app; left; apply elem_of_app; right; by left)) as Hbr.
  assert (∀ c, c ∈ pre.*1 ++ post.*1 ++ h_free h → c ≠ b) as Hcb.
  { intros c Hc ->. rewrite <- Permutation_middle in Hnd. by apply NoDup_cons in Hnd as [? _]. }
  assert (∀ c, c ∈ pre.*1 ∨ c ∈ post.*1 ∨ c ∈ h_free h → <[b:=pb']> m !! c = m !! c) as Hkeep.
  { intros c Hc. assert (c ≠ b) by (apply Hcb; rewrite !elem_of_app; tauto). map_keep. }
  split; [|eapply popped_update; [exact Hd|]; rewrite !concat_snd_app; simpl; rewrite Permutation_middle; f_equiv;
           rewrite (delete_Permutation _ _ _ Ht) at 1; done].
  eapply (fsm_rep_update m l h _ _ s _ _ (h_free h) _ [] d i pd pd);
    [done|done|done|done| |done|map_find|done|..].
  - eexists. split; [map_find|]. split_and!; [done|done|].
    eapply seg_untouched; [exact Hsegf|]. rewrite fmap_free. auto.
  - apply seg_app. exists b. split; [eapply seg_untouched; [exact Hsegp|]; auto|].
    split; [done|]. exists pb', next. split; [map_find|]. split; [done|]. eapply seg_untouched; [exact Hsegn|]. auto.
  - intros a ? ? Ha _ ?. rewrite fmap_app, not_elem_of_app, fmap_cons, not_elem_of_cons in Ha.
    simpl in Ha. destruct Ha as (_ & ? & _). map_keep.
  - intros b' its' [?|[[= -> ->]|?]%elem_of_cons]%elem_of_app; [| |].
    + apply (f_items _ _ _ Hf _ _ b' its' Hd). apply elem_of_app. by left.
    + intros E. apply (f_equal length) in E. rewrite length_delete in E by (by eexists). simpl in E. lia.
    + apply (f_items _ _ _ Hf _ _ b' its' Hd). apply elem_of_app. right. by right.
  - rewrite !fmap_app. done.
  - by left.
  - unfold MAX_LEN. lia.
  - done.
Qed.

(** the block with the address is found: it loses the address, or leaves the
    chain *)
Lemma pop_found_spec m l hh h s addr pre b its post pre_addr k pb next t d i pd :
  fsm_rep m l h → (s < 128)%nat → h_dir h !! s = Some (pre ++ (b, its) :: post) →
  pre_addr = match last pre with Some (p, _) => p | None => b end → its !! t = Some addr → 2 <= hh →
  d = dir_page (Z.of_nat s) → i = Z.of_nat s mod 16 →
  m !! d = Some pd → seg m (word pd i) pre b → m !! b = Some pb → block_page pb next its → seg m next post (-1) →
  awp (n_items ← at_page k (rd_i64 off_block_n_items);
       if n_items >? 1 then pop_item b k (Z.of_nat t) n_items
       else if pre_addr =? b then pop_first_block (Z.of_nat s) b k
       else pop_later_block pre_addr b k)
    (λ _ g', fsm_post l hh 2 (popped s addr h) g') (PState m l (<[b:=(k, 1)]> ∅) hh).
Proof.
  intros Hf Hs Hd Hpre Ht Hh Ed Ei Hpd Hsegp Hb Hbp Hsegn. pose proof Hbp as (Hb0 & Hb1 & _).
  apply awp_ok. intros Hok. destruct (ok_store _ _ _ _ Hok) as (Hlen & _). clear Hok. pose proof (Hlen _ _ Hb) as Lpb.
  awp_step. rd_word 1. rewrite Hb1. pose proof (lookup_lt_Some _ _ _ Ht) as Htl.
  rewrite Z.gtb_ltb. destruct (Z.ltb_spec 1 (Z.of_nat (length its))) as [Hn|Hn].
  { eapply awp_mono; [eapply (pop_within_block_spec m l hh h s addr pre); try done; lia|].
    intros [] g' Hp. eapply fsm_post_weaken; [exact Hp|lia|done]. }
  assert (its = [addr]) as ->.
  { destruct its as [|x [|]]; simpl in *; [done| |lia]. destruct t; [|done]. by simplify_eq/=. }
  destruct (fsm_facts _ _ _ _ _ Hf Hd) as (Hnd & _).
  destruct pre as [|[p pits] pre _] using rev_ind.
  - subst pre_addr. simpl. rewrite Z.eqb_refl. eapply pop_first_block_spec; try done; lia.
  - subst pre_addr. rewrite last_snoc in *. rewrite <- app_assoc in Hd. simpl in Hd.
    apply seg_last in Hsegp as [Hsegp Hpp]. rewrite (proj2 (Z.eqb_neq p b)).
    2:{ rewrite fmap_app in Hnd. simpl in Hnd. rewrite fmap_app, <- !app_assoc in Hnd. simpl in Hnd.
        by apply nodup_middle in Hnd as [? _]. }
    eapply pop_later_block_spec; try done; lia.
Qed.

(** The loop of [hash_table_pop]: the blocks of [pre] are behind it. *)
Lemma pop_loop_spec fuel m l hh h s addr pre b its post pre_addr d i pd :
  fsm_rep m l h → (s < 128)%nat → h_dir h !! s = Some (pre ++ (b, its) :: post) →
  addr ∈ concat (((b, its) :: post).*2) →
  pre_addr = match last pre with Some (p, _) => p | None => b end →
  (length post < fuel)%nat → Z.of_nat (length post) + 3 <= hh →
  d = dir_page (Z.of_nat s) → i = Z.of_nat s mod 16 → m !! d = Some pd →
  seg m (word pd i) (pre ++ (b, its) :: post) (-1) →
  awp (pop_loop fuel (Z.of_nat s) addr pre_addr b)
    (λ _ g', fsm_post l hh (Z.of_nat (length post) + 3) (popped s addr h) g')
    (PState m l ∅ hh).
Proof.
  intros Hf Hs Hd Haddr. revert pre b its hh Hd Haddr pre_addr.
  induction fuel as [|fuel IH] in post |- *; intros pre b its hh Hd Haddr pre_addr Hpre Hfuel Hh Ed Ei
    Hpd Hseg; [lia|].
  pose proof Hseg as Hseg0. apply seg_app in Hseg as (x & Hsegp & -> & pb & next & Hb & Hbp & Hsegn).
  simpl pop_loop. fsm_setup Ed Ei. rewrite fmap_app in Hnd, Hrange. simpl in Hnd, Hrange.
  pose proof (Hlen _ _ Hb) as Lpb.
  assert (its ≠ []) as Hne.
  { apply (f_items _ _ _ Hf _ _ b its Hd). apply elem_of_app. right. by left. }
  awp_step. get_pg k. awp_step. rd_word 0. pose proof Hbp as (Hb0 & Hb1 & Hle & Hi). rewrite Hb0.
  awp_step. eapply find_item_spec; [map_find|done|done|done|..].
  - intros Hno. cbn [Z.eqb Pos.eqb]. awp_step. rel.
    replace (delete b (<[b:=(k, 1)]> ∅) : gmap Z (nat * Z)) with (∅ : gmap Z (nat * Z))
      by (symmetry; pins_empty).
    simpl in Haddr. apply elem_of_app in Haddr as [?|Haddr]; [done|].
    destruct post as [|[b' its'] post]; [by apply not_elem_of_nil in Haddr|].
    pose proof Hsegn as [-> _]. simpl in *.
    eapply awp_mono; [eapply (IH post (pre ++ [(b, its)]) b' its'); try done|].
    + by rewrite <- app_assoc.
    + by rewrite last_snoc.
    + lia.
    + lia.
    + by rewrite <- app_assoc.
    + intros [] g' Hp. eapply fsm_post_weaken; [exact Hp|lia|done].
  - intros t Ht. rewrite (proj2 (Z.eqb_neq (Z.of_nat t) (-1))) by lia.
    eapply awp_mono; [eapply (pop_found_spec m l _ h s addr pre b its post); try done; lia|].
    intros [] g' Hp. eapply fsm_post_weaken; [exact Hp|lia|done].
Qed.

(** [hash_table_pop] removes one occurrence of the address from its bag. *)
Lemma hash_table_pop_spec fuel m l hh h s addr :
  fsm_rep m l h → (s < 128)%nat → addr ∈ items h s →
  (∀ bs, h_dir h !! s = Some bs → (length bs <= fuel)%nat ∧ Z.of_nat (length bs) + 3 <= hh) →
  awp (hash_table_pop fuel (Z.of_nat s) addr)
    (λ _ g', fsm_post l hh (Z.of_nat fuel + 3) (popped s addr h) g') (PState m l ∅ hh).
Proof.
  intros Hf Hs Haddr Hfuel. unfold items in Haddr.
  destruct (h_dir h !! s) as [bs|] eqn:Hd; [|by apply not_elem_of_nil in Haddr].
  destruct (Hfuel bs eq_refl) as [Hfl Hh]. clear Hfuel.
  destruct (f_dir _ _ _ Hf _ _ Hd) as (pd & Hpd & Hseg).
  unfold hash_table_pop. rewrite dir_addr_of_page by done.
  remember (dir_page (Z.of_nat s)) as d eqn:Ed. remember (Z.of_nat s mod 16) as i eqn:Ei.
  fsm_setup Ed Ei. pose proof (Hlen _ _ Hpd) as Lpd.
  awp_step. get_pg kd. awp_step. rdir. awp_step. rel.
  replace (delete d (<[d:=(kd, 1)]> ∅) : gmap Z (nat * Z)) with (∅ : gmap Z (nat * Z))
    by (symmetry; pins_empty).
  destruct bs as [|[b its] post]; [by apply not_elem_of_nil in Haddr|].
  pose proof Hseg as [Hw _]. rewrite Hw. simpl in Hfl, Hh.
  eapply awp_mono; [eapply (pop_loop_spec fuel m l (hh - 1) h s addr [] b its post); try done; lia|].
  intros [] g' Hp. eapply fsm_post_weaken; [exact Hp|lia|done].
Qed.

(** ** The search along the directory *)

Lemma dir_page_index_range t : (t <= 128)%nat →
  128 <= dir_page (Z.of_nat t) <= FIRST_BLOCK ∧ 0 <= Z.of_nat t mod 16 < 16 ∧
  Z.of_nat t = 16 * (dir_page (Z.of_nat t) / 128 - 1) + Z.of_nat t mod 16 ∧
  dir_page (Z.of_nat t) = 128 * (dir_page (Z.of_nat t) / 128).
Proof.
  intros Ht. unfold dir_page, FIRST_BLOCK.
  rewrite (Z.mul_comm 128), Z.div_mul by lia.
  pose proof (Z.div_mod (Z.of_nat t) 16 ltac:(lia)).
  pose proof (Z.mod_pos_bound (Z.of_nat t) 16 ltac:(lia)). lia.
Qed.

Lemma position_of t : (t <= 128)%nat →
  position (dir_page (Z.of_nat t)) (Z.of_nat t mod 16) = Z.of_nat t.
Proof.
  intros Ht. destruct (dir_page_index_range t Ht) as (H1 & H2 & H3 & H4).
  unfold position, FIRST_BLOCK in *. change PAGE_SIZE with 128. change HASH_MAP_DIR_BLOCK_SIZE with 16.
  rewrite Z.quot_div_nonneg by lia.
  rewrite (uwrap_id 64 (_ - 1)) by (unfold in_u; lia).
  rewrite (uwrap_id 64 (Z.of_nat t mod 16)) by (unfold in_u; lia).
  rewrite uwrap_id by (unfold in_u; lia). lia.
Qed.

Lemma limit_value : uwrap 64 (uwrap 64 8 * HASH_MAP_DIR_BLOCK_SIZE) = 128.
Proof. reflexivity. Qed.

(** the step to the next position *)
Lemma next_position t (Φ : Z * Z → pstate → Prop) g : (t < 128)%nat →
  Φ (Z.of_nat (S t) mod 16, dir_page (Z.of_nat (S t))) g →
  awp (if Z.of_nat t mod 16 + 1 =? HASH_MAP_DIR_BLOCK_SIZE
       then dir_addr' ← chk64 (dir_page (Z.of_nat t) + PAGE_SIZE); mret (0, dir_addr')
       else mret (Z.of_nat t mod 16 + 1, dir_page (Z.of_nat t))) Φ g.
Proof.
  intros Ht HΦ. change HASH_MAP_DIR_BLOCK_SIZE with 16.
  destruct (dir_page_index_range t ltac:(lia)) as (H1 & H2 & _). unfold FIRST_BLOCK in *.
  replace (Z.of_nat (S t)) with (Z.of_nat t + 1) in HΦ by lia. unfold dir_page in *.
  pose proof (Z.div_mod (Z.of_nat t) 16 ltac:(lia)) as Hd.
  destruct (Z.eqb_spec (Z.of_nat t mod 16 + 1) 16) as [E|E].
  - awp_step. chk. awp_step.
    assert ((Z.of_nat t + 1) / 16 = Z.of_nat t / 16 + 1) as Hq.
    { symmetry. apply (Z.div_unique _ _ _ 0); lia. }
    rewrite Hq in HΦ. rewrite (Z.mod_eq (Z.of_nat t + 1)), Hq in HΦ by lia.
    replace (Z.of_nat t + 1 - 16 * (Z.of_nat t / 16 + 1)) with 0 in HΦ by lia.
    replace (128 * (Z.of_nat t / 16 + 1) + 128) with (128 * (Z.of_nat t / 16 + 1 + 1)) by lia.
    done.
  - awp_step.
    assert ((Z.of_nat t + 1) / 16 = Z.of_nat t / 16) as Hq.
    { symmetry. apply (Z.div_unique _ _ _ (Z.of_nat t mod 16 + 1)); lia. }
    rewrite Hq in HΦ. rewrite (Z.mod_eq (Z.of_nat t + 1)), Hq in HΦ by lia.
    replace (Z.of_nat t + 1 - 16 * (Z.of_nat t / 16)) with (Z.of_nat t mod 16 + 1) in HΦ by lia.
    done.
Qed.

(** the page just past the directory holds a block with no successor *)
Definition leaky (m : gmap Z Page) : Prop :=
  ∃ q, m !! FIRST_BLOCK = Some q ∧ word q 0 = -1.

(** the store with one more page past the directory *)
Lemma fsm_rep_extend m h :
  fsm_rep m FIRST_BLOCK h → fsm_rep (<[FIRST_BLOCK:=EMPTY_PAGE]> m) (FIRST_BLOCK + 128) h.
Proof.
  intros Hf. destruct (f_max _ _ _ Hf) as (Hr & Hm & Hl).
  assert (h_max h = FIRST_BLOCK) as Hmx by (unfold FIRST_BLOCK in *; lia).
  assert (∀ b, b ∈ all_blocks h → False) as Hnone.
  { intros b Hb. apply (f_range _ _ _ Hf) in Hb. lia. }
  assert (∀ a bs x, seg m a bs x → (∀ b, b ∈ bs.*1 → b ∈ all_blocks h) →
    seg (<[FIRST_BLOCK:=EMPTY_PAGE]> m) a bs x) as Hseg.
  { intros a bs x Hs Hb. eapply seg_untouched; [exact Hs|]. intros b Hin.
    destruct (Hnone b). by apply Hb. }
  constructor; try apply Hf.
  - destruct (f_ctrl _ _ _ Hf) as (pg & Hpg & H1 & H2 & H3). exists pg.
    split; [by rewrite lookup_insert_ne|]. split_and!; [done|done|].
    apply Hseg; [done|]. rewrite fmap_free. intros b Hb. unfold all_blocks.
    apply elem_of_app. by right.
  - intros s bs Hs. destruct (f_dir _ _ _ Hf _ _ Hs) as (pg & Hpg & H1). exists pg.
    pose proof (lookup_lt_Some _ _ _ Hs) as Hlt. rewrite (f_len _ _ _ Hf) in Hlt.
    pose proof (dir_page_range s Hlt) as [? _].
    split; [rewrite lookup_insert_ne by lia; done|]. apply Hseg; [done|].
    intros b Hb. rewrite (all_blocks_split _ _ _ Hs). apply elem_of_app. by left.
  - split_and!; [apply Hr|apply Hr|done|right; lia].
Qed.

(** the scan looks at the page past the directory: the loop ends there, and
    releases the page when its first word is -1 *)
Lemma scan_last_spec {A} fuel m l hh k q (K : Z * Ptr * Z → M BufferPool A) (Φ : A → pstate → Prop) :
  m !! FIRST_BLOCK = Some q → length q = 128%nat →
  (word q 0 ≠ -1 → awp (K (FIRST_BLOCK, k, 0)) Φ (PState m l (<[FIRST_BLOCK:=(k, 1)]> ∅) hh)) →
  (word q 0 = -1 → awp (release FIRST_BLOCK;; K (FIRST_BLOCK, k, 0)) Φ (PState m l (<[FIRST_BLOCK:=(k, 1)]> ∅) hh)) →
  awp (scan_directory (S fuel) 8 FIRST_BLOCK k 0 ≫= K) Φ (PState m l (<[FIRST_BLOCK:=(k, 1)]> ∅) hh).
Proof.
  intros Hq Lq Hclean Hbad. cbn [scan_directory]. apply awp_bind_assoc. awp_step.
  eapply ps_rd_dir; [apply lookup_insert_eq|exact Hq|exact Lq|lia|].
  destruct (Z.eqb_spec (word q 0) (-1)) as [E|E]; cbn [negb]; [|by apply awp_ret_bind, Hclean].
  change (position FIRST_BLOCK 0) with 128. rewrite limit_value. cbn [Z.leb Z.compare Pos.compare Pos.compare_cont].
  apply awp_bind_assoc. eapply awp_ext; [|by apply Hbad].
  intros st. unfold mbind, M_bind. by destruct (release FIRST_BLOCK st) as [[]| |].
Qed.

(** ... whether that page is in the file or the file ends there *)
Lemma scan_past_spec {A} fuel m l hh h (K : Z * Ptr * Z → M BufferPool A) (Φ : A → pstate → Prop) :
  fsm_rep m l h → (0 < fuel)%nat → 1 <= hh → l + 128 <= MAX_LEN →
  (∀ m' l' k', fsm_rep m' l' h → l <= l' <= l + 128 →
    (¬ leaky m → awp (K (FIRST_BLOCK, k', 0)) Φ (PState m' l' (<[FIRST_BLOCK:=(k', 1)]> ∅) (hh - 1))) ∧
    (leaky m → awp (release FIRST_BLOCK;; K (FIRST_BLOCK, k', 0)) Φ
      (PState m' l' (<[FIRST_BLOCK:=(k', 1)]> ∅) (hh - 1)))) →
  awp (k' ← get_page FIRST_BLOCK; scan_directory fuel 8 FIRST_BLOCK k' 0 ≫= K) Φ (PState m l ∅ hh).
Proof.
  intros Hf Hfuel Hh HM Hend. destruct fuel as [|fuel]; [lia|].
  apply awp_ok. intros Hok. destruct (ok_store _ _ _ _ Hok) as (Hlen & Hex & Hin). clear Hok.
  destruct (f_max _ _ _ Hf) as (Hmx & Hmod & Hl). awp_step. destruct (decide (l = FIRST_BLOCK)) as [->|Hne].
  - eapply ps_get_past; [done|map_find|pins_size|lia|done|]. intros k'.
    destruct (Hend (<[FIRST_BLOCK:=EMPTY_PAGE]> m) (FIRST_BLOCK + PAGE_SIZE) k') as [Hclean _];
      [by apply fsm_rep_extend|unfold FIRST_BLOCK, PAGE_SIZE; lia|].
    apply (scan_last_spec _ _ _ _ _ EMPTY_PAGE); [map_find|done| |intros E; by vm_compute in E].
    intros _. apply Hclean. intros (q & Hq & _). destruct (Hin FIRST_BLOCK) as [? _]; [by eexists|]. lia.
  - destruct (Hex FIRST_BLOCK) as [q Hq]; [unfold FIRST_BLOCK in *; lia|done|].
    eapply ps_get; [exact Hq|map_find|pins_size|lia|]. intros k'.
    destruct (Hend m l k' Hf ltac:(lia)) as [Hclean Hbad].
    apply (scan_last_spec _ _ _ _ _ q); [done|by eapply Hlen| |]; intros Hw.
    + apply Hclean. unfold leaky. rewrite Hq. by intros (? & [= ->] & ?).
    + apply Hbad. unfold leaky. by eauto.
Qed.

(** [scan_directory] continued by [K]: it stops at the first size, from [t]
    on, whose bag is not empty, with the directory page pinned; with none it
    reads the page past the directory, and releases it if its first word
    is -1. *)
Lemma scan_directory_spec {A} fuel m l hh h t k (K : Z * Ptr * Z → M BufferPool A)
    (Φ : A → pstate → Prop) :
  fsm_rep m l h → (t < 128)%nat → (128 - t < fuel)%nat → Z.of_nat (128 - t) <= hh →
  l + 128 <= MAX_LEN →
  (∀ u b its bs k' hh', (t <= u < 128)%nat → h_dir h !! u = Some ((b, its) :: bs) →
    (∀ v, (t <= v < u)%nat → h_dir h !! v = Some []) → hh - Z.of_nat (u - t) <= hh' →
    awp (K (dir_page (Z.of_nat u), k', Z.of_nat u mod 16)) Φ
      (PState m l (<[dir_page (Z.of_nat u):=(k', 1)]> ∅) hh')) →
  ((∀ v, (t <= v < 128)%nat → h_dir h !! v = Some []) →
   ∀ m' l' k' hh', fsm_rep m' l' h → l <= l' <= l + 128 → hh - Z.of_nat (128 - t) <= hh' →
    (¬ leaky m → awp (K (FIRST_BLOCK, k', 0)) Φ
      (PState m' l' (<[FIRST_BLOCK:=(k', 1)]> ∅) hh')) ∧
    (leaky m → awp (release FIRST_BLOCK;; K (FIRST_BLOCK, k', 0)) Φ
      (PState m' l' (<[FIRST_BLOCK:=(k', 1)]> ∅) hh'))) →
  awp (scan_directory fuel 8 (dir_page (Z.of_nat t)) k (Z.of_nat t mod 16) ≫= K) Φ
    (PState m l (<[dir_page (Z.of_nat t):=(k, 1)]> ∅) hh).
Proof.
  intros Hf. revert t k hh. induction fuel as [|fuel IH]; intros t k hh Ht Hfuel Hh HM Hfound Hend; [lia|].
  destruct (lookup_lt_is_Some_2 (h_dir h) t) as [bs Hd]; [by rewrite (f_len _ _ _ Hf)|].
  destruct (f_dir _ _ _ Hf _ _ Hd) as (pd & Hpd & Hseg).
  destruct (fsm_facts _ _ _ _ _ Hf Hd) as (_ & Hrange & Hmx).
  apply awp_ok. intros Hok. destruct (ok_store _ _ _ _ Hok) as (Hlen & Hex & Hin). clear Hok.
  destruct (dir_page_index_range t ltac:(lia)) as (Hdr & Hir & _). unfold FIRST_BLOCK in Hdr.
  cbn [scan_directory]. apply awp_bind_assoc. awp_step.
  eapply ps_rd_dir; [apply lookup_insert_eq|done|by eapply Hlen|done|].
  destruct bs as [|[b its] bs].
  2:{ pose proof Hseg as [Hw _]. rewrite Hw.
      destruct (Hrange b ltac:(by left)) as [? _].
      rewrite (proj2 (Z.eqb_neq b (-1))) by lia. cbn [negb]. apply awp_ret_bind.
      eapply Hfound; [lia|exact Hd|lia|lia]. }
  simpl in Hseg. rewrite Hseg, position_of, limit_value by lia. cbn [Z.eqb Pos.eqb negb].
  rewrite (proj2 (Z.leb_gt 128 (Z.of_nat t))) by lia.
  apply awp_bind_assoc. awp_step. rel.
  replace (delete _ (<[_:=_]> ∅) : gmap Z (nat * Z)) with (∅ : gmap Z (nat * Z))
    by (symmetry; pins_empty).
  apply awp_bind_assoc. awp_step. apply next_position; [done|].
  apply awp_bind_assoc.
  destruct (decide (S t < 128)%nat) as [Hlt|Hge].
  - awp_step. destruct (lookup_lt_is_Some_2 (h_dir h) (S t)) as [bs' Hd']; [by rewrite (f_len _ _ _ Hf)|].
    destruct (f_dir _ _ _ Hf _ _ Hd') as (pd' & Hpd' & _).
    eapply ps_get; [exact Hpd'|map_find|pins_size|lia|]. intros k'.
    apply IH; [done|lia|lia|done| |].
    + intros u b its bs k2 hh' Hu Hub Hv Hhh. eapply Hfound; [lia|exact Hub| |lia].
      intros v Hv'. destruct (decide (v = t)) as [->|]; [done|]. apply Hv. lia.
    + intros Hv m' l' k2 hh' Hf' Hl' Hhh. apply Hend; [|done|done|lia].
      intros v Hv'. destruct (decide (v = t)) as [->|]; [done|]. apply Hv. lia.
  - assert (t = 127%nat) as -> by lia. change (dir_page (Z.of_nat 128)) with FIRST_BLOCK.
    change (Z.of_nat 128 mod 16) with 0. clear IH Hfound.
    specialize (Hend ltac:(intros v Hv; by replace v with 127%nat by lia)).
    eapply (scan_past_spec fuel m l _ h K Φ); [done|lia|lia|done|]. intros m' l' k' Hf' Hl'. by apply Hend; [| |lia].
Qed.

(** ** [hash_table_pop_lower_bound] *)

(** the smallest size, from [s] on, whose bag is not empty *)
Definition is_next_size (h : hstate) (s u : nat) : Prop :=
  (s <= u < 128)%nat ∧ items h u ≠ [] ∧ ∀ v, (s <= v < u)%nat → items h v = [].

(** what the pins are after a search that found nothing: none, or, when the
    page past the directory is [leaky], one whose count has gone below zero *)
Definition after_miss (m : gmap Z Page) (ps : gmap Z (nat * Z)) : Prop :=
  (¬ leaky m ∧ ps = ∅) ∨ (leaky m ∧ ∃ k, ps = {[FIRST_BLOCK := (k, 2 ^ 64 - 1)]}).

Definition pop_post (m : gmap Z Page) (l : Z) (h : hstate) (s : nat) (r : Z) (g' : pstate) : Prop :=
  (∃ u, is_next_size h s u ∧ r ∈ items h u ∧ pins g' = ∅ ∧
     ∃ h', fsm_rep (mem g') (plen g') h' ∧ popped u r h h') ∨
  ((∀ u, (s <= u < 128)%nat → items h u = []) ∧ r = -1 ∧
   after_miss m (pins g') ∧ fsm_rep (mem g') (plen g') h).

(** no chain is longer than [n] *)
Definition chains_below (h : hstate) (n : nat) : Prop :=
  ∀ s bs, h_dir h !! s = Some bs → (length bs <= n)%nat.

Lemma items_nil h s bs m l :
  fsm_rep m l h → h_dir h !! s = Some bs → items h s = [] ↔ bs = [].
Proof.
  intros Hf Hd. unfold items. rewrite Hd. split; [|by intros ->].
  destruct bs as [|[b its] bs]; [done|]. simpl. intros [E _]%app_eq_nil.
  destruct (f_items _ _ _ Hf _ _ b its Hd); [by left|done].
Qed.

(** what is left of the program after a scan that stopped at [r] *)
Definition take_found (fuel : nat) (r : Z * Ptr * Z) : M BufferPool Z :=
  let '(dir_addr, dir_block, counter) := r in
  if negb (position dir_addr counter =? uwrap 64 (uwrap 64 8 * HASH_MAP_DIR_BLOCK_SIZE)) then
    map_block_addr ← at_page dir_block (rd_dir counter);
    map_block ← get_page map_block_addr;
    addr ← at_page map_block (rd_table 0);
    release dir_addr;;
    release map_block_addr;;
    hash_table_pop fuel (swrap 16 (position dir_addr counter)) addr;;
    mret addr
  else
    release dir_addr;;
    mret (-1).

(** ... at a size that has an address *)
Lemma take_found_spec fuel m l hh h s u b its bs k :
  fsm_rep m l h → (u < 128)%nat → (s <= u)%nat → chains_below h fuel → Z.of_nat fuel + 5 <= hh →
  h_dir h !! u = Some ((b, its) :: bs) → (∀ v, (s <= v < u)%nat → h_dir h !! v = Some []) →
  awp (take_found fuel (dir_page (Z.of_nat u), k, Z.of_nat u mod 16))
    (λ r g', pop_post m l h s r g' ∧ l <= plen g' <= l + 128 ∧ hh - (Z.of_nat fuel + 5) <= hits g')
    (PState m l (<[dir_page (Z.of_nat u):=(k, 1)]> ∅) hh).
Proof.
  intros Hf Hu Hsu Hch Hh Hub Hv. unfold take_found.
  apply awp_ok. intros Hok. destruct (ok_store _ _ _ _ Hok) as (Hlen & _ & _). clear Hok.
  destruct (f_dir _ _ _ Hf _ _ Hub) as (pu & Hpu & Hseg).
  destruct Hseg as (Hw & pb & next & Hb & (_ & _ & _ & Hi) & _).
  destruct (fsm_facts _ _ _ _ _ Hf Hub) as (_ & Hrange & _).
  destruct (Hrange b ltac:(by left)) as [Hb1 _].
  pose proof (dir_page_range u ltac:(lia)) as [Hdr _]. pose proof (dir_index_range u) as Hir.
  assert (its ≠ []) as Hne by (apply (f_items _ _ _ Hf _ _ b its Hub); by left).
  destruct its as [|r its]; [done|].
  assert (items h u = r :: (its ++ concat bs.*2)) as Hiu by (unfold items; by rewrite Hub).
  rewrite position_of, limit_value by lia.
  rewrite (proj2 (Z.eqb_neq (Z.of_nat u) 128)) by lia. cbn [negb].
  awp_step. eapply ps_rd_dir; [apply lookup_insert_eq|exact Hpu|by eapply Hlen|done|].
  unfold FIRST_BLOCK in *. rewrite Hw. awp_step.
  eapply ps_get; [exact Hb|map_find|pins_size|lia|]. intros kb. awp_step.
  eapply ps_rd_table; [apply lookup_insert_eq|exact Hb|by eapply Hlen|lia|].
  rewrite (Hi 0%nat r eq_refl : word pb (2 + 0) = r).
  awp_step. rel. awp_step. rel.
  replace (delete _ (delete _ _) : gmap Z (nat * Z)) with (∅ : gmap Z (nat * Z))
    by (symmetry; pins_empty).
  awp_step. rewrite swrap_id by (unfold in_s; lia).
  eapply awp_mono; [eapply hash_table_pop_spec; [done|lia| |]|].
  + rewrite Hiu. by left.
  + intros bs' Hbs'. pose proof (Hch _ _ Hbs'). split; [done|lia].
  + intros [] g' (Hp & Hl' & Hh' & h' & Hf' & Hpop). awp_step. split; [|split; [done|lia]].
    left. exists u. split; [|split; [rewrite Hiu; by left|split; [done|by exists h']]].
    split; [lia|]. split; [by rewrite Hiu|]. intros v Hv'.
    rewrite (items_nil h v [] m l); [done|done|by apply Hv].
Qed.

Lemma hash_table_pop_lower_bound_spec fuel m l hh h s :
  fsm_rep m l h → (s < 128)%nat → (128 < fuel)%nat → chains_below h fuel →
  Z.of_nat fuel + 140 <= hh → l + 128 <= MAX_LEN →
  awp (hash_table_pop_lower_bound fuel (Z.of_nat s))
    (λ r g', pop_post m l h s r g' ∧ l <= plen g' <= l + 128 ∧
             hh - (Z.of_nat fuel + 140) <= hits g')
    (PState m l ∅ hh).
Proof.
  intros Hf Hs Hfuel Hch Hh HM. unfold hash_table_pop_lower_bound.
  destruct (f_ctrl _ _ _ Hf) as (pc & Hpc & Hc1 & _).
  destruct (lookup_lt_is_Some_2 (h_dir h) s) as [bs0 Hd]; [by rewrite (f_len _ _ _ Hf)|].
  destruct (f_dir _ _ _ Hf _ _ Hd) as (pd & Hpd & _).
  apply awp_ok. intros Hok. destruct (ok_store _ _ _ _ Hok) as (Hlen & _ & _). clear Hok.
  pose proof (Hlen _ _ Hpc) as Lpc.
  awp_step. get_pg kc. awp_step. rd_word 1. rewrite Hc1. awp_step. rel.
  replace (delete _ (<[_:=_]> ∅) : gmap Z (nat * Z)) with (∅ : gmap Z (nat * Z))
    by (symmetry; pins_empty).
  rewrite dir_addr_of_page, dir_index_of_index by done.
  awp_step. eapply ps_get; [exact Hpd|map_find|pins_size|lia|]. intros kd.
  eapply (scan_directory_spec fuel m l _ h s kd); [done|done|lia|lia|done|..].
  - intros u b its bs k' hh' Hu Hub Hv Hhh. eapply awp_mono; [eapply (take_found_spec fuel m l hh' h s); try done; lia|].
    intros r g' (H1 & H2 & H3). split; [done|]. split; [done|lia].
  - intros Hv m' l' k' hh' Hf' Hl' Hhh.
    assert (∀ u, (s <= u < 128)%nat → items h u = []) as Hnone.
    { intros u Hu. rewrite (items_nil h u [] m l); [done|done|by apply Hv]. }
    change (position FIRST_BLOCK 0) with 128. rewrite limit_value. cbn [Z.eqb Pos.eqb negb].
    split; intros Hleak.
    + awp_step. rel. awp_step. split; [|split; [done|simpl; lia]]. right.
      split; [done|]. split; [done|]. split; [|done]. left. split; [done|]. pins_empty.
    + apply (awp_ext _ ((release FIRST_BLOCK;; release FIRST_BLOCK);; mret (-1))).
      { intros st. unfold mbind, M_bind. by destruct (release FIRST_BLOCK st) as [[]| |]. }
      apply awp_bind. eapply ps_release_twice; [apply lookup_insert_eq|].
      rewrite insert_insert_eq. awp_step. split; [|split; [done|simpl; lia]]. right.
      split; [done|]. split; [done|]. split; [|done]. right. split; [done|]. by exists k'.
Qed.
