(* ===== verification/HashMapProps.v ===== *)
(** The properties of the free-space map, and the reference count it loses. *)
From stdpp Require Import base gmap list fin_maps.
From Stdlib Require Import ZArith Lia Strings.Byte.
From S2P Require Import Prelude FileIO BufferPool PoolLogic PoolClient PoolDurable.
From S2P Require Import HashMap HashMapSpec HashMapPop.
#[local] Open Scope Z_scope.

(** A pool that holds the map [h], with nothing pinned and [n] more calls of
    [get_page] before a hit counter could overflow. *)
Definition fsm_state (p : BufferPool) (n : Z) (h : hstate) : Prop :=
  ∃ g, pool_rep p g ∧ pins g = ∅ ∧ n <= hits g ∧ fsm_rep (mem g) (plen g) h.

Lemma fsm_state_awp {A} (m : M BufferPool A) p n h (Φ : A → pstate → Prop) :
  fsm_state p n h →
  (∀ ms l hh, l = flen (file p) → fsm_rep ms l h → n <= hh → pstate_ok (PState ms l ∅ hh) →
    awp m Φ (PState ms l ∅ hh)) →
  ∃ a p' g', m p = Ok (a, p') ∧ pool_rep p' g' ∧ flen (file p') = plen g' ∧ Φ a g'.
Proof.
  intros ([ms l ps hh] & Hr & Hp & Hn & Hf) Hm. simpl in *. subst ps.
  pose proof (r_plen _ _ Hr) as (Hl & _). simpl in Hl.
  destruct (wp_elim _ _ _ (Hm ms l hh (eq_sym Hl) Hf Hn (rep_ok _ _ Hr) p Hr))
    as (a & p' & Hrun & g' & Hr' & HΦ).
  exists a, p', g'. split; [done|]. split; [done|]. split; [apply (r_plen _ _ Hr')|done].
Qed.

(** No chain has more blocks than the file has pages. *)
Lemma chain_blocks_bound m l hh h :
  fsm_rep m l h → pstate_ok (PState m l ∅ hh) → chains_below h (Z.to_nat (l / 128)).
Proof.
  intros Hf Hok s bs Hs. destruct (fsm_facts _ _ _ _ _ Hf Hs) as (Hnd & Hr & Hmx).
  destruct (f_dir _ _ _ Hf _ _ Hs) as (pd & _ & Hseg).
  destruct (f_max _ _ _ Hf) as (_ & _ & Hl). apply NoDup_app in Hnd as (Hnd & _).
  assert (∀ b, b ∈ bs.*1 → 1152 <= b < l ∧ b = 128 * (b / 128)) as Hb.
  { intros b Hb. pose proof (Hr b ltac:(apply elem_of_app; by left)).
    destruct (seg_in_store _ _ _ _ _ Hseg Hb) as [pg Hpg].
    destruct (proj1 (k_dom _ Hok b) (ex_intro _ pg Hpg)) as [_ Hm].
    pose proof (Z.div_mod b 128 ltac:(lia)). lia. }
  assert (NoDup ((λ b, Z.to_nat (b / 128)) <$> bs.*1)) as Hnd'.
  { apply NoDup_fmap_2_strong; [|done]. intros x y Hx Hy E.
    apply Hb in Hx. apply Hb in Hy. lia. }
  assert (((λ b, Z.to_nat (b / 128)) <$> bs.*1) ⊆ seq 0 (Z.to_nat (l / 128))) as Hsub.
  { intros x (b & -> & Hin)%list_elem_of_fmap. apply Hb in Hin. apply elem_of_seq.
    assert (b / 128 < l / 128); [|lia].
    destruct (k_len _ Hok) as [Hlm _]. simpl in Hlm. pose proof (Z.div_mod l 128 ltac:(lia)). lia. }
  apply NoDup_submseteq in Hsub; [|done]. apply submseteq_length in Hsub.
  by rewrite !length_fmap, length_seq in Hsub.
Qed.

(** ** A new map *)

(** a directory page with no chain *)
Definition blank_directory : Page := replicate 128 xff.
Definition init_control : Page := set_word 2 1152 (set_word 1 8 (set_word 0 (-1) EMPTY_PAGE)).
Definition h_empty : hstate := HState (replicate 128 []) [] 1152.

(** the file when the control page is written: the directory is on the disk *)
Definition init_bytes : list byte := EMPTY_PAGE ++ concat (replicate 8 blank_directory).

(** the pool after [hash_table_init], in a memory area whose slots held [pgs] *)
Definition init_pool (pgs : list Page) : BufferPool :=
  mkPool (mkFileInfo (Some (mkFILE init_bytes 128)) 1152) (init_control :: pgs)
    (0 :: replicate 7 (-1)) (1 :: replicate 7 SIZE_MAX) (replicate 8 0).

Definition init_store : pstate :=
  PState (<[0:=init_control]> (file_pages init_bytes)) 1152 ∅ (SIZE_MAX - 20).

Lemma hash_table_init_run p :
  pool_space p →
  ∃ q pgs, pages p = q :: pgs ∧ length pgs = 7%nat ∧
    hash_table_init NoFile 8 p = Ok (tt, init_pool pgs).
Proof.
  intros [Hl _]. destruct p as [fl [|q pgs] ads cs rs]; simpl in Hl; [done|].
  exists q, pgs. split; [done|]. split; [lia|].
  do 7 (destruct pgs as [|? pgs]; [done|]). destruct pgs; [|done].
  vm_compute. reflexivity.
Qed.

Lemma init_bytes_length : length init_bytes = 1152%nat.
Proof. reflexivity. Qed.

Lemma init_lookup a pg :
  mem init_store !! a = Some pg →
  (a = 0 ∧ pg = init_control) ∨
  (0 < a <= 1024 ∧ a mod 128 = 0 ∧ pg = slice (Z.to_nat a) 128 init_bytes).
Proof.
  cbn [init_store mem]. intros [[<- <-]|[Ha Hf]]%lookup_insert_Some; [by left|right].
  apply file_pages_lookup in Hf as (H1 & H2 & ->); [|done].
  rewrite init_bytes_length in H1. pose proof (Z.div_mod a 128 ltac:(lia)).
  split_and!; [lia|lia|done|done].
Qed.

Lemma init_rep pgs :
  length pgs = 7%nat → (∀ k pg, pgs !! k = Some pg → length pg = 128%nat) →
  pool_rep (init_pool pgs) init_store.
Proof.
  intros Hl Hp. constructor; cbn [init_pool file pages addrs cnt ref fp flen f_content].
  - split_and!; [done|done|vm_compute; discriminate|vm_compute; discriminate].
  - intros a. cbn [init_store mem plen].
    destruct (decide (a = 0)) as [->|Hne].
    { rewrite lookup_insert_eq. split; [intros _; split; [lia|done]|eauto]. }
    rewrite lookup_insert_ne by done. split.
    + intros [pg Hf]. apply file_pages_lookup in Hf as (H1 & H2 & _); [|done].
      rewrite init_bytes_length in H1. split; [lia|done].
    + intros [H1 H2]. eexists. apply file_pages_lookup; [done|].
      rewrite init_bytes_length. split_and!; [lia|lia|done|done].
  - intros a pg Ha. apply init_lookup in Ha as [[_ ->]|(Ha & _ & ->)]; [done|].
    apply slice_length. rewrite init_bytes_length. lia.
  - by rewrite length_cons, Hl.
  - intros [|k] pg; simpl; [intros [= <-]; done|apply Hp].
  - intros [|k] a Ha; simpl in Ha.
    + injection Ha as <-. right. exists init_control, 1.
      split_and!; [apply lookup_insert_eq|done|done|done|vm_compute; reflexivity].
    + left. apply (lookup_replicate_1 7 (-1)) in Ha as [-> Hk].
      split; [done|]. cbn [init_pool cnt ref lookup list_lookup].
      split; [by apply lookup_replicate_2|].
      change (replicate 8 0 !! S k) with (replicate 7 0 !! k). by apply lookup_replicate_2.
  - intros [|k] [|k'] a; simpl; [done|..].
    + intros [= <-] H. by apply (lookup_replicate_1 7 (-1)) in H as [? _].
    + intros H [= <-]. by apply (lookup_replicate_1 7 (-1)) in H as [? _].
    + intros H _. by apply (lookup_replicate_1 7 (-1)) in H as [-> _].
  - intros k a c _ Hc. apply (lookup_replicate_1 8 0) in Hc as [-> _]. done.
  - intros a k c H. cbn [init_store pins] in H. by rewrite lookup_empty in H.
  - eexists. split; [done|]. cbn [f_content]. rewrite init_bytes_length. split; [done|].
    intros a pg Ha Hn. apply init_lookup in Ha as [[-> _]|(Ha & _ & ->)].
    + destruct Hn. by left.
    + unfold page_at. cbn [f_content]. rewrite init_bytes_length. by rewrite decide_True by lia.
  - vm_compute. split; [discriminate|reflexivity].
Qed.

Lemma init_fsm_rep : fsm_rep (mem init_store) 1152 h_empty.
Proof.
  assert (∀ s, (s < 128)%nat → h_dir h_empty !! s = Some []) as Hd.
  { intros s Hs. exact (lookup_replicate_2 128 [] s Hs). }
  assert (∀ s bs, h_dir h_empty !! s = Some bs → bs = [] ∧ (s < 128)%nat) as Hd'.
  { intros s bs Hs. exact (lookup_replicate_1 128 [] bs s Hs). }
  assert (all_blocks h_empty = []) as Hall by reflexivity.
  constructor.
  - exists init_control. split; [apply lookup_insert_eq|]. split_and!; reflexivity.
  - done.
  - intros s bs Hs. apply Hd' in Hs as [-> Hs].
    pose proof (dir_page_range s Hs) as [Hr Hm]. pose proof (dir_index_range s) as Hi.
    exists blank_directory. unfold FIRST_BLOCK in *. split.
    + cbn [init_store mem]. rewrite lookup_insert_ne by lia. apply file_pages_lookup; [done|].
      rewrite init_bytes_length. split_and!; [lia|lia|done|].
      assert (∃ n, (1 <= n <= 8)%nat ∧ dir_page (Z.of_nat s) = 128 * Z.of_nat n) as (n & Hn & ->).
      { exists (Z.to_nat (dir_page (Z.of_nat s) / 128)).
        pose proof (Z.div_mod (dir_page (Z.of_nat s)) 128 ltac:(lia)). lia. }
      do 9 (destruct n as [|n]; [first [lia|vm_compute; reflexivity]|]). lia.
    + simpl. assert (∃ n, (n < 16)%nat ∧ Z.of_nat s mod 16 = Z.of_nat n) as (n & Hn & ->).
      { exists (Z.to_nat (Z.of_nat s mod 16)). lia. }
      do 16 (destruct n as [|n]; [reflexivity|]). lia.
  - intros s bs b its Hs Hb. apply Hd' in Hs as [-> _]. by apply not_elem_of_nil in Hb.
  - rewrite Hall. constructor.
  - rewrite Hall. intros b Hb. by apply not_elem_of_nil in Hb.
  - split_and!; [done|vm_compute; discriminate|done|by left].
Qed.

Lemma h_empty_items s : items h_empty s = [].
Proof.
  unfold items. destruct (h_dir h_empty !! s) as [bs|] eqn:E; [|done].
  by apply (lookup_replicate_1 128 []) in E as [-> _].
Qed.

(** a map just created in the blank memory area *)
Definition blank_map : BufferPool := init_pool (replicate 7 EMPTY_PAGE).

Lemma blank_map_state : fsm_state blank_map (SIZE_MAX - 20) h_empty.
Proof.
  exists init_store. split; [|split; [done|split; [done|apply init_fsm_rep]]].
  apply init_rep; [done|]. intros k pg Hk. by apply lookup_replicate_1 in Hk as [-> _].
Qed.

(** A free-space map created where no file exists, in a memory area of any
    contents, is the empty map: no size has a page, nothing is pinned. *)
Theorem hash_table_init_empty p :
  pool_space p →
  ∃ p', hash_table_init NoFile 8 p = Ok (tt, p') ∧
    fsm_state p' (SIZE_MAX - 20) h_empty ∧ ∀ s, items h_empty s = [].
Proof.
  intros Hp. destruct (hash_table_init_run p Hp) as (q & pgs & Hq & Hl & Hrun).
  exists (init_pool pgs). split; [done|]. split; [|apply h_empty_items].
  exists init_store. split; [|split; [done|split; [done|apply init_fsm_rep]]].
  apply init_rep; [done|]. intros k pg Hk. destruct Hp as [_ Hp].
  apply (Hp (S k)). by rewrite Hq.
Qed.

Lemma hash_table_init_empty_witness :
  ∃ p', hash_table_init NoFile 8 blank_pool = Ok (tt, p') ∧
    fsm_state p' (SIZE_MAX - 20) h_empty ∧ ∀ s, items h_empty s = [].
Proof. apply (hash_table_init_empty blank_pool blank_pool_space). Defined.

(** C19: [hash_table_insert] on a represented map returns, adds the address to
    the bag of its size and changes no other bag, on each of its four
    branches: a new chain from the free list or at the end of the file, room
    in the first block of the chain, or a new block in front of a full one.
    Every page it pinned is released. *)
Theorem hash_table_insert_adds p n h s addr :
  fsm_state p n h → (s < 128)%nat → in_s 64 addr → 4 <= n → flen (file p) + 128 <= MAX_LEN →
  ∃ p' h', hash_table_insert (Z.of_nat s) addr p = Ok (tt, p') ∧ fsm_state p' (n - 4) h' ∧
    flen (file p') <= flen (file p) + 128 ∧
    ∀ t, items h' t ≡ₚ if decide (t = s) then addr :: items h t else items h t.
Proof.
  intros Hp Hs Ha Hn HM.
  destruct (fsm_state_awp (hash_table_insert (Z.of_nat s) addr) p n h
    (λ _ g', fsm_post (flen (file p)) n 4 (added s addr h) g') Hp)
    as ([] & p' & g' & Hrun & Hr & Hfl & Hpins & Hl & Hh & h' & Hf & Hadd).
  - intros ms l hh -> Hf Hhh _. destruct (f_max _ _ _ Hf) as (_ & _ & Hl).
    eapply awp_mono; [eapply hash_table_insert_spec; try done; lia|].
    intros [] g' Hpost. eapply fsm_post_weaken; [exact Hpost|lia|done].
  - exists p', h'. split; [done|]. split; [by exists g'|]. split; [lia|done].
Qed.

Lemma hash_table_insert_adds_witness :
  ∃ p' h', hash_table_insert (Z.of_nat 99) 128 blank_map = Ok (tt, p') ∧
    fsm_state p' (SIZE_MAX - 20 - 4) h' ∧
    flen (file p') <= flen (file blank_map) + 128 ∧
    ∀ t, items h' t ≡ₚ if decide (t = 99%nat) then 128 :: items h_empty t else items h_empty t.
Proof.
  apply (hash_table_insert_adds blank_map (SIZE_MAX - 20) h_empty 99 128).
  - apply blank_map_state.
  - lia.
  - vm_compute. split; [discriminate|reflexivity].
  - vm_compute. discriminate.
  - vm_compute. discriminate.
Defined.

(** a map with one page, and the search that fails on it *)
Definition one_page_map : BufferPool :=
  match hash_table_insert 99 128 blank_map with Ok (_, p) => p | _ => blank_map end.

Lemma one_page_state : ∃ h, fsm_state one_page_map (SIZE_MAX - 24) h ∧
  items h 99 ≡ₚ [128] ∧ ∀ t, t ≠ 99%nat → items h t = [].
Proof.
  destruct (fsm_state_awp (hash_table_insert (Z.of_nat 99) 128) blank_map (SIZE_MAX - 20) h_empty
    (λ _ g', fsm_post 1152 (SIZE_MAX - 20) 4 (added 99 128 h_empty) g') blank_map_state)
    as ([] & p' & g' & Hrun & Hr & Hfl & Hpins & Hl & Hh & h' & Hf & Hadd).
  - intros ms l hh -> Hf Hhh _.
    eapply awp_mono; [eapply hash_table_insert_spec; try done|].
    + lia.
    + unfold SIZE_MAX in Hhh. lia.
    + intros [] g' Hpost. eapply fsm_post_weaken; [exact Hpost|lia|done].
  - change (Z.of_nat 99) with 99 in Hrun. unfold one_page_map. rewrite Hrun.
    exists h'. split; [exists g'; split_and!; try done; lia|]. split.
    + rewrite (Hadd 99%nat). by rewrite h_empty_items.
    + intros t Ht. pose proof (Hadd t) as H. rewrite decide_False, h_empty_items in H by done.
      by apply Permutation_nil_r in H.
Qed.

(** C20: [hash_table_pop] of an address that is in the bag of a size returns,
    removes one occurrence of it and changes no other bag; the search along
    the chain needs no more steps than the file has pages. *)
Theorem hash_table_pop_removes p n h s addr fuel :
  fsm_state p n h → (s < 128)%nat → addr ∈ items h s →
  flen (file p) <= 128 * Z.of_nat fuel → Z.of_nat fuel + 3 <= n →
  ∃ p' h', hash_table_pop fuel (Z.of_nat s) addr p = Ok (tt, p') ∧
    fsm_state p' (n - (Z.of_nat fuel + 3)) h' ∧
    ∀ t, items h t ≡ₚ if decide (t = s) then addr :: items h' t else items h' t.
Proof.
  intros Hp Hs Ha Hfuel Hn.
  destruct (fsm_state_awp (hash_table_pop fuel (Z.of_nat s) addr) p n h
    (λ _ g', fsm_post (flen (file p)) n (Z.of_nat fuel + 3) (popped s addr h) g') Hp)
    as ([] & p' & g' & Hrun & Hr & Hfl & Hpins & Hl & Hh & h' & Hf & Hpop).
  - intros ms l hh -> Hf Hhh Hok. eapply awp_mono; [eapply hash_table_pop_spec; try done|].
    + intros bs Hbs. pose proof (chain_blocks_bound _ _ _ _ Hf Hok _ _ Hbs).
      pose proof (Z.div_le_upper_bound (flen (file p)) 128 (Z.of_nat fuel) ltac:(lia) ltac:(lia)).
      lia.
    + intros [] g' Hpost. eapply fsm_post_weaken; [exact Hpost|lia|done].
  - exists p', h'. split; [done|]. split; [by exists g'|done].
Qed.

Lemma hash_table_pop_removes_witness :
  ∃ h p' h', hash_table_pop 20 (Z.of_nat 99) 128 one_page_map = Ok (tt, p') ∧
    fsm_state p' (SIZE_MAX - 24 - 23) h' ∧
    ∀ t, items h t ≡ₚ if decide (t = 99%nat) then 128 :: items h' t else items h' t.
Proof.
  destruct one_page_state as (h & Hst & H99 & Ho). exists h.
  apply (hash_table_pop_removes one_page_map (SIZE_MAX - 24) h 99 128 20).
  - exact Hst.
  - lia.
  - rewrite H99. by left.
  - vm_compute. discriminate.
  - vm_compute. discriminate.
Defined.

(** C18: [hash_table_pop_lower_bound] takes an address from the smallest size,
    at or above the one asked for, that has any, and removes it from its bag;
    it returns -1 exactly when no such size has a page, and then no bag has
    changed.  The search that finds leaves nothing pinned; the one that does
    not leaves nothing pinned either, or else the page after the directory
    with a reference count of [2 ^ 64 - 1], released once too often. *)
Theorem hash_table_pop_lower_bound_least p n h s fuel :
  fsm_state p n h → (s < 128)%nat → (128 < fuel)%nat →
  flen (file p) <= 128 * Z.of_nat fuel → Z.of_nat fuel + 140 <= n →
  flen (file p) + 128 <= MAX_LEN →
  ∃ r p', hash_table_pop_lower_bound fuel (Z.of_nat s) p = Ok (r, p') ∧
    ((∃ u h', (s <= u < 128)%nat ∧ (∀ v, (s <= v < u)%nat → items h v = []) ∧
        fsm_state p' (n - (Z.of_nat fuel + 140)) h' ∧
        ∀ t, items h t ≡ₚ if decide (t = u) then r :: items h' t else items h' t) ∨
     (r = -1 ∧ (∀ u, (s <= u < 128)%nat → items h u = []) ∧
        (fsm_state p' (n - (Z.of_nat fuel + 140)) h ∨
         ∃ k, addrs p' !! k = Some FIRST_BLOCK ∧ ref p' !! k = Some (2 ^ 64 - 1)))).
Proof.
  intros Hp Hs Hf128 Hfuel Hn HM.
  destruct (fsm_state_awp (hash_table_pop_lower_bound fuel (Z.of_nat s)) p n h
    (λ r g', (∃ m l, pop_post m l h s r g') ∧ n - (Z.of_nat fuel + 140) <= hits g') Hp)
    as (r & p' & g' & Hrun & Hr & Hfl & (m & l & Hpost) & Hh).
  - intros ms l hh -> Hf Hhh Hok.
    eapply awp_mono; [eapply (hash_table_pop_lower_bound_spec fuel _ _ _ h s); try done; [|lia]|].
    + intros t bs Hbs. pose proof (chain_blocks_bound _ _ _ _ Hf Hok _ _ Hbs).
      pose proof (Z.div_le_upper_bound (flen (file p)) 128 (Z.of_nat fuel) ltac:(lia) ltac:(lia)).
      lia.
    + intros r g' (Hpost & _ & Hh). split; [eauto|lia].
  - exists r, p'. split; [done|]. destruct Hpost as [Hfound|Hnone].
    + destruct Hfound as (u & (Hu & _ & Hv) & _ & Hpins & h' & Hf & Hpop).
      left. exists u, h'. split; [done|]. split; [done|]. split; [by exists g'|done].
    + destruct Hnone as (Hu & -> & Hmiss & Hf). right. split; [done|]. split; [done|].
      destruct Hmiss as [[_ Hpins]|[_ [k Hpins]]]; [left; by exists g'|right].
      destruct (r_pin _ _ Hr FIRST_BLOCK k (2 ^ 64 - 1)) as (? & ? & _); [|by exists k].
      rewrite Hpins. apply lookup_insert_eq.
Qed.

Lemma hash_table_pop_lower_bound_least_witness :
  ∃ h r p', hash_table_pop_lower_bound 200 (Z.of_nat 36) one_page_map = Ok (r, p') ∧
    ((∃ u h', (36 <= u < 128)%nat ∧ (∀ v, (36 <= v < u)%nat → items h v = []) ∧
        fsm_state p' (SIZE_MAX - 24 - 340) h' ∧
        ∀ t, items h t ≡ₚ if decide (t = u) then r :: items h' t else items h' t) ∨
     (r = -1 ∧ (∀ u, (36 <= u < 128)%nat → items h u = []) ∧
        (fsm_state p' (SIZE_MAX - 24 - 340) h ∨
         ∃ k, addrs p' !! k = Some FIRST_BLOCK ∧ ref p' !! k = Some (2 ^ 64 - 1)))).
Proof.
  destruct one_page_state as (h & Hst & _). exists h.
  apply (hash_table_pop_lower_bound_least one_page_map (SIZE_MAX - 24) h 36 200).
  - exact Hst.
  - lia.
  - lia.
  - vm_compute. discriminate.
  - vm_compute. discriminate.
  - vm_compute. discriminate.
Defined.

(** ** The reference count that is lost *)

(** a page with the count [2 ^ 64 - 1] is pinned, and held by nobody *)
Lemma pin_wraps p g k a : pool_rep p g → addrs p !! k = Some a → a ≠ -1 → ref p !! k = Some (2 ^ 64 - 1) →
  ∃ p', get_page a p = Ok (k, p') ∧ addrs p' = addrs p ∧ k ∈ unheld p'.
Proof.
  intros Hr Hk Ha Href. unfold get_page, gets, modify, mbind, M_bind, mret, M_ret.
  rewrite (find_addr_lookup _ _ Hr _ _ Hk Ha). eexists. split; [done|]. split; [done|].
  apply elem_of_unheld. split; [by eapply addrs_lt|]. cbn [ref set_ref set_cnt].
  rewrite list_lookup_total_insert_eq by (by eapply lookup_lt_Some).
  by rewrite (list_lookup_total_correct _ _ _ Href).
Qed.

(** C28: the reference count a failed search loses: on any map where no size at
    or above the one asked for has a page, and where the page that follows the
    directory is a block with no successor, [hash_table_pop_lower_bound]
    returns -1, as it should, but releases that page once more than it pinned
    it: its reference count wraps round to [2 ^ 64 - 1].  The next [get_page] of
    the page succeeds and leaves it with a count of 0, a slot that nobody
    holds, so that any later [get_page] may replace it while it is in use. *)
Theorem failed_search_over_releases p n h s fuel :
  fsm_state p n h → (∀ g, pool_rep p g → leaky (mem g)) → (∀ u, (s <= u < 128)%nat → items h u = []) →
  (s < 128)%nat → (128 < fuel)%nat →
  flen (file p) <= 128 * Z.of_nat fuel → Z.of_nat fuel + 140 <= n → flen (file p) + 128 <= MAX_LEN →
  ∃ k p' p'', hash_table_pop_lower_bound fuel (Z.of_nat s) p = Ok (-1, p') ∧
    addrs p' !! k = Some FIRST_BLOCK ∧ ref p' !! k = Some (2 ^ 64 - 1) ∧
    get_page FIRST_BLOCK p' = Ok (k, p'') ∧ addrs p'' = addrs p' ∧ k ∈ unheld p''.
Proof.
  intros Hp Hleak Hnone Hs Hf128 Hfuel Hn HM.
  destruct Hp as ([ms l ps hh] & Hr0 & Hps & Hh & Hf). cbn [mem plen pins hits] in *. subst ps.
  pose proof (Hleak _ Hr0) as Hlk. pose proof (r_plen _ _ Hr0) as (Hl & _). cbn [mem plen] in *. rewrite Hl in *.
  assert (chains_below h fuel) as Hch.
  { intros t bs Hbs. pose proof (chain_blocks_bound _ _ _ _ Hf (rep_ok _ _ Hr0) _ _ Hbs).
    pose proof (Z.div_le_upper_bound l 128 (Z.of_nat fuel) ltac:(lia) ltac:(lia)). lia. }
  destruct (wp_elim _ _ _ (hash_table_pop_lower_bound_spec fuel ms l hh h s Hf Hs Hf128 Hch ltac:(lia) HM p Hr0))
    as (r & p' & Hrun & g' & Hr & Hpost & _).
  destruct Hpost as [(u & (Hu & Hne & _) & _)|(_ & -> & [[? _]|[_ [k Hpins]]] & _)]; [by destruct Hne; apply Hnone|done|].
  destruct (r_pin _ _ Hr FIRST_BLOCK k (2 ^ 64 - 1)) as (Hk & Href & _); [rewrite Hpins; apply lookup_insert_eq|].
  destruct (pin_wraps p' g' k FIRST_BLOCK Hr Hk ltac:(done) Href) as (p'' & Hget & Ha & Hun).
  by exists k, p', p''.
Qed.

(** the page that follows the directory of [one_page_map] is its first block *)
Lemma one_page_leaky g : pool_rep one_page_map g → leaky (mem g).
Proof.
  assert (addrs one_page_map !! 2%nat = Some FIRST_BLOCK) as Hk by (vm_compute; reflexivity).
  assert (word (pages one_page_map !!! 2%nat) 0 = -1) as Hw by (vm_compute; reflexivity).
  revert Hk Hw. generalize one_page_map. intros p Hk Hw Hr.
  destruct (r_slot _ _ Hr _ _ Hk) as [[? _]|(q & c & Hm & Hq & _)]; [done|].
  rewrite (list_lookup_total_correct _ _ _ Hq) in Hw. by exists q.
Qed.

Lemma failed_search_over_releases_witness :
  ∃ k p' p'', hash_table_pop_lower_bound 200 (Z.of_nat 108) one_page_map = Ok (-1, p') ∧
    addrs p' !! k = Some FIRST_BLOCK ∧ ref p' !! k = Some (2 ^ 64 - 1) ∧
    get_page FIRST_BLOCK p' = Ok (k, p'') ∧ addrs p'' = addrs p' ∧ k ∈ unheld p''.
Proof.
  destruct one_page_state as (h & Hst & _ & Ho).
  apply (failed_search_over_releases one_page_map (SIZE_MAX - 24) h 108 200).
  - exact Hst.
  - exact one_page_leaky.
  - intros u Hu. apply Ho. lia.
  - lia.
  - lia.
  - vm_compute. discriminate.
  - vm_compute. discriminate.
  - vm_compute. discriminate.
Defined.

(** one page is recorded, a search above it fails, the page is taken out *)
Definition three_calls : M BufferPool Z :=
  hash_table_insert 99 128;;
  r ← hash_table_pop_lower_bound 200 108;
  hash_table_pop 200 99 128;;
  mret r.

Definition broken_map : BufferPool :=
  match three_calls blank_map with Ok (_, p) => p | _ => blank_map end.

(** the three words of the control page: the free list, the number of
    directory pages and the end of the file *)
Definition control_words : M BufferPool (Z * Z * Z) :=
  ctrl ← get_page 0;
  head ← at_page ctrl (rd_i64 off_free_block_head);
  n ← at_page ctrl (rd_i64 off_n_directory_blocks);
  max ← at_page ctrl (rd_i64 off_max_size);
  release 0;;
  mret (head, n, max).

Definition value {S A} (r : res (A * S)) : option A :=
  match r with Ok (a, _) => Some a | _ => None end.

(** A failed search followed by a removal destroys the control page of the
    map: the search releases the first block of the table once too often, so
    that [hash_table_pop] works on it unpinned; pinning the control page then
    evicts it, and the writes that empty the block land on the control page,
    whose directory is left with no pages and whose end of file is zero. *)
Theorem failed_search_then_pop_overwrites_control :
  value (control_words blank_map) = Some (-1, 8, 1152) ∧
  value (three_calls blank_map) = Some (-1) ∧
  value (control_words broken_map) = Some (1152, 0, 0).
Proof. vm_compute. done. Qed.

(** one step of the loop of [hash_table_pop] past a block without the address *)
Definition visit (cnt_addr addr : Z) : M BufferPool (Z * Z) :=
  cnt_block ← get_page cnt_addr;
  nxt_addr ← at_page cnt_block (rd_i64 off_next);
  target ← find_item cnt_block addr;
  release cnt_addr;;
  mret (nxt_addr, target).

Lemma pop_loop_visit f size addr pre cnt_addr p nxt p' :
  visit cnt_addr addr p = Ok ((nxt, -1), p') →
  pop_loop (S f) size addr pre cnt_addr p = pop_loop f size addr cnt_addr nxt p'.
Proof.
  unfold visit. cbn [pop_loop]. unfold mbind, M_bind.
  destruct (get_page cnt_addr p) as [[k p1]| |]; [|done..].
  destruct (at_page k _ p1) as [[n p2]| |]; [|done..].
  destruct (find_item k addr p2) as [[t p3]| |]; [|done..].
  destruct (release cnt_addr p3) as [[[] p4]| |] eqn:E; [|done..].
  unfold mret, M_ret. intros [= -> -> ->]. cbn [Z.eqb Pos.eqb]. by rewrite E.
Qed.

Lemma at_page_read {A} k (m : M Page A) pg v p :
  pages p !! k = Some pg → m pg = Ok (v, pg) → at_page k m p = Ok (v, p).
Proof.
  intros Hk Hm. unfold at_page, zoom. rewrite Hk, Hm. unfold set_page.
  rewrite list_insert_id by done. by destruct p.
Qed.

(** [find_item] on the page itself *)
Definition find_item_page (addr : Z) : M Page Z :=
  n_items ← rd_i64 off_block_n_items;
  fold_ne 0 n_items (λ i target,
    a ← rd_table i; mret (if a =? addr then i else target)) (-1).

Lemma rd_table_same i pg a pg' : rd_table i pg = Ok (a, pg') → pg' = pg.
Proof.
  unfold rd_table, need, rd_i64, rd_s, rd, mbind, M_bind, mret, M_ret.
  destruct (_ && _); [|done]. destruct (in_obj _ _ _); [|done]. by intros [= <-].
Qed.

Lemma find_item_run k addr p pg t pg' :
  pages p !! k = Some pg → find_item_page addr pg = Ok (t, pg') → find_item k addr p = Ok (t, p).
Proof.
  intros Hk. unfold find_item, find_item_page, mbind, M_bind.
  destruct (rd_i64 off_block_n_items pg) as [[n q]| |] eqn:En; [|done..].
  assert (q = pg) as ->.
  { revert En. unfold rd_i64, rd_s, rd, mbind, M_bind. destruct (in_obj _ _ _); [|done].
    by intros [= _ <-]. }
  rewrite (at_page_read _ _ _ _ _ Hk En). unfold fold_ne. destruct (n <? 0); [done|].
  generalize (Z.to_nat (n - 0)). intros m. generalize 0 (-1).
  induction m as [|m IH]; intros i acc; simpl.
  - unfold mret, M_ret. by intros [= -> _].
  - unfold mbind, M_bind. destruct (rd_table i pg) as [[a q]| |] eqn:Ea; [|done..].
    pose proof (rd_table_same _ _ _ _ Ea) as ->. rewrite (at_page_read _ _ _ _ _ Hk Ea). apply IH.
Qed.

(** visiting a cached page only counts the hit *)
Lemma visit_hit p a k c pg nxt addr pg' :
  find_addr a p = Some k → cnt p !! k = Some c → ref p !! k = Some 0 →
  pages p !! k = Some pg → rd_i64 off_next pg = Ok (nxt, pg) →
  find_item_page addr pg = Ok (-1, pg') →
  visit a addr p = Ok ((nxt, -1), set_cnt k (uwrap 64 (c + 1)) p).
Proof.
  intros Hf Hc Hr Hk Hn Ht. unfold visit, get_page, release, gets, modify, mbind, M_bind, mret, M_ret.
  rewrite Hf, !(list_lookup_total_correct _ _ _ Hc), !(list_lookup_total_correct _ _ _ Hr).
  set (p1 := set_ref k _ _). assert (pages p1 !! k = Some pg) as Hk1 by done.
  rewrite (at_page_read _ _ _ _ _ Hk1 Hn), (find_item_run _ _ _ _ _ _ Hk1 Ht).
  change (find_addr a p1) with (find_addr a p). rewrite Hf. do 2 f_equal.
  unfold p1, set_ref, set_cnt. cbn [file pages addrs cnt ref].
  rewrite list_lookup_total_insert_eq by (by eapply lookup_lt_Some).
  rewrite list_insert_insert_eq. f_equal. by apply list_insert_id.
Qed.

(** *** Circles

    The block after [a], when [a] is in a slot and does not have the address:
    visiting it then only counts the hit. *)
Definition hop (p : BufferPool) (addr a : Z) : option Z :=
  k ← find_addr a p; _ ← cnt p !! k; r ← ref p !! k; pg ← pages p !! k;
  match rd_i64 off_next pg, find_item_page addr pg with
  | Ok (nxt, _), Ok (t, _) => if (r =? 0) && (t =? -1) then Some nxt else None
  | _, _ => None
  end.

(** the blocks [l] lead to each other *)
Definition circle (p : BufferPool) (addr : Z) (l : list Z) : bool :=
  forallb (λ a, match hop p addr a with Some nxt => bool_decide (nxt ∈ l) | None => false end) l.

Lemma hop_visit p addr a nxt : hop p addr a = Some nxt →
  ∃ k x, visit a addr p = Ok ((nxt, -1), set_cnt k x p).
Proof.
  unfold hop. intros (k & Hf & (c & Hc & (r & Hr & (pg & Hk & H)%bind_Some)%bind_Some)%bind_Some)%bind_Some.
  destruct (rd_i64 off_next pg) as [[n q]| |] eqn:En; [|done..].
  destruct (find_item_page addr pg) as [[t q']| |] eqn:Et; [|done..].
  destruct (Z.eqb_spec r 0) as [->|]; [|done]. destruct (Z.eqb_spec t (-1)) as [->|]; [|done].
  cbn [andb] in H. simplify_eq. exists k, (uwrap 64 (c + 1)).
  assert (q = pg) as ->.
  { revert En. unfold rd_i64, rd_s, rd, mbind, M_bind. destruct (in_obj _ _ _); [|done]. by intros [= _ <-]. }
  by eapply visit_hit.
Qed.

(** hit counters do not matter *)
Lemma hop_count p addr a k x : hop (set_cnt k x p) addr a = hop p addr a.
Proof.
  unfold hop. change (find_addr a (set_cnt k x p)) with (find_addr a p).
  destruct (find_addr a p) as [k'|]; [|done]. cbn [mbind option_bind set_cnt cnt ref pages].
  destruct (decide (k' = k)) as [->|Hne]; [|by rewrite list_lookup_insert_ne].
  destruct (cnt p !! k) as [c|] eqn:Hc.
  - by rewrite list_lookup_insert_eq by (by eapply lookup_lt_Some).
  - by rewrite list_insert_ge, Hc by (by apply lookup_ge_None).
Qed.

(** the loop of [hash_table_pop] does not leave a circle *)
Lemma circle_never_ends f size addr l p pre a : circle p addr l = true → a ∈ l →
  pop_loop f size addr pre a p = NoFuel.
Proof.
  intros Hl.
  assert (∀ b, b ∈ l → ∃ nxt, hop p addr b = Some nxt ∧ nxt ∈ l) as Hhop.
  { intros b Hb. unfold circle in Hl. rewrite forallb_forall in Hl.
    specialize (Hl b (proj1 (list_elem_of_In _ _) Hb)). destruct (hop p addr b) as [nxt|]; [|done].
    exists nxt. by case_bool_decide. }
  clear Hl. induction f as [|f IH] in p, pre, a, Hhop |- *; intros Ha; [done|].
  destruct (Hhop a Ha) as (nxt & Hn & Hin). destruct (hop_visit _ _ _ _ Hn) as (k & x & Hv).
  rewrite (pop_loop_visit _ _ _ _ _ _ _ _ Hv). apply IH; [|done].
  intros b. rewrite hop_count. apply Hhop.
Qed.

(** what that search does before its loop *)
Definition before_loop : M BufferPool unit :=
  ctrl ← get_page 0; release 0;;
  get_page 896;; release 896;;
  get_page (-1);; release 896;; release (-1);;
  get_page 896;; release 896.

(** the pool when the loop of [hash_table_pop] begins, and after each of its
    first three blocks *)
Definition after_visits (m : M BufferPool unit) : BufferPool :=
  match (before_loop;; m) broken_map with Ok (_, p) => p | _ => blank_map end.

Lemma lower_bound_reaches_loop f :
  hash_table_pop_lower_bound (S f) 104 broken_map =
  (pop_loop (S f) 104 0 (-1) (-1);; mret 0) (after_visits (mret tt)).
Proof.
  unfold hash_table_pop_lower_bound, hash_table_pop. cbn [scan_directory].
  generalize (pop_loop (S f)) (scan_directory f). intros loop scan. vm_compute. reflexivity.
Qed.

Lemma first_visits :
  visit (-1) 0 (after_visits (mret tt)) =
    Ok ((0, -1), after_visits (visit (-1) 0;; mret tt)) ∧
  visit 0 0 (after_visits (visit (-1) 0;; mret tt)) =
    Ok ((FIRST_BLOCK, -1), after_visits (visit (-1) 0;; visit 0 0;; mret tt)) ∧
  visit FIRST_BLOCK 0 (after_visits (visit (-1) 0;; visit 0 0;; mret tt)) =
    Ok ((-1, -1), after_visits (visit (-1) 0;; visit 0 0;; visit FIRST_BLOCK 0;; mret tt)) ∧
  circle (after_visits (visit (-1) 0;; visit 0 0;; visit FIRST_BLOCK 0;; mret tt)) 0 [-1; 0; FIRST_BLOCK] = true.
Proof. split_and!; vm_compute; reflexivity. Qed.

(** C27: after those three calls a search never returns: with the count of
    directory pages zero, [hash_table_pop_lower_bound] takes an entry that is
    -1 for a block and [hash_table_pop] follows the marker of an empty slot,
    the control page and the emptied block round in a circle, whatever the
    number of steps. *)
Theorem search_after_overwrite_never_returns fuel :
  hash_table_pop_lower_bound fuel 104 broken_map = NoFuel.
Proof.
  destruct fuel as [|f]; [vm_compute; reflexivity|]. rewrite lower_bound_reaches_loop.
  destruct first_visits as (H1 & H2 & H3 & H4). unfold mbind, M_bind.
  rewrite (pop_loop_visit _ _ _ _ _ _ _ _ H1). destruct f as [|f]; [done|].
  rewrite (pop_loop_visit _ _ _ _ _ _ _ _ H2). destruct f as [|f]; [done|].
  rewrite (pop_loop_visit _ _ _ _ _ _ _ _ H3), (circle_never_ends _ _ _ _ _ _ _ H4) by (by left). done.
Qed.
