(* ===== verification/Table.v ===== *)
(** Tables ([include/table.h], [src/table.c]): variable-size items in slotted
    pages, found by record identifier, with a free-space map that finds a
    page with room. *)
From stdpp Require Import base gmap list.
From Stdlib Require Import ZArith Lia Strings.Byte.
From S2P Require Import Prelude FileIO BufferPool Block HashMap.
#[local] Open Scope Z_scope.

(** ** Record identifiers *)

(** The ten bytes of an [RID]: an [off_t] and a [short]. *)
Record RID := mkRID { rid_block_addr : Z; rid_idx : Z }.

#[export] Instance RID_eq_dec : EqDecision RID.
Proof. solve_decision. Defined.

Definition RID_SIZE : Z := 10.
Definition rid_enc (rid : RID) : list byte :=
  le_enc 8 (rid_block_addr rid) ++ le_enc 2 (rid_idx rid).
Definition rid_dec (bs : list byte) : RID :=
  mkRID (dec_s (slice 0 8 bs)) (dec_s (slice 8 2 bs)).

(** an [RID] at an offset of an object *)
Definition rd_rid (off : Z) : M (list byte) RID := bs ← rd off 10; mret (rid_dec bs).
Definition wr_rid (off : Z) (rid : RID) : M (list byte) unit := wr off (rid_enc rid).

(** ** The state *)

Record Table := mkTable { data_pool : BufferPool; fsm_pool : BufferPool }.

Definition set_data_pool (p : BufferPool) (t : Table) : Table := mkTable p (fsm_pool t).
Definition set_fsm_pool (p : BufferPool) (t : Table) : Table := mkTable (data_pool t) p.
Definition in_data {A} (m : M BufferPool A) : M Table A := zoom data_pool set_data_pool m.
Definition in_fsm {A} (m : M BufferPool A) : M Table A := zoom fsm_pool set_fsm_pool m.

(** ** Operations *)

Definition table_init (data_path fsm_path : PathState) : M Table unit :=
  in_data (init_buffer_pool data_path);;
  in_fsm (hash_table_init fsm_path (PAGE_SIZE / HASH_MAP_DIR_BLOCK_SIZE)).

Definition table_close : M Table unit :=
  in_data close_buffer_pool;;
  in_fsm hash_table_close.

Definition table_get_total_blocks : M Table Z :=
  len ← in_data file_length; mret (Z.quot len PAGE_SIZE).

Definition table_block_get_total_items (block_addr : Z) : M Table Z :=
  block ← in_data (get_page block_addr);
  n_items ← in_data (at_page block (rd_i16 off_n_items));
  in_data (release block_addr);;
  mret n_items.

(** [memcpy(dest, src, n)] into the object [dest] *)
Definition memcpy_from {S} (dest : list byte) (src : list byte) : M S (list byte) :=
  need (Z.of_nat (length src) <=? Z.of_nat (length dest));;
  mret (splice 0 src dest).

(** [table_read]: the contents of [dest] after the copy; a NULL item is not
    a source [memcpy] may read *)
Definition table_read (rid : RID) (dest : list byte) : M Table (list byte) :=
  let block_addr := rid_block_addr rid in
  let idx := rid_idx rid in
  block ← in_data (get_page block_addr);
  itemid ← in_data (at_page block (get_item_id idx));
  let item_size := swrap 16 (get_item_id_size itemid) in
  item ← in_data (at_page block (get_item idx));
  off ← of_opt item;
  bs ← in_data (at_page block (rd off (Z.to_nat item_size)));
  dest' ← memcpy_from dest bs;
  in_data (release block_addr);;
  mret dest'.

(** [block->tail_ptr - block->head_ptr] as a short *)
Definition block_room (block : Ptr) : M Table Z :=
  tail_ptr ← in_data (at_page block (rd_i16 off_tail_ptr));
  head_ptr ← in_data (at_page block (rd_i16 off_head_ptr));
  mret (swrap 16 (tail_ptr - head_ptr)).

(** no page has room: the item goes to a new page *)
Definition insert_new_page (src : list byte) (size : Z) : M Table RID :=
  len ← in_data file_length;
  block ← in_data (get_page len);
  in_data (at_page block init_block);;
  idx ← in_data (at_page block (new_item src size));
  final_size ← block_room block;
  len ← in_data file_length;
  let final_addr := len - PAGE_SIZE in
  in_fsm (hash_table_insert final_size final_addr);;
  in_data (release final_addr);;
  mret (mkRID final_addr idx).

(** the item goes to the page [addr] taken from the free-space map *)
Definition insert_old_page (addr : Z) (src : list byte) (size : Z) : M Table RID :=
  block ← in_data (get_page addr);
  idx ← in_data (at_page block (new_item src size));
  final_size ← block_room block;
  in_fsm (hash_table_insert final_size addr);;
  in_data (release addr);;
  mret (mkRID addr idx).

(** the fuel is that of the searches of the free-space map *)
Definition table_insert (fuel : nat) (src : list byte) (size : Z) : M Table RID :=
  addr ← in_fsm (hash_table_pop_lower_bound fuel (swrap 16 (uwrap 64 size + 4)));
  if addr =? -1 then insert_new_page src size
  else insert_old_page addr src size.

Definition table_delete (fuel : nat) (rid : RID) : M Table unit :=
  let addr := rid_block_addr rid in
  let idx := rid_idx rid in
  block ← in_data (get_page addr);
  target_size ← block_room block;
  in_fsm (hash_table_pop fuel target_size addr);;
  in_data (at_page block (delete_item idx));;
  target_size ← block_room block;
  in_fsm (hash_table_insert target_size addr);;
  in_data (release addr).
