(* ===== verification/HeapStore.v ===== *)
(** What a table promises to the components above it: a heap of byte strings
    indexed by record identifiers.  The string component and the key-value
    store are verified against this interface; [TableSpec] and [TableHeap]
    show that tables implement it. *)
From stdpp Require Import base gmap list fin_maps.
From Stdlib Require Import ZArith Lia Strings.Byte.
From S2P Require Import Prelude Table.
#[local] Open Scope Z_scope.

#[export] Instance RID_countable : Countable RID.
Proof.
  refine (inj_countable' (λ r, (rid_block_addr r, rid_idx r)) (λ p, mkRID p.1 p.2) _).
  by intros [].
Defined.

(** The heap of a table, and the number of operations that are certain to
    succeed: more of them could overflow a counter of the buffer pool or the
    length of a file. *)
Record tview := TView { t_heap : gmap RID (list byte); t_ops : Z }.

(** the identifiers in use are encodable, and are none of those the program
    uses as end marks *)
Definition rid_ok (r : RID) : Prop :=
  in_s 64 (rid_block_addr r) ∧ 0 <= rid_block_addr r ∧ in_s 16 (rid_idx r) ∧ 0 <= rid_idx r.

Class HeapReader `{Rep Table tview} : Prop := {
  heap_read : ∀ H n rid bs dest (Φ : list byte → tview → Prop),
    H !! rid = Some bs → (length bs <= length dest)%nat → Z.of_nat (length bs) < 32768 →
    0 < n → Φ (bs ++ drop (length bs) dest) (TView H (n - 1)) →
    awp (table_read rid dest) Φ (TView H n);
  heap_rids : ∀ t H n rid bs, rep t (TView H n) → H !! rid = Some bs → rid_ok rid;
  heap_spend : ∀ t H n n', rep t (TView H n) → n' <= n → rep t (TView H n');
}.

(** ** Facts of the encoding *)

Lemma rid_enc_length r : length (rid_enc r) = 10%nat.
Proof. unfold rid_enc. by rewrite length_app, !le_enc_length. Qed.

Lemma rid_dec_enc r : rid_ok r → rid_dec (rid_enc r) = r.
Proof.
  intros (H1 & _ & H2 & _). destruct r as [a i]. unfold rid_dec, rid_enc, slice. cbn [rid_block_addr rid_idx] in *.
  f_equal.
  - rewrite drop_0, take_app_length' by (by rewrite le_enc_length). by apply dec_s_enc; [lia|].
  - rewrite drop_app_length' by (by rewrite le_enc_length).
    rewrite take_ge by (rewrite le_enc_length; lia). by apply dec_s_enc; [lia|].
Qed.

(** the mark at the end of a string *)
Definition no_rid : RID := mkRID (-1) (-1).

Lemma rid_dec_enc_no_rid : rid_dec (rid_enc no_rid) = no_rid.
Proof. vm_compute. done. Qed.

(** an identifier that survives being stored *)
Definition rid_fits (r : RID) : Prop := rid_dec (rid_enc r) = r.

Lemma rid_enc_inj r1 r2 : rid_fits r1 → rid_fits r2 → rid_enc r1 = rid_enc r2 → r1 = r2.
Proof. unfold rid_fits. intros F1 F2 E. by rewrite <- F1, <- F2, E. Qed.
