(* ===== verification/TableSpec.v ===== *)
(** What a table promises: it is a heap of byte strings indexed by record
    identifiers.  [table_read] finds the bytes of an identifier,
    [table_insert] stores a string under an identifier that was not in use and
    [table_delete] takes one away; every other string stays where it is.  The
    free-space map of the table is kept in agreement with its pages. *)
From stdpp Require Import base gmap list fin_maps.
From Stdlib Require Import ZArith Lia Strings.Byte.
From S2P Require Import Prelude FileIO BufferPool PoolLogic PoolClient PoolDurable.
From S2P Require Import Block HashMap HashMapSpec HashMapPop HashMapProps Table.
#[local] Open Scope Z_scope.

(** ** Two pools *)

#[export] Instance table_Rep : Rep Table (pstate * pstate) := λ t g,
  pool_rep (data_pool t) g.1 ∧ pool_rep (fsm_pool t) g.2.

Lemma awp_in_data {A} (m : M BufferPool A) (Φ : A → pstate * pstate → Prop) gd gf :
  awp m (λ a gd', Φ a (gd', gf)) gd → awp (in_data m) Φ (gd, gf).
Proof.
  intros Hm t [Hd Hf]. apply wp_zoom. eapply wp_mono; [by apply Hm|].
  intros a p (gd' & Hr & HΦ). exists (gd', gf). by split.
Qed.

Lemma awp_in_fsm {A} (m : M BufferPool A) (Φ : A → pstate * pstate → Prop) gd gf :
  awp m (λ a gf', Φ a (gd, gf')) gf → awp (in_fsm m) Φ (gd, gf).
Proof.
  intros Hm t [Hd Hf]. apply wp_zoom. eapply wp_mono; [by apply Hm|].
  intros a p (gf' & Hr & HΦ). exists (gd, gf'). by split.
Qed.

Lemma awp_table_ok {A} (m : M Table A) (Φ : A → pstate * pstate → Prop) gd gf :
  (pstate_ok gd → pstate_ok gf → awp m Φ (gd, gf)) → awp m Φ (gd, gf).
Proof. intros Hm t [Hd Hf]. apply Hm; [by eapply rep_ok|by eapply rep_ok|by split]. Qed.

(** ** The heap *)

(** the pages of a table, each a list of items *)
Abbreviation heap := (gmap Z items_t).

(** the string an identifier stands for *)
Definition heap_at (T : heap) (rid : RID) : option (list byte) :=
  its ← T !! rid_block_addr rid;
  if rid_idx rid <? 0 then None else mjoin (its !! Z.to_nat (rid_idx rid)).

Record data_rep (gd : pstate) (T : heap) : Prop := {
  d_pins : pins gd = ∅;
  d_page : ∀ a its, T !! a = Some its → ∃ pg, mem gd !! a = Some pg ∧ block_rep pg its;
  d_dom : ∀ a, is_Some (T !! a) ↔ is_Some (mem gd !! a);
}.

(** the free-space map lists every page under its free space *)
Definition fsm_agrees (T : heap) (h : hstate) : Prop :=
  ∀ s, NoDup (items h s) ∧
    ∀ a, a ∈ items h s ↔ ∃ its, T !! a = Some its ∧ free_space its = Z.of_nat s.

(** the state of a table: [nd] and [nf] calls of [get_page] are left before a
    hit counter of the pools could overflow *)
Definition tbl_rep (g : pstate * pstate) (T : heap) (nd nf : Z) : Prop :=
  data_rep g.1 T ∧ nd <= hits g.1 ∧ nf <= hits g.2 ∧ pins g.2 = ∅ ∧
  ∃ h, fsm_rep (mem g.2) (plen g.2) h ∧ fsm_agrees T h.

Lemma heap_at_Some T rid bs :
  heap_at T rid = Some bs ↔
  ∃ its, T !! rid_block_addr rid = Some its ∧ 0 <= rid_idx rid ∧
         its !! Z.to_nat (rid_idx rid) = Some (Some bs).
Proof.
  unfold heap_at. destruct (T !! rid_block_addr rid) as [its|]; simpl; [|naive_solver].
  destruct (Z.ltb_spec (rid_idx rid) 0).
  - split; [done|]. intros (its' & _ & ? & _). lia.
  - destruct (its !! Z.to_nat (rid_idx rid)) as [[b|]|] eqn:E; simpl; naive_solver.
Qed.

Lemma free_space_range pg its : block_rep pg its → 0 <= free_space its < 123.
Proof.
  intros Hb. pose proof (b_fit _ _ Hb). unfold free_space in *. unfold PAGE_SIZE, off_data in *.
  pose proof (used_bytes_nonneg its). lia.
Qed.

(** ** Reading *)

(** the bytes of an item and the size in its identifier *)
Lemma get_item_spec pg its i bs :
  block_rep pg its → its !! i = Some (Some bs) →
  get_item (Z.of_nat i) pg = Ok (Some (offset_at pg i), pg) ∧
  get_item_id (Z.of_nat i) pg = Ok (item_id_at pg i, pg) ∧
  get_item_id_size (item_id_at pg i) = Z.of_nat (length bs) ∧
  0 <= offset_at pg i ∧ offset_at pg i + Z.of_nat (length bs) <= 128 ∧
  slice (Z.to_nat (offset_at pg i)) (length bs) pg = bs.
Proof.
  intros Hb Hi. destruct (b_used _ _ Hb _ _ Hi) as (Hav & Hsz & Hpos & Ho1 & Ho2 & Hs).
  pose proof (lookup_lt_Some _ _ _ Hi) as Hlt.
  destruct (wp_elim _ _ _ (get_item_correct _ _ (Z.of_nat i) Hb)) as (r & pg' & Hrun & -> & Hr).
  rewrite Nat2Z.id in Hr. destruct r as [off|]; [|naive_solver lia].
  destruct Hr as (_ & Hoff & bs' & Hi' & -> & _). split; [done|]. split; [|done].
  destruct (wp_elim _ _ _ (wp_get_item_id pg its i (λ v pg', v = item_id_at pg i ∧ pg' = pg)
    Hb Hlt (conj eq_refl eq_refl))) as (v & pg' & Hrun' & -> & ->). done.
Qed.

Lemma wp_run {S A} (m : M S A) s a s' (Φ : A → S → Prop) :
  m s = Ok (a, s') → Φ a s' → wp m Φ s.
Proof. intros Hm HΦ. unfold wp. by rewrite Hm. Qed.

(** [table_read] copies the bytes of the item over the destination, and leaves
    the table as it is. *)
Lemma table_read_spec m l hh gf T rid bs dest :
  data_rep (PState m l ∅ hh) T → heap_at T rid = Some bs → in_s 16 (Z.of_nat (length bs)) →
  (length bs <= length dest)%nat → 1 <= hh →
  awp (table_read rid dest)
    (λ r g', r = splice 0 bs dest ∧ g' = (PState m l ∅ (hh - 1), gf))
    (PState m l ∅ hh, gf).
Proof.
  intros Hd Hat Hin Hle Hh. apply awp_table_ok. intros Hok Hokf.
  destruct (ok_store _ _ _ _ Hok) as (Hlen & _ & _).
  apply heap_at_Some in Hat as (its & HT & Hi0 & Hits).
  destruct (d_page _ _ Hd _ _ HT) as (pg & Hpg & Hb). simpl in Hpg.
  destruct (get_item_spec _ _ _ _ Hb Hits) as (Hg & Hid & Hsz & Ho1 & Ho2 & Hs).
  rewrite Z2Nat.id in Hg, Hid by done. set (off := offset_at pg _) in *.
  unfold table_read. awp_step. apply awp_in_data. get_pg k.
  awp_step. apply awp_in_data. eapply ps_read; [map_find|exact Hpg|by eapply Hlen|].
  eapply wp_run; [exact Hid|]. split; [done|].
  awp_step. apply awp_in_data. eapply ps_read; [map_find|exact Hpg|by eapply Hlen|].
  eapply wp_run; [exact Hg|]. split; [done|]. awp_step.
  intros t Ht. apply wp_of_opt with off; [done|]. exists (PState m l (<[rid_block_addr rid:=(k, 1)]> ∅) (hh - 1), gf).
  split; [done|]. clear t Ht.
  rewrite Hsz, swrap_id, Nat2Z.id by (done || lia).
  awp_step. apply awp_in_data. eapply ps_read; [map_find|exact Hpg|by eapply Hlen|].
  apply wp_rd; [done|rewrite (Hlen _ _ Hpg); lia|]. rewrite Hs. split; [done|].
  unfold memcpy_from. awp_step. awp_step. apply awp_need; [apply Z.leb_le; lia|]. awp_step.
  awp_step. apply awp_in_data. rel. awp_step. split; [done|].
  do 2 f_equal. pins_empty.
Qed.

(** ** The free-space map follows the pages *)

Lemma fsm_agrees_new T h h2 a its (s : nat) :
  fsm_agrees T h → T !! a = None → free_space its = Z.of_nat s → added s a h h2 →
  fsm_agrees (<[a:=its]> T) h2.
Proof.
  intros Ha HT Hs Hadd t. destruct (Ha t) as [Hnd Hin]. specialize (Hadd t).
  assert (a ∉ items h t) as Hn.
  { intros (its' & HT' & _)%Hin. congruence. }
  split.
  - rewrite Hadd. case_decide; [|done]. by apply NoDup_cons.
  - intros b. rewrite Hadd. destruct (decide (b = a)) as [->|Hne].
    + rewrite lookup_insert_eq. case_decide as E.
      * subst. split; [intros _; by exists its|intros _; by left].
      * split; [done|]. intros (? & [= <-] & ?). lia.
    + rewrite lookup_insert_ne by done. rewrite <- Hin. case_decide; [|done].
      rewrite elem_of_cons. naive_solver.
Qed.

Lemma fsm_agrees_move T h h1 h2 a its its' (u s : nat) :
  fsm_agrees T h → T !! a = Some its → free_space its = Z.of_nat u → popped u a h h1 →
  free_space its' = Z.of_nat s → added s a h1 h2 →
  fsm_agrees (<[a:=its']> T) h2.
Proof.
  intros Ha HT Hu Hpop Hs Hadd.
  rewrite <- (insert_delete_eq T a its').
  eapply (fsm_agrees_new (delete a T) h1); [|apply lookup_delete_eq|done|done].
  intros t. destruct (Ha t) as [Hnd Hin]. specialize (Hpop t). split.
  - rewrite Hpop in Hnd. case_decide; [by apply NoDup_cons in Hnd as [_ ?]|done].
  - intros b. destruct (decide (b = a)) as [->|Hne].
    + rewrite lookup_delete_eq. split; [|by intros (? & ? & _)]. intros Hb.
      rewrite Hpop in Hnd. case_decide as E.
      * by apply NoDup_cons in Hnd as [? _].
      * rewrite <- Hpop in Hb. apply Hin in Hb as (? & ? & ?). simplify_eq. lia.
    + rewrite lookup_delete_ne by done. rewrite <- Hin, Hpop.
      case_decide; [|done]. rewrite elem_of_cons. naive_solver.
Qed.

Lemma fsm_agrees_In T h a its pg :
  fsm_agrees T h → T !! a = Some its → block_rep pg its →
  ∃ s, (s < 128)%nat ∧ free_space its = Z.of_nat s ∧ a ∈ items h s.
Proof.
  intros Ha HT Hb. pose proof (free_space_range _ _ Hb) as Hr.
  exists (Z.to_nat (free_space its)). split; [lia|]. split; [lia|].
  apply Ha. exists its. split; [done|lia].
Qed.

(** a search that finds nothing: no page has the room *)
Lemma fsm_agrees_miss m l ps hh T h need b its :
  data_rep (PState m l ps hh) T → pstate_ok (PState m l ps hh) → fsm_agrees T h →
  (∀ u, (need <= u < 128)%nat → items h u = []) → T !! b = Some its → free_space its < Z.of_nat need.
Proof.
  intros Hd Hok Hag Hnone HT. destruct (d_page _ _ Hd _ _ HT) as (pg & Hpg & Hb).
  destruct (fsm_agrees_In _ _ _ _ _ Hag HT Hb) as (s & Hs & E & Hin).
  destruct (Z.lt_ge_cases (free_space its) (Z.of_nat need)) as [|Hge]; [done|].
  rewrite Hnone in Hin by lia. by apply not_elem_of_nil in Hin.
Qed.

(** ** Writing *)

Lemma get_s_run n off pg (Φ : Z → Page → Prop) :
  length pg = 128%nat → 0 <= off → off + Z.of_nat n <= 128 →
  Φ (get_s n pg off) pg → wp (rd_s n off) Φ pg.
Proof. intros Hl H0 H1 HΦ. apply wp_rd_s; [done|by rewrite Hl|done]. Qed.

(** the room of a block, as [table_insert] and [table_delete] compute it *)
Lemma block_room_spec m l ps hh gf a k c pg its (Φ : Z → pstate * pstate → Prop) :
  ps !! a = Some (k, c) → m !! a = Some pg → block_rep pg its →
  Φ (free_space its) (PState m l ps hh, gf) →
  awp (block_room k) Φ (PState m l ps hh, gf).
Proof.
  intros Hp Hm Hb HΦ. pose proof (b_len _ _ Hb) as Hl. unfold block_room.
  awp_step. apply awp_in_data. eapply ps_read; [done..|].
  apply get_s_run; [done|unfold off_tail_ptr; lia|unfold off_tail_ptr; lia|]. split; [done|].
  awp_step. apply awp_in_data. eapply ps_read; [done..|].
  apply get_s_run; [done|unfold off_head_ptr; lia|unfold off_head_ptr; lia|]. split; [done|].
  awp_step. rewrite (b_tail _ _ Hb), (b_head _ _ Hb). pose proof (free_space_range _ _ Hb).
  rewrite swrap_id; [done|lia|]. unfold free_space, in_s in *. lia.
Qed.

(** the heap after an insertion *)
Definition heap_insert (T : heap) (a : Z) (src : list byte) : heap :=
  <[a := add_item (default [] (T !! a)) src]> T.
Definition insert_rid (T : heap) (a : Z) : RID :=
  mkRID a (Z.of_nat (new_index (default [] (T !! a)))).

Lemma heap_insert_facts T a src :
  heap_at (heap_insert T a src) (insert_rid T a) = Some src ∧
  (∀ r, r ≠ insert_rid T a → heap_at (heap_insert T a src) r = heap_at T r) ∧
  heap_at T (insert_rid T a) = None.
Proof.
  unfold heap_insert, insert_rid.
  destruct (add_item_facts (default [] (T !! a)) src) as (Hnew & Hold & Hun & _).
  split; [|split].
  - apply heap_at_Some. simpl. rewrite lookup_insert_eq, Nat2Z.id.
    eexists. split; [done|]. split; [lia|done].
  - intros [b i] Hne. unfold heap_at. simpl. destruct (decide (b = a)) as [->|Hb].
    + rewrite lookup_insert_eq. simpl. destruct (Z.ltb_spec i 0).
      { by destruct (T !! a). }
      rewrite Hold.
      2:{ intros E. apply Hne. f_equal. rewrite <- E. lia. }
      destruct (T !! a); simpl; [done|]. by destruct (Z.to_nat i).
    + by rewrite lookup_insert_ne.
  - unfold heap_at. simpl. destruct (T !! a) as [its|] eqn:E; simpl; [|done].
    rewrite (proj2 (Z.ltb_ge _ 0)), Nat2Z.id by lia.
    destruct (its !! new_index its) as [[b|]|] eqn:E'; [|done..].
    simpl in Hun. by destruct (Hun b).
Qed.

Lemma data_rep_insert m l ps hh T a pg its :
  data_rep (PState m l ∅ hh) T → block_rep pg its → ps = ∅ →
  ∀ l' hh', data_rep (PState (<[a:=pg]> m) l' ps hh') (<[a:=its]> T).
Proof.
  intros Hd Hb -> l' hh'. constructor; [done|..].
  - intros b its' HT. destruct (decide (b = a)) as [->|Hne].
    + rewrite lookup_insert_eq in HT. simplify_eq. exists pg. split; [apply lookup_insert_eq|done].
    + rewrite lookup_insert_ne in HT by done. destruct (d_page _ _ Hd _ _ HT) as (q & Hq & Hbq).
      exists q. split; [by simpl; rewrite lookup_insert_ne|done].
  - intros b. pose proof (d_dom _ _ Hd b) as E. simpl in *. rewrite !lookup_insert_is_Some', E. done.
Qed.

Lemma heap_rep_page m l ps hh T a its :
  data_rep (PState m l ps hh) T → T !! a = Some its →
  pstate_ok (PState m l ps hh) → ∃ pg, m !! a = Some pg ∧ block_rep pg its ∧ 0 <= a < l.
Proof.
  intros Hd HT Hok. destruct (d_page _ _ Hd _ _ HT) as (pg & Hpg & Hb).
  exists pg. split; [done|]. split; [done|].
  by destruct (proj1 (k_dom _ Hok a) (ex_intro _ pg Hpg)).
Qed.

(** The end of [table_insert] and of [table_delete]: the page, whose new
    contents are [its'], is recorded in the free-space map and released. *)
Lemma record_page_spec {A} m l ps hh mf lf hf h T a k pg its' (r : A)
    (Φ : A → pstate * pstate → Prop) :
  data_rep (PState m l ∅ hh) T → ps = <[a:=(k, 1)]> ∅ →
  m !! a = Some pg → T !! a = Some its' → block_rep pg its' → 0 <= a <= 2 ^ 62 →
  fsm_rep mf lf h → h_max h + 128 <= MAX_LEN → 4 <= hf →
  (∀ gf' h', pins gf' = ∅ → lf <= plen gf' <= lf + 128 → hf - 4 <= hits gf' →
    fsm_rep (mem gf') (plen gf') h' →
    (∀ s : nat, free_space its' = Z.of_nat s → added s a h h') →
    Φ r (PState m l ∅ hh, gf')) →
  awp (in_fsm (hash_table_insert (free_space its') a);; in_data (release a);; mret r) Φ
    (PState m l ps hh, PState mf lf ∅ hf).
Proof.
  intros Hd -> Hpg HT Hb Har Hf HM Hhf HΦ. pose proof (free_space_range _ _ Hb) as Hr.
  rewrite <- (Z2Nat.id (free_space its')) by lia.
  awp_step. apply awp_in_fsm. eapply awp_mono.
  { eapply hash_table_insert_spec; [exact Hf|lia|apply in_s64; lia|lia|done]. }
  intros [] gf' (Hp & Hl & Hh & h' & Hf' & Hadd). awp_step. apply awp_in_data. rel. awp_step.
  replace (delete a _) with (∅ : gmap Z (nat * Z)) by (symmetry; pins_empty).
  apply (HΦ gf' h'); [done|done|done|done|]. intros s Hs. rewrite Hs, Nat2Z.id in Hadd. done.
Qed.

Lemma insert_old_page_spec m l hh mf lf hf h T a its src (Φ : RID → pstate * pstate → Prop) :
  data_rep (PState m l ∅ hh) T → T !! a = Some its →
  (0 < length src)%nat → add_cost its src <= free_space its → 1 <= hh →
  fsm_rep mf lf h → h_max h + 128 <= MAX_LEN → 4 <= hf →
  (∀ m' gf' h', data_rep (PState m' l ∅ (hh - 1)) (heap_insert T a src) →
    pins gf' = ∅ → lf <= plen gf' <= lf + 128 → hf - 4 <= hits gf' →
    fsm_rep (mem gf') (plen gf') h' →
    (∀ s : nat, free_space (add_item its src) = Z.of_nat s → added s a h h') →
    Φ (insert_rid T a) (PState m' l ∅ (hh - 1), gf')) →
  awp (insert_old_page a src (Z.of_nat (length src))) Φ (PState m l ∅ hh, PState mf lf ∅ hf).
Proof.
  intros Hd HT Hsrc Hfit Hh Hf HM Hhf HΦ. apply awp_table_ok. intros Hok Hokf.
  destruct (heap_rep_page _ _ _ _ _ _ _ Hd HT Hok) as (pg & Hpg & Hb & Ha).
  pose proof (k_len _ Hok) as [_ Hl]. simpl in Hl. unfold MAX_LEN in Hl.
  unfold insert_old_page. awp_step. apply awp_in_data. get_pg k.
  awp_step. apply awp_in_data. eapply ps_edit; [map_find|exact Hpg|].
  eapply wp_mono; [apply (new_item_correct _ _ _ Hb Hsrc Hfit)|].
  intros i pg' [-> Hb']. split; [apply (b_len _ _ Hb')|]. awp_step.
  eapply block_room_spec; [apply lookup_insert_eq|apply lookup_insert_eq|exact Hb'|].
  assert (data_rep (PState (<[a:=pg']> m) l ∅ (hh - 1)) (heap_insert T a src)) as Hd'.
  { unfold heap_insert. rewrite HT. by eapply data_rep_insert. }
  assert (mkRID a (Z.of_nat (new_index its)) = insert_rid T a) as ->
    by (unfold insert_rid; by rewrite HT).
  eapply record_page_spec; [exact Hd'|done|apply lookup_insert_eq| |exact Hb'|lia|done|done|done|].
  - unfold heap_insert. rewrite HT. apply lookup_insert_eq.
  - intros gf' h' ? ? ? ? Hadd. by eapply HΦ.
Qed.

Lemma insert_new_page_spec m l hh mf lf hf h T src (Φ : RID → pstate * pstate → Prop) :
  data_rep (PState m l ∅ hh) T →
  (0 < length src)%nat → Z.of_nat (length src) + 4 <= 122 → 1 <= hh → l + 128 <= MAX_LEN →
  fsm_rep mf lf h → h_max h + 128 <= MAX_LEN → 4 <= hf →
  (∀ m' gf' h', T !! l = None →
    data_rep (PState m' (l + 128) ∅ (hh - 1)) (heap_insert T l src) →
    pins gf' = ∅ → lf <= plen gf' <= lf + 128 → hf - 4 <= hits gf' →
    fsm_rep (mem gf') (plen gf') h' →
    (∀ s : nat, free_space (add_item [] src) = Z.of_nat s → added s l h h') →
    Φ (insert_rid T l) (PState m' (l + 128) ∅ (hh - 1), gf')) →
  awp (insert_new_page src (Z.of_nat (length src))) Φ (PState m l ∅ hh, PState mf lf ∅ hf).
Proof.
  intros Hd Hsrc Hfit Hh HMl Hf HM Hhf HΦ. apply awp_table_ok. intros Hok Hokf.
  pose proof (k_len _ Hok) as [_ Hl]. simpl in Hl. unfold MAX_LEN in Hl, HMl.
  assert (T !! l = None) as HTl.
  { apply eq_None_not_Some. intros [pg Hpg]%(d_dom _ _ Hd).
    destruct (proj1 (k_dom _ Hok l) (ex_intro _ pg Hpg)) as [? _]. simpl in *. lia. }
  unfold insert_new_page. awp_step. apply awp_in_data. apply ps_length.
  awp_step. apply awp_in_data. eapply ps_get_past; [done|map_find|pins_size|lia|unfold MAX_LEN, PAGE_SIZE; lia|].
  intros k. change PAGE_SIZE with 128. awp_step. apply awp_in_data.
  eapply ps_edit; [apply lookup_insert_eq|apply lookup_insert_eq|].
  eapply wp_mono; [by apply init_block_correct|]. intros [] pg0 Hb0. split; [apply (b_len _ _ Hb0)|].
  rewrite insert_insert_eq. awp_step. apply awp_in_data.
  eapply ps_edit; [apply lookup_insert_eq|apply lookup_insert_eq|].
  assert (add_cost [] src <= free_space []) as Hcost by (unfold add_cost, free_space, PAGE_SIZE, off_data; simpl; lia).
  eapply wp_mono; [apply (new_item_correct _ _ _ Hb0 Hsrc Hcost)|].
  intros i pg' [-> Hb']. split; [apply (b_len _ _ Hb')|]. rewrite insert_insert_eq. awp_step.
  eapply block_room_spec; [apply lookup_insert_eq|apply lookup_insert_eq|exact Hb'|].
  awp_step. apply awp_in_data. apply ps_length.
  change PAGE_SIZE with 128. replace (l + 128 - 128) with l by lia.
  assert (data_rep (PState (<[l:=pg']> m) (l + 128) ∅ (hh - 1)) (heap_insert T l src)) as Hd'.
  { unfold heap_insert. rewrite HTl. by eapply data_rep_insert. }
  assert (mkRID l (Z.of_nat (new_index [])) = insert_rid T l) as ->
    by (unfold insert_rid; by rewrite HTl).
  eapply record_page_spec; [exact Hd'|done|apply lookup_insert_eq| |exact Hb'|lia|done|done|done|].
  - unfold heap_insert. rewrite HTl. apply lookup_insert_eq.
  - intros gf' h' ? ? ? ? Hadd. by eapply HΦ.
Qed.

(** [table_insert] when some page has room or the map does not lose a
    reference: the heap gains exactly one string. *)
Definition has_room (h : hstate) (need : Z) : Prop :=
  ∃ s : nat, need <= Z.of_nat s < 128 ∧ items h s ≠ [].

(** the page is one of the table, unless none has the room *)
Definition page_chosen (T : heap) (a need : Z) : Prop :=
  is_Some (T !! a) ∨ ∀ b its, T !! b = Some its → free_space its < need.

Definition tbl_post (T' : heap) (l hh lf hf : Z) (cost : Z) (g' : pstate * pstate) : Prop :=
  tbl_rep g' T' (hh - 1) (hf - cost) ∧
  l <= plen g'.1 <= l + 128 ∧ lf <= plen g'.2 <= lf + 256.

Lemma table_insert_spec m l hh mf lf hf h T src fuel :
  data_rep (PState m l ∅ hh) T → fsm_rep mf lf h → fsm_agrees T h →
  (0 < length src)%nat → Z.of_nat (length src) + 4 <= 122 →
  1 <= hh → l + 128 <= MAX_LEN → lf + 384 <= MAX_LEN →
  (128 < fuel)%nat → lf <= 128 * Z.of_nat fuel → Z.of_nat fuel + 144 <= hf →
  has_room h (Z.of_nat (length src) + 4) ∨ ¬ leaky mf →
  awp (table_insert fuel src (Z.of_nat (length src)))
    (λ rid g', ∃ a, 0 <= a <= l ∧ page_chosen T a (Z.of_nat (length src) + 4) ∧ rid = insert_rid T a ∧
       tbl_post (heap_insert T a src) l hh lf hf (Z.of_nat fuel + 144) g')
    (PState m l ∅ hh, PState mf lf ∅ hf).
Proof.
  intros Hd Hf Hag Hsrc Hfit Hh HMl HMf Hfuel Hlf Hhf Hclean.
  apply awp_table_ok. intros Hok Hokf. pose proof (k_len _ Hok) as [_ Hl]. simpl in Hl.
  unfold table_insert.
  rewrite (uwrap_id 64), swrap_id by (unfold in_u, in_s; lia).
  replace (Z.of_nat (length src) + 4) with (Z.of_nat (length src + 4)) by lia.
  awp_step. apply awp_in_fsm.
  eapply awp_mono; [eapply (hash_table_pop_lower_bound_spec fuel _ _ _ h); try done; [lia| |lia|lia]|].
  { intros s bs Hs. pose proof (chain_blocks_bound _ _ _ _ Hf Hokf _ _ Hs).
    pose proof (Z.div_le_upper_bound lf 128 (Z.of_nat fuel) ltac:(lia) ltac:(lia)). lia. }
  intros r [mf1 lf1 ps1 hf1] (Hpost & Hlf1 & Hhf1). simpl in Hlf1, Hhf1.
  destruct Hpost as [(u & (Hu & _ & _) & Hr & Hp1 & h1 & Hf1 & Hpop)|(Hnone & -> & Hmiss & Hf1)];
    simpl in *.
  - apply (Hag u) in Hr as (its & HT & Hfs).
    destruct (heap_rep_page _ _ _ _ _ _ _ Hd HT Hok) as (pg & Hpg & Hb & Ha).
    rewrite (proj2 (Z.eqb_neq r (-1))) by lia. subst ps1.
    destruct (f_max _ _ _ Hf1) as (_ & _ & Hmx1).
    eapply insert_old_page_spec; [exact Hd|exact HT|done| |done|exact Hf1|lia|lia|].
    { unfold add_cost. case_match; lia. }
    intros m' gf' h' Hd' Hp' Hl' Hh' Hf' Hadd. exists r. split; [lia|]. split; [by left|]. split; [done|].
    split; [|simpl; lia]. split; [exact Hd'|]. simpl. split; [lia|]. split; [lia|]. split; [done|].
    exists h'. split; [done|]. pose proof (free_space_range _ _ Hb) as Hfr.
    assert (0 <= free_space (add_item its src)) as Hge
      by (apply add_item_fit; unfold add_cost; case_match; lia).
    unfold heap_insert. rewrite HT. simpl.
    eapply (fsm_agrees_move _ _ _ _ _ its _ u (Z.to_nat (free_space (add_item its src))));
      [done|done|done|done|lia|]. apply Hadd. lia.
  - assert (ps1 = ∅) as ->.
    { destruct Hmiss as [[_ ->]|[Hleak _]]; [done|]. destruct Hclean as [(s & Hs & Hne)|?]; [|done].
      destruct Hne. apply Hnone. lia. }
    cbn [Z.eqb Pos.eqb]. destruct (f_max _ _ _ Hf1) as (_ & _ & Hmx1).
    eapply insert_new_page_spec; [exact Hd|done|lia|done|done|exact Hf1|lia|lia|].
    intros m' gf' h' HTl Hd' Hp' Hl' Hh' Hf' Hadd. exists l. split; [lia|].
    split; [right; intros b its HT; exact (fsm_agrees_miss _ _ _ _ _ _ _ _ _ Hd Hok Hag Hnone HT)|]. split; [done|].
    split; [|simpl; lia]. split; [exact Hd'|]. simpl. split; [lia|]. split; [lia|]. split; [done|].
    exists h'. split; [done|].
    assert (0 <= free_space (add_item [] src)) as Hge
      by (unfold free_space, PAGE_SIZE, off_data; simpl; lia).
    unfold heap_insert. rewrite HTl. simpl.
    eapply (fsm_agrees_new _ _ _ _ _ (Z.to_nat (free_space (add_item [] src))));
      [done|done|simpl in *; lia|]. apply Hadd. simpl in *. lia.
Qed.

(** the heap after a deletion *)
Definition heap_delete (T : heap) (rid : RID) : heap :=
  match T !! rid_block_addr rid with
  | Some its => <[rid_block_addr rid := remove_item its (Z.to_nat (rid_idx rid))]> T
  | None => T
  end.

Lemma heap_delete_facts T rid bs :
  heap_at T rid = Some bs →
  heap_at (heap_delete T rid) rid = None ∧
  ∀ r, r ≠ rid → heap_at (heap_delete T rid) r = heap_at T r.
Proof.
  intros (its & HT & Hi0 & Hi)%heap_at_Some. unfold heap_delete. rewrite HT.
  assert (∀ r b, heap_at (<[rid_block_addr rid := remove_item its (Z.to_nat (rid_idx rid))]> T) r = Some b
    ↔ r ≠ rid ∧ heap_at T r = Some b) as Hiff.
  { intros r b. rewrite !heap_at_Some. destruct (decide (rid_block_addr r = rid_block_addr rid)) as [E|E].
    - rewrite E, lookup_insert_eq, HT. split.
      + intros (? & [= <-] & H0 & Hr). apply remove_item_lookup in Hr as [Hne Hr].
        split; [by intros ->|]. by exists its.
      + intros (Hne & ? & [= <-] & H0 & Hr). eexists. split; [done|]. split; [done|].
        apply remove_item_lookup. split; [|done]. intros E'. apply Hne.
        destruct r, rid. simpl in *. f_equal; lia.
    - rewrite lookup_insert_ne by done. split; [|tauto]. intros H. split; [by intros ->|done]. }
  split.
  - destruct (heap_at _ rid) as [b|] eqn:E; [|done]. by apply Hiff in E as [? _].
  - intros r Hne. destruct (heap_at T r) as [b|] eqn:E.
    + by apply Hiff.
    + destruct (heap_at (<[_:=_]> T) r) as [b|] eqn:E'; [|done]. apply Hiff in E' as [_ ?]. congruence.
Qed.

Lemma table_delete_spec m l hh mf lf hf h T rid bs fuel :
  data_rep (PState m l ∅ hh) T → fsm_rep mf lf h → fsm_agrees T h →
  heap_at T rid = Some bs → 1 <= hh → lf + 384 <= MAX_LEN →
  lf <= 128 * Z.of_nat fuel → Z.of_nat fuel + 7 <= hf →
  awp (table_delete fuel rid)
    (λ _ g', tbl_post (heap_delete T rid) l hh lf hf (Z.of_nat fuel + 7) g')
    (PState m l ∅ hh, PState mf lf ∅ hf).
Proof.
  intros Hd Hf Hag Hat Hh HMf Hlf Hhf. apply awp_table_ok. intros Hok Hokf.
  apply heap_at_Some in Hat as (its & HT & Hi0 & Hi). unfold table_delete, heap_delete. rewrite HT.
  set (a := rid_block_addr rid) in *. set (i := Z.to_nat (rid_idx rid)) in *.
  replace (rid_idx rid) with (Z.of_nat i) by lia.
  destruct (heap_rep_page _ _ _ _ _ _ _ Hd HT Hok) as (pg & Hpg & Hb & Ha).
  pose proof (k_len _ Hok) as [_ Hl]. simpl in Hl. unfold MAX_LEN in Hl.
  destruct (fsm_agrees_In _ _ _ _ _ Hag HT Hb) as (u & Hu & Hfs & Hin).
  awp_step. apply awp_in_data. get_pg k. awp_step.
  eapply block_room_spec; [apply lookup_insert_eq|exact Hpg|exact Hb|]. rewrite Hfs.
  awp_step. apply awp_in_fsm. eapply awp_mono; [eapply hash_table_pop_spec; [done|done|done|]|].
  { intros cs Hs. pose proof (chain_blocks_bound _ _ _ _ Hf Hokf _ _ Hs).
    pose proof (Z.div_le_upper_bound lf 128 (Z.of_nat fuel) ltac:(lia) ltac:(lia)). lia. }
  intros [] [mf1 lf1 ps1 hf1] (Hp1 & Hlf1 & Hhf1 & h1 & Hf1 & Hpop). simpl in *. subst ps1.
  awp_step. apply awp_in_data. eapply ps_edit; [apply lookup_insert_eq|exact Hpg|].
  eapply wp_mono; [by apply (delete_item_correct _ _ _ _ Hb Hi)|].
  intros [] pg' Hb'. split; [apply (b_len _ _ Hb')|]. awp_step.
  eapply block_room_spec; [apply lookup_insert_eq|apply lookup_insert_eq|exact Hb'|].
  set (its' := remove_item its i) in *.
  assert (data_rep (PState (<[a:=pg']> m) l ∅ (hh - 1)) (<[a:=its']> T)) as Hd'
    by (by eapply data_rep_insert).
  destruct (f_max _ _ _ Hf1) as (_ & _ & Hmx1).
  eapply (awp_ext _ (in_fsm (hash_table_insert (free_space its') a);; in_data (release a);; mret tt)).
  { intros st. unfold mbind, M_bind. destruct (in_fsm _ st) as [[[] st']| |]; [|done..].
    by destruct (in_data _ st') as [[[] st'']| |]. }
  eapply record_page_spec; [exact Hd'|done|apply lookup_insert_eq|apply lookup_insert_eq|exact Hb'|lia|
    exact Hf1|lia|lia|].
  intros gf' h' Hp' Hl' Hh' Hf' Hadd. pose proof (free_space_range _ _ Hb') as Hfr.
  split; [|simpl; lia]. split; [exact Hd'|]. simpl. split; [lia|]. split; [lia|]. split; [done|].
  exists h'. split; [done|].
  eapply (fsm_agrees_move _ _ _ _ _ its _ u (Z.to_nat (free_space its')));
    [done|done|lia|done|lia|]. apply Hadd. lia.
Qed.

(** ** Properties of tables *)

(** A table in memory that holds the heap [T]; [nd] and [nf] bound the calls
    of [get_page] still certain not to overflow a hit counter. *)
Definition holds (t : Table) (T : heap) (nd nf : Z) : Prop :=
  ∃ g, rep t g ∧ tbl_rep g T nd nf.

(** lengths of the two files *)
Definition data_len (t : Table) : Z := flen (file (data_pool t)).
Definition fsm_len (t : Table) : Z := flen (file (fsm_pool t)).

Lemma holds_awp {A} (m : M Table A) t T nd nf (Φ : A → pstate * pstate → Prop) :
  holds t T nd nf →
  (∀ ms l hh mf lf hf h, l = data_len t → lf = fsm_len t → nd <= hh → nf <= hf →
    pool_rep (fsm_pool t) (PState mf lf ∅ hf) →
    data_rep (PState ms l ∅ hh) T → fsm_rep mf lf h → fsm_agrees T h →
    pstate_ok (PState ms l ∅ hh) →
    awp m Φ (PState ms l ∅ hh, PState mf lf ∅ hf)) →
  ∃ a t' g', m t = Ok (a, t') ∧ rep t' g' ∧ Φ a g' ∧
    data_len t' = plen g'.1 ∧ fsm_len t' = plen g'.2.
Proof.
  intros ([[ms l ps hh] [mf lf pf hf]] & [Hrd Hrf] & Hd & Hnd & Hnf & Hpf & h & Hf & Hag) Hm.
  simpl in *. pose proof (d_pins _ _ Hd) as Hps. simpl in Hps. subst ps pf.
  pose proof (r_plen _ _ Hrd) as (Hl & _). pose proof (r_plen _ _ Hrf) as (Hlf & _). simpl in *.
  destruct (wp_elim _ _ _ (Hm ms l hh mf lf hf h (eq_sym Hl) (eq_sym Hlf) Hnd Hnf Hrf Hd Hf Hag
    (rep_ok _ _ Hrd) t (conj Hrd Hrf))) as (a & t' & Hrun & g' & Hr' & HΦ).
  exists a, t', g'. split; [done|]. split; [done|]. split; [done|].
  destruct Hr' as [H1 H2]. split; [apply (r_plen _ _ H1)|apply (r_plen _ _ H2)].
Qed.

(** A search of the free-space map for [n] bytes does not lose a reference:
    some page has the room, or the page after the directory is not the last
    block of a chain. *)
Definition search_is_safe (t : Table) (T : heap) (n : Z) : Prop :=
  (∃ a its, T !! a = Some its ∧ n <= free_space its) ∨
  (∀ g, pool_rep (fsm_pool t) g → ¬ leaky (mem g)).

(** the room left in the files and in the fuel *)
Definition table_bounds (t : Table) (fuel : nat) : Prop :=
  data_len t + 128 <= MAX_LEN ∧ fsm_len t + 384 <= MAX_LEN ∧
  (128 < fuel)%nat ∧ fsm_len t <= 128 * Z.of_nat fuel.

(** a new table, and one with a single string *)
Definition blank_table : Table := mkTable blank_pool blank_pool.
Definition new_table : Table :=
  match table_init NoFile NoFile blank_table with Ok (_, t) => t | _ => blank_table end.
Definition one_string_table : Table :=
  match table_insert 200 [x61; x62] 2 new_table with Ok (_, t) => t | _ => blank_table end.

Lemma holds_empty t : pool_rep (data_pool t) (opened []) →
  fsm_state (fsm_pool t) (SIZE_MAX - 20) h_empty → holds t ∅ (SIZE_MAX - 1) (SIZE_MAX - 20).
Proof.
  intros Hd (g & Hr & Hp & Hh & Hf). exists (opened [], g). split; [by split|].
  rewrite opened_nil. split; [|split; [done|split; [done|split; [done|]]]].
  - constructor; [done|..].
    + intros a its H. by rewrite lookup_empty in H.
    + intros a. simpl. by rewrite !lookup_empty.
  - exists h_empty. split; [done|]. intros s. rewrite h_empty_items. split; [constructor|].
    intros a. split; [by intros []%not_elem_of_nil|]. intros (its & H & _).
    by rewrite lookup_empty in H.
Qed.

Lemma table_init_run t :
  pool_space (data_pool t) → pool_space (fsm_pool t) →
  ∃ t', table_init NoFile NoFile t = Ok (tt, t') ∧ holds t' ∅ (SIZE_MAX - 1) (SIZE_MAX - 20) ∧
    data_len t' = 0 ∧ fsm_len t' = 1152.
Proof.
  intros Hd Hf.
  destruct (wp_elim _ _ _ (init_buffer_pool_new _ Hd)) as ([] & pd & Hrun & Hpd).
  destruct (hash_table_init_run _ Hf) as (q & pgs & Hq & Hl & Hrunf).
  exists (mkTable pd (init_pool pgs)). split.
  { unfold table_init, in_data, in_fsm, zoom, mbind, M_bind. rewrite Hrun.
    change (PAGE_SIZE / HASH_MAP_DIR_BLOCK_SIZE) with 8. cbn [set_data_pool fsm_pool].
    by rewrite Hrunf. }
  split; [|split; [apply (r_plen _ _ Hpd)|done]].
  apply holds_empty; [done|]. exists init_store. split; [|split; [done|split; [done|apply init_fsm_rep]]].
  apply init_rep; [done|]. intros k pg Hk. destruct Hf as [_ Hf]. apply (Hf (S k)). by rewrite Hq.
Qed.

Lemma short_file_not_leaky t :
  fsm_len t = 1152 → ∀ g, pool_rep (fsm_pool t) g → ¬ leaky (mem g).
Proof.
  intros Hl g Hr (q & Hq & _). destruct (proj1 (r_dom _ _ Hr FIRST_BLOCK) (ex_intro _ q Hq)) as [[_ Hlt] _].
  pose proof (r_plen _ _ Hr) as (Hpl & _). unfold fsm_len in Hl. unfold FIRST_BLOCK in Hlt. lia.
Qed.

Lemma new_table_holds : holds new_table ∅ (SIZE_MAX - 1) (SIZE_MAX - 20) ∧
  data_len new_table = 0 ∧ fsm_len new_table = 1152.
Proof.
  destruct (table_init_run blank_table blank_pool_space blank_pool_space) as (t & Hrun & Ht).
  unfold new_table. by rewrite Hrun.
Qed.

Lemma new_table_bounds : table_bounds new_table 200.
Proof.
  destruct new_table_holds as (_ & Hd & Hf). unfold table_bounds. rewrite Hd, Hf. unfold MAX_LEN. lia.
Qed.

(** A table created where no files exist is the empty heap. *)
Theorem table_init_empty t :
  pool_space (data_pool t) → pool_space (fsm_pool t) →
  ∃ t', table_init NoFile NoFile t = Ok (tt, t') ∧
    holds t' ∅ (SIZE_MAX - 1) (SIZE_MAX - 20) ∧ ∀ r, heap_at ∅ r = None.
Proof.
  intros Hd Hf. destruct (table_init_run t Hd Hf) as (t' & Hrun & Ht & _).
  exists t'. split; [done|]. split; [done|]. intros r. unfold heap_at. by rewrite lookup_empty.
Qed.

Lemma table_init_empty_witness :
  ∃ t', table_init NoFile NoFile blank_table = Ok (tt, t') ∧
    holds t' ∅ (SIZE_MAX - 1) (SIZE_MAX - 20) ∧ ∀ r, heap_at ∅ r = None.
Proof. apply (table_init_empty blank_table blank_pool_space blank_pool_space). Defined.

Lemma table_insert_run t T nd nf src fuel :
  holds t T nd nf → (0 < length src)%nat → Z.of_nat (length src) + 4 <= 122 →
  1 <= nd → Z.of_nat fuel + 144 <= nf → table_bounds t fuel →
  search_is_safe t T (Z.of_nat (length src) + 4) →
  ∃ a t', table_insert fuel src (Z.of_nat (length src)) t = Ok (insert_rid T a, t') ∧
    holds t' (heap_insert T a src) (nd - 1) (nf - (Z.of_nat fuel + 144)) ∧
    0 <= a <= data_len t ∧ page_chosen T a (Z.of_nat (length src) + 4) ∧
    data_len t' <= data_len t + 128 ∧ fsm_len t' <= fsm_len t + 256.
Proof.
  intros Hh Hs Hfit Hnd Hnf (HMl & HMf & Hf128 & Hlf) Hsafe.
  destruct (holds_awp (table_insert fuel src (Z.of_nat (length src))) t T nd nf
    (λ rid g', ∃ a, 0 <= a <= data_len t ∧ page_chosen T a (Z.of_nat (length src) + 4) ∧ rid = insert_rid T a ∧
       tbl_post (heap_insert T a src) (data_len t) nd (fsm_len t) nf (Z.of_nat fuel + 144) g') Hh)
    as (rid & t' & g' & Hrun & Hr & (a & Ha & Hch & -> & Ht & Hl1 & Hl2) & Hd & Hf).
  - intros ms l hh mf lf hf h -> -> Hhh Hhf Hrf Hdr Hfr Hag Hok.
    eapply awp_mono; [eapply (table_insert_spec ms (data_len t) hh mf (fsm_len t) hf h T);
      try done; [lia|lia|]|].
    + destruct Hsafe as [(a & its & HT & Hfs)|Hn]; [left|right; apply (Hn _ Hrf)].
      destruct (heap_rep_page _ _ _ _ _ _ _ Hdr HT Hok) as (pg & _ & Hb & _).
      destruct (fsm_agrees_In _ _ _ _ _ Hag HT Hb) as (s & Hs128 & E & Hin).
      exists s. split; [lia|]. intros Hnil. rewrite Hnil in Hin. by apply not_elem_of_nil in Hin.
    + intros rid g' (a & Ha & Hch & -> & Ht & Hl). exists a. split; [done|]. split; [done|]. split; [done|].
      split; [|done]. destruct Ht as (? & ? & ? & ?). split; [done|]. split; [lia|]. split; [lia|done].
  - exists a, t'. split; [done|]. split; [by exists g'|]. split; [done|]. split; [done|]. lia.
Qed.

(** C14: storing a string in a table: when the search of the free-space map is
    safe, [table_insert] returns an identifier that was not in use, the string
    is found under it, and every other identifier stands for what it stood
    for before; the free-space map again agrees with the pages. *)
Theorem table_insert_stores t T nd nf src fuel :
  holds t T nd nf → (0 < length src)%nat → Z.of_nat (length src) + 4 <= 122 →
  1 <= nd → Z.of_nat fuel + 144 <= nf → table_bounds t fuel →
  search_is_safe t T (Z.of_nat (length src) + 4) →
  ∃ rid t' T', table_insert fuel src (Z.of_nat (length src)) t = Ok (rid, t') ∧
    holds t' T' (nd - 1) (nf - (Z.of_nat fuel + 144)) ∧
    heap_at T rid = None ∧ heap_at T' rid = Some src ∧
    ∀ r, r ≠ rid → heap_at T' r = heap_at T r.
Proof.
  intros ???????. destruct (table_insert_run t T nd nf src fuel) as (a & t' & Hrun & Ht & _); [done..|].
  destruct (heap_insert_facts T a src) as (Hnew & Hold & Hfree).
  exists (insert_rid T a), t', (heap_insert T a src). by split_and!.
Qed.

Lemma table_insert_stores_witness :
  ∃ rid t' T', table_insert 200 [x61; x62] (Z.of_nat 2) new_table = Ok (rid, t') ∧
    holds t' T' (SIZE_MAX - 1 - 1) (SIZE_MAX - 20 - 344) ∧
    heap_at ∅ rid = None ∧ heap_at T' rid = Some [x61; x62] ∧
    ∀ r, r ≠ rid → heap_at T' r = heap_at ∅ r.
Proof.
  apply (table_insert_stores new_table ∅ (SIZE_MAX - 1) (SIZE_MAX - 20) [x61; x62] 200).
  - apply new_table_holds.
  - simpl. lia.
  - simpl. lia.
  - vm_compute. discriminate.
  - vm_compute. discriminate.
  - apply new_table_bounds.
  - right. apply short_file_not_leaky, new_table_holds.
Defined.

Lemma one_string_holds :
  ∃ rid T, holds one_string_table T (SIZE_MAX - 2) (SIZE_MAX - 364) ∧
    heap_at T rid = Some [x61; x62] ∧ table_bounds one_string_table 200.
Proof.
  destruct (table_insert_run new_table ∅ (SIZE_MAX - 1) (SIZE_MAX - 20) [x61; x62] 200)
    as (a & t' & Hrun & Ht & Ha & Hl1 & Hl2).
  - apply new_table_holds.
  - simpl. lia.
  - simpl. lia.
  - vm_compute. discriminate.
  - vm_compute. discriminate.
  - apply new_table_bounds.
  - right. apply short_file_not_leaky, new_table_holds.
  - unfold one_string_table. change (Z.of_nat (length [x61; x62])) with 2 in Hrun. rewrite Hrun.
    exists (insert_rid ∅ a), (heap_insert ∅ a [x61; x62]). split; [exact Ht|].
    split; [apply heap_insert_facts|].
    destruct new_table_holds as (_ & Hd & Hf). rewrite Hd, Hf in *.
    unfold table_bounds, MAX_LEN. lia.
Qed.

Lemma table_read_run t T nd nf rid bs dest :
  holds t T nd nf → heap_at T rid = Some bs → Z.of_nat (length bs) < 32768 →
  (length bs <= length dest)%nat → 1 <= nd →
  ∃ t', table_read rid dest t = Ok (bs ++ drop (length bs) dest, t') ∧ holds t' T (nd - 1) nf ∧
    data_len t' = data_len t ∧ fsm_len t' = fsm_len t.
Proof.
  intros Hh Hat Hlen Hle Hnd.
  destruct (holds_awp (table_read rid dest) t T nd nf
    (λ r g', r = splice 0 bs dest ∧ tbl_rep g' T (nd - 1) nf ∧ plen g'.1 = data_len t ∧ plen g'.2 = fsm_len t) Hh)
    as (r & t' & g' & Hrun & Hr & (-> & Ht & Hl1 & Hl2) & Hl3 & Hl4).
  - intros ms l hh mf lf hf h -> -> Hhh Hhf Hrf Hdr Hfr Hag Hok.
    eapply awp_mono; [eapply table_read_spec; [exact Hdr|exact Hat| |done|lia]|].
    + unfold in_s. change (2 ^ (16 - 1)) with 32768. lia.
    + intros r g' [-> ->]. split; [done|]. split; [|done]. split; [by constructor; apply Hdr|].
      split; [simpl; lia|]. split; [done|]. split; [done|]. by exists h.
  - exists t'. split; [|split; [by exists g'|split; congruence]]. rewrite Hrun. unfold splice. by rewrite take_0.
Qed.

(** C16: [table_read] copies to the destination exactly the string its
    identifier stands for, leaves the rest of the destination alone, and does
    not change the heap. *)
Theorem table_read_finds t T nd nf rid bs dest :
  holds t T nd nf → heap_at T rid = Some bs → Z.of_nat (length bs) < 32768 →
  (length bs <= length dest)%nat → 1 <= nd →
  ∃ t', table_read rid dest t = Ok (bs ++ drop (length bs) dest, t') ∧ holds t' T (nd - 1) nf.
Proof.
  intros ?????. destruct (table_read_run t T nd nf rid bs dest) as (t' & Hrun & Ht & _); [done..|].
  by exists t'.
Qed.

Lemma table_read_finds_witness :
  ∃ rid T t', table_read rid (replicate 4 x2a) one_string_table =
      Ok ([x61; x62] ++ drop 2 (replicate 4 x2a), t') ∧ holds t' T (SIZE_MAX - 2 - 1) (SIZE_MAX - 364).
Proof.
  destruct one_string_holds as (rid & T & Hh & Hat & _). exists rid, T.
  apply (table_read_finds one_string_table T (SIZE_MAX - 2) (SIZE_MAX - 364) rid [x61; x62]).
  - exact Hh.
  - exact Hat.
  - simpl. lia.
  - simpl. lia.
  - vm_compute. discriminate.
Defined.

Lemma table_delete_run t T nd nf rid bs fuel :
  holds t T nd nf → heap_at T rid = Some bs → 1 <= nd → Z.of_nat fuel + 7 <= nf →
  table_bounds t fuel →
  ∃ t', table_delete fuel rid t = Ok (tt, t') ∧
    holds t' (heap_delete T rid) (nd - 1) (nf - (Z.of_nat fuel + 7)) ∧
    data_len t' <= data_len t + 128 ∧ fsm_len t' <= fsm_len t + 256.
Proof.
  intros Hh Hat Hnd Hnf (HMl & HMf & Hf128 & Hlf).
  destruct (holds_awp (table_delete fuel rid) t T nd nf
    (λ _ g', tbl_post (heap_delete T rid) (data_len t) nd (fsm_len t) nf (Z.of_nat fuel + 7) g') Hh)
    as ([] & t' & g' & Hrun & Hr & (Ht & Hl1 & Hl2) & Hd & Hf).
  - intros ms l hh mf lf hf h -> -> Hhh Hhf Hrf Hdr Hfr Hag Hok.
    eapply awp_mono; [eapply table_delete_spec; try done; lia|].
    intros [] g' ((? & ? & ? & ?) & Hl). split; [|done].
    split; [done|]. split; [lia|]. split; [lia|done].
  - exists t'. split; [done|]. split; [by exists g'|]. lia.
Qed.

(** C15: [table_delete] of an identifier in use takes its string away and
    nothing else: every other identifier stands for what it stood for before,
    although the page was compacted; the free-space map again agrees with the
    pages. *)
Theorem table_delete_removes t T nd nf rid bs fuel :
  holds t T nd nf → heap_at T rid = Some bs → 1 <= nd → Z.of_nat fuel + 7 <= nf →
  table_bounds t fuel →
  ∃ t' T', table_delete fuel rid t = Ok (tt, t') ∧
    holds t' T' (nd - 1) (nf - (Z.of_nat fuel + 7)) ∧
    heap_at T' rid = None ∧ ∀ r, r ≠ rid → heap_at T' r = heap_at T r.
Proof.
  intros Hh Hat Hnd Hnf Hb. destruct (table_delete_run t T nd nf rid bs fuel) as (t' & Hrun & Ht & _); [done..|].
  exists t', (heap_delete T rid). split; [done|]. split; [done|]. by eapply heap_delete_facts.
Qed.

Lemma table_delete_removes_witness :
  ∃ rid T t' T', table_delete 200 rid one_string_table = Ok (tt, t') ∧
    holds t' T' (SIZE_MAX - 2 - 1) (SIZE_MAX - 364 - 207) ∧
    heap_at T' rid = None ∧ ∀ r, r ≠ rid → heap_at T' r = heap_at T r.
Proof.
  destruct one_string_holds as (rid & T & Hh & Hat & Hb). exists rid, T.
  apply (table_delete_removes one_string_table T (SIZE_MAX - 2) (SIZE_MAX - 364) rid [x61; x62]).
  - exact Hh.
  - exact Hat.
  - vm_compute. discriminate.
  - vm_compute. discriminate.
  - exact Hb.
Defined.
