(* ===== verification/TableHeap.v ===== *)
(** Tables implement the interface of heaps. *)
From stdpp Require Import base gmap list fin_maps.
From Stdlib Require Import ZArith Lia Strings.Byte.
From S2P Require Import Prelude FileIO BufferPool PoolLogic PoolClient Block Table TableSpec HeapStore.
#[local] Open Scope Z_scope.

#[export] Instance table_view : Rep Table tview := λ t v,
  ∃ T, holds t T (t_ops v) (t_ops v) ∧ ∀ rid, t_heap v !! rid = heap_at T rid.

Lemma holds_spend t T nd nf nd' nf' :
  holds t T nd nf → nd' <= nd → nf' <= nf → holds t T nd' nf'.
Proof.
  intros (g & Hr & Hd & H1 & H2 & H3) ??. exists g. split; [done|].
  split; [done|]. split; [lia|]. split; [lia|done].
Qed.

(** an identifier in use names an item of a page of the file *)
Lemma holds_rids t T nd nf rid bs : holds t T nd nf → heap_at T rid = Some bs → rid_ok rid.
Proof.
  intros (g & [Hrd _] & Hd & _) Hat. apply heap_at_Some in Hat as (its & HT & Hi & Hits).
  destruct (d_page _ _ Hd _ _ HT) as (pg & Hpg & Hb).
  destruct (proj1 (r_dom _ _ Hrd (rid_block_addr rid)) (ex_intro _ pg Hpg)) as [Hlt _].
  destruct (r_plen _ _ Hrd) as (_ & _ & Hmax). unfold MAX_LEN in *.
  pose proof (lookup_lt_Some _ _ _ Hits) as Hl. pose proof (b_fit _ _ Hb) as Hf.
  pose proof (used_bytes_nonneg its) as Hu. unfold free_space, PAGE_SIZE, off_data in *.
  unfold rid_ok, in_s. change (2 ^ (64 - 1)) with (2 ^ 63). change (2 ^ (16 - 1)) with 32768. lia.
Qed.

#[export] Instance table_reader : HeapReader.
Proof.
  constructor.
  - intros H n rid bs dest Φ Hat Hle Hlen Hn HΦ t (T & Ht & HT). simpl in *. rewrite HT in Hat.
    destruct (table_read_run t T n n rid bs dest Ht Hat Hlen Hle) as (t' & Hrun & Ht' & _); [lia|].
    eapply wp_run; [exact Hrun|]. exists (TView H (n - 1)). split; [|exact HΦ].
    exists T. split; [|done]. eapply holds_spend; [exact Ht'|simpl; lia|simpl; lia].
  - intros t H n rid bs (T & Ht & HT) Hat. rewrite HT in Hat. by eapply holds_rids.
  - intros t H n n' (T & Ht & HT) Hn. exists T. split; [|done]. by eapply holds_spend.
Qed.
