(* ===== verification/HeapWrite.v ===== *)
(** What a table promises to those that store strings in it and free them: a
    heap that also has [room], a number of bytes that are certain to be stored.
    The interface extends that of [HeapStore]; [TableRoom] shows that tables
    implement it. *)
From stdpp Require Import base gmap list fin_maps.
From Stdlib Require Import ZArith Lia Strings.Byte.
From S2P Require Import Prelude Table HeapStore.
#[local] Open Scope Z_scope.

(** the heap, the operations, and the bytes; an item takes four bytes more
    than its contents *)
Record wview := WView { w_heap : gmap RID (list byte); w_left : Z; w_room : Z }.

(** the heap as a reader sees it, while [R] bytes are left *)
Definition reading_at `{Rep Table wview} (R : Z) : Rep Table tview := λ t v,
  rep t (WView (t_heap v) (t_ops v) R).

(** ** The bytes of a heap *)

Definition weight (H : gmap RID (list byte)) : Z := map_fold (λ _ bs w, Z.of_nat (length bs) + w) 0 H.

(** [fuel] is that of the searches of the free-space map, [cost] the operations
    of an insertion or a deletion *)
Class HeapWriter (fuel : nat) (cost : Z) `{Rep Table wview} : Prop := {
  write_reader :: ∀ R, @HeapReader (reading_at R);
  heap_weaken : ∀ t H n R n' R', rep t (WView H n R) → n' <= n → R' <= R → rep t (WView H n' R');
  heap_insert : ∀ H n R src size (Φ : RID → wview → Prop),
    13 <= size <= 32 → size <= Z.of_nat (length src) → size + 4 <= R → cost <= n →
    (∀ rid, H !! rid = None → rid_ok rid →
      Φ rid (WView (<[rid := take (Z.to_nat size) src]> H) (n - cost) (R - (size + 4)))) →
    awp (table_insert fuel src size) Φ (WView H n R);
  heap_delete : ∀ H n R rid bs (Φ : unit → wview → Prop),
    H !! rid = Some bs → cost <= n → Φ tt (WView (delete rid H) (n - cost) R) →
    awp (table_delete fuel rid) Φ (WView H n R);
}.

(** the room of a table whose items have so many bytes, when the room that is
    known of is [R]: what was freed may have become room again *)
Class HeapRegains (regain : Z → Z → Z) `{Rep Table wview} : Prop :=
  heap_regain : ∀ t H n R, rep t (WView H n R) → rep t (WView H n (regain (weight H) R)).

(** nothing is known to be regained *)
Definition no_regain (_ R : Z) : Z := R.

#[export] Instance no_regain_regains `{Rep Table wview} : HeapRegains no_regain.
Proof. by intros t H' n R Ht. Qed.

(** the bytes one page always has room for: a page has at most seven items, of
    thirteen bytes or more *)
Definition page_room : Z := 94.
(** a table of one page regains what leaves the page *)
Definition page_regain (w R : Z) : Z := Z.max R (page_room - w).

Section weight.
Implicit Types H F : gmap RID (list byte).

Lemma weight_empty : weight ∅ = 0.
Proof. done. Qed.

Lemma weight_insert H r bs : H !! r = None → weight (<[r:=bs]> H) = Z.of_nat (length bs) + weight H.
Proof. intros Hr. unfold weight. rewrite map_fold_insert_L; [done|intros; lia|done]. Qed.

Lemma weight_delete H r bs : H !! r = Some bs → weight (delete r H) = weight H - Z.of_nat (length bs).
Proof.
  intros Hr. rewrite <- (insert_delete_id H r bs Hr) at 2. rewrite weight_insert by apply lookup_delete_eq. lia.
Qed.

Lemma weight_union F H : F ##ₘ H → weight (F ∪ H) = weight F + weight H.
Proof.
  induction F as [|r bs F Hr IH] using map_ind; intros Hd.
  - by rewrite map_empty_union, weight_empty.
  - apply map_disjoint_insert_l in Hd as [HH Hd]. rewrite <- insert_union_l.
    rewrite !weight_insert, IH by (done || by apply lookup_union_None). lia.
Qed.

Lemma weight_nonneg H : 0 <= weight H.
Proof.
  induction H as [|r bs H Hr IH] using map_ind; [done|]. rewrite weight_insert by done. lia.
Qed.
End weight.

Section rules.
Context `{RV : Rep Table wview}.

(** a program that reads the heap leaves the room alone *)
Lemma awp_reading {A} (m : M Table A) (Φ : A → wview → Prop) H n R :
  @awp _ _ (reading_at R) _ m (λ a v, Φ a (WView (t_heap v) (t_ops v) R)) (TView H n) →
  awp m Φ (WView H n R).
Proof.
  intros Hm t Ht. eapply wp_mono; [by apply Hm|]. intros a t' ([H' n'] & Ht' & HΦ).
  by exists (WView H' n' R).
Qed.
End rules.
