(* ===== verification/TableRoom.v ===== *)
(** Tables with room: while what is known of the pages says that an item fits
    one of them, [table_insert] does not fail, and the bytes it takes are known;
    [table_delete] leaves the room.  What is known is an interface,
    [PageSupply], with two implementations: the free bytes of any number of
    pages, and a table of one page, which has as much room as the bytes of its
    items leave. *)
From stdpp Require Import base gmap list fin_maps.
From Stdlib Require Import ZArith Lia Strings.Byte.
From S2P Require Import Prelude FileIO BufferPool PoolLogic PoolClient Block HashMap HashMapSpec HashMapPop HashMapProps.
From S2P Require Import Table HeapStore TableSpec TableHeap HeapWrite.
#[local] Open Scope Z_scope.

(** ** The source may be longer than the item *)

Lemma table_insert_prefix fuel src size : 0 <= size <= Z.of_nat (length src) →
  table_insert fuel src size = table_insert fuel (take (Z.to_nat size) src) size.
Proof.
  intros Hs. unfold table_insert, insert_new_page, insert_old_page, new_item, place_item, memcpy_to.
  rewrite length_take, take_take.
  replace (Z.of_nat (Z.to_nat size `min` length src)) with size by lia.
  rewrite Nat.min_id, Z.leb_refl. by rewrite (proj2 (Z.leb_le size (Z.of_nat (length src)))) by lia.
Qed.

(** ** Room *)

(** the lengths of the items: chunks of strings and records *)
Definition MIN_ITEM : Z := 13.
Definition MAX_ITEM : Z := 32.

(** the next search for a page does not lose a reference if it fails *)
Definition search_clean (t : Table) : Prop := ∀ g, pool_rep (fsm_pool t) g → ¬ leaky (mem g).

(** what is known of the pages [T] of the table [t], with [R] bytes that are
    certain to be stored, each item taking four more than its length *)
Class PageSupply (S : Table → heap → Z → Prop) : Prop := {
  sup_room t T R need : S t T R → need <= R → 0 < need <= MAX_ITEM + 4 →
    (∃ a its, T !! a = Some its ∧ need <= free_space its) ∨ (T = ∅ ∧ search_clean t);
  sup_weaken t T R R' : S t T R → R' <= R → S t T R';
  sup_insert t t' T R a src : S t T R → MIN_ITEM <= Z.of_nat (length src) <= MAX_ITEM →
    Z.of_nat (length src) + 4 <= R → page_chosen T a (Z.of_nat (length src) + 4) →
    S t' (TableSpec.heap_insert T a src) (R - (Z.of_nat (length src) + 4));
  sup_delete t t' T R rid bs : heap_at T rid = Some bs → S t T R → S t' (TableSpec.heap_delete T rid) R;
  sup_pool t t' T R : S t T R → (T = ∅ → search_clean t → search_clean t') → S t' T R;
  sup_new t : search_clean t → S t ∅ 122;
}.

(** the operations of an insertion or a deletion *)
Definition write_cost (fuel : nat) : Z := Z.of_nat fuel + 144.

(** the lengths of the files leave room for the insertions and deletions that
    [n] operations pay for *)
Definition growth_bounds (t : Table) (fuel : nat) (n : Z) : Prop :=
  let k := n / write_cost fuel in
  data_len t + 128 * k <= MAX_LEN ∧ fsm_len t + 384 * k <= MAX_LEN ∧
  (128 < fuel)%nat ∧ fsm_len t + 256 * k <= 128 * Z.of_nat fuel.

Lemma free_space_add its bs :
  free_space its - (Z.of_nat (length bs) + 4) <= free_space (add_item its bs).
Proof.
  destruct (add_item_facts its bs) as (_ & _ & _ & Hu & Hl).
  unfold free_space. rewrite Hu, Hl. destruct (first_free its); lia.
Qed.

Lemma heap_insert_page T a its src : T !! a = Some its → TableSpec.heap_insert T a src = <[a:=add_item its src]> T.
Proof. intros HT. unfold TableSpec.heap_insert. by rewrite HT. Qed.

(** a page with the room, or the first page of the table *)
Lemma chosen_page T a need : page_chosen T a need → (∃ b its, T !! b = Some its ∧ need <= free_space its) → is_Some (T !! a).
Proof. intros [?|Hno] (b & its & HT & Hf); [done|]. specialize (Hno _ _ HT). lia. Qed.

(** *** A single page

    It has [R] free bytes, or the table has no page yet. *)
Definition near_supply (t : Table) (T : heap) (R : Z) : Prop :=
  (∃ a its, T !! a = Some its ∧ R <= free_space its) ∨ (T = ∅ ∧ R <= free_space [] ∧ search_clean t).

Lemma near_room t T R need : near_supply t T R → need <= R →
  (∃ a its, T !! a = Some its ∧ need <= free_space its) ∨ (T = ∅ ∧ search_clean t).
Proof. intros [(a & its & HT & Hf)|(-> & _ & Hl)] HR; [left; exists a, its; split; [done|lia]|by right]. Qed.

Lemma near_weaken t T R R' : near_supply t T R → R' <= R → near_supply t T R'.
Proof.
  intros [(a & its & HT & Hf)|(-> & Hf & Hl)] HR; [left; exists a, its; split; [done|lia]|].
  right. split; [done|]. split; [lia|done].
Qed.

Lemma near_insert t t' T R a src : near_supply t T R →
  near_supply t' (TableSpec.heap_insert T a src) (R - (Z.of_nat (length src) + 4)).
Proof.
  intros Hs. left. unfold TableSpec.heap_insert. pose proof (free_space_add (default [] (T !! a)) src) as Ha.
  destruct Hs as [(b & its & HT & Hf)|(-> & Hf & _)].
  - destruct (decide (b = a)) as [->|Hne].
    + exists a. eexists. rewrite lookup_insert_eq. split; [done|]. rewrite HT in *. simpl in *. lia.
    + exists b, its. rewrite lookup_insert_ne by done. split; [done|]. lia.
  - exists a. eexists. rewrite lookup_insert_eq. split; [done|]. rewrite lookup_empty in *. simpl in *. lia.
Qed.

Lemma near_delete t t' T R rid bs : heap_at T rid = Some bs → near_supply t T R →
  near_supply t' (TableSpec.heap_delete T rid) R.
Proof.
  intros (its & HT & Hi0 & Hi)%heap_at_Some [(a & its0 & Ha & Hf)|(-> & _)]; [|by rewrite lookup_empty in HT].
  left. unfold TableSpec.heap_delete. rewrite HT. pose proof (free_space_remove _ _ _ Hi) as Hr.
  destruct (decide (a = rid_block_addr rid)) as [->|Hne].
  - simplify_eq. eexists _, _. split; [apply lookup_insert_eq|]. lia.
  - exists a, its0. by rewrite lookup_insert_ne by done.
Qed.

Lemma near_pool t t' T R : near_supply t T R → (T = ∅ → search_clean t → search_clean t') → near_supply t' T R.
Proof. intros [Hs|(-> & Hf & Hl)] Hpool; [by left|]. right. split; [done|]. split; [done|by apply Hpool]. Qed.

(** *** Any number of pages *)

(** the bytes of a page that are certain to be stored on it: while there are
    any, the longest item fits *)
Definition spare (its : items_t) : Z := Z.max 0 (free_space its - (MAX_ITEM + 3)).
Definition spare_room (T : heap) : Z := map_fold (λ _ its n, spare its + n) 0 T.

Lemma spare_insert_new T a its : T !! a = None → spare_room (<[a:=its]> T) = spare its + spare_room T.
Proof. intros Ha. unfold spare_room. rewrite map_fold_insert_L; [done|intros; lia|done]. Qed.

Lemma spare_insert T a its its' : T !! a = Some its → spare_room (<[a:=its']> T) = spare_room T - spare its + spare its'.
Proof.
  intros Ha. rewrite <- insert_delete_eq, spare_insert_new by apply lookup_delete_eq.
  rewrite <- (insert_delete_id T a its Ha) at 2. rewrite spare_insert_new by apply lookup_delete_eq. lia.
Qed.

Lemma spare_room_page T : 0 < spare_room T → ∃ a its, T !! a = Some its ∧ MAX_ITEM + 4 <= free_space its.
Proof.
  induction T as [|a its T Ha IH] using map_ind; [done|]. rewrite spare_insert_new by done. intros Hs.
  destruct (decide (MAX_ITEM + 4 <= free_space its)) as [Hf|Hf].
  - exists a, its. by rewrite lookup_insert_eq.
  - destruct IH as (b & its' & Hb & Hf'); [unfold spare in Hs; lia|]. exists b, its'.
    by rewrite lookup_insert_ne by congruence.
Qed.

Lemma spare_add its src : spare its - (Z.of_nat (length src) + 4) <= spare (add_item its src).
Proof. pose proof (free_space_add its src). unfold spare. lia. Qed.

(** all pages together have the bytes to spare, or a single one has them *)
Definition paged_supply (t : Table) (T : heap) (R : Z) : Prop := R <= spare_room T ∨ near_supply t T R.

#[export] Instance paged_pages : PageSupply paged_supply.
Proof.
  assert (∀ t T R need, paged_supply t T R → need <= R → 0 < need <= MAX_ITEM + 4 →
    (∃ a its, T !! a = Some its ∧ need <= free_space its) ∨ (T = ∅ ∧ search_clean t)) as Hroom.
  { intros t T R need [Hs|Hs] HR Hn; [left|by eapply near_room].
    destruct (spare_room_page T ltac:(lia)) as (a & its & HT & Hf). exists a, its. split; [done|lia]. }
  constructor.
  - exact Hroom.
  - intros t T R R' [Hs|Hs] HR; [left; lia|right; by eapply near_weaken].
  - intros t t' T R a src [Hs|Hs] Hlen HR Hch; [|right; by apply near_insert with t].
    left. unfold MIN_ITEM, MAX_ITEM in Hlen.
    destruct (Hroom t T R (Z.of_nat (length src) + 4) (or_introl Hs) HR) as [Hpage|[-> _]]; [unfold MAX_ITEM; lia| |].
    + destruct (chosen_page _ _ _ Hch Hpage) as [its HT]. rewrite (heap_insert_page _ _ _ _ HT), (spare_insert _ _ _ _ HT).
      pose proof (spare_add its src). lia.
    + change (spare_room ∅) with 0 in Hs. lia.
  - intros t t' T R rid bs Hat [Hs|Hs]; [left|right; by eapply near_delete].
    apply heap_at_Some in Hat as (its & HT & Hi0 & Hi). unfold TableSpec.heap_delete.
    rewrite HT, (spare_insert _ _ _ _ HT). pose proof (free_space_remove _ _ _ Hi). unfold spare. lia.
  - intros t t' T R [Hs|Hs] Hpool; [by left|right; by eapply near_pool].
  - intros t Hl. right. by right.
Qed.

(** *** A table of one page

    A table whose searches all succeed never gets a second page.  Its page has
    at most seven items, since a new one takes the place of one that was
    deleted, if there is any, and no item is shorter than [MIN_ITEM]. *)
Record tidy_page (its : items_t) : Prop := {
  tp_ids : (length its <= 7)%nat;
  tp_items : ∀ i bs, its !! i = Some (Some bs) → MIN_ITEM <= Z.of_nat (length bs);
}.

Record tidy (T : heap) : Prop := {
  td_one : ∀ a b, is_Some (T !! a) → is_Some (T !! b) → a = b;
  td_page : ∀ a its, T !! a = Some its → tidy_page its;
}.

Lemma full_page_bytes its : first_free its = None → (∀ i bs, its !! i = Some (Some bs) → MIN_ITEM <= Z.of_nat (length bs)) →
  MIN_ITEM * Z.of_nat (length its) <= used_bytes its.
Proof.
  unfold first_free. destruct (list_find _ its) as [[? ?]|] eqn:E; [done|]. intros _. apply list_find_None in E.
  induction its as [|o its IH]; intros Hmin; [done|]. apply Forall_cons in E as [Ho E]. destruct o as [bs|]; [|done].
  pose proof (Hmin 0%nat bs eq_refl). specialize (IH E (λ i, Hmin (S i))). cbn [length used_bytes foldr] in *.
  unfold used_bytes in IH. lia.
Qed.

Lemma tidy_page_add its src : tidy_page its → MIN_ITEM <= Z.of_nat (length src) → Z.of_nat (length src) + 4 <= free_space its →
  tidy_page (add_item its src).
Proof.
  intros [Hids Hmin] Hsrc Hfit. destruct (add_item_facts its src) as (Hnew & Hold & _ & _ & Hlen). constructor.
  - rewrite Hlen. destruct (first_free its) eqn:E; [lia|]. pose proof (full_page_bytes its E Hmin) as Hfull.
    unfold free_space, PAGE_SIZE, off_data, MIN_ITEM in *. lia.
  - intros i bs Hi. destruct (decide (i = new_index its)) as [->|Hne]; [congruence|].
    apply (Hmin i). by rewrite <- Hold.
Qed.

Lemma tidy_page_remove its i : tidy_page its → tidy_page (remove_item its i).
Proof.
  intros [Hids Hmin]. assert (tidy_page (<[i:=None]> its)) as [H1 H2].
  { constructor; [by rewrite length_insert|]. intros j bs [(-> & [=] & _)|[_ Hj]]%list_lookup_insert_Some. by eapply Hmin. }
  unfold remove_item, trim_last. destruct (last _) as [[b|]|] eqn:E; [by constructor| |by constructor].
  revert H1 H2 E. generalize (<[i:=None]> its). intros l H1 H2 E. destruct l as [|x l _] using rev_ind; [done|].
  rewrite removelast_last. rewrite length_app in H1. simpl in H1. constructor; [lia|].
  intros j bs Hj. apply (H2 j). by apply lookup_app_l_Some.
Qed.

Lemma tidy_empty : tidy ∅.
Proof. constructor; [intros a b [? H]|intros a its H]; by rewrite lookup_empty in H. Qed.

Lemma tidy_insert T a src : tidy T → MIN_ITEM <= Z.of_nat (length src) <= MAX_ITEM →
  (∃ b its, T !! b = Some its ∧ Z.of_nat (length src) + 4 <= free_space its) ∨ T = ∅ →
  page_chosen T a (Z.of_nat (length src) + 4) → tidy (TableSpec.heap_insert T a src).
Proof.
  intros [Hone Hpage] Hlen Hroom Hch. unfold MAX_ITEM in Hlen. destruct Hroom as [Hroom| ->].
  - destruct (chosen_page _ _ _ Hch Hroom) as [its HT]. destruct Hroom as (b & its' & HT' & Hf).
    assert (b = a) as -> by (apply Hone; by eexists). rewrite (heap_insert_page _ _ _ _ HT). constructor.
    + intros x y Hx%lookup_insert_is_Some' Hy%lookup_insert_is_Some'.
      assert (∀ z, a = z ∨ is_Some (T !! z) → z = a) as Hz by (intros z [->|?]; [done|by apply Hone; [|eexists]]).
      by rewrite (Hz x Hx), (Hz y Hy).
    + intros x ix [[<- <-]|[Hne Hx]]%lookup_insert_Some; [|by eapply Hpage].
      assert (its' = its) as -> by congruence. apply tidy_page_add; [by eapply Hpage|apply Hlen|exact Hf].
  - unfold TableSpec.heap_insert. rewrite lookup_empty. change (default [] None) with ([] : items_t). constructor.
    + intros x y Hx%lookup_insert_is_Some' Hy%lookup_insert_is_Some'.
      assert (∀ z, a = z ∨ is_Some ((∅ : heap) !! z) → z = a) as Hz by (intros z [->|[? H]]; [done|by rewrite lookup_empty in H]).
      by rewrite (Hz x Hx), (Hz y Hy).
    + intros x ix [[<- <-]|[Hne Hx]]%lookup_insert_Some; [|by rewrite lookup_empty in Hx].
      apply tidy_page_add; [|lia|change (free_space []) with 122; lia]. constructor; [simpl; lia|by intros i bs Hi].
Qed.

Lemma tidy_delete T rid : tidy T → tidy (TableSpec.heap_delete T rid).
Proof.
  intros [Hone Hpage]. unfold TableSpec.heap_delete. destruct (T !! rid_block_addr rid) as [its|] eqn:E; [|by constructor].
  constructor.
  - intros x y Hx%lookup_insert_is_Some' Hy%lookup_insert_is_Some'. apply Hone; [destruct Hx as [<-|?]|destruct Hy as [<-|?]]; eauto.
  - intros x ix [[<- <-]|[Hne Hx]]%lookup_insert_Some; [|by eapply Hpage]. by eapply tidy_page_remove, Hpage.
Qed.

(** the table has one page at most, and it has the bytes *)
Definition tidy_supply (t : Table) (T : heap) (R : Z) : Prop := tidy T ∧ near_supply t T R.

#[export] Instance tidy_pages : PageSupply tidy_supply.
Proof.
  constructor.
  - intros t T R need [_ Hs] HR _. by eapply near_room.
  - intros t T R R' [Ht Hs] HR. split; [done|by eapply near_weaken].
  - intros t t' T R a src [Ht Hs] Hlen HR Hch. split; [|by apply near_insert with t].
    apply tidy_insert; [done|done| |done]. destruct (near_room _ _ _ _ Hs HR) as [?|[? _]]; [by left|by right].
  - intros t t' T R rid bs Hat [Ht Hs]. split; [by apply tidy_delete|by eapply near_delete].
  - intros t t' T R [Ht Hs] Hpool. split; [done|by eapply near_pool].
  - intros t Hl. split; [exact tidy_empty|by right].
Qed.

(** the bytes of the heap are those of the page *)
Lemma heap_at_snoc a l o rid :
  heap_at {[a := l ++ [o]]} rid = if decide (rid = mkRID a (Z.of_nat (length l))) then o else heap_at {[a := l]} rid.
Proof.
  destruct rid as [b i]. unfold heap_at. cbn [rid_block_addr rid_idx]. destruct (decide (b = a)) as [->|Hne].
  - rewrite !lookup_singleton_eq. simpl. destruct (decide (mkRID a i = mkRID a (Z.of_nat (length l)))) as [[= ->]|Hi].
    + rewrite (proj2 (Z.ltb_ge _ 0)), Nat2Z.id, list_lookup_middle by lia. by destruct o.
    + destruct (Z.ltb_spec i 0); [done|]. f_equal. destruct (Nat.lt_ge_cases (Z.to_nat i) (length l)).
      * by rewrite lookup_app_l.
      * assert (Z.to_nat i ≠ length l) by (intros E; apply Hi; f_equal; lia).
        rewrite !lookup_ge_None_2; [done|lia|]. rewrite length_app. simpl. lia.
  - rewrite !lookup_singleton_ne by done. rewrite decide_False; [done|congruence].
Qed.

Lemma page_weight a its : ∀ H, (∀ rid, H !! rid = heap_at {[a := its]} rid) → weight H = used_bytes its.
Proof.
  induction its as [|o l IH] using rev_ind; intros H HH.
  - replace H with (∅ : gmap RID (list byte)); [done|]. symmetry. apply map_empty. intros rid. rewrite HH.
    unfold heap_at. destruct (decide (rid_block_addr rid = a)) as [->|]; [|by rewrite lookup_singleton_ne].
    rewrite lookup_singleton_eq. simpl. by destruct (rid_idx rid <? 0), (Z.to_nat (rid_idx rid)).
  - set (r0 := mkRID a (Z.of_nat (length l))).
    assert (H !! r0 = o) as H0 by (by rewrite HH, heap_at_snoc, decide_True).
    assert (heap_at {[a := l]} r0 = None) as Hl.
    { unfold heap_at, r0. cbn [rid_block_addr rid_idx]. rewrite lookup_singleton_eq. simpl.
      by rewrite (proj2 (Z.ltb_ge _ 0)), Nat2Z.id, lookup_ge_None_2 by lia. }
    assert (∀ rid, delete r0 H !! rid = heap_at {[a := l]} rid) as Hdel.
    { intros rid. destruct (decide (rid = r0)) as [->|Hne]; [by rewrite lookup_delete_eq|].
      rewrite lookup_delete_ne by done. by rewrite HH, heap_at_snoc, decide_False. }
    rewrite used_bytes_app. rewrite <- (IH _ Hdel). destruct o as [bs|].
    + rewrite (weight_delete _ _ _ H0). simpl. lia.
    + rewrite delete_id by done. simpl. lia.
Qed.

Section growth.
Context (t : Table) (fuel : nat) (n : Z) (Hb : growth_bounds t fuel n).

Lemma growth_now : write_cost fuel <= n → table_bounds t fuel.
Proof using Hb.
  intros Hn. destruct Hb as (B1 & B2 & B3 & B4). unfold write_cost, table_bounds in *. cbv zeta in *.
  assert (1 <= n / (Z.of_nat fuel + 144)) by (apply Z.div_le_lower_bound; lia). lia.
Qed.

Lemma growth_later t' : data_len t' <= data_len t + 128 → fsm_len t' <= fsm_len t + 256 →
  growth_bounds t' fuel (n - write_cost fuel).
Proof using Hb.
  intros H1 H2. destruct Hb as (B1 & B2 & B3 & B4). unfold growth_bounds, write_cost in *. cbv zeta in *.
  replace (n - (Z.of_nat fuel + 144)) with (n + (-1) * (Z.of_nat fuel + 144)) by lia.
  assert (Z.of_nat fuel + 144 ≠ 0) as Hne by (clear; lia). rewrite (Z.div_add n (-1) _ Hne).
  generalize dependent (n / (Z.of_nat fuel + 144)). intros k. lia.
Qed.

Lemma growth_less t' n' : n' <= n → data_len t' = data_len t → fsm_len t' = fsm_len t → growth_bounds t' fuel n'.
Proof using Hb.
  intros Hn E1 E2. destruct Hb as (B1 & B2 & B3 & B4). unfold growth_bounds, write_cost in *. cbv zeta in *.
  rewrite E1, E2. assert (n' / (Z.of_nat fuel + 144) <= n / (Z.of_nat fuel + 144)) by (apply Z.div_le_mono; lia). lia.
Qed.
End growth.

(** ** The interface *)

Section room.
Context (fuel : nat) (S : Table → heap → Z → Prop) {HS : PageSupply S}.

(** the table holds the heap [w_heap v], and [S] knows of its room *)
Definition pages_wview : Rep Table wview := λ t v,
  ∃ T, holds t T (w_left v) (w_left v) ∧ (∀ rid, w_heap v !! rid = heap_at T rid) ∧
    S t T (w_room v) ∧ growth_bounds t fuel (w_left v).
#[local] Existing Instance pages_wview.

Lemma table_room_read R : @HeapReader (reading_at R).
Proof using HS.
  constructor.
  - intros H n rid bs dest Φ Hat Hle Hlen Hn HΦ t (T & Ht & HT & Hsup & Hb). cbn [w_heap w_left w_room t_heap t_ops] in *.
    rewrite HT in Hat.
    destruct (table_read_run t T n n rid bs dest Ht Hat Hlen Hle) as (t' & Hrun & Ht' & Hd & Hf); [lia|].
    eapply wp_run; [exact Hrun|]. exists (TView H (n - 1)). split; [|exact HΦ].
    exists T. split; [eapply holds_spend; [exact Ht'|simpl; lia|simpl; lia]|]. split; [done|]. split.
    + eapply sup_pool; [exact Hsup|]. intros -> _. unfold heap_at in Hat. by rewrite lookup_empty in Hat.
    + eapply growth_less; [exact Hb|simpl; lia|done|done].
  - intros t H n rid bs (T & Ht & HT & _) Hat. simpl in *. rewrite HT in Hat. by eapply holds_rids.
  - intros t H n n' (T & Ht & HT & Hr & Hb) Hn. exists T. split; [by eapply holds_spend|].
    split; [done|]. split; [done|]. by eapply growth_less.
Qed.

Lemma table_room_weaken t H n R n' R' : rep t (WView H n R) → n' <= n → R' <= R → rep t (WView H n' R').
Proof using HS.
  intros (T & Ht & HT & Hsup & Hb) Hn HR. exists T. cbn [w_heap w_left w_room] in *.
  split; [eapply holds_spend; [exact Ht|lia|lia]|]. split; [done|]. split; [by eapply sup_weaken|by eapply growth_less].
Qed.

Lemma table_room_insert H n R src size (Φ : RID → wview → Prop) :
  MIN_ITEM <= size <= MAX_ITEM → size <= Z.of_nat (length src) → size + 4 <= R → write_cost fuel <= n →
  (∀ rid, H !! rid = None → rid_ok rid →
    Φ rid (WView (<[rid := take (Z.to_nat size) src]> H) (n - write_cost fuel) (R - (size + 4)))) →
  awp (table_insert fuel src size) Φ (WView H n R).
Proof using HS.
  unfold MIN_ITEM, MAX_ITEM. intros Hs Hsrc HR Hn HΦ t (T & Ht & HT & Hsup & Hb).
  cbn [w_heap w_left w_room] in *. rewrite table_insert_prefix by lia.
  set (src' := take (Z.to_nat size) src) in *.
  assert (size = Z.of_nat (length src')) as E by (unfold src'; rewrite length_take; lia). rewrite E in *.
  destruct (table_insert_run t T n n src' fuel Ht) as (a & t' & Hrun & Ht' & Ha & Hch & Hd & Hf);
    [lia|lia|unfold write_cost in *; lia|unfold write_cost in *; lia|by eapply growth_now| |].
  { destruct (sup_room _ _ _ _ Hsup HR) as [?|[_ ?]]; [unfold MAX_ITEM; lia|by left|by right]. }
  destruct (heap_insert_facts T a src') as (Hnew & Hold & Hfree).
  eapply wp_run; [exact Hrun|]. eexists. split; [|apply HΦ].
  - exists (TableSpec.heap_insert T a src'). cbn [w_heap w_left w_room].
    split; [eapply holds_spend; [exact Ht'|unfold write_cost; lia|unfold write_cost; lia]|]. split; [|split].
    + intros r. destruct (decide (r = insert_rid T a)) as [->|Hne]; [by rewrite lookup_insert_eq|].
      rewrite lookup_insert_ne by done. by rewrite Hold.
    + by apply sup_insert with t.
    + by eapply growth_later.
  - by rewrite HT.
  - by eapply (holds_rids _ _ _ _ _ _ Ht').
Qed.

Lemma table_room_delete H n R rid bs (Φ : unit → wview → Prop) :
  H !! rid = Some bs → write_cost fuel <= n → Φ tt (WView (delete rid H) (n - write_cost fuel) R) →
  awp (table_delete fuel rid) Φ (WView H n R).
Proof using HS.
  intros Hat Hn HΦ t (T & Ht & HT & Hsup & Hb). cbn [w_heap w_left w_room] in *. rewrite HT in Hat.
  destruct (table_delete_run t T n n rid bs fuel Ht Hat) as (t' & Hrun & Ht' & Hd & Hf);
    [unfold write_cost in *; lia|unfold write_cost in *; lia|by eapply growth_now|].
  destruct (heap_delete_facts T rid bs Hat) as (Hgone & Hold).
  eapply wp_run; [exact Hrun|]. eexists. split; [|exact HΦ].
  exists (TableSpec.heap_delete T rid). cbn [w_heap w_left w_room].
  split; [eapply holds_spend; [exact Ht'|unfold write_cost; lia|unfold write_cost; lia]|]. split; [|split].
  - intros r. destruct (decide (r = rid)) as [->|Hne]; [by rewrite lookup_delete_eq|].
    rewrite lookup_delete_ne by done. by rewrite Hold.
  - by eapply sup_delete.
  - by eapply growth_later.
Qed.

#[export] Instance table_writer : HeapWriter fuel (write_cost fuel).
Proof using HS.
  constructor; [exact table_room_read|exact table_room_weaken|exact table_room_insert|exact table_room_delete].
Qed.
End room.

(** a table of any number of pages, and one of a single page *)
Abbreviation table_wview fuel := (pages_wview fuel paged_supply).
Abbreviation tidy_wview fuel := (pages_wview fuel tidy_supply).

(** the room of a table of one page, from the bytes in it *)
#[export] Instance table_regains fuel : @HeapRegains page_regain (tidy_wview fuel).
Proof.
  intros t H n R (T & Ht & HT & [Htd Hsup] & Hb). exists T. cbn [w_heap w_left w_room] in *.
  split; [done|]. split; [done|]. split; [split; [done|]|done]. destruct Hsup as [(a & its & Ha & Hf)|(-> & Hf & Hl)].
  - left. exists a, its. split; [done|]. destruct (td_page _ Htd _ _ Ha) as [Hids _].
    unfold page_regain. rewrite (page_weight a its H).
    + unfold free_space, page_room, PAGE_SIZE, off_data in *. lia.
    + intros rid. rewrite HT. unfold heap_at. destruct (decide (rid_block_addr rid = a)) as [->|Hne].
      * by rewrite Ha, lookup_singleton_eq.
      * rewrite lookup_singleton_ne by done. destruct (T !! rid_block_addr rid) eqn:E; [|done].
        destruct Hne. eapply (td_one _ Htd); by eexists.
  - right. split; [done|]. split; [|done]. pose proof (weight_nonneg H). change (free_space []) with 122 in *.
    unfold page_regain, page_room. lia.
Qed.
