(* ===== verification/Str.v ===== *)
(** Strings ([include/str.h], [src/str.c]): a string is a chain of chunks,
    each an item of a table: the [RID] of the next chunk, a [short] length and
    up to twenty characters. *)
From stdpp Require Import base gmap list.
From Stdlib Require Import ZArith Lia Strings.Byte.
From S2P Require Import Prelude FileIO BufferPool Block HashMap Table.
#[local] Open Scope Z_scope.

Definition STR_CHUNK_MAX_SIZE : Z := PAGE_SIZE / 4.
Definition STR_CHUNK_MAX_LEN : Z := STR_CHUNK_MAX_SIZE - RID_SIZE - 2.
Definition off_chunk_size : Z := RID_SIZE.
Definition off_chunk_data : Z := RID_SIZE + 2.

(** The 32 bytes of a [StringChunk]. *)
Abbreviation StringChunk := (list byte).

Definition get_str_chunk_rid {S} (chunk : StringChunk) : M S RID :=
  on_obj chunk (rd_rid 0).
Definition get_str_chunk_size {S} (chunk : StringChunk) : M S Z :=
  on_obj chunk (rd_i16 off_chunk_size).
(** [get_str_chunk_data_ptr(chunk)[i]] *)
Definition get_str_chunk_char {S} (chunk : StringChunk) (i : Z) : M S byte :=
  on_obj chunk (bs ← rd (off_chunk_data + i) 1; of_opt (head bs)).
(** [calc_str_chunk_size(len)], a [size_t], as the [short] it is passed as *)
Definition calc_str_chunk_size (len : Z) : Z :=
  swrap 16 (uwrap 64 (uwrap 64 len + RID_SIZE + 2)).

Record StringRecord := mkSR { sr_chunk : StringChunk; sr_idx : Z }.

(** the value of a [char], which is signed *)
Definition char_val (c : byte) : Z := swrap 8 (byte_to_Z c).

(** ** Reading *)

(** [buf] is what the memory of [record->chunk] holds on entry *)
Definition read_string (rid : RID) (record : StringRecord) : M Table StringRecord :=
  chunk ← table_read rid (sr_chunk record);
  mret (mkSR chunk 0).

Definition has_next_char {S} (record : StringRecord) : M S bool :=
  size ← get_str_chunk_size (sr_chunk record);
  if negb (size =? sr_idx record) then mret true
  else
    rid ← get_str_chunk_rid (sr_chunk record);
    mret (negb (rid_idx rid =? -1)).

(** the character at [record->idx++] *)
Definition take_char {S} (record : StringRecord) : M S (byte * StringRecord) :=
  c ← get_str_chunk_char (sr_chunk record) (sr_idx record);
  mret (c, mkSR (sr_chunk record) (swrap 16 (sr_idx record + 1))).

Definition next_char (record : StringRecord) : M Table (byte * StringRecord) :=
  size ← get_str_chunk_size (sr_chunk record);
  if negb (size =? sr_idx record) then take_char record
  else
    rid ← get_str_chunk_rid (sr_chunk record);
    if rid_idx rid =? -1 then mret (x00, record)
    else
      chunk ← table_read rid (sr_chunk record);
      take_char (mkSR chunk 0).

(** ** Comparison *)

(** the loop of [compare_string_record]: the verdict at the first
    difference, else the two records where one of them ended *)
Fixpoint compare_loop (fuel : nat) (record_1 record_2 : StringRecord)
    : M Table (Z + StringRecord * StringRecord) :=
  match fuel with
  | O => no_fuel
  | S fuel' =>
      h1 ← has_next_char record_1;
      h2 ← (if h1 : bool then has_next_char record_2 else mret false);
      if h2 : bool then
        '(a, record_1) ← next_char record_1;
        '(b, record_2) ← next_char record_2;
        if negb (char_val a =? char_val b) then
          mret (inl (if char_val a >? char_val b then 1 else -1))
        else compare_loop fuel' record_1 record_2
      else mret (inr (record_1, record_2))
  end.

(** the verdict once one of the strings has ended *)
Definition compare_ends (record_1 record_2 : StringRecord) : M Table Z :=
  h1 ← has_next_char record_1;
  h2 ← has_next_char record_2;
  mret (if negb h1 && h2 then -1 else if h1 && negb h2 then 1 else 0).

Definition compare_string_record (fuel : nat) (a b : StringRecord) : M Table Z :=
  sizeA ← get_str_chunk_size (sr_chunk a);
  sizeB ← get_str_chunk_size (sr_chunk b);
  if sizeA =? 0 then mret (-1)
  else if sizeB =? 0 then mret 1
  else
    r ← compare_loop fuel a b;
    match r with
    | inl v => mret v
    | inr (record_1, record_2) => compare_ends record_1 record_2
    end.

(** ** Writing *)

(** [data[i]] of the caller's array *)
Definition data_at {S} (data : list byte) (i : Z) : M S byte :=
  need (0 <=? i);; of_opt (data !! Z.to_nat i).

(** a chunk made of its three fields; [junk] is what the local variable held *)
Definition make_chunk {S} (junk : StringChunk) (rid : RID) (size : Z)
    (data : list byte) (from : Z) : M S StringChunk :=
  edit_obj junk (
    wr_rid 0 rid;;
    wr_16 off_chunk_size size;;
    for_ne 0 size (λ i,
      c ← data_at data (from + i);
      wr (off_chunk_data + i) [c])).

(** the chunks before the last one, from right to left *)
Fixpoint write_chunks (fuel : nat) (junk : StringChunk) (data : list byte) (n : nat)
    (rid : RID) : M Table RID :=
  match n with
  | O => mret rid
  | S k =>
      chunk ← make_chunk junk rid STR_CHUNK_MAX_LEN data (Z.of_nat k * STR_CHUNK_MAX_LEN);
      rid ← table_insert fuel chunk STR_CHUNK_MAX_SIZE;
      write_chunks fuel junk data k rid
  end.

(** the length of the last chunk *)
Definition last_chunk_len (size : Z) : Z :=
  let extra_len := swrap 16 (uwrap 64 size mod STR_CHUNK_MAX_LEN) in
  if extra_len =? 0 then STR_CHUNK_MAX_LEN else extra_len.

(** the chunks are written from the last to the first; [sum], the number of
    full chunks before the last one, is a [short] *)
Definition write_string (fuel : nat) (junk : StringChunk) (data : list byte) (size : Z)
    : M Table RID :=
  let extra_len := last_chunk_len size in
  tail_chunk ← make_chunk junk (mkRID (-1) (-1)) extra_len data (size - extra_len);
  rid ← table_insert fuel tail_chunk (calc_str_chunk_size extra_len);
  let sum := swrap 16 (uwrap 64 (size - extra_len) / STR_CHUNK_MAX_LEN) in
  write_chunks fuel junk data (Z.to_nat sum) rid.

(** ** Deletion and loading *)

(** the loop of [delete_string], at most [n] times *)
Fixpoint delete_chunks (fuel n : nat) (junk : StringChunk) (rid : RID) : M Table unit :=
  match n with
  | O => no_fuel
  | S n' =>
      if rid_idx rid =? -1 then mret tt
      else
        chunk ← table_read rid junk;
        table_delete fuel rid;;
        rid' ← get_str_chunk_rid chunk;
        delete_chunks fuel n' junk rid'
  end.
Definition delete_string (fuel : nat) (junk : StringChunk) (rid : RID) : M Table unit :=
  delete_chunks fuel fuel junk rid.

(** the loop of [load_string]: the number of characters and the contents of
    [dest] *)
Fixpoint load_loop (fuel : nat) (rec : StringRecord) (dest : list byte) (max_size size : Z)
    : M Table (Z * list byte) :=
  match fuel with
  | O => no_fuel
  | S fuel' =>
      h ← has_next_char rec;
      if negb h then mret (size, dest)
      else if max_size <=? size then mret (size, dest)
      else
        '(c, rec) ← next_char rec;
        dest ← edit_obj dest (wr size [c]);
        load_loop fuel' rec dest max_size (size + 1)
  end.

Definition load_string (fuel : nat) (record : StringRecord) (dest : list byte) (max_size : Z)
    : M Table (Z * list byte) :=
  '(size, dest) ← load_loop fuel record dest max_size 0;
  if size <? max_size then
    dest ← edit_obj dest (wr size [x00]);
    mret (size, dest)
  else mret (size, dest).
