(* ===== verification/StrSpec.v ===== *)
(** What the string component promises: a chain of chunks in a table stands
    for a string of characters; a [StringRecord] is a cursor on what is left
    of a string, [next_char] takes its first character and [load_string]
    copies it out; [compare_string_record] is the lexicographic order of
    signed characters.  The proofs use tables only through [HeapReader]. *)
From stdpp Require Import base gmap list fin_maps.
From Stdlib Require Import ZArith Lia Strings.Byte.
From S2P Require Import Prelude PoolClient Table HeapStore Str.
#[local] Open Scope Z_scope.

(** ** Chunks and chains *)

Definition chunk_enc (next : RID) (d : list byte) : list byte :=
  rid_enc next ++ le_enc 2 (Z.of_nat (length d)) ++ d.

(** [chain H rid s]: the chunks of the heap from [rid] on hold the string [s];
    every chunk but the last one is full, and none is empty *)
Inductive chain (H : gmap RID (list byte)) : RID → list byte → Prop :=
  | chain_last rid d :
      H !! rid = Some (chunk_enc no_rid d) → (0 < length d <= 20)%nat → chain H rid d
  | chain_more rid next d s :
      H !! rid = Some (chunk_enc next d) → length d = 20%nat →
      rid_ok next → chain H next s → chain H rid (d ++ s).

(** [chunk] is a chunk in the 32 bytes of a local variable *)
Definition chunk_is (o : list byte) (next : RID) (d : list byte) : Prop :=
  length o = 32%nat ∧ (∃ rest, o = chunk_enc next d ++ rest) ∧ (0 < length d <= 20)%nat ∧
  rid_dec (rid_enc next) = next.

(** what is left of a string after the current chunk *)
Definition after (H : gmap RID (list byte)) (next : RID) (s : list byte) : Prop :=
  (next = no_rid ∧ s = []) ∨ (rid_ok next ∧ chain H next s).

(** [rc] is a cursor with [s] left to read *)
Definition cursor (H : gmap RID (list byte)) (rc : StringRecord) (s : list byte) : Prop :=
  ∃ next d s', chunk_is (sr_chunk rc) next d ∧ 0 <= sr_idx rc <= Z.of_nat (length d) ∧
    after H next s' ∧ s = drop (Z.to_nat (sr_idx rc)) d ++ s'.

Lemma chunk_enc_length next d : length (chunk_enc next d) = (12 + length d)%nat.
Proof. unfold chunk_enc. rewrite !length_app, rid_enc_length, le_enc_length. lia. Qed.

Section chunk.
Context (o : list byte) (next : RID) (d : list byte) (Hc : chunk_is o next d).

Lemma chunk_rid : rid_dec (slice 0 10 o) = next.
Proof using Hc.
  destruct Hc as (_ & [rest ->] & _ & Hr). unfold slice, chunk_enc. rewrite drop_0, <- !app_assoc.
  by rewrite take_app_length' by (by rewrite rid_enc_length).
Qed.

Lemma chunk_size : get_s 2 o 10 = Z.of_nat (length d).
Proof using Hc.
  destruct Hc as (_ & [rest ->] & Hd & _). unfold get_s, slice, chunk_enc.
  change (Z.to_nat 10) with 10%nat. rewrite <- !app_assoc.
  rewrite drop_app_length' by (by rewrite rid_enc_length).
  rewrite take_app_length' by (by rewrite le_enc_length).
  apply dec_s_enc; [lia|]. unfold in_s. change (2 ^ (8 * Z.of_nat 2 - 1)) with 32768. lia.
Qed.

Lemma chunk_char i b : d !! i = Some b → slice (12 + i) 1 o = [b].
Proof using Hc.
  intros Hi. destruct Hc as (_ & [rest ->] & _). unfold slice, chunk_enc.
  rewrite <- !app_assoc, <- drop_drop.
  rewrite (app_assoc (rid_enc next)).
  rewrite drop_app_length' by (by rewrite length_app, rid_enc_length, le_enc_length).
  rewrite drop_app_le by (apply lookup_lt_Some in Hi; lia).
  by rewrite (drop_S _ _ _ Hi).
Qed.
End chunk.

(** a chunk read from the heap into a local variable *)
Lemma chunk_is_read next d o :
  (0 < length d <= 20)%nat → length o = 32%nat → rid_dec (rid_enc next) = next →
  chunk_is (chunk_enc next d ++ drop (length (chunk_enc next d)) o) next d.
Proof.
  intros Hd Ho Hr. split; [|split; [by eexists|done]].
  rewrite length_app, length_drop, chunk_enc_length. lia.
Qed.

Lemma chain_nonempty H rid s : chain H rid s → s ≠ [].
Proof. intros Hc. destruct Hc as [? [|b d] ? Hd|? ? [|b d] s ? Hd ?]; simpl in *; (done || lia). Qed.

(** the first chunk of a chain *)
Lemma chain_first H rid s : chain H rid s →
  ∃ next d s', H !! rid = Some (chunk_enc next d) ∧ (0 < length d <= 20)%nat ∧
    after H next s' ∧ s = d ++ s'.
Proof.
  intros [? d Hl Hd|? next d s' Hl Hd Hr Hs].
  - exists no_rid, d, []. rewrite app_nil_r. split; [done|]. split; [done|]. split; [by left|done].
  - exists next, d, s'. split; [done|]. split; [lia|]. split; [by right|done].
Qed.

Lemma after_rid H next s : after H next s → rid_dec (rid_enc next) = next.
Proof. intros [[-> ->]|[Hr _]]; [apply rid_dec_enc_no_rid|by apply rid_dec_enc]. Qed.

(** the test [get_rid_idx(...) == -1] at the end of a chunk *)
Lemma after_end H next s : after H next s → (rid_idx next =? -1) = bool_decide (s = []).
Proof.
  intros [[-> ->]|[(_ & _ & _ & ?) Hc]]; [done|].
  rewrite bool_decide_eq_false_2 by (by eapply chain_nonempty). apply Z.eqb_neq. lia.
Qed.

(** the string at an identifier is determined by the heap *)
Lemma chunk_enc_inj n1 d1 n2 d2 : rid_fits n1 → rid_fits n2 →
  chunk_enc n1 d1 = chunk_enc n2 d2 → n1 = n2 ∧ d1 = d2.
Proof.
  intros F1 F2 E. unfold chunk_enc in E. apply app_inj_1 in E as [E1 E]; [|by rewrite !rid_enc_length].
  apply app_inj_1 in E as [_ E]; [|by rewrite !le_enc_length]. split; [by apply rid_enc_inj|done].
Qed.

Lemma chain_det H rid s1 s2 : chain H rid s1 → chain H rid s2 → s1 = s2.
Proof.
  intros H1. revert s2. induction H1 as [rid d Hr Hd|rid next d s Hr Hd Hok Hc IH]; intros s2 H2.
  - destruct H2 as [rid d' Hr' Hd'|rid next d' s' Hr' Hd' Hok' Hc'].
    + rewrite Hr in Hr'. apply (inj Some) in Hr' as E.
      by apply chunk_enc_inj in E as [_ ->]; [|apply rid_dec_enc_no_rid..].
    + rewrite Hr in Hr'. apply (inj Some) in Hr' as E. apply chunk_enc_inj in E as [<- _];
        [by destruct Hok' as (_ & ? & _)|apply rid_dec_enc_no_rid|by apply rid_dec_enc].
  - destruct H2 as [rid d' Hr' Hd'|rid next' d' s' Hr' Hd' Hok' Hc'].
    + rewrite Hr in Hr'. apply (inj Some) in Hr' as E. apply chunk_enc_inj in E as [-> _];
        [by destruct Hok as (_ & ? & _)|by apply rid_dec_enc|apply rid_dec_enc_no_rid].
    + rewrite Hr in Hr'. apply (inj Some) in Hr' as E. apply chunk_enc_inj in E as [<- <-]; [|by apply rid_dec_enc..].
      f_equal. by apply IH.
Qed.

(** the order of keys: lexicographic, on signed characters *)
Fixpoint str_cmp (s1 s2 : list byte) : Z :=
  match s1, s2 with
  | [], [] => 0
  | [], _ => -1
  | _, [] => 1
  | a :: s1', b :: s2' =>
      if char_val a =? char_val b then str_cmp s1' s2'
      else if char_val a >? char_val b then 1 else -1
  end.

(** ** The cursor *)

Section reader.
Context {HR : Rep Table tview} {HH : HeapReader}.
Implicit Types H : gmap RID (list byte).

Lemma awp_on_obj {St G A} {RS : Rep St G} (o : list byte) (m : M (list byte) A) (Φ : A → G → Prop) g :
  wp m (λ a _, Φ a g) o → awp (on_obj o m) Φ g.
Proof.
  intros Hm s Hs. apply wp_zoom. eapply wp_mono; [exact Hm|]. intros a o' HΦ. by exists g.
Qed.

Lemma str_chunk_size_spec {St G} {RS : Rep St G} o next d (Φ : Z → G → Prop) g :
  chunk_is o next d → Φ (Z.of_nat (length d)) g → awp (get_str_chunk_size o) Φ g.
Proof.
  intros Hc HΦ. apply awp_on_obj. apply wp_rd_s; [done|by destruct Hc as (-> & _)|].
  change off_chunk_size with 10. by rewrite (chunk_size _ _ _ Hc).
Qed.

Lemma str_chunk_rid_spec {St G} {RS : Rep St G} o next d (Φ : RID → G → Prop) g :
  chunk_is o next d → Φ next g → awp (get_str_chunk_rid o) Φ g.
Proof.
  intros Hc HΦ. apply awp_on_obj. unfold rd_rid. apply wp_bind, wp_rd; [done| |].
  - by destruct Hc as (-> & _).
  - apply wp_ret. change (Z.to_nat 0) with 0%nat. by rewrite (chunk_rid _ _ _ Hc).
Qed.

(** the character at the index of the cursor *)
Lemma take_char_spec {St G} {RS : Rep St G} H o next d i c s' (Φ : byte * StringRecord → G → Prop) g :
  chunk_is o next d → 0 <= i → d !! Z.to_nat i = Some c → after H next s' →
  (∀ rc, cursor H rc (drop (S (Z.to_nat i)) d ++ s') → Φ (c, rc) g) →
  awp (take_char (mkSR o i)) Φ g.
Proof.
  intros Hc Hi Hd Ha HΦ. unfold take_char. cbn [sr_chunk sr_idx]. awp_step.
  pose proof (lookup_lt_Some _ _ _ Hd) as Hlt. destruct (Hc) as (Hl & _ & Hd20 & _).
  apply awp_on_obj. unfold off_chunk_data, RID_SIZE. apply wp_bind, wp_rd; [lia|rewrite Hl; lia|].
  replace (Z.to_nat (10 + 2 + i)) with (12 + Z.to_nat i)%nat by lia.
  rewrite (chunk_char _ _ _ Hc _ _ Hd). apply wp_of_opt with c; [done|]. apply awp_ret, HΦ.
  exists next, d, s'. cbn [sr_chunk sr_idx].
  rewrite swrap_id; [|lia|unfold in_s; change (2 ^ (16 - 1)) with 32768; lia].
  split; [done|]. split; [lia|]. split; [done|]. do 2 f_equal. lia.
Qed.

Lemma has_next_char_spec {St G} {RS : Rep St G} H rc s (Φ : bool → G → Prop) g :
  cursor H rc s → Φ (negb (bool_decide (s = []))) g → awp (has_next_char rc) Φ g.
Proof.
  intros (next & d & s' & Hc & Hi & Ha & ->) HΦ. unfold has_next_char. awp_step.
  eapply str_chunk_size_spec; [done|]. destruct (Z.eqb_spec (Z.of_nat (length d)) (sr_idx rc)) as [E|E].
  - cbn [negb]. awp_step. eapply str_chunk_rid_spec; [done|]. awp_step.
    rewrite (after_end _ _ _ Ha). by rewrite drop_ge in HΦ by lia.
  - cbn [negb]. awp_step. rewrite bool_decide_eq_false_2 in HΦ; [done|].
    intros Hnil. apply (f_equal length) in Hnil. rewrite length_app, length_drop in Hnil.
    simpl in Hnil. lia.
Qed.

(** *** Reading *)

Lemma awp_spend {A} (m : M Table A) Φ H n n' :
  n' <= n → awp m Φ (TView H n') → awp m Φ (TView H n).
Proof. intros Hn Hm t Ht. apply Hm. by eapply heap_spend. Qed.

Lemma read_string_spec H n rid buf i s (Φ : StringRecord → tview → Prop) :
  chain H rid s → length buf = 32%nat → 0 < n →
  (∀ rc, cursor H rc s → Φ rc (TView H (n - 1))) →
  awp (read_string rid (mkSR buf i)) Φ (TView H n).
Proof.
  intros Hc Hb Hn HΦ. destruct (chain_first _ _ _ Hc) as (next & d & s' & Hl & Hd & Ha & ->).
  unfold read_string. awp_step. cbn [sr_chunk].
  eapply heap_read; [exact Hl| | |done|]; rewrite ?chunk_enc_length; [lia|lia|].
  apply awp_ret, HΦ. exists next, d, s'. cbn [sr_chunk sr_idx]. split.
  { apply chunk_is_read; [done|done|by eapply after_rid]. }
  split; [lia|]. by split.
Qed.

Lemma next_char_spec H n rc c s (Φ : byte * StringRecord → tview → Prop) :
  cursor H rc (c :: s) → 0 < n → (∀ rc', cursor H rc' s → Φ (c, rc') (TView H (n - 1))) →
  awp (next_char rc) Φ (TView H n).
Proof.
  intros (next & d & s' & Hc & Hi & Ha & E) Hn HΦ. destruct rc as [o i].
  cbn [sr_chunk sr_idx] in *. unfold next_char. cbn [sr_chunk sr_idx]. awp_step.
  eapply str_chunk_size_spec; [done|]. destruct (Z.eqb_spec (Z.of_nat (length d)) i) as [Ei|Ei].
  - cbn [negb]. awp_step. eapply str_chunk_rid_spec; [done|]. cbv beta.
    rewrite drop_ge in E by lia. cbn in E. subst s'.
    rewrite (after_end _ _ _ Ha), bool_decide_eq_false_2 by done.
    destruct Ha as [[_ ?]|[_ Ha]]; [done|].
    destruct (chain_first _ _ _ Ha) as (next2 & d2 & s2 & Hl2 & Hd2 & Ha2 & E2).
    awp_step. eapply heap_read; [exact Hl2| | |done|]; rewrite ?chunk_enc_length.
    { destruct Hc as (-> & _). lia. } { lia. }
    destruct d2 as [|b d2]; [simpl in Hd2; lia|]. injection E2 as -> ->.
    eapply take_char_spec; [apply chunk_is_read; [done|by destruct Hc|by eapply after_rid]|done|done|exact Ha2|].
    intros rc Hrc. by apply HΦ.
  - cbn [negb]. apply awp_spend with (n - 1); [lia|].
    destruct (lookup_lt_is_Some_2 d (Z.to_nat i)) as [b Hb]; [lia|].
    rewrite (drop_S _ _ _ Hb) in E. injection E as -> ->.
    eapply take_char_spec; [exact Hc|lia|exact Hb|exact Ha|]. intros rc Hrc. by apply HΦ.
Qed.

(** *** Comparison *)

Lemma compare_loop_spec H fuel : ∀ n rc1 rc2 s1 s2 (Φ : Z + StringRecord * StringRecord → tview → Prop),
  cursor H rc1 s1 → cursor H rc2 s2 → (length s1 < fuel)%nat → 2 * Z.of_nat (length s1) <= n →
  Φ (inl (str_cmp s1 s2)) (TView H (n - 2 * Z.of_nat (length s1))) →
  (∀ rc1 rc2 t1 t2, cursor H rc1 t1 → cursor H rc2 t2 → t1 = [] ∨ t2 = [] →
    str_cmp t1 t2 = str_cmp s1 s2 →
    Φ (inr (rc1, rc2)) (TView H (n - 2 * Z.of_nat (length s1)))) →
  awp (compare_loop fuel rc1 rc2) Φ (TView H n).
Proof.
  induction fuel as [|fuel IH]; intros n rc1 rc2 s1 s2 Φ H1 H2 Hf Hn Hl Hr; [lia|].
  cbn [compare_loop]. awp_step. eapply has_next_char_spec; [exact H1|]. cbv beta. awp_step.
  destruct s1 as [|a s1].
  { rewrite bool_decide_eq_true_2 by done. cbn [negb]. awp_step. awp_step. replace n with (n - 2 * Z.of_nat (length (@nil byte))) at 1 by (simpl; lia).
    eapply Hr; [done|done|by left|done]. }
  rewrite bool_decide_eq_false_2 by done. cbn [negb].
  eapply has_next_char_spec; [exact H2|]. destruct s2 as [|b s2].
  { rewrite bool_decide_eq_true_2 by done. cbn [negb].
    eapply awp_spend with (n - 2 * Z.of_nat (length (a :: s1))); [lia|]. awp_step.
    eapply Hr; [done|done|by right|done]. }
  rewrite bool_decide_eq_false_2 by done. cbn [negb length] in *.
  awp_step. eapply next_char_spec; [exact H1|lia|]. intros rc1' H1'.
  awp_step. eapply next_char_spec; [exact H2|lia|]. intros rc2' H2'. cbn [str_cmp] in *.
  destruct (char_val a =? char_val b) eqn:E; cbn [negb].
  - eapply IH; [exact H1'|exact H2'|lia|lia|..].
    + eapply (eq_ind _ (λ z, Φ _ (TView H z))); [exact Hl|lia].
    + intros. eapply (eq_ind _ (λ z, Φ _ (TView H z))); [by eapply Hr|lia].
  - eapply awp_spend with (n - 2 * Z.of_nat (S (length s1))); [lia|]. by awp_step.
Qed.

Lemma compare_ends_spec H n rc1 rc2 t1 t2 (Φ : Z → tview → Prop) :
  cursor H rc1 t1 → cursor H rc2 t2 → t1 = [] ∨ t2 = [] →
  Φ (str_cmp t1 t2) (TView H n) → awp (compare_ends rc1 rc2) Φ (TView H n).
Proof.
  intros H1 H2 Ht HΦ. unfold compare_ends.
  awp_step. eapply has_next_char_spec; [exact H1|]. cbv beta.
  awp_step. eapply has_next_char_spec; [exact H2|]. awp_step.
  destruct Ht as [->| ->]; [destruct t2|destruct t1]; exact HΦ.
Qed.

(** the two cursors at the start of strings that are not empty *)
Lemma compare_string_record_spec H fuel n rc1 rc2 s1 s2 (Φ : Z → tview → Prop) :
  cursor H rc1 s1 → cursor H rc2 s2 → (length s1 < fuel)%nat → 2 * Z.of_nat (length s1) <= n →
  Φ (str_cmp s1 s2) (TView H (n - 2 * Z.of_nat (length s1))) →
  awp (compare_string_record fuel rc1 rc2) Φ (TView H n).
Proof.
  intros H1 H2 Hf Hn HΦ. pose proof H1 as (x1 & d1 & y1 & Hc1 & _).
  pose proof H2 as (x2 & d2 & y2 & Hc2 & _). unfold compare_string_record.
  awp_step. eapply str_chunk_size_spec; [exact Hc1|]. cbv beta.
  awp_step. eapply str_chunk_size_spec; [exact Hc2|]. cbv beta.
  destruct Hc1 as (_ & _ & Hd1 & _), Hc2 as (_ & _ & Hd2 & _).
  rewrite !(proj2 (Z.eqb_neq _ 0)) by lia.
  awp_step. eapply compare_loop_spec; [exact H1|exact H2|done|done|by awp_step|].
  intros ???? Ht1 Ht2 Ht E. eapply compare_ends_spec; [done..|]. by rewrite E.
Qed.

(** *** Copying out *)

Lemma edit_obj_spec {St G} {RS : Rep St G} (o : list byte) off bs (Φ : list byte → G → Prop) g :
  0 <= off → off + Z.of_nat (length bs) <= Z.of_nat (length o) →
  Φ (splice (Z.to_nat off) bs o) g → awp (edit_obj o (wr off bs)) Φ g.
Proof. intros H0 H1 HΦ. apply awp_on_obj, wp_bind, wp_wr; done. Qed.

Lemma load_loop_spec H fuel : ∀ n rc s pre rest max (Φ : Z * list byte → tview → Prop),
  cursor H rc s → (length s < fuel)%nat → Z.of_nat (length s) <= n →
  Z.of_nat (length pre) <= max <= Z.of_nat (length pre + length rest) →
  (let k := Nat.min (length s) (Z.to_nat max - length pre) in
   Φ (Z.of_nat (length pre + k), pre ++ take k s ++ drop k rest)
     (TView H (n - Z.of_nat (length s)))) →
  awp (load_loop fuel rc (pre ++ rest) max (Z.of_nat (length pre))) Φ (TView H n).
Proof.
  induction fuel as [|fuel IH]; intros n rc s pre rest max Φ Hc Hf Hn Hmax HΦ; [lia|].
  cbn [load_loop]. awp_step. eapply has_next_char_spec; [exact Hc|]. cbv beta.
  eapply (awp_spend _ _ _ _ n); [lia|]. destruct s as [|c s].
  { rewrite bool_decide_eq_true_2 by done. cbn [negb]. cbv zeta in HΦ. cbn [length] in *.
    rewrite Nat.min_0_l in HΦ. replace (length pre + 0)%nat with (length pre) in HΦ by lia.
    rewrite take_0, drop_0 in HΦ. awp_step.
    eapply (eq_ind _ (λ z, Φ _ (TView H z))); [exact HΦ|lia]. }
  rewrite bool_decide_eq_false_2 by done. cbn [negb].
  destruct (Z.leb_spec max (Z.of_nat (length pre))).
  { eapply awp_spend with (n - Z.of_nat (length (c :: s))); [lia|]. awp_step.
    replace (Z.to_nat max - length pre)%nat with 0%nat in HΦ by lia.
    cbv zeta in HΦ. rewrite Nat.min_0_r, Nat.add_0_r, take_0, drop_0 in HΦ. exact HΦ. }
  cbn [length] in *. awp_step. eapply next_char_spec; [exact Hc|lia|]. intros rc' Hc'.
  destruct rest as [|r rest]; [simpl in Hmax; lia|]. cbn [length] in *.
  awp_step. eapply edit_obj_spec; [lia|simpl; rewrite length_app; simpl; lia|].
  rewrite Nat2Z.id. unfold splice. rewrite take_app_length, <- drop_drop, drop_app_length.
  change (drop (length [c]) (r :: rest)) with rest. rewrite (app_assoc pre).
  replace (Z.of_nat (length pre) + 1) with (Z.of_nat (length (pre ++ [c])))
    by (rewrite length_app; simpl; lia).
  eapply IH; [exact Hc'|lia|lia|rewrite length_app; simpl; lia|]. cbv zeta in *.
  rewrite length_app. cbn [length].
  replace (Nat.min (S (length s)) (Z.to_nat max - length pre)) with
    (S (Nat.min (length s) (Z.to_nat max - (length pre + 1)))) in HΦ by lia.
  eapply (eq_ind _ (λ z, Φ z _)); [eapply (eq_ind _ (λ z, Φ _ (TView H z))); [exact HΦ|lia]|].
  f_equal; [lia|]. cbn [firstn skipn]. by rewrite <- app_assoc.
Qed.

(** [load_string] copies at most [max] characters, and ends a shorter string
    with a zero byte *)
Lemma load_string_spec H fuel n rc s dest max (Φ : Z * list byte → tview → Prop) :
  cursor H rc s → (length s < fuel)%nat → Z.of_nat (length s) <= n →
  0 <= max <= Z.of_nat (length dest) →
  (let k := Nat.min (length s) (Z.to_nat max) in
   let out := take k s ++ (if Z.of_nat k <? max then [x00] else []) in
   Φ (Z.of_nat k, out ++ drop (length out) dest) (TView H (n - Z.of_nat (length s)))) →
  awp (load_string fuel rc dest max) Φ (TView H n).
Proof.
  intros Hc Hf Hn Hmax HΦ. unfold load_string. awp_step.
  eapply (load_loop_spec H fuel n rc s [] dest); [done|done|done|simpl; lia|]. cbv zeta in *.
  cbn [length app]. rewrite Nat.sub_0_r, Nat.add_0_l.
  set (k := Nat.min (length s) (Z.to_nat max)) in *.
  assert (length (take k s) = k) as Hk by (rewrite length_take; lia).
  destruct (Z.ltb_spec (Z.of_nat k) max).
  - awp_step. eapply edit_obj_spec; [lia|rewrite length_app, length_drop, Hk; simpl; lia|]. awp_step.
    rewrite Nat2Z.id. unfold splice. rewrite take_app_length' by done.
    rewrite <- drop_drop, drop_app_length', drop_drop by done.
    rewrite length_app, Hk in HΦ. cbn [length] in *. by rewrite <- app_assoc in HΦ.
  - awp_step. rewrite app_nil_r, Hk in HΦ. exact HΦ.
Qed.
End reader.
