(* ===== verification/StrWrite.v ===== *)
(** Writing strings: [write_string] stores a string as a chain of chunks, the
    last one first, in a heap of its own that is added to what was there.  The
    proofs use tables only through [HeapWriter]. *)
From stdpp Require Import base gmap list fin_maps.
From Stdlib Require Import ZArith Lia Strings.Byte.
From S2P Require Import Prelude PoolClient Table HeapStore HeapWrite Str StrSpec.
#[local] Open Scope Z_scope.

(** ** Sizes *)

(** the chunks of a string of [n] characters, and the bytes of a page they take *)
Definition chunks (n : nat) : Z := (Z.of_nat n + 19) / 20.
Definition string_room (n : nat) : Z := Z.of_nat n + 16 * chunks n.
(** ... and those of its items alone *)
Definition string_bytes (n : nat) : Z := Z.of_nat n + 12 * chunks n.

(** a string that fits the [short] that counts its full chunks *)
Definition string_fits (n : nat) : Prop := (0 < n)%nat ∧ Z.of_nat n <= 655360.

(** a string is full chunks and a last one that is not empty *)
Lemma last_chunk n : string_fits n →
  ∃ k e : nat, n = (20 * k + e)%nat ∧ (0 < e <= 20)%nat ∧ last_chunk_len (Z.of_nat n) = Z.of_nat e ∧
    chunks n = Z.of_nat k + 1.
Proof.
  intros [H0 Hn]. unfold last_chunk_len, chunks. change STR_CHUNK_MAX_LEN with 20.
  rewrite uwrap_id by (unfold in_u; lia).
  assert (∃ k e : nat, n = (20 * k + e)%nat ∧ (0 < e <= 20)%nat) as (k & e & -> & He).
  { exists ((n - 1) / 20)%nat, (n - 20 * ((n - 1) / 20))%nat.
    pose proof (Nat.div_mod (n - 1) 20). pose proof (Nat.mod_upper_bound (n - 1) 20). lia. }
  exists k, e. split; [done|]. split; [done|]. split.
  - rewrite swrap_id; [|lia|].
    2: { pose proof (Z.mod_pos_bound (Z.of_nat (20 * k + e)) 20).
         unfold in_s. change (2 ^ (16 - 1)) with 32768. lia. }
    destruct (decide (e = 20%nat)) as [->|Hne].
    + replace (Z.of_nat (20 * k + 20)) with ((Z.of_nat k + 1) * 20) by lia. by rewrite Z.mod_mul.
    + replace (Z.of_nat (20 * k + e)) with (Z.of_nat e + Z.of_nat k * 20) by lia.
      rewrite Z.mod_add, Z.mod_small by lia. by rewrite (proj2 (Z.eqb_neq _ 0)) by lia.
  - symmetry. apply (Z.div_unique _ _ _ (Z.of_nat e - 1)); lia.
Qed.

(** ** Chains in a growing heap *)

Lemma chain_mono H H' rid s : H ⊆ H' → chain H rid s → chain H' rid s.
Proof.
  intros Hs. induction 1 as [rid d Hr Hd|rid next d s Hr Hd Hn _ IH].
  - apply chain_last; [by eapply lookup_weaken|done].
  - eapply chain_more; [by eapply lookup_weaken|done|done|done].
Qed.

(** the identifiers and the contents of the chunks of a string, in order *)
Inductive links (H : gmap RID (list byte)) : list RID → list (list byte) → Prop :=
  | links_last rid d :
      H !! rid = Some (chunk_enc no_rid d) → (0 < length d <= 20)%nat → links H [rid] [d]
  | links_more rid next rids d ds :
      H !! rid = Some (chunk_enc next d) → length d = 20%nat → rid_ok next →
      links H (next :: rids) ds → links H (rid :: next :: rids) (d :: ds).

Lemma chain_links H rid s : chain H rid s → ∃ rids ds, links H (rid :: rids) ds ∧ concat ds = s.
Proof.
  induction 1 as [rid d Hr Hd|rid next d s Hr Hd Hok _ (rids & ds & Hl & <-)].
  - exists [], [d]. split; [by constructor|]. simpl. by rewrite app_nil_r.
  - exists (next :: rids), (d :: ds). split; [by constructor|done].
Qed.

Lemma links_length H rids ds : links H rids ds →
  length rids = length ds ∧ chunks (length (concat ds)) = Z.of_nat (length ds) ∧ (0 < length (concat ds))%nat.
Proof.
  unfold chunks. induction 1 as [rid d Hr Hd|rid next rids d ds Hr Hd Hok _ (IH1 & IH2 & IH3)].
  - simpl. rewrite app_nil_r. split; [done|]. split; [|lia]. symmetry.
    apply (Z.div_unique _ _ _ (Z.of_nat (length d) - 1)); lia.
  - cbn [concat length] in *. rewrite length_app, Hd. split; [lia|]. split; [|lia].
    replace (Z.of_nat (20 + length (concat ds)) + 19) with (Z.of_nat (length (concat ds)) + 19 + 1 * 20) by lia.
    rewrite Z.div_add by lia. lia.
Qed.

(** ** Chunks *)

Lemma splice_after (p bs r : list byte) : splice (length p) bs (p ++ r) = p ++ bs ++ drop (length bs) r.
Proof.
  unfold splice. rewrite take_app_length. by rewrite <- drop_drop, drop_app_length.
Qed.

Lemma calc_chunk_size (d : list byte) : (0 < length d <= 20)%nat →
  calc_str_chunk_size (Z.of_nat (length d)) = 12 + Z.of_nat (length d).
Proof.
  intros Hd. unfold calc_str_chunk_size. change RID_SIZE with 10.
  rewrite !uwrap_id by (unfold in_u; rewrite ?uwrap_id by (unfold in_u; lia); lia).
  rewrite swrap_id; [lia|lia|]. unfold in_s. change (2 ^ (16 - 1)) with 32768. lia.
Qed.

(** the three fields written over what the local variable held *)
Lemma make_chunk_spec {St G} {RS : Rep St G} junk rid d data from (Φ : list byte → G → Prop) g :
  length junk = 32%nat → (0 < length d <= 20)%nat → 0 <= from →
  (∀ i c, d !! i = Some c → data !! (Z.to_nat from + i)%nat = Some c) →
  Φ (chunk_enc rid d ++ drop (12 + length d) junk) g →
  awp (make_chunk junk rid (Z.of_nat (length d)) data from) Φ g.
Proof.
  intros Hj Hd Hf Hdata HΦ. unfold make_chunk, edit_obj. apply awp_on_obj. unfold wr_rid.
  set (o1 := rid_enc rid ++ drop 10 junk). set (head := rid_enc rid ++ le_enc 2 (Z.of_nat (length d))).
  assert (length head = 12%nat) as Hh by (unfold head; by rewrite length_app, rid_enc_length, le_enc_length).
  wp_step. wp_step. apply wp_wr; [done|rewrite rid_enc_length; lia|].
  assert (splice (Z.to_nat 0) (rid_enc rid) junk = o1) as ->.
  { pose proof (splice_after [] (rid_enc rid) junk) as E. by rewrite rid_enc_length in E. }
  assert (length o1 = 32%nat) as H1 by (unfold o1; rewrite length_app, rid_enc_length, length_drop; lia).
  wp_step. apply wp_wr_i; [done|by rewrite H1|].
  assert (set_i 2 off_chunk_size (Z.of_nat (length d)) o1 = head ++ drop 12 junk) as ->.
  { unfold set_i, o1, head. change (Z.to_nat off_chunk_size) with 10%nat.
    rewrite <- (rid_enc_length rid) at 1. rewrite splice_after, le_enc_length, drop_drop. by rewrite <- app_assoc. }
  unfold for_ne. rewrite (proj2 (Z.ltb_ge _ 0)) by lia. rewrite Z.sub_0_r, Nat2Z.id.
  eapply wp_mono; [apply (wp_iter_up _ 0 _ (λ i o, o = (head ++ take (Z.to_nat i) d) ++ drop (12 + Z.to_nat i) junk))|].
  - by rewrite take_0, app_nil_r.
  - intros i o Hi ->. destruct (lookup_lt_is_Some_2 d (Z.to_nat i)) as [c Hc]; [lia|].
    assert (length (head ++ take (Z.to_nat i) d) = (12 + Z.to_nat i)%nat) as Hp by (rewrite length_app, length_take; lia).
    unfold data_at. wp_step. wp_step. apply wp_need; [apply Z.leb_le; lia|].
    apply wp_of_opt with c. { rewrite Z2Nat.inj_add by lia. by apply Hdata. }
    change off_chunk_data with 12. apply wp_wr; [lia|rewrite length_app, Hp, length_drop; simpl; lia|].
    replace (Z.to_nat (12 + i)) with (length (head ++ take (Z.to_nat i) d)) by lia.
    rewrite splice_after, drop_drop. replace (Z.to_nat (i + 1)) with (S (Z.to_nat i)) by lia.
    rewrite (take_S_r _ _ _ Hc), <- !app_assoc. do 4 f_equal. simpl. lia.
  - intros [] o ->. wp_step. rewrite Z.add_0_l, Nat2Z.id, take_ge by lia. unfold head in *.
    unfold chunk_enc in HΦ. by rewrite <- !app_assoc in *.
Qed.

(** the slice of a string a chunk holds *)
Lemma slice_data (d l r : list byte) i c :
  d !! i = Some c → (l ++ d ++ r) !! (length l + i)%nat = Some c.
Proof.
  intros Hi. rewrite lookup_app_r by lia. rewrite lookup_app_l by (apply lookup_lt_Some in Hi; lia).
  by replace (length l + i - length l)%nat with i by lia.
Qed.

(** the empty string has no last chunk: twenty characters before the array are
    read *)
Lemma write_string_empty_undefined fuel junk data t : length junk = 32%nat →
  write_string fuel junk data 0 t = Undef.
Proof.
  intros Hj. do 32 (destruct junk as [|? junk]; [done|]). destruct junk; [|done]. vm_compute. reflexivity.
Qed.

Section writer.
Context {RV : Rep Table wview} (fuel : nat) (cost : Z) {HW : HeapWriter fuel cost}.
Context (Hcost : 0 <= cost).
Implicit Types H : gmap RID (list byte).

(** a new chunk *)
Lemma insert_chunk H n R next d rest size (Φ : RID → wview → Prop) :
  size = 12 + Z.of_nat (length d) → (0 < length d <= 20)%nat → size + 4 <= R → cost <= n →
  (∀ rid, H !! rid = None → rid_ok rid →
    Φ rid (WView (<[rid := chunk_enc next d]> H) (n - cost) (R - (size + 4)))) →
  awp (table_insert fuel (chunk_enc next d ++ rest) size) Φ (WView H n R).
Proof using HW.
  intros -> Hd HR Hn HΦ. eapply heap_insert; [lia|rewrite length_app, chunk_enc_length; lia|done|done|].
  intros rid Hr Hok. replace (Z.to_nat (12 + Z.of_nat (length d))) with (length (chunk_enc next d))
    by (rewrite chunk_enc_length; lia).
  rewrite take_app_length. by apply HΦ.
Qed.

(** a heap with one more item *)
Lemma piece_insert (F B : gmap RID (list byte)) rid bs : F ##ₘ B → (F ∪ B) !! rid = None →
  <[rid:=bs]> F ##ₘ B ∧ F ⊆ <[rid:=bs]> F ∧ <[rid:=bs]> (F ∪ B) = <[rid:=bs]> F ∪ B ∧
  weight (<[rid:=bs]> F) = weight F + Z.of_nat (length bs).
Proof using.
  intros Hd [HF HB]%lookup_union_None. split; [by apply map_disjoint_insert_l|].
  split; [by apply insert_subseteq|]. split; [apply insert_union_l|]. rewrite weight_insert by done. lia.
Qed.

(** the chunks before the last one: the string is the heap [F], beside [B] *)
Lemma write_chunks_spec junk s2 pad B k : ∀ F n R rid s1 (Φ : RID → wview → Prop),
  length junk = 32%nat → length s1 = (20 * k)%nat → F ##ₘ B → chain F rid s2 → rid_ok rid →
  36 * Z.of_nat k <= R → cost * Z.of_nat k <= n →
  (∀ rid' F', F' ##ₘ B → chain F' rid' (s1 ++ s2) → weight F' = weight F + 32 * Z.of_nat k → rid_ok rid' →
    Φ rid' (WView (F' ∪ B) (n - cost * Z.of_nat k) (R - 36 * Z.of_nat k))) →
  awp (write_chunks fuel junk (s1 ++ pad) k rid) Φ (WView (F ∪ B) n R).
Proof using HW Hcost.
  revert s2 pad. induction k as [|k IH]; intros s2 pad F n R rid s1 Φ Hj Hs1 HFB Hc Hok HR Hn HΦ; cbn [write_chunks].
  - destruct s1; [|simpl in Hs1; lia]. awp_step.
    replace (WView (F ∪ B) n R) with (WView (F ∪ B) (n - cost * Z.of_nat 0) (R - 36 * Z.of_nat 0)) by (f_equal; lia).
    apply HΦ; [done|done|lia|done].
  - assert (length (take (20 * k) s1) = (20 * k)%nat) as Hp by (rewrite length_take; lia).
    assert (length (drop (20 * k) s1) = 20%nat) as Hd by (rewrite length_drop; lia).
    rewrite <- (take_drop (20 * k) s1) in HΦ |- *.
    set (p := take (20 * k) s1) in *. set (d := drop (20 * k) s1) in *. clearbody p d. clear s1 Hs1.
    awp_step. change STR_CHUNK_MAX_LEN with (Z.of_nat 20). rewrite <- Hd at 1.
    eapply make_chunk_spec; [done|lia|lia| |].
    { intros i c Hi. replace (Z.to_nat (Z.of_nat k * Z.of_nat 20) + i)%nat with (length p + i)%nat by lia.
      rewrite <- app_assoc. by apply slice_data. }
    cbv beta. awp_step. eapply insert_chunk; [rewrite Hd; done|lia|change STR_CHUNK_MAX_SIZE with 32; lia|lia|].
    intros rid' Hnew Hok'. cbv beta. rewrite <- app_assoc.
    destruct (piece_insert F B rid' (chunk_enc rid d) HFB Hnew) as (HFB' & Hsub & -> & HwF). rewrite chunk_enc_length in HwF.
    eapply (IH (d ++ s2)); [done|done|done| |done|change STR_CHUNK_MAX_SIZE with 32; lia|lia|].
    { eapply chain_more; [apply lookup_insert_eq|done|done|by eapply chain_mono]. }
    intros rid2 F2 HFB2 Hc2 Hw2 Hok2.
    replace (n - cost - cost * Z.of_nat k) with (n - cost * Z.of_nat (S k)) by lia.
    replace (R - (STR_CHUNK_MAX_SIZE + 4) - 36 * Z.of_nat k) with (R - 36 * Z.of_nat (S k))
      by (change STR_CHUNK_MAX_SIZE with 32; lia).
    rewrite app_assoc in Hc2. apply HΦ; [done|done|lia|done].
Qed.

(** [write_string] of the string [s] at the start of the caller's buffer *)
Lemma write_string_spec H n R junk s pad (Φ : RID → wview → Prop) :
  length junk = 32%nat → string_fits (length s) → string_room (length s) <= R →
  cost * chunks (length s) <= n →
  (∀ rid F, F ##ₘ H → chain F rid s → weight F = string_bytes (length s) → rid_ok rid →
    Φ rid (WView (F ∪ H) (n - cost * chunks (length s)) (R - string_room (length s)))) →
  awp (write_string fuel junk (s ++ pad) (Z.of_nat (length s))) Φ (WView H n R).
Proof using HW Hcost.
  intros Hj Hfit HR Hn HΦ. destruct (last_chunk _ Hfit) as (k & e & Hs & He & Elast & Ech).
  unfold string_room, string_bytes in *. rewrite Ech in *. destruct Hfit as [_ Hfit].
  assert (length (take (20 * k) s) = (20 * k)%nat) as H1 by (rewrite length_take; lia).
  assert (length (drop (20 * k) s) = e) as H2 by (rewrite length_drop; lia).
  unfold write_string. rewrite Elast. rewrite <- (take_drop (20 * k) s) in HR, HΦ, Hfit |- *.
  set (s1 := take (20 * k) s) in *. set (s2 := drop (20 * k) s) in *. rewrite length_app in *.
  clearbody s1 s2. clear s Hs Elast Ech. subst e.
  replace (Z.of_nat (length s1 + length s2) - Z.of_nat (length s2)) with (Z.of_nat (length s1)) by lia.
  awp_step. eapply make_chunk_spec; [done|done|lia| |].
  { intros i c Hi. rewrite Nat2Z.id, <- app_assoc. by apply slice_data. }
  cbv beta. rewrite calc_chunk_size by done.
  awp_step. eapply insert_chunk; [done|done|lia|lia|]. intros rid Hnew Hok. cbv beta zeta.
  rewrite uwrap_id by (unfold in_u; lia). change STR_CHUNK_MAX_LEN with 20.
  replace (Z.of_nat (length s1) `div` 20) with (Z.of_nat k) by (rewrite H1; apply (Z.div_unique _ _ _ 0); lia).
  rewrite swrap_id; [|lia|unfold in_s; change (2 ^ (16 - 1)) with 32768; lia]. rewrite Nat2Z.id, <- app_assoc.
  destruct (piece_insert ∅ H rid (chunk_enc no_rid s2) (map_disjoint_empty_l _)) as (HFB & _ & E & HwF);
    [by rewrite (map_empty_union H)|]. rewrite (map_empty_union H) in E.
  change (mkRID (-1) (-1)) with no_rid. rewrite E. clear E.
  eapply (write_chunks_spec junk s2); [done|done|done| |done|lia|lia|].
  { apply chain_last; [apply lookup_insert_eq|done]. }
  intros rid' F' HFB' Hc' Hw' Hok'.
  replace (n - cost - cost * Z.of_nat k) with (n - cost * (Z.of_nat k + 1)) by lia.
  replace (R - (12 + Z.of_nat (length s2) + 4) - 36 * Z.of_nat k)
    with (R - (Z.of_nat (length s1 + length s2) + 16 * (Z.of_nat k + 1))) by lia.
  rewrite weight_empty, chunk_enc_length in HwF. apply HΦ; [done|done|lia|done].
Qed.
End writer.
