(* ===== verification/StrDelete.v ===== *)
(** Freeing strings: [delete_string] removes the chunks of a string and nothing
    else.  The proofs use tables only through [HeapWriter]. *)
From stdpp Require Import base gmap list fin_maps.
From Stdlib Require Import ZArith Lia Strings.Byte.
From S2P Require Import Prelude PoolClient Table HeapStore HeapWrite Str StrSpec StrWrite.
#[local] Open Scope Z_scope.

(** ** Chains in a shrinking heap *)

(** a chain does not come back to a chunk before it *)
Lemma chain_delete H r s x sx : chain H r s → chain H x sx → (length s < length sx)%nat → chain (delete x H) r s.
Proof.
  intros Hc Hx. induction Hc as [r d Hr Hd|r next d s Hr Hd Hok Hc IH]; intros Hlt.
  - assert (r ≠ x) as Hne.
    { intros ->. pose proof (chain_det _ _ _ _ (chain_last _ _ _ Hr Hd) Hx). subst. lia. }
    apply chain_last; [by rewrite lookup_delete_ne by congruence|done].
  - assert (r ≠ x) as Hne.
    { intros ->. pose proof (chain_det _ _ _ _ (chain_more _ _ _ _ _ Hr Hd Hok Hc) Hx). subst. lia. }
    rewrite length_app in Hlt.
    eapply chain_more; [by rewrite lookup_delete_ne by congruence|done|done|]. apply IH. lia.
Qed.

(** [H'] is [H] without some of the items of [P] *)
Record shrunk_by (P H H' : gmap RID (list byte)) : Prop := {
  sb_sub : H' ⊆ H;
  sb_out : ∀ x, P !! x = None → H' !! x = H !! x;
}.

Lemma shrunk_refl P H : shrunk_by P H H.
Proof. by constructor. Qed.

Lemma shrunk_mono P P' H H' : P' ⊆ P → shrunk_by P' H H' → shrunk_by P H H'.
Proof.
  intros Hs [H1 H2]. constructor; [done|]. intros x Hx. apply H2. by eapply lookup_weaken_None.
Qed.

Lemma shrunk_delete P H H' rid bs : P !! rid = Some bs →
  shrunk_by (delete rid P) (delete rid H) H' → shrunk_by P H H'.
Proof.
  intros HP [H1 H2]. constructor; [etrans; [exact H1|apply delete_subseteq]|].
  intros x Hx. assert (x ≠ rid) as Hne by congruence.
  rewrite H2; [by rewrite lookup_delete_ne by congruence|]. rewrite lookup_delete_ne; congruence.
Qed.

(** ** Freeing *)

Section delete.
Context {RV : Rep Table wview} (fuel : nat) (cost : Z) {HW : HeapWriter fuel cost}.
Context (Hcost : 0 <= cost).
Implicit Types H P : gmap RID (list byte).

(** the mark at the end of a string *)
Lemma delete_nothing m junk H n R (Φ : unit → wview → Prop) :
  (0 < m)%nat → Φ tt (WView H n R) → awp (delete_chunks fuel m junk no_rid) Φ (WView H n R).
Proof using. intros Hm HΦ. destruct m as [|m]; [lia|]. cbn. by awp_step. Qed.

(** the identifiers of the heap are none of the marks *)
Lemma awp_rids {A} (m : M Table A) H n R (Φ : A → wview → Prop) :
  ((∀ r bs, H !! r = Some bs → rid_ok r) → awp m Φ (WView H n R)) → awp m Φ (WView H n R).
Proof using HW.
  intros Hm t Ht. apply Hm; [|done]. intros r bs Hat.
  exact (@heap_rids _ (write_reader R) _ H n _ _ Ht Hat).
Qed.

(** a chunk is read and removed, and the loop goes on *)
Lemma delete_chunk m junk H n R rid next d (Φ : unit → wview → Prop) :
  length junk = 32%nat → H !! rid = Some (chunk_enc next d) → (0 < length d <= 20)%nat →
  rid_dec (rid_enc next) = next → cost + 1 <= n →
  awp (delete_chunks fuel m junk next) Φ (WView (delete rid H) (n - (cost + 1)) R) →
  awp (delete_chunks fuel (S m) junk rid) Φ (WView H n R).
Proof using HW Hcost.
  intros Hj Hat Hd Hfit Hn Hm. cbn [delete_chunks]. apply awp_rids. intros Hids.
  rewrite (proj2 (Z.eqb_neq _ (-1))) by (destruct (Hids _ _ Hat) as (_ & _ & _ & ?); lia).
  awp_step. apply awp_reading. eapply heap_read; [exact Hat|rewrite chunk_enc_length; lia|rewrite chunk_enc_length; lia|lia|].
  cbv beta. cbn [t_heap t_ops]. awp_step. eapply heap_delete; [exact Hat|lia|].
  awp_step. eapply str_chunk_rid_spec; [by apply chunk_is_read|].
  by replace (n - 1 - cost) with (n - (cost + 1)) by lia.
Qed.

Lemma delete_chunks_spec m : ∀ P H n R junk rid s (Φ : unit → wview → Prop),
  length junk = 32%nat → chain P rid s → P ⊆ H → chunks (length s) < Z.of_nat m →
  (cost + 1) * chunks (length s) <= n →
  (∀ H', shrunk_by P H H' → weight H' = weight H - string_bytes (length s) → Φ tt (WView H' (n - (cost + 1) * chunks (length s)) R)) →
  awp (delete_chunks fuel m junk rid) Φ (WView H n R).
Proof using HW Hcost.
  induction m as [|m IH]; intros P H n R junk rid s Φ Hj Hc Hs Hm Hn HΦ.
  { unfold chunks in Hm. pose proof (Z.div_pos (Z.of_nat (length s) + 19) 20). lia. }
  destruct Hc as [rid d Hr Hd|rid next d s Hr Hd Hok Hc].
  - assert (chunks (length d) = 1) as E.
    { unfold chunks. symmetry. apply (Z.div_unique _ _ _ (Z.of_nat (length d) - 1)); lia. }
    rewrite E in *. eapply delete_chunk; [done|by eapply lookup_weaken|done|apply rid_dec_enc_no_rid|lia|].
    eapply delete_nothing; [lia|]. replace (n - (cost + 1)) with (n - (cost + 1) * 1) by lia. apply HΦ.
    + eapply shrunk_delete; [exact Hr|apply shrunk_refl].
    + erewrite weight_delete by (by eapply lookup_weaken). rewrite chunk_enc_length. unfold string_bytes. rewrite E. lia.
  - assert (chunks (length (d ++ s)) = chunks (length s) + 1) as E.
    { unfold chunks. rewrite length_app, Hd.
      replace (Z.of_nat (20 + length s) + 19) with (Z.of_nat (length s) + 19 + 1 * 20) by lia.
      by rewrite Z.div_add by lia. }
    assert (0 <= chunks (length s)) as H0 by (unfold chunks; apply Z.div_pos; lia).
    rewrite E in *. assert ((cost + 1) * (chunks (length s) + 1) = (cost + 1) + (cost + 1) * chunks (length s)) as Ec by lia.
    assert (0 <= (cost + 1) * chunks (length s)) by nia.
    eapply delete_chunk; [done|by eapply lookup_weaken|lia|by apply rid_dec_enc|lia|].
    eapply (IH (delete rid P) _ _ _ _ _ s); [done| |by apply delete_mono|lia|lia|].
    + eapply chain_delete; [exact Hc|by eapply chain_more|]. rewrite length_app. lia.
    + intros H' Hsh Hw. replace (n - (cost + 1) - (cost + 1) * chunks (length s))
        with (n - (cost + 1) * (chunks (length s) + 1)) by lia.
      apply HΦ; [by eapply shrunk_delete|]. erewrite Hw, weight_delete by (by eapply lookup_weaken).
      rewrite chunk_enc_length. unfold string_bytes. rewrite E, length_app. lia.
Qed.

(** [delete_string] of a string whose chunks are those of [P], a part of the heap *)
Lemma delete_string_spec P H n R junk rid s (Φ : unit → wview → Prop) :
  length junk = 32%nat → chain P rid s → P ⊆ H → (length s < fuel)%nat →
  (cost + 1) * chunks (length s) <= n →
  (∀ H', shrunk_by P H H' → weight H' = weight H - string_bytes (length s) → Φ tt (WView H' (n - (cost + 1) * chunks (length s)) R)) →
  awp (delete_string fuel junk rid) Φ (WView H n R).
Proof using HW Hcost.
  intros Hj Hc Hs Hf. apply (delete_chunks_spec fuel P); [done|done|done|].
  pose proof (chain_nonempty _ _ _ Hc) as Hne. destruct s as [|c s]; [done|]. cbn [length] in *.
  unfold chunks. apply Z.div_lt_upper_bound; lia.
Qed.

Lemma delete_no_string H n R junk (Φ : unit → wview → Prop) :
  (0 < fuel)%nat → Φ tt (WView H n R) → awp (delete_string fuel junk no_rid) Φ (WView H n R).
Proof using. apply delete_nothing. Qed.
End delete.
