(* ===== verification/BTree.v ===== *)
(** The B+ tree index ([include/b_tree.h], [src/b_tree.c]): nodes of at most
    four [RID]s on the pages of a buffer pool, ordered by comparison
    functions the caller passes, with a list of free nodes. *)
From stdpp Require Import base gmap list.
From Stdlib Require Import ZArith Lia Strings.Byte.
From S2P Require Import Prelude FileIO BufferPool Block HashMap Table.
#[local] Open Scope Z_scope.

(** ** The layout *)

(** [((PAGE_SIZE) - sizeof(size_t) - sizeof(off_t) - sizeof(char) -
    sizeof(off_t)) / 2 / (sizeof(off_t) + sizeof(RID))] *)
Definition DEGREE : Z := (PAGE_SIZE - 8 - 8 - 1 - 8) / 2 / (8 + RID_SIZE).

(** A [BNode]: [n], [next], five children, four [RID]s and [leaf]. *)
Definition off_n : Z := 0.
Definition off_node_next : Z := 8.
Definition off_child : Z := 16.
Definition off_row_ptr : Z := off_child + 8 * (2 * DEGREE + 1).
Definition off_leaf : Z := off_row_ptr + RID_SIZE * (2 * DEGREE).
(** A [BCtrlBlock]. *)
Definition off_root_node : Z := 0.
Definition off_free_node_head : Z := 8.

Definition rd_n : M Page Z := rd_u64 off_n.
Definition wr_n (v : Z) : M Page unit := wr_64 off_n v.
Definition rd_node_next : M Page Z := rd_i64 off_node_next.
Definition wr_node_next (v : Z) : M Page unit := wr_64 off_node_next v.
Definition rd_child (i : Z) : M Page Z :=
  need ((0 <=? i) && (i <? 2 * DEGREE + 1));; rd_i64 (off_child + 8 * i).
Definition wr_child (i v : Z) : M Page unit :=
  need ((0 <=? i) && (i <? 2 * DEGREE + 1));; wr_64 (off_child + 8 * i) v.
Definition rd_row (i : Z) : M Page RID :=
  need ((0 <=? i) && (i <? 2 * DEGREE));; rd_rid (off_row_ptr + RID_SIZE * i).
Definition wr_row (i : Z) (rid : RID) : M Page unit :=
  need ((0 <=? i) && (i <? 2 * DEGREE));; wr_rid (off_row_ptr + RID_SIZE * i) rid.
(** [node->leaf] as a condition *)
Definition rd_leaf : M Page bool := v ← rd_u8 off_leaf; mret (negb (v =? 0)).
Definition wr_leaf (b : bool) : M Page unit := wr_8 off_leaf (if b then 1 else 0).

Record NewChildEntry := mkNCE { child_key : RID; child_ptr : Z }.
Definition result_empty : NewChildEntry := mkNCE (mkRID (-1) (-1)) (-1).
(** the [failed_rid] of a search *)
Definition failed_rid : RID := mkRID (-1) 0.

(** The state: the pool of the index, and the world [W] the caller's
    functions work on. *)
Definition idx {W A} (m : M BufferPool A) : M (BufferPool * W) A :=
  zoom fst (λ p s, (p, snd s)) m.
Definition ext {W A} (m : M W A) : M (BufferPool * W) A :=
  zoom snd (λ w s, (fst s, w)) m.
(** an access through a node pointer *)
Definition nd {W A} (node : Ptr) (m : M Page A) : M (BufferPool * W) A := idx (at_page node m).

(** ** Opening and closing *)

Definition b_tree_init (path : PathState) : M BufferPool unit :=
  init_buffer_pool path;;
  len ← file_length;
  if negb (len =? 0) then mret tt
  else
    ctrl ← get_page 0;
    at_page ctrl (wr_64 off_free_node_head (-1));;
    at_page ctrl (wr_64 off_root_node (-1));;
    release 0.

Definition b_tree_close : M BufferPool unit := close_buffer_pool.

Section search.
Context {W : Type} (cmp : RID → M W Z).

(** the first position whose row compares equal *)
Definition find_row (node : Ptr) : M (BufferPool * W) Z :=
  n ← nd node rd_n;
  find_lt 0 n (λ counter,
    row ← nd node (rd_row counter);
    c ← ext (cmp row);
    mret (c =? 0)).

(** the first position whose row compares greater *)
Definition find_subtree (node : Ptr) : M (BufferPool * W) Z :=
  n ← nd node rd_n;
  find_ne 0 n (λ prt_child,
    row ← nd node (rd_row prt_child);
    c ← ext (cmp row);
    mret (c <? 0)).

(** the fuel bounds the depth of the tree *)
Fixpoint search_entry (fuel : nat) (addr : Z) : M (BufferPool * W) RID :=
  match fuel with
  | O => no_fuel
  | S fuel' =>
      node ← idx (get_page addr);
      leaf ← nd node rd_leaf;
      if leaf : bool then
        counter ← find_row node;
        n ← nd node rd_n;
        if counter <? n then
          result ← nd node (rd_row counter);
          idx (release addr);;
          mret result
        else
          idx (release addr);;
          mret failed_rid
      else
        prt_child ← find_subtree node;
        addr_child ← nd node (rd_child prt_child);
        idx (release addr);;
        search_entry fuel' addr_child
  end.

Definition b_tree_search (fuel : nat) : M (BufferPool * W) RID :=
  ctrl ← idx (get_page 0);
  root_node_addr ← nd ctrl (rd_i64 off_root_node);
  idx (release 0);;
  if root_node_addr =? -1 then mret failed_rid
  else search_entry fuel root_node_addr.
End search.

Section insert.
Context {W : Type} (cmp : RID → RID → M W Z) (insert_handler : RID → M W RID).
Abbreviation prog := (M (BufferPool * W)).

(** the loop [for (; p < n; p++) if (cmp(key, row_ptr[p]) < 0) break;] *)
Definition find_pos (node : Ptr) (key : RID) (n : Z) : prog Z :=
  find_ne 0 n (λ p,
    row ← nd node (rd_row p);
    c ← ext (cmp key row);
    mret (c <? 0)).

(** a node from the free list, else at the end of the file *)
Definition alloc_node (ctrl : Ptr) : prog (Z * Ptr) :=
  head ← nd ctrl (rd_i64 off_free_node_head);
  if negb (head =? -1) then
    node_new ← idx (get_page head);
    next ← nd node_new rd_node_next;
    nd ctrl (wr_64 off_free_node_head next);;
    mret (head, node_new)
  else
    addr_new ← idx file_length;
    node_new ← idx (get_page addr_new);
    mret (addr_new, node_new).

(** *** Internal nodes *)

(** an internal node with room takes the new child *)
Definition insert_child (addr : Z) (node : Ptr) (child_new : NewChildEntry)
    : prog NewChildEntry :=
  n ← nd node rd_n;
  tmp ← find_pos node (child_key child_new) n;
  for_down n tmp (λ i,
    row ← nd node (rd_row (i - 1));
    nd node (wr_row i row));;
  for_down (n + 1) (tmp + 1) (λ i,
    child ← nd node (rd_child (i - 1));
    nd node (wr_child i child));;
  nd node (wr_row tmp (child_key child_new));;
  nd node (wr_child (tmp + 1) (child_ptr child_new));;
  n ← nd node rd_n;
  nd node (wr_n (n + 1));;
  idx (release addr);;
  mret result_empty.

(** the new child goes to the left half *)
Definition split_child_left (node node_new : Ptr) (addr_new child_pos : Z)
    (child_new : NewChildEntry) : prog NewChildEntry :=
  key ← nd node (rd_row (DEGREE - 1));
  for_ne 0 DEGREE (λ i,
    row ← nd node (rd_row (DEGREE + i));
    nd node_new (wr_row i row);;
    child ← nd node (rd_child (DEGREE + i));
    nd node_new (wr_child i child));;
  child ← nd node (rd_child (2 * DEGREE));
  nd node_new (wr_child DEGREE child);;
  for_down (DEGREE - 1) child_pos (λ i,
    row ← nd node (rd_row (i - 1));
    nd node (wr_row i row);;
    child ← nd node (rd_child i);
    nd node (wr_child (i + 1) child));;
  nd node (wr_row child_pos (child_key child_new));;
  nd node (wr_child (child_pos + 1) (child_ptr child_new));;
  mret (mkNCE key addr_new).

(** the new key is the middle one *)
Definition split_child_middle (node node_new : Ptr) (addr_new : Z)
    (child_new : NewChildEntry) : prog NewChildEntry :=
  for_ne 0 DEGREE (λ i,
    row ← nd node (rd_row (DEGREE + i));
    nd node_new (wr_row i row);;
    child ← nd node (rd_child (DEGREE + i + 1));
    nd node_new (wr_child (i + 1) child));;
  nd node_new (wr_child 0 (child_ptr child_new));;
  mret (mkNCE (child_key child_new) addr_new).

(** the new child goes to the right half *)
Definition split_child_right (node node_new : Ptr) (addr_new child_pos : Z)
    (child_new : NewChildEntry) : prog NewChildEntry :=
  key ← nd node (rd_row DEGREE);
  child ← nd node (rd_child (DEGREE + 1));
  nd node_new (wr_child 0 child);;
  for_ne 0 (child_pos - DEGREE - 1) (λ i,
    row ← nd node (rd_row (DEGREE + i + 1));
    nd node_new (wr_row i row);;
    child ← nd node (rd_child (DEGREE + i + 2));
    nd node_new (wr_child (i + 1) child));;
  nd node_new (wr_row (child_pos - DEGREE - 1) (child_key child_new));;
  nd node_new (wr_child (child_pos - DEGREE) (child_ptr child_new));;
  for_ne (child_pos - DEGREE) DEGREE (λ i,
    row ← nd node (rd_row (DEGREE + i));
    nd node_new (wr_row i row);;
    child ← nd node (rd_child (DEGREE + i + 1));
    nd node_new (wr_child (i + 1) child));;
  mret (mkNCE key addr_new).

(** the redistribution between a full internal node and a new one *)
Definition split_children (node node_new : Ptr) (addr_new : Z) (child_new : NewChildEntry)
    : prog NewChildEntry :=
  nd node_new (wr_n DEGREE);;
  nd node_new (wr_leaf false);;
  nd node_new (wr_node_next (-1));;
  child_pos ← find_pos node (child_key child_new) (2 * DEGREE);
  New_child_entry ←
    (if child_pos <? DEGREE then split_child_left node node_new addr_new child_pos child_new
     else if child_pos =? DEGREE then split_child_middle node node_new addr_new child_new
     else split_child_right node node_new addr_new child_pos child_new);
  nd node (wr_n DEGREE);;
  mret New_child_entry.

(** a full internal node, the root or not *)
Definition split_internal_root (addr : Z) (node : Ptr) (child_new : NewChildEntry)
    : prog NewChildEntry :=
  ctrl ← idx (get_page 0);
  '(addr_notleaf_new, node_notleaf_new) ← alloc_node ctrl;
  '(addr_root_new, node_new_root) ← alloc_node ctrl;
  idx (release 0);;
  New_child_entry ← split_children node node_notleaf_new addr_notleaf_new child_new;
  idx (release addr);;
  idx (release addr_notleaf_new);;
  nd node_new_root (wr_leaf false);;
  nd node_new_root (wr_n 1);;
  nd node_new_root (wr_child 0 addr);;
  nd node_new_root (wr_child 1 addr_notleaf_new);;
  nd node_new_root (wr_node_next (-1));;
  nd node_new_root (wr_row 0 (child_key New_child_entry));;
  idx (release addr_root_new);;
  ctrl ← idx (get_page 0);
  nd ctrl (wr_64 off_root_node addr_root_new);;
  idx (release 0);;
  mret New_child_entry.

Definition split_internal (addr : Z) (node : Ptr) (child_new : NewChildEntry)
    : prog NewChildEntry :=
  ctrl ← idx (get_page 0);
  '(addr_notleaf_new, node_notleaf_new) ← alloc_node ctrl;
  idx (release 0);;
  New_child_entry ← split_children node node_notleaf_new addr_notleaf_new child_new;
  idx (release addr);;
  idx (release addr_notleaf_new);;
  mret New_child_entry.

(** *** Leaves *)

(** a leaf with room *)
Definition insert_row (addr : Z) (node : Ptr) (rid : RID) : prog NewChildEntry :=
  n ← nd node rd_n;
  counter ← find_pos node rid n;
  for_down n counter (λ i,
    row ← nd node (rd_row (i - 1));
    nd node (wr_row i row));;
  nd node (wr_row counter rid);;
  n ← nd node rd_n;
  nd node (wr_n (n + 1));;
  idx (release addr);;
  mret result_empty.

(** the rows of a full leaf and [rid], over the leaf and a new one *)
Definition split_rows_left (node node_new : Ptr) (child_pos : Z) (rid : RID) : prog unit :=
  for_lt 0 (DEGREE + 1) (λ i,
    row ← nd node (rd_row (DEGREE - 1 + i));
    nd node_new (wr_row i row));;
  for_down (DEGREE - 1) child_pos (λ i,
    row ← nd node (rd_row (i - 1));
    nd node (wr_row i row));;
  nd node (wr_row child_pos rid).

Definition split_rows_right (node node_new : Ptr) (child_pos : Z) (rid : RID) : prog unit :=
  for_ne 0 (child_pos - DEGREE) (λ i,
    row ← nd node (rd_row (DEGREE + i));
    nd node_new (wr_row i row));;
  nd node_new (wr_row (child_pos - DEGREE) rid);;
  for_lt (child_pos - DEGREE + 1) (DEGREE + 1) (λ i,
    row ← nd node (rd_row (i + DEGREE - 1));
    nd node_new (wr_row i row)).

Definition split_leaf_root (addr : Z) (node : Ptr) (rid : RID) : prog NewChildEntry :=
  ctrl ← idx (get_page 0);
  '(addr_leaf_new, node_leaf_new) ← alloc_node ctrl;
  '(addr_root_new, node_new_root) ← alloc_node ctrl;
  idx (release 0);;
  nd node_leaf_new (wr_n (DEGREE + 1));;
  nd node_leaf_new (wr_leaf true);;
  nd node_leaf_new (wr_node_next (-1));;
  child_pos ← find_pos node rid (2 * DEGREE);
  (if child_pos <? DEGREE then split_rows_left node node_leaf_new child_pos rid
   else split_rows_right node node_leaf_new child_pos rid);;
  nd node (wr_n DEGREE);;
  nd node_new_root (wr_leaf false);;
  nd node_new_root (wr_n 1);;
  nd node_new_root (wr_child 0 addr);;
  nd node_new_root (wr_child 1 addr_leaf_new);;
  nd node_new_root (wr_node_next (-1));;
  row ← nd node_leaf_new (rd_row 0);
  key ← ext (insert_handler row);
  nd node_new_root (wr_row 0 key);;
  idx (release addr);;
  idx (release addr_leaf_new);;
  key ← nd node_new_root (rd_row 0);
  idx (release addr_root_new);;
  ctrl ← idx (get_page 0);
  nd ctrl (wr_64 off_root_node addr_root_new);;
  idx (release 0);;
  mret (mkNCE key addr_leaf_new).

Definition split_leaf (addr : Z) (node : Ptr) (rid : RID) : prog NewChildEntry :=
  ctrl ← idx (get_page 0);
  '(addr_leaf_new, node_leaf_new) ← alloc_node ctrl;
  idx (release 0);;
  nd node_leaf_new (wr_n (DEGREE + 1));;
  nd node_leaf_new (wr_leaf true);;
  nd node_leaf_new (wr_node_next (-1));;
  child_pos ← find_pos node rid (2 * DEGREE);
  key ←
    (if child_pos <? DEGREE then
       row ← nd node (rd_row (DEGREE - 1));
       key ← ext (insert_handler row);
       split_rows_left node node_leaf_new child_pos rid;;
       mret key
     else
       split_rows_right node node_leaf_new child_pos rid;;
       row ← nd node_leaf_new (rd_row 0);
       ext (insert_handler row));
  nd node (wr_n DEGREE);;
  idx (release addr);;
  idx (release addr_leaf_new);;
  mret (mkNCE key addr_leaf_new).

(** *** The recursion *)

Fixpoint insert_entry (fuel : nat) (addr : Z) (rid : RID) (root_node_addr : Z)
    : prog NewChildEntry :=
  match fuel with
  | O => no_fuel
  | S fuel' =>
      node ← idx (get_page addr);
      leaf ← nd node rd_leaf;
      if negb leaf then
        prt_child ← find_subtree (cmp rid) node;
        addr_child ← nd node (rd_child prt_child);
        idx (release addr);;
        child_new ← insert_entry fuel' addr_child rid root_node_addr;
        node ← idx (get_page addr);
        if child_ptr child_new =? -1 then
          idx (release addr);;
          mret child_new
        else
          n ← nd node rd_n;
          if n <? 2 * DEGREE then insert_child addr node child_new
          else if addr =? root_node_addr then split_internal_root addr node child_new
          else split_internal addr node child_new
      else
        n ← nd node rd_n;
        if n <? 2 * DEGREE then insert_row addr node rid
        else if addr =? root_node_addr then split_leaf_root addr node rid
        else split_leaf addr node rid
  end.

(** the empty tree gets a root leaf *)
Definition new_root (ctrl : Ptr) : prog unit :=
  head ← nd ctrl (rd_i64 off_free_node_head);
  root ←
    (if head =? -1 then idx (get_page PAGE_SIZE)
     else
       root ← idx (get_page head);
       next ← nd root rd_node_next;
       nd ctrl (wr_64 off_free_node_head next);;
       mret root);
  nd root (wr_n 0);;
  nd root (wr_node_next (-1));;
  nd root (wr_leaf true);;
  nd ctrl (wr_64 off_root_node PAGE_SIZE).

Definition b_tree_insert (fuel : nat) (rid : RID) : prog RID :=
  ctrl ← idx (get_page 0);
  root_node_addr ← nd ctrl (rd_i64 off_root_node);
  (if negb (root_node_addr =? -1) then _ ← idx (get_page root_node_addr); mret tt
   else new_root ctrl);;
  root_node_addr ← nd ctrl (rd_i64 off_root_node);
  idx (release 0);;
  idx (release root_node_addr);;
  insert_entry fuel root_node_addr rid root_node_addr;;
  mret rid.
End insert.

Section delete.
Context {W : Type} (cmp : RID → RID → M W Z) (insert_handler : RID → M W RID)
        (delete_handler : RID → M W unit).
Abbreviation prog := (M (BufferPool * W)).

(** [node->n--] *)
Definition dec_n (node : Ptr) : prog unit := n ← nd node rd_n; nd node (wr_n (n - 1)).
Definition inc_n (node : Ptr) : prog unit := n ← nd node rd_n; nd node (wr_n (n + 1)).

(** an emptied node goes to the free list *)
Definition free_node (addr : Z) (node : Ptr) : prog unit :=
  ctrl ← idx (get_page 0);
  nd node (wr_n 0);;
  head ← nd ctrl (rd_i64 off_free_node_head);
  nd node (wr_node_next head);;
  nd ctrl (wr_64 off_free_node_head addr);;
  idx (release 0);;
  idx (release addr).

(** the position of a child in its parent *)
Definition find_child (node_par : Ptr) (addr : Z) : prog Z :=
  n ← nd node_par rd_n;
  find_ne 0 (n + 1) (λ ttmp,
    child ← nd node_par (rd_child ttmp);
    mret (child =? addr)).

(** *** Internal nodes *)

(** the key at [child_old] and the child after it leave the node *)
Definition drop_child (node : Ptr) (child_old : Z) : prog unit :=
  child0 ← nd node (rd_child 0);
  childnode ← idx (get_page child0);
  leaf ← nd childnode rd_leaf;
  (if leaf : bool then
     row ← nd node (rd_row child_old);
     ext (delete_handler row)
   else mret tt);;
  child0 ← nd node (rd_child 0);
  idx (release child0);;
  n ← nd node rd_n;
  for_ne child_old (n - 1) (λ i,
    row ← nd node (rd_row (i + 1));
    nd node (wr_row i row);;
    child ← nd node (rd_child (i + 2));
    nd node (wr_child (i + 1) child));;
  dec_n node.

(** the first child of the right brother moves over *)
Definition borrow_child_right (addr parent_addr addr_bro : Z) (node node_par brother : Ptr)
    (child_old ttmp : Z) : prog Z :=
  drop_child node child_old;;
  n ← nd node rd_n;
  row ← nd node_par (rd_row ttmp);
  nd node (wr_row n row);;
  child ← nd brother (rd_child 0);
  nd node (wr_child (n + 1) child);;
  inc_n node;;
  row ← nd brother (rd_row 0);
  nd node_par (wr_row ttmp row);;
  bn ← nd brother rd_n;
  for_ne 1 bn (λ i,
    row ← nd brother (rd_row i);
    nd brother (wr_row (i - 1) row);;
    child ← nd brother (rd_child i);
    nd brother (wr_child (i - 1) child));;
  child ← nd brother (rd_child bn);
  nd brother (wr_child (bn - 1) child);;
  dec_n brother;;
  idx (release addr);;
  idx (release parent_addr);;
  idx (release addr_bro);;
  mret (-1).

(** the right brother's children move into the node *)
Definition merge_child_right (addr parent_addr addr_bro : Z) (node node_par brother : Ptr)
    (child_old ttmp : Z) : prog Z :=
  drop_child node child_old;;
  n ← nd node rd_n;
  row ← nd node_par (rd_row ttmp);
  nd node (wr_row n row);;
  child ← nd brother (rd_child 0);
  nd node (wr_child (n + 1) child);;
  inc_n node;;
  idx (release parent_addr);;
  n ← nd node rd_n;
  bn ← nd brother rd_n;
  for_ne 0 bn (λ i,
    row ← nd brother (rd_row i);
    nd node (wr_row (n + i) row);;
    child ← nd brother (rd_child (i + 1));
    nd node (wr_child (n + i + 1) child));;
  nd node (wr_n (n + bn));;
  idx (release addr);;
  free_node addr_bro brother;;
  mret ttmp.

(** the last child of the left brother moves over *)
Definition borrow_child_left (addr parent_addr addr_bro : Z) (node node_par brother : Ptr)
    (child_old ttmp : Z) : prog Z :=
  drop_child node child_old;;
  n ← nd node rd_n;
  for_down n 0 (λ i,
    row ← nd node (rd_row (i - 1));
    nd node (wr_row i row);;
    child ← nd node (rd_child i);
    nd node (wr_child (i + 1) child));;
  child ← nd node (rd_child 0);
  nd node (wr_child 1 child);;
  inc_n node;;
  row ← nd node_par (rd_row (ttmp - 1));
  nd node (wr_row 0 row);;
  bn ← nd brother rd_n;
  child ← nd brother (rd_child bn);
  nd node (wr_child 0 child);;
  row ← nd brother (rd_row (bn - 1));
  nd node_par (wr_row (ttmp - 1) row);;
  dec_n brother;;
  idx (release addr);;
  idx (release parent_addr);;
  idx (release addr_bro);;
  mret (-1).

(** the node's children move into the left brother *)
Definition merge_child_left (addr parent_addr addr_bro : Z) (node node_par brother : Ptr)
    (child_old ttmp : Z) : prog Z :=
  drop_child node child_old;;
  bn ← nd brother rd_n;
  row ← nd node_par (rd_row (ttmp - 1));
  nd brother (wr_row bn row);;
  child ← nd node (rd_child 0);
  nd brother (wr_child (bn + 1) child);;
  idx (release parent_addr);;
  inc_n brother;;
  n ← nd node rd_n;
  bn ← nd brother rd_n;
  for_ne 0 n (λ i,
    row ← nd node (rd_row i);
    nd brother (wr_row (bn + i) row);;
    child ← nd node (rd_child (i + 1));
    nd brother (wr_child (bn + i + 1) child));;
  nd brother (wr_n (bn + n));;
  idx (release addr_bro);;
  free_node addr node;;
  mret (ttmp - 1).

(** the root: it may be left with a single child, which becomes the root *)
Definition drop_child_root (addr : Z) (node : Ptr) (child_old : Z) : prog Z :=
  drop_child node child_old;;
  n ← nd node rd_n;
  (if n =? 0 then
     ctrl ← idx (get_page 0);
     head ← nd ctrl (rd_i64 off_free_node_head);
     nd node (wr_node_next head);;
     nd ctrl (wr_64 off_free_node_head addr);;
     child ← nd node (rd_child 0);
     nd ctrl (wr_64 off_root_node child);;
     idx (release 0)
   else mret tt);;
  idx (release addr);;
  mret (-1).

(** an internal node other than the root, one of whose children was merged *)
Definition delete_child (addr parent_addr : Z) (node : Ptr) (child_old : Z) : prog Z :=
  n ← nd node rd_n;
  if n >? DEGREE then
    drop_child node child_old;;
    idx (release addr);;
    mret (-1)
  else
    node_par ← idx (get_page parent_addr);
    ttmp ← find_child node_par addr;
    pn ← nd node_par rd_n;
    if negb (ttmp =? pn) then
      addr_bro ← nd node_par (rd_child (ttmp + 1));
      brother ← idx (get_page addr_bro);
      bn ← nd brother rd_n;
      if bn >? DEGREE
      then borrow_child_right addr parent_addr addr_bro node node_par brother child_old ttmp
      else merge_child_right addr parent_addr addr_bro node node_par brother child_old ttmp
    else
      addr_bro ← nd node_par (rd_child (ttmp - 1));
      brother ← idx (get_page addr_bro);
      bn ← nd brother rd_n;
      if bn >? DEGREE
      then borrow_child_left addr parent_addr addr_bro node node_par brother child_old ttmp
      else merge_child_left addr parent_addr addr_bro node node_par brother child_old ttmp.

(** *** Leaves *)

(** the position of the row equal to [rid] *)
Definition find_rid (node : Ptr) (rid : RID) : prog Z :=
  n ← nd node rd_n;
  find_ne 0 n (λ prt_final,
    row ← nd node (rd_row prt_final);
    c ← ext (cmp rid row);
    mret (c =? 0)).

Definition drop_row (node : Ptr) (rid : RID) : prog unit :=
  prt_final ← find_rid node rid;
  n ← nd node rd_n;
  for_ne prt_final (n - 1) (λ i,
    row ← nd node (rd_row (i + 1));
    nd node (wr_row i row));;
  dec_n node.

Definition borrow_row_right (addr parent_addr addr_bro : Z) (node node_par brother : Ptr)
    (rid : RID) (ttmp : Z) : prog Z :=
  drop_row node rid;;
  n ← nd node rd_n;
  row ← nd brother (rd_row 0);
  nd node (wr_row n row);;
  bn ← nd brother rd_n;
  for_ne 1 bn (λ i,
    row ← nd brother (rd_row i);
    nd brother (wr_row (i - 1) row));;
  inc_n node;;
  dec_n brother;;
  row ← nd node_par (rd_row ttmp);
  ext (delete_handler row);;
  row ← nd brother (rd_row 0);
  key ← ext (insert_handler row);
  nd node_par (wr_row ttmp key);;
  idx (release addr);;
  idx (release parent_addr);;
  idx (release addr_bro);;
  mret (-1).

Definition merge_row_right (addr parent_addr addr_bro : Z) (node brother : Ptr)
    (rid : RID) (ttmp : Z) : prog Z :=
  idx (release parent_addr);;
  drop_row node rid;;
  n ← nd node rd_n;
  bn ← nd brother rd_n;
  for_ne 0 bn (λ i,
    row ← nd brother (rd_row i);
    nd node (wr_row (n + i) row));;
  nd node (wr_n (n + bn));;
  idx (release addr);;
  free_node addr_bro brother;;
  mret ttmp.

(** here the rows before the deleted one move up to make room *)
Definition borrow_row_left (addr parent_addr addr_bro : Z) (node node_par brother : Ptr)
    (rid : RID) (ttmp : Z) : prog Z :=
  prt_final ← find_rid node rid;
  for_down prt_final 0 (λ i,
    row ← nd node (rd_row (i - 1));
    nd node (wr_row i row));;
  dec_n node;;
  bn ← nd brother rd_n;
  row ← nd brother (rd_row (bn - 1));
  nd node (wr_row 0 row);;
  inc_n node;;
  dec_n brother;;
  row ← nd node_par (rd_row (ttmp - 1));
  ext (delete_handler row);;
  row ← nd node (rd_row 0);
  key ← ext (insert_handler row);
  nd node_par (wr_row (ttmp - 1) key);;
  idx (release addr);;
  idx (release parent_addr);;
  idx (release addr_bro);;
  mret (-1).

Definition merge_row_left (addr parent_addr addr_bro : Z) (node brother : Ptr)
    (rid : RID) (ttmp : Z) : prog Z :=
  idx (release parent_addr);;
  drop_row node rid;;
  n ← nd node rd_n;
  bn ← nd brother rd_n;
  for_ne 0 n (λ i,
    row ← nd node (rd_row i);
    nd brother (wr_row (bn + i) row));;
  nd brother (wr_n (bn + n));;
  idx (release addr_bro);;
  free_node addr node;;
  mret (ttmp - 1).

(** the root leaf: an empty one is freed and the tree has no root *)
Definition drop_row_root (addr : Z) (node : Ptr) (rid : RID) : prog Z :=
  drop_row node rid;;
  n ← nd node rd_n;
  (if n =? 0 then
     ctrl ← idx (get_page 0);
     head ← nd ctrl (rd_i64 off_free_node_head);
     nd node (wr_node_next head);;
     nd ctrl (wr_64 off_free_node_head addr);;
     nd ctrl (wr_64 off_root_node (-1));;
     idx (release 0)
   else mret tt);;
  idx (release addr);;
  mret (-1).

(** a leaf other than the root *)
Definition delete_row (addr parent_addr : Z) (node : Ptr) (rid : RID) : prog Z :=
  n ← nd node rd_n;
  if n >? DEGREE then
    drop_row node rid;;
    idx (release addr);;
    mret (-1)
  else
    node_par ← idx (get_page parent_addr);
    ttmp ← find_child node_par addr;
    pn ← nd node_par rd_n;
    if negb (ttmp =? pn) then
      addr_bro ← nd node_par (rd_child (ttmp + 1));
      brother ← idx (get_page addr_bro);
      bn ← nd brother rd_n;
      if bn >? DEGREE
      then borrow_row_right addr parent_addr addr_bro node node_par brother rid ttmp
      else merge_row_right addr parent_addr addr_bro node brother rid ttmp
    else
      addr_bro ← nd node_par (rd_child (ttmp - 1));
      brother ← idx (get_page addr_bro);
      bn ← nd brother rd_n;
      if bn >? DEGREE
      then borrow_row_left addr parent_addr addr_bro node node_par brother rid ttmp
      else merge_row_left addr parent_addr addr_bro node brother rid ttmp.

(** *** The recursion: the position of the child that disappeared, or -1 *)
Fixpoint delete_entry (fuel : nat) (addr parent_addr : Z) (rid : RID) : prog Z :=
  match fuel with
  | O => no_fuel
  | S fuel' =>
      node ← idx (get_page addr);
      leaf ← nd node rd_leaf;
      if negb leaf then
        prt_child ← find_subtree (cmp rid) node;
        addr_child ← nd node (rd_child prt_child);
        idx (release addr);;
        child_old ← delete_entry fuel' addr_child addr rid;
        node ← idx (get_page addr);
        if child_old =? -1 then
          idx (release addr);;
          mret (-1)
        else if negb (parent_addr =? -1) then delete_child addr parent_addr node child_old
        else drop_child_root addr node child_old
      else if negb (parent_addr =? -1) then delete_row addr parent_addr node rid
      else drop_row_root addr node rid
  end.

(** with no root the function returns with the control page still pinned *)
Definition b_tree_delete (fuel : nat) (rid : RID) : prog unit :=
  ctrl ← idx (get_page 0);
  root_node_addr ← nd ctrl (rd_i64 off_root_node);
  if root_node_addr =? -1 then mret tt
  else
    idx (release 0);;
    _ ← delete_entry fuel root_node_addr (-1) rid;
    mret tt.
End delete.
