(* ===== verification/NodeSpec.v ===== *)
(** The pages of the index: a B+ tree node is a view of its page, the pool of
    the index is a control block and a map from addresses to nodes, and every
    access of [src/b_tree.c] through a node pointer is a rule on that map. *)
From stdpp Require Import base gmap list fin_maps.
From Stdlib Require Import ZArith Lia Strings.Byte.
From S2P Require Import Prelude FileIO BufferPool PoolLogic PoolClient Table HeapStore BTree.
#[local] Open Scope Z_scope.

(** ** Nodes *)

(** the fields of a [BNode]: five children, four rows *)
Record nview := NV {
  v_n : Z; v_next : Z; v_child : list Z; v_row : list RID; v_leaf : Z;
}.

Definition row_at (pg : Page) (i : nat) : RID := rid_dec (slice (56 + 10 * i) 10 pg).
Definition child_at (pg : Page) (i : nat) : Z := get_s 8 pg (16 + 8 * Z.of_nat i).
Definition view (pg : Page) : nview :=
  NV (get_u 8 pg 0) (get_s 8 pg 8) (child_at pg <$> seq 0 5) (row_at pg <$> seq 0 4)
     (get_u 1 pg 96).

Definition with_n (x : Z) (v : nview) : nview := NV x (v_next v) (v_child v) (v_row v) (v_leaf v).
Definition with_next (x : Z) (v : nview) : nview := NV (v_n v) x (v_child v) (v_row v) (v_leaf v).
Definition with_child (i : nat) (x : Z) (v : nview) : nview :=
  NV (v_n v) (v_next v) (<[i:=x]> (v_child v)) (v_row v) (v_leaf v).
Definition with_row (i : nat) (x : RID) (v : nview) : nview :=
  NV (v_n v) (v_next v) (v_child v) (<[i:=x]> (v_row v)) (v_leaf v).
Definition with_leaf (x : Z) (v : nview) : nview :=
  NV (v_n v) (v_next v) (v_child v) (v_row v) x.

Section page.
Context (pg : Page) (Hl : length pg = 128%nat).

Lemma fmap_seq_insert {A} (f g : nat → A) (n i : nat) x :
  (i < n)%nat → g i = x → (∀ j, (j < n)%nat → j ≠ i → g j = f j) →
  g <$> seq 0 n = <[i:=x]> (f <$> seq 0 n).
Proof.
  intros Hi Hx Hg. apply list_eq. intros j. rewrite list_lookup_insert, !list_lookup_fmap.
  destruct (decide (j < n)%nat) as [Hj|Hj].
  - rewrite (lookup_seq_lt 0 n j Hj). simpl. case_decide as E.
    + destruct E as [-> _]. by rewrite Hx.
    + rewrite Hg; [done|done|]. intros ->. apply E. split; [done|]. by rewrite length_fmap, length_seq.
  - rewrite (lookup_seq_ge 0 n j) by lia. simpl. rewrite decide_False; [done|]. lia.
Qed.

Lemma fmap_seq_same {A} (f g : nat → A) (n : nat) :
  (∀ j, (j < n)%nat → g j = f j) → g <$> seq 0 n = f <$> seq 0 n.
Proof.
  intros Hg. apply list_eq. intros j. rewrite !list_lookup_fmap.
  destruct (decide (j < n)%nat) as [Hj|Hj].
  - rewrite (lookup_seq_lt 0 n j Hj). simpl. by rewrite Hg.
  - by rewrite (lookup_seq_ge 0 n j) by lia.
Qed.

(** the fields a write of [len] bytes at [off] leaves alone *)
Definition outside (off len : nat) (pg' : Page) : Prop :=
  ∀ o n, (o + n <= off ∨ off + len <= o)%nat → slice o n pg' = slice o n pg.

Lemma outside_set_i n off x : 0 <= off → off + Z.of_nat n <= 128 →
  outside (Z.to_nat off) n (set_i n off x pg).
Proof using Hl.
  intros H0 H1 o k Ho. rewrite <- (Nat2Z.id o). apply slice_set_i_ne; lia.
Qed.

Lemma outside_splice off bs : (off + length bs <= 128)%nat →
  outside off (length bs) (splice off bs pg).
Proof using Hl. intros H o k Ho. apply slice_splice_ne; lia. Qed.

Section fields.
Context (off len : nat) (pg' : Page) (Ho : outside off len pg').

Lemma get_s_outside n o : 0 <= o →
  (Z.to_nat o + n <= off ∨ off + len <= Z.to_nat o)%nat → get_s n pg' o = get_s n pg o.
Proof using Hl Ho. intros H0 H. unfold get_s. by rewrite Ho. Qed.
Lemma get_u_outside n o : 0 <= o →
  (Z.to_nat o + n <= off ∨ off + len <= Z.to_nat o)%nat → get_u n pg' o = get_u n pg o.
Proof using Hl Ho. intros H0 H. unfold get_u. by rewrite Ho. Qed.
Lemma child_outside i : (16 + 8 * i + 8 <= off ∨ off + len <= 16 + 8 * i)%nat →
  child_at pg' i = child_at pg i.
Proof using Hl Ho. intros H. apply get_s_outside; lia. Qed.
Lemma row_outside i : (56 + 10 * i + 10 <= off ∨ off + len <= 56 + 10 * i)%nat →
  row_at pg' i = row_at pg i.
Proof using Hl Ho. intros H. unfold row_at. by rewrite Ho. Qed.
Lemma children_outside : (off + len <= 16 ∨ 56 <= off)%nat →
  child_at pg' <$> seq 0 5 = child_at pg <$> seq 0 5.
Proof using Hl Ho. intros H. apply fmap_seq_same. intros. apply child_outside. lia. Qed.
Lemma rows_outside : (off + len <= 56 ∨ 96 <= off)%nat →
  row_at pg' <$> seq 0 4 = row_at pg <$> seq 0 4.
Proof using Hl Ho. intros H. apply fmap_seq_same. intros. apply row_outside. lia. Qed.
End fields.

#[local] Arguments seq : simpl never.
#[local] Ltac field := first
  [ by apply get_u_set_eq; [lia|lia|] | by apply get_s_set_eq; [lia|lia|lia|]
  | eapply get_u_outside; [eassumption|lia|lia] | eapply get_s_outside; [eassumption|lia|lia]
  | eapply children_outside; [eassumption|lia] | eapply rows_outside; [eassumption|lia] ].

Lemma view_n x : in_u 64 x → view (set_i 8 0 x pg) = with_n x (view pg).
Proof using Hl.
  intros Hx. pose proof (outside_set_i 8 0 x ltac:(lia) ltac:(lia)) as Ho.
  unfold view, with_n. cbn [v_n v_next v_child v_row v_leaf]. f_equal; field.
Qed.

Lemma view_next x : in_s 64 x → view (set_i 8 8 x pg) = with_next x (view pg).
Proof using Hl.
  intros Hx. pose proof (outside_set_i 8 8 x ltac:(lia) ltac:(lia)) as Ho.
  unfold view, with_next. cbn [v_n v_next v_child v_row v_leaf]. f_equal; field.
Qed.

Lemma view_leaf x : in_u 8 x → view (set_i 1 96 x pg) = with_leaf x (view pg).
Proof using Hl.
  intros Hx. pose proof (outside_set_i 1 96 x ltac:(lia) ltac:(lia)) as Ho.
  unfold view, with_leaf. cbn [v_n v_next v_child v_row v_leaf]. f_equal; field.
Qed.

Lemma view_child i x : (i < 5)%nat → in_s 64 x →
  view (set_i 8 (16 + 8 * Z.of_nat i) x pg) = with_child i x (view pg).
Proof using Hl.
  intros Hi Hx. pose proof (outside_set_i 8 (16 + 8 * Z.of_nat i) x ltac:(lia) ltac:(lia)) as Ho.
  unfold view, with_child. cbn [v_n v_next v_child v_row v_leaf]. f_equal; try field.
  apply fmap_seq_insert; [done|by apply get_s_set_eq; [lia|lia|lia|]|].
  intros j Hj Hne. eapply child_outside; [eassumption|lia].
Qed.

Lemma view_row i r : (i < 4)%nat → rid_fits r →
  view (splice (56 + 10 * i) (rid_enc r) pg) = with_row i r (view pg).
Proof using Hl.
  intros Hi Hr. pose proof (outside_splice (56 + 10 * i) (rid_enc r)) as Ho.
  rewrite rid_enc_length in Ho. specialize (Ho ltac:(lia)).
  unfold view, with_row. cbn [v_n v_next v_child v_row v_leaf]. f_equal; try field.
  apply fmap_seq_insert; [done| |].
  - pose proof (slice_splice_eq (56 + 10 * i) (rid_enc r) pg) as E.
    rewrite rid_enc_length in E. unfold row_at. rewrite E; [done|lia].
  - intros j Hj Hne. eapply row_outside; [eassumption|lia].
Qed.

(** *** Accesses *)

Lemma wp_rd_n (Φ : Z → Page → Prop) : Φ (v_n (view pg)) pg → wp rd_n Φ pg.
Proof using Hl. apply wp_rd_u; [done|by rewrite Hl]. Qed.

Lemma wp_rd_next (Φ : Z → Page → Prop) : Φ (v_next (view pg)) pg → wp rd_node_next Φ pg.
Proof using Hl. apply wp_rd_s; [done|by rewrite Hl]. Qed.

Lemma wp_rd_leaf (Φ : bool → Page → Prop) :
  Φ (negb (v_leaf (view pg) =? 0)) pg → wp rd_leaf Φ pg.
Proof using Hl. intros HΦ. apply wp_bind, wp_rd_u; [done|by rewrite Hl|]. by apply wp_ret. Qed.

Lemma wp_rd_child (i : nat) z x (Φ : Z → Page → Prop) :
  z = Z.of_nat i → v_child (view pg) !! i = Some x → Φ x pg → wp (rd_child z) Φ pg.
Proof using Hl.
  intros -> Hx HΦ. cbn [v_child view] in Hx. apply list_lookup_fmap_Some in Hx as (j & -> & Hj).
  apply lookup_seq in Hj as [-> Hj]. unfold rd_child. apply wp_bind, wp_need.
  { change (2 * DEGREE + 1) with 5. apply andb_true_iff. rewrite Z.leb_le, Z.ltb_lt. lia. }
  change off_child with 16. apply wp_rd_s; [lia|rewrite Hl; lia|done].
Qed.

Lemma wp_rd_row (i : nat) z r (Φ : RID → Page → Prop) :
  z = Z.of_nat i → v_row (view pg) !! i = Some r → Φ r pg → wp (rd_row z) Φ pg.
Proof using Hl.
  intros -> Hx HΦ. cbn [v_row view] in Hx. apply list_lookup_fmap_Some in Hx as (j & -> & Hj).
  apply lookup_seq in Hj as [-> Hj]. unfold rd_row. apply wp_bind, wp_need.
  { change (2 * DEGREE) with 4. apply andb_true_iff. rewrite Z.leb_le, Z.ltb_lt. lia. }
  change off_row_ptr with 56. change RID_SIZE with 10. unfold rd_rid.
  apply wp_bind, wp_rd; [lia|rewrite Hl; lia|]. apply wp_ret.
  by replace (Z.to_nat (56 + 10 * Z.of_nat i)) with (56 + 10 * i)%nat by lia.
Qed.

Lemma wp_wr_child (i : nat) z x (Φ : unit → Page → Prop) :
  z = Z.of_nat i → (i < 5)%nat → in_s 64 x →
  (∀ pg', length pg' = 128%nat → view pg' = with_child i x (view pg) → Φ tt pg') →
  wp (wr_child z x) Φ pg.
Proof using Hl.
  intros -> Hi Hx HΦ. unfold wr_child. apply wp_bind, wp_need.
  { change (2 * DEGREE + 1) with 5. apply andb_true_iff. rewrite Z.leb_le, Z.ltb_lt. lia. }
  change off_child with 16. apply wp_wr_i; [lia|rewrite Hl; lia|]. apply HΦ.
  - rewrite set_i_length; lia.
  - by apply view_child.
Qed.

Lemma wp_wr_row (i : nat) z r (Φ : unit → Page → Prop) :
  z = Z.of_nat i → (i < 4)%nat → rid_fits r →
  (∀ pg', length pg' = 128%nat → view pg' = with_row i r (view pg) → Φ tt pg') →
  wp (wr_row z r) Φ pg.
Proof using Hl.
  intros -> Hi Hx HΦ. unfold wr_row. apply wp_bind, wp_need.
  { change (2 * DEGREE) with 4. apply andb_true_iff. rewrite Z.leb_le, Z.ltb_lt. lia. }
  change off_row_ptr with 56. change RID_SIZE with 10. unfold wr_rid.
  apply wp_wr; [lia|rewrite rid_enc_length, Hl; lia|].
  replace (Z.to_nat (56 + 10 * Z.of_nat i)) with (56 + 10 * i)%nat by lia. apply HΦ.
  - rewrite splice_length; [done|]. rewrite rid_enc_length. lia.
  - by apply view_row.
Qed.

Lemma wp_wr_n x (Φ : unit → Page → Prop) : in_u 64 x →
  (∀ pg', length pg' = 128%nat → view pg' = with_n x (view pg) → Φ tt pg') → wp (wr_n x) Φ pg.
Proof using Hl.
  intros Hx HΦ. apply wp_wr_i; [done|by rewrite Hl|]. apply HΦ; [|by apply view_n].
  rewrite set_i_length; [done|done|by rewrite Hl].
Qed.

Lemma wp_wr_next x (Φ : unit → Page → Prop) : in_s 64 x →
  (∀ pg', length pg' = 128%nat → view pg' = with_next x (view pg) → Φ tt pg') →
  wp (wr_node_next x) Φ pg.
Proof using Hl.
  intros Hx HΦ. apply wp_wr_i; [done|by rewrite Hl|]. apply HΦ; [|by apply view_next].
  rewrite set_i_length; [done|done|by rewrite Hl].
Qed.

Lemma wp_wr_leaf b (Φ : unit → Page → Prop) :
  (∀ pg', length pg' = 128%nat → view pg' = with_leaf (if b : bool then 1 else 0) (view pg) → Φ tt pg') →
  wp (wr_leaf b) Φ pg.
Proof using Hl.
  intros HΦ. apply wp_wr_i; [done|by rewrite Hl|]. apply HΦ.
  - rewrite set_i_length; [done|done|by rewrite Hl].
  - apply view_leaf. by destruct b.
Qed.
End page.

(** ** The pool of the index *)

Record ipool := IPool {
  i_root : Z; i_free : Z; i_nodes : gmap Z nview; i_len : Z;
  i_pins : gmap Z (nat * Z); i_hits : Z;
}.

(** the control block is page 0; every other page is a node *)
Definition nodes_of (m : gmap Z Page) : gmap Z nview := view <$> delete 0 m.

#[export] Instance ipool_Rep : Rep BufferPool ipool := λ p g,
  ∃ m, pool_rep p (PState m (i_len g) (i_pins g) (i_hits g)) ∧
    (∃ pg, m !! 0 = Some pg ∧ word pg 0 = i_root g ∧ word pg 1 = i_free g) ∧
    i_nodes g = nodes_of m.

(** the state of the index and of the world of the callbacks *)
#[export] Instance pair_Rep {S T G H} `{RS : Rep S G} `{RT : Rep T H} : Rep (S * T) (G * H) :=
  λ s g, rep s.1 g.1 ∧ rep s.2 g.2.

Lemma awp_idx {W GW} {RW : Rep W GW} {G} {RG : Rep BufferPool G} {A} (m : M BufferPool A)
    (Φ : A → G * GW → Prop) g w :
  awp m (λ a g', Φ a (g', w)) g → awp (idx m) Φ (g, w).
Proof.
  intros Hm [p s] [Hp Hs]. apply wp_zoom. eapply wp_mono; [by apply Hm|].
  intros a p' (g' & Hr & HΦ). exists (g', w). by split.
Qed.

Lemma awp_world {W GW} {RW : Rep W GW} {G} {RG : Rep BufferPool G} {A} (m : M W A)
    (Φ : A → G * GW → Prop) g w :
  awp m (λ a w', Φ a (g, w')) w → awp (ext m) Φ (g, w).
Proof.
  intros Hm [p s] [Hp Hs]. apply wp_zoom. eapply wp_mono; [by apply Hm|].
  intros a s' (w' & Hr & HΦ). exists (g, w'). by split.
Qed.

(** facts of any represented index *)
Record ipool_ok (g : ipool) : Prop := {
  ik_dom : ∀ a, is_Some (i_nodes g !! a) ↔ 0 < a < i_len g ∧ a mod 128 = 0;
  ik_len : i_len g mod 128 = 0 ∧ 128 <= i_len g <= MAX_LEN;
}.

Lemma ipool_rep_ok p g : rep p g → ipool_ok g.
Proof.
  intros (m & Hr & (pg & Hpg & _) & Hn). pose proof (rep_ok _ _ Hr) as [Hd _ [Hl1 Hl2]]. simpl in *.
  destruct (proj1 (Hd 0) (ex_intro _ pg Hpg)) as [H0 _].
  constructor; [|split; [done|]].
  - intros a. rewrite Hn. unfold nodes_of. rewrite lookup_fmap, fmap_is_Some.
    destruct (decide (a = 0)) as [->|Hne].
    + rewrite lookup_delete_eq. split; [by intros []|lia].
    + rewrite lookup_delete_ne by done. rewrite Hd. lia.
  - apply Z.mod_divide in Hl1 as [q Hq]; [lia|done].
Qed.

Lemma awp_iok {A} (m : M BufferPool A) (Φ : A → ipool → Prop) g :
  (ipool_ok g → awp m Φ g) → awp m Φ g.
Proof. intros Hm. apply awp_rep. intros s Hs. by eapply Hm, ipool_rep_ok. Qed.

Section rules.
Context (root free : Z) (ns : gmap Z nview) (l : Z) (ps : gmap Z (nat * Z)) (h : Z).

(** a rule of the pool, at the level of nodes *)
Lemma awp_lift {A} (m : M BufferPool A) (Φ : A → ipool → Prop) :
  (∀ mm pg, mm !! 0 = Some pg → word pg 0 = root → word pg 1 = free → ns = nodes_of mm →
    pstate_ok (PState mm l ps h) →
    awp m (λ a g', ∃ pg' r' f',
      mem g' !! 0 = Some pg' ∧ word pg' 0 = r' ∧ word pg' 1 = f' ∧
      Φ a (IPool r' f' (nodes_of (mem g')) (plen g') (pins g') (hits g'))) (PState mm l ps h)) →
  awp m Φ (IPool root free ns l ps h).
Proof.
  intros Hm p (mm & Hr & (pg & H0 & H1 & H2) & Hn).
  eapply wp_mono; [eapply (Hm mm pg); try done; by eapply rep_ok|].
  intros a p' ([mm' l' ps' h'] & Hr' & pg' & r' & f' & H0' & H1' & H2' & HΦ).
  eexists. split; [|exact HΦ]. exists mm'. split; [done|]. split; [|done]. by exists pg'.
Qed.

Lemma nodes_of_lookup mm a v : nodes_of mm !! a = Some v ↔
  a ≠ 0 ∧ ∃ pg, mm !! a = Some pg ∧ v = view pg.
Proof.
  unfold nodes_of. rewrite lookup_fmap_Some. split.
  - intros (pg & <- & H). apply lookup_delete_Some in H as [? ?]. eauto.
  - intros (Hne & pg & H & ->). exists pg. split; [done|]. by rewrite lookup_delete_ne.
Qed.

Lemma nodes_of_insert mm a pg : a ≠ 0 → nodes_of (<[a:=pg]> mm) = <[a:=view pg]> (nodes_of mm).
Proof.
  intros Hne. unfold nodes_of. by rewrite delete_insert_ne, fmap_insert by done.
Qed.

Lemma nodes_of_insert_0 mm pg : nodes_of (<[0:=pg]> mm) = nodes_of mm.
Proof. unfold nodes_of. by rewrite delete_insert_eq. Qed.

Lemma ip_get_node a v (Φ : Ptr → ipool → Prop) :
  ns !! a = Some v → ps !! a = None → (size ps < 8)%nat → 0 < h →
  (∀ k, Φ k (IPool root free ns l (<[a:=(k, 1)]> ps) (h - 1))) →
  awp (get_page a) Φ (IPool root free ns l ps h).
Proof.
  intros Ha Hp Hs Hh HΦ. apply awp_lift. intros mm pg H0 H1 H2 -> Hok.
  apply nodes_of_lookup in Ha as (Hne & q & Hq & ->).
  eapply ps_get; [exact Hq|done..|]. intros k. by exists pg, root, free.
Qed.

Lemma ip_get_ctrl (Φ : Ptr → ipool → Prop) :
  ps !! 0 = None → (size ps < 8)%nat → 0 < h →
  (∀ k, Φ k (IPool root free ns l (<[0:=(k, 1)]> ps) (h - 1))) →
  awp (get_page 0) Φ (IPool root free ns l ps h).
Proof.
  intros Hp Hs Hh HΦ. apply awp_lift. intros mm pg H0 H1 H2 -> Hok.
  eapply ps_get; [exact H0|done..|]. intros k. by exists pg, root, free.
Qed.

(** the page at the end of the file becomes a node, all of whose fields are zero *)
Lemma ip_get_past a (Φ : Ptr → ipool → Prop) :
  a = l → 0 < l → ps !! a = None → (size ps < 8)%nat → 0 < h → l + PAGE_SIZE <= MAX_LEN →
  (∀ k, Φ k (IPool root free (<[a:=view EMPTY_PAGE]> ns) (l + PAGE_SIZE) (<[a:=(k, 1)]> ps) (h - 1))) →
  awp (get_page a) Φ (IPool root free ns l ps h).
Proof.
  intros -> Hl Hp Hs Hh HM HΦ. apply awp_lift. intros mm pg H0 H1 H2 -> Hok.
  eapply ps_get_past; [done..|]. intros k. exists pg, root, free. cbn [mem plen pins hits].
  rewrite lookup_insert_ne by lia. rewrite nodes_of_insert by lia. by split_and!.
Qed.

Lemma ip_release a k (Φ : unit → ipool → Prop) :
  ps !! a = Some (k, 1) → Φ tt (IPool root free ns l (delete a ps) h) →
  awp (release a) Φ (IPool root free ns l ps h).
Proof.
  intros Hp HΦ. apply awp_lift. intros mm pg H0 H1 H2 -> Hok.
  eapply ps_release; [done|]. by exists pg, root, free.
Qed.

Lemma ip_length (Φ : Z → ipool → Prop) :
  Φ l (IPool root free ns l ps h) → awp file_length Φ (IPool root free ns l ps h).
Proof.
  intros HΦ. apply awp_lift. intros mm pg H0 H1 H2 -> Hok. apply ps_length.
  by exists pg, root, free.
Qed.

(** reading a node, and changing one *)
Lemma ip_read {A} a k c v (e : M Page A) (Φ : A → ipool → Prop) :
  ps !! a = Some (k, c) → ns !! a = Some v →
  (∀ pg, length pg = 128%nat → view pg = v →
    wp e (λ x pg', pg' = pg ∧ Φ x (IPool root free ns l ps h)) pg) →
  awp (at_page k e) Φ (IPool root free ns l ps h).
Proof.
  intros Hp Ha He. apply awp_lift. intros mm pg H0 H1 H2 -> Hok.
  apply nodes_of_lookup in Ha as (Hne & q & Hq & ->).
  pose proof (k_page _ Hok _ _ Hq) as Hlen.
  eapply ps_read; [done..|]. eapply wp_mono; [by apply He|]. intros x pg' [-> HΦ].
  split; [done|]. by exists pg, root, free.
Qed.

Lemma ip_write a k c v v' (e : M Page unit) (Φ : unit → ipool → Prop) :
  ps !! a = Some (k, c) → ns !! a = Some v →
  (∀ pg, length pg = 128%nat → view pg = v →
    wp e (λ _ pg', length pg' = 128%nat ∧ view pg' = v') pg) →
  Φ tt (IPool root free (<[a:=v']> ns) l ps h) →
  awp (at_page k e) Φ (IPool root free ns l ps h).
Proof.
  intros Hp Ha He HΦ. apply awp_lift. intros mm pg H0 H1 H2 -> Hok.
  apply nodes_of_lookup in Ha as (Hne & q & Hq & ->).
  pose proof (k_page _ Hok _ _ Hq) as Hlen.
  eapply ps_edit; [done..|]. eapply wp_mono; [by apply He|]. intros [] pg' [Hl' Hv'].
  split; [done|]. exists pg, root, free. cbn [mem plen pins hits].
  rewrite lookup_insert_ne, nodes_of_insert, Hv' by done. by split_and!.
Qed.

(** the two fields of the control block *)
Lemma ip_rd_root k c (Φ : Z → ipool → Prop) :
  ps !! 0 = Some (k, c) → Φ root (IPool root free ns l ps h) →
  awp (at_page k (rd_i64 off_root_node)) Φ (IPool root free ns l ps h).
Proof.
  intros Hp HΦ. apply awp_lift. intros mm pg H0 H1 H2 -> Hok.
  eapply (ps_rd_word _ _ _ _ 0 k c pg Hp H0 (k_page _ Hok _ _ H0) 0); [done|lia|].
  rewrite H1. by exists pg, root, free.
Qed.

Lemma ip_rd_free k c (Φ : Z → ipool → Prop) :
  ps !! 0 = Some (k, c) → Φ free (IPool root free ns l ps h) →
  awp (at_page k (rd_i64 off_free_node_head)) Φ (IPool root free ns l ps h).
Proof.
  intros Hp HΦ. apply awp_lift. intros mm pg H0 H1 H2 -> Hok.
  eapply (ps_rd_word _ _ _ _ 0 k c pg Hp H0 (k_page _ Hok _ _ H0) 1); [done|lia|].
  rewrite H2. by exists pg, root, free.
Qed.

Lemma ip_wr_root k c x (Φ : unit → ipool → Prop) :
  ps !! 0 = Some (k, c) → in_s 64 x → Φ tt (IPool x free ns l ps h) →
  awp (at_page k (wr_64 off_root_node x)) Φ (IPool root free ns l ps h).
Proof.
  intros Hp Hx HΦ. apply awp_lift. intros mm pg H0 H1 H2 -> Hok.
  pose proof (k_page _ Hok _ _ H0) as Hlen.
  eapply (ps_wr_word _ _ _ _ 0 k c pg Hp H0 Hlen 0); [done|lia|].
  exists (set_word 0 x pg), x, free. cbn [mem plen pins hits]. rewrite lookup_insert_eq, nodes_of_insert_0.
  split; [done|]. split; [words; done|]. split; [words; done|done].
Qed.

Lemma ip_wr_free k c x (Φ : unit → ipool → Prop) :
  ps !! 0 = Some (k, c) → in_s 64 x → Φ tt (IPool root x ns l ps h) →
  awp (at_page k (wr_64 off_free_node_head x)) Φ (IPool root free ns l ps h).
Proof.
  intros Hp Hx HΦ. apply awp_lift. intros mm pg H0 H1 H2 -> Hok.
  pose proof (k_page _ Hok _ _ H0) as Hlen.
  eapply (ps_wr_word _ _ _ _ 0 k c pg Hp H0 Hlen 1); [done|lia|].
  exists (set_word 1 x pg), root, x. cbn [mem plen pins hits]. rewrite lookup_insert_eq, nodes_of_insert_0.
  split; [done|]. split; [words; done|]. split; [words; done|done].
Qed.
End rules.
