(* ===== verification/NodeFocus.v ===== *)
(** Working on a few nodes at once: while their pages stay pinned, the state
    of the index is the list of their views, and the accesses of
    [src/b_tree.c] are rules on that list. *)
From stdpp Require Import base gmap list fin_maps.
From Stdlib Require Import ZArith Lia Strings.Byte.
From S2P Require Import Prelude FileIO BufferPool PoolLogic PoolClient Table HeapStore BTree NodeSpec.
#[local] Open Scope Z_scope.

(** the nodes of [pgs] have the views [vs], the others are as in [ns] *)
Fixpoint overlay (pgs : list (Z * Ptr)) (vs : list nview) (ns : gmap Z nview) : gmap Z nview :=
  match pgs, vs with
  | (a, _) :: pgs', v :: vs' => <[a := v]> (overlay pgs' vs' ns)
  | _, _ => ns
  end.

Lemma overlay_lookup pgs vs ns j a k v :
  NoDup pgs.*1 → pgs !! j = Some (a, k) → vs !! j = Some v → overlay pgs vs ns !! a = Some v.
Proof.
  revert vs j. induction pgs as [|[b kb] pgs IH]; intros vs j Hnd Hj Hv; [done|].
  rewrite fmap_cons, NoDup_cons in Hnd. destruct Hnd as [Hb Hnd].
  destruct j as [|j], vs as [|u vs]; try done; cbn [overlay].
  - injection Hj as -> ->. injection Hv as ->. apply lookup_insert_eq.
  - rewrite lookup_insert_ne; [by eapply IH|]. intros E. apply Hb.
    apply list_elem_of_fmap. exists (a, k). split; [exact E|]. by eapply list_elem_of_lookup_2.
Qed.

Lemma overlay_insert pgs vs ns j a k v v' :
  NoDup pgs.*1 → pgs !! j = Some (a, k) → vs !! j = Some v' →
  overlay pgs (<[j:=v]> vs) ns = <[a:=v]> (overlay pgs vs ns).
Proof.
  revert vs j. induction pgs as [|[b kb] pgs IH]; intros vs j Hnd Hj Hv; [done|].
  rewrite fmap_cons, NoDup_cons in Hnd. destruct Hnd as [Hb Hnd].
  destruct j as [|j], vs as [|u vs]; try done; cbn [overlay insert list_insert].
  - injection Hj as -> ->. by rewrite insert_insert_eq.
  - rewrite insert_insert_ne.
    + f_equal. by eapply IH.
    + intros E. apply Hb. apply list_elem_of_fmap. exists (a, k). split; [by cbn; congruence|].
      by eapply list_elem_of_lookup_2.
Qed.

Lemma overlay_other pgs vs ns a : a ∉ pgs.*1 → overlay pgs vs ns !! a = ns !! a.
Proof.
  revert vs. induction pgs as [|[b k] pgs IH]; intros [|v vs] Ha; try done. cbn [overlay].
  rewrite fmap_cons, not_elem_of_cons in Ha. destruct Ha as [Hb Ha].
  rewrite lookup_insert_ne by (intros ->; by apply Hb). by apply IH.
Qed.

Lemma overlay_same pgs vs ns :
  Forall2 (λ p v, ns !! p.1 = Some v) pgs vs → overlay pgs vs ns = ns.
Proof.
  induction 1 as [|[a k] v pgs vs Hv Hf IH]; [done|]. cbn [overlay]. rewrite IH. by apply insert_id.
Qed.

Section focus.
Context {W GW : Type} {RW : Rep W GW}.
Context (root free : Z) (ns : gmap Z nview) (l : Z) (ps : gmap Z (nat * Z)) (h : Z).
Context (pgs : list (Z * Ptr)).

Definition pinned : Prop := ∀ a k, (a, k) ∈ pgs → ∃ c, ps !! a = Some (k, c).

Abbreviation at_views vs w := (IPool root free (overlay pgs vs ns) l ps h, w).

(** into the focus *)
Lemma awp_focus {A} (m : M (BufferPool * W) A) (Φ : A → ipool * GW → Prop) vs w :
  Forall2 (λ p v, ns !! p.1 = Some v) pgs vs →
  awp m Φ (at_views vs w) → awp m Φ (IPool root free ns l ps h, w).
Proof using. intros Hvs. by rewrite overlay_same. Qed.

Context (Hnd : NoDup pgs.*1) (Hpin : pinned).

Section access.
Context (vs : list nview) (w : GW) (j : nat) (a : Z) (k : Ptr) (v : nview).
Context (Hj : pgs !! j = Some (a, k)) (Hv : vs !! j = Some v).

Lemma fo_read {A} (e : M Page A) (Φ : A → ipool * GW → Prop) :
  (∀ pg, length pg = 128%nat → view pg = v → wp e (λ x pg', pg' = pg ∧ Φ x (at_views vs w)) pg) →
  awp (nd k e) Φ (at_views vs w).
Proof using Hnd Hpin Hj Hv.
  intros He. destruct (Hpin a k) as [c Hc]; [by eapply list_elem_of_lookup_2|].
  apply awp_idx. eapply ip_read; [exact Hc|by eapply overlay_lookup|].
  intros pg Hl Hpg. eapply wp_mono; [by apply He|]. by intros x pg' [-> HΦ].
Qed.

Lemma fo_write v' (e : M Page unit) (Φ : unit → ipool * GW → Prop) :
  (∀ pg, length pg = 128%nat → view pg = v →
    wp e (λ _ pg', length pg' = 128%nat ∧ view pg' = v') pg) →
  Φ tt (at_views (<[j:=v']> vs) w) → awp (nd k e) Φ (at_views vs w).
Proof using Hnd Hpin Hj Hv.
  intros He HΦ. destruct (Hpin a k) as [c Hc]; [by eapply list_elem_of_lookup_2|].
  apply awp_idx. eapply ip_write; [exact Hc|by eapply overlay_lookup|exact He|].
  by erewrite <- overlay_insert.
Qed.

Lemma fo_rd_n (Φ : Z → ipool * GW → Prop) : Φ (v_n v) (at_views vs w) → awp (nd k rd_n) Φ (at_views vs w).
Proof using Hnd Hpin Hj Hv. intros HΦ. apply fo_read. intros pg Hl <-. by apply wp_rd_n. Qed.

Lemma fo_rd_next (Φ : Z → ipool * GW → Prop) :
  Φ (v_next v) (at_views vs w) → awp (nd k rd_node_next) Φ (at_views vs w).
Proof using Hnd Hpin Hj Hv. intros HΦ. apply fo_read. intros pg Hl <-. by apply wp_rd_next. Qed.

Lemma fo_rd_leaf (Φ : bool → ipool * GW → Prop) :
  Φ (negb (v_leaf v =? 0)) (at_views vs w) → awp (nd k rd_leaf) Φ (at_views vs w).
Proof using Hnd Hpin Hj Hv. intros HΦ. apply fo_read. intros pg Hl <-. by apply wp_rd_leaf. Qed.

Lemma fo_rd_row (i : nat) z r (Φ : RID → ipool * GW → Prop) :
  z = Z.of_nat i → v_row v !! i = Some r → Φ r (at_views vs w) → awp (nd k (rd_row z)) Φ (at_views vs w).
Proof using Hnd Hpin Hj Hv.
  intros Hz Hr HΦ. apply fo_read. intros pg Hl <-. by eapply (wp_rd_row _ Hl i z r).
Qed.

Lemma fo_rd_child (i : nat) z x (Φ : Z → ipool * GW → Prop) :
  z = Z.of_nat i → v_child v !! i = Some x → Φ x (at_views vs w) → awp (nd k (rd_child z)) Φ (at_views vs w).
Proof using Hnd Hpin Hj Hv.
  intros Hz Hr HΦ. apply fo_read. intros pg Hl <-. by eapply (wp_rd_child _ Hl i z x).
Qed.

Lemma fo_wr_n x (Φ : unit → ipool * GW → Prop) :
  in_u 64 x → Φ tt (at_views (<[j:=with_n x v]> vs) w) → awp (nd k (wr_n x)) Φ (at_views vs w).
Proof using Hnd Hpin Hj Hv.
  intros Hx HΦ. eapply fo_write; [|exact HΦ]. intros pg Hl <-. apply wp_wr_n; [done|done|].
  intros pg' ? ?. by split.
Qed.

Lemma fo_wr_next x (Φ : unit → ipool * GW → Prop) :
  in_s 64 x → Φ tt (at_views (<[j:=with_next x v]> vs) w) → awp (nd k (wr_node_next x)) Φ (at_views vs w).
Proof using Hnd Hpin Hj Hv.
  intros Hx HΦ. eapply fo_write; [|exact HΦ]. intros pg Hl <-. apply wp_wr_next; [done|done|].
  intros pg' ? ?. by split.
Qed.

Lemma fo_wr_leaf (b : bool) (Φ : unit → ipool * GW → Prop) :
  Φ tt (at_views (<[j:=with_leaf (if b then 1 else 0) v]> vs) w) → awp (nd k (wr_leaf b)) Φ (at_views vs w).
Proof using Hnd Hpin Hj Hv.
  intros HΦ. eapply fo_write; [|exact HΦ]. intros pg Hl <-. apply wp_wr_leaf; [done|].
  intros pg' ? ?. by split.
Qed.

Lemma fo_wr_row (i : nat) z r (Φ : unit → ipool * GW → Prop) :
  z = Z.of_nat i → (i < 4)%nat → rid_fits r → Φ tt (at_views (<[j:=with_row i r v]> vs) w) →
  awp (nd k (wr_row z r)) Φ (at_views vs w).
Proof using Hnd Hpin Hj Hv.
  intros Hz Hi Hr HΦ. eapply fo_write; [|exact HΦ]. intros pg Hl <-.
  eapply (wp_wr_row _ Hl i); [done..|]. intros pg' ? ?. by split.
Qed.

Lemma fo_wr_child (i : nat) z x (Φ : unit → ipool * GW → Prop) :
  z = Z.of_nat i → (i < 5)%nat → in_s 64 x → Φ tt (at_views (<[j:=with_child i x v]> vs) w) →
  awp (nd k (wr_child z x)) Φ (at_views vs w).
Proof using Hnd Hpin Hj Hv.
  intros Hz Hi Hr HΦ. eapply fo_write; [|exact HΦ]. intros pg Hl <-.
  eapply (wp_wr_child _ Hl i); [done..|]. intros pg' ? ?. by split.
Qed.
End access.
End focus.

Lemma pinned_one ps a k c : ps !! a = Some (k, c) → pinned ps [(a, k)].
Proof. intros H b kb Hb. apply list_elem_of_singleton in Hb as [= -> ->]. by exists c. Qed.
Lemma pinned_cons ps a k c pgs : ps !! a = Some (k, c) → pinned ps pgs → pinned ps ((a, k) :: pgs).
Proof.
  intros H Hp b kb [[= -> ->]|Hb]%elem_of_cons; [by exists c|by apply Hp].
Qed.

Lemma pages_two (a b : Z) (ka kb : Ptr) : a ≠ b → NoDup [(a, ka); (b, kb)].*1.
Proof.
  intros H. apply NoDup_cons. split; [|apply NoDup_singleton]. intros E.
  by apply list_elem_of_singleton in E.
Qed.
Lemma pages_three (a b c : Z) (ka kb kc : Ptr) :
  a ≠ b → a ≠ c → b ≠ c → NoDup [(a, ka); (b, kb); (c, kc)].*1.
Proof.
  intros Hab Hac Hbc. apply NoDup_cons. split; [|by apply pages_two].
  intros [E|E]%elem_of_cons; [done|]. by apply list_elem_of_singleton in E.
Qed.

(** equal explicit maps of pins *)
Ltac pins_eq :=
  apply map_eq; let x := fresh "x" in intros x;
  repeat first [rewrite lookup_delete | rewrite lookup_insert | rewrite lookup_empty];
  repeat case_decide; first [done | congruence].

(** ** Automation: running the code on explicit views *)

Ltac view_red := cbn [insert list_insert with_n with_next with_child with_row with_leaf
  v_n v_next v_child v_row v_leaf child_key child_ptr].

(** a loop whose bounds are numbers is unrolled *)
Ltac unroll :=
  lazymatch goal with
  | |- awp (for_down ?a ?b ?body) _ _ =>
      let n := eval vm_compute in (Z.to_nat (a - b)) in
      change (for_down a b body) with (iter_down n a body); cbn [iter_down]
  | |- awp (for_ne ?a ?b ?body) _ _ =>
      let n := eval vm_compute in (Z.to_nat (b - a)) in
      change (for_ne a b body) with (iter_up n a body); cbn [iter_up]
  | |- awp (for_lt ?a ?b ?body) _ _ =>
      let n := eval vm_compute in (Z.to_nat (b - a)) in
      change (for_lt a b body) with (iter_up n a body); cbn [iter_up]
  end.

(** the access is through the pointer to one of the first three nodes *)
Ltac with_node tac := first [tac 0%nat | tac 1%nat | tac 2%nat].

(** one step; the indices are numbers *)
Ltac fo_step :=
  lazymatch goal with
  | |- awp (mbind _ _) _ _ => apply awp_bind; cbv beta
  | |- awp (mret _) _ _ => apply awp_ret; cbv beta
  | |- awp (dec_n _) _ _ => unfold dec_n
  | |- awp (inc_n _) _ _ => unfold inc_n
  | |- awp (for_down _ _ _) _ _ => unroll
  | |- awp (for_ne _ _ _) _ _ => unroll
  | |- awp (for_lt _ _ _) _ _ => unroll
  | |- awp (nd ?k rd_n) _ _ =>
      with_node ltac:(fun jj => eapply fo_rd_n with (j:=jj);
        [eassumption|eassumption|reflexivity|reflexivity|]; view_red)
  | |- awp (nd ?k (rd_row ?z)) _ _ =>
      let ii := eval vm_compute in (Z.to_nat z) in
      with_node ltac:(fun jj => eapply fo_rd_row with (j:=jj) (i:=ii);
        [eassumption|eassumption|reflexivity|reflexivity|reflexivity|reflexivity|]; view_red)
  | |- awp (nd ?k (rd_child ?z)) _ _ =>
      let ii := eval vm_compute in (Z.to_nat z) in
      with_node ltac:(fun jj => eapply fo_rd_child with (j:=jj) (i:=ii);
        [eassumption|eassumption|reflexivity|reflexivity|reflexivity|reflexivity|]; view_red)
  | |- awp (nd ?k (wr_row ?z _)) _ _ =>
      let ii := eval vm_compute in (Z.to_nat z) in
      with_node ltac:(fun jj => eapply fo_wr_row with (j:=jj) (i:=ii);
        [eassumption|eassumption|reflexivity|reflexivity|reflexivity|lia|assumption|]; view_red)
  | |- awp (nd ?k (wr_child ?z _)) _ _ =>
      let ii := eval vm_compute in (Z.to_nat z) in
      with_node ltac:(fun jj => eapply fo_wr_child with (j:=jj) (i:=ii);
        [eassumption|eassumption|reflexivity|reflexivity|reflexivity|lia|assumption|]; view_red)
  | |- awp (nd ?k (wr_n ?z)) _ _ =>
      let zz := eval vm_compute in z in change z with zz;
      with_node ltac:(fun jj => eapply fo_wr_n with (j:=jj);
        [eassumption|eassumption|reflexivity|reflexivity|by vm_compute|]; view_red)
  | |- awp (nd ?k (wr_node_next _)) _ _ =>
      with_node ltac:(fun jj => eapply fo_wr_next with (j:=jj);
        [eassumption|eassumption|reflexivity|reflexivity|first [assumption|by vm_compute]|]; view_red)
  | |- awp (nd ?k (wr_leaf _)) _ _ =>
      with_node ltac:(fun jj => eapply fo_wr_leaf with (j:=jj);
        [eassumption|eassumption|reflexivity|reflexivity|]; view_red)
  end.
Ltac fo_run := repeat fo_step.
