(* ===== verification/TreeSpec.v ===== *)
(** The B+ tree as a tree: its shape, the order of its keys, and the pages
    that store it; and what the callbacks of the index promise. *)
From stdpp Require Import base gmap list fin_maps sorting.
From Stdlib Require Import ZArith Lia Strings.Byte.
From S2P Require Import Prelude PoolLogic PoolClient Table HeapStore BTree NodeSpec.
#[local] Open Scope Z_scope.

(** ** Keys and callbacks *)

(** the order of keys: the sign of a comparison *)
Class KeyOrder {K : Type} (kcmp : K → K → Z) : Prop := {
  kcmp_eq : ∀ a b, kcmp a b = 0 ↔ a = b;
  kcmp_swap : ∀ a b, kcmp b a = - kcmp a b;
  kcmp_trans : ∀ a b c, kcmp a b < 0 → kcmp b c < 0 → kcmp a c < 0;
}.

(** the rows the callbacks know, with their keys, and the number of
    operations they still have *)
Record world (K : Type) := World { w_keys : gmap RID K; w_ops : Z }.
Arguments World {K}.
Arguments w_keys {K}.
Arguments w_ops {K}.

Class KeyWorld (K W : Type) `{RW : Rep W (world K)} : Prop := {
  world_spend : ∀ s keys n n', rep s (World keys n) → n' <= n → rep s (World keys n');
  world_rids : ∀ s keys n r k, rep s (World keys n) → keys !! r = Some k → rid_ok r;
}.

(** a comparison with a fixed key: [cmp row] compares [k] with the key of [row] *)
Class Comparer {K W} (kcmp : K → K → Z) `{RW : Rep W (world K)} (cmp : RID → M W Z) (k : K)
    (cost : Z) : Prop :=
  compare_row : ∀ keys r k' n (Φ : Z → world K → Prop),
    keys !! r = Some k' → cost <= n → Φ (kcmp k k') (World keys (n - cost)) →
    awp (cmp r) Φ (World keys n).

(** ** Trees *)

(** the leaves hold the rows; an internal node has a first child, then keys
    each followed by a child *)
Inductive tree :=
  | Leaf (a : Z) (rows : list RID)
  | Node (a : Z) (c0 : tree) (kids : list (RID * tree)).

Definition addr (t : tree) : Z := match t with Leaf a _ | Node a _ _ => a end.

(** the rows, from left to right *)
Fixpoint elems (t : tree) : list RID :=
  match t with
  | Leaf _ rows => rows
  | Node _ c0 kids => elems c0 ++ flat_map (λ rc, elems rc.2) kids
  end.

(** the pages *)
Fixpoint pages_of (t : tree) : list Z :=
  match t with
  | Leaf a _ => [a]
  | Node a c0 kids => a :: pages_of c0 ++ flat_map (λ rc, pages_of rc.2) kids
  end.

(** the leftmost leaf, the first node the index had *)
Fixpoint first_leaf (t : tree) : Z :=
  match t with Leaf a _ => a | Node _ c0 _ => first_leaf c0 end.

Fixpoint height (t : tree) : nat :=
  match t with Leaf _ _ => O | Node _ c0 _ => S (height c0) end.

(** every identifier a node holds: the rows and the keys of internal nodes *)
Fixpoint refs (t : tree) : list RID :=
  match t with
  | Leaf _ rows => rows
  | Node _ c0 kids => refs c0 ++ flat_map (λ rc, rc.1 :: refs rc.2) kids
  end.

(** a node with its rows [rs] and its children [cs] *)
Record node_is (v : nview) (leaf : bool) (rs : list RID) (cs : list Z) : Prop := {
  n_n : v_n v = Z.of_nat (length rs);
  n_leaf : negb (v_leaf v =? 0) = leaf;
  n_rows : length (v_row v) = 4%nat ∧ ∃ rest, v_row v = rs ++ rest;
  n_kids : length (v_child v) = 5%nat ∧ ∃ rest, v_child v = cs ++ rest;
}.

Definition stored_node (ns : gmap Z nview) (a : Z) (leaf : bool) (rs : list RID) (cs : list Z) : Prop :=
  ∃ v, ns !! a = Some v ∧ node_is v leaf rs cs.

Fixpoint stored (ns : gmap Z nview) (t : tree) : Prop :=
  match t with
  | Leaf a rows => stored_node ns a true rows []
  | Node a c0 kids =>
      stored_node ns a false kids.*1 (addr c0 :: ((λ rc, addr rc.2) <$> kids)) ∧
      stored ns c0 ∧ foldr (λ rc P, stored ns rc.2 ∧ P) True kids
  end.

(** ** Order and shape *)

Section order.
Context {K : Type} (kcmp : K → K → Z) (keys : gmap RID K).

Definition above (lo : option K) (k : K) : Prop :=
  match lo with None => True | Some l => kcmp l k <= 0 end.
Definition below (hi : option K) (k : K) : Prop :=
  match hi with None => True | Some h => kcmp k h < 0 end.
Definition within (lo hi : option K) (r : RID) : Prop :=
  ∃ k, keys !! r = Some k ∧ above lo k ∧ below hi k.

(** strictly increasing keys *)
Definition row_lt (r1 r2 : RID) : Prop :=
  ∃ k1 k2, keys !! r1 = Some k1 ∧ keys !! r2 = Some k2 ∧ kcmp k1 k2 < 0.

(** the children of a node, between the keys that separate them *)
Fixpoint kids_ok (P : option K → option K → tree → Prop) (lo hi : option K) (c : tree)
    (kids : list (RID * tree)) : Prop :=
  match kids with
  | [] => P lo hi c
  | (r, c') :: kids' =>
      within lo hi r ∧ P lo (keys !! r) c ∧ kids_ok P (keys !! r) hi c' kids'
  end.

(** a tree of height [h], with at least [m] and at most four rows or keys in
    its root, and at least two in every other node *)
Fixpoint wf (m h : nat) (lo hi : option K) (t : tree) : Prop :=
  match h, t with
  | O, Leaf _ rows =>
      (m <= length rows <= 4)%nat ∧ Forall (within lo hi) rows ∧ StronglySorted row_lt rows
  | S h', Node _ c0 kids =>
      (m <= length kids <= 4)%nat ∧ kids_ok (wf 2 h') lo hi c0 kids
  | _, _ => False
  end.

(** *** A child in its place *)

(** the children before it with their keys, the child, and what follows *)
Fixpoint plug (p : list (tree * RID)) (c : tree) (s : list (RID * tree)) : tree * list (RID * tree) :=
  match p with
  | [] => (c, s)
  | (t, r) :: p' => let '(c', s') := plug p' c s in (t, (r, c') :: s')
  end.

Fixpoint before_ok (P : option K → option K → tree → Prop) (lo hi : option K)
    (p : list (tree * RID)) : Prop :=
  match p with
  | [] => True
  | (t, r) :: p' => within lo hi r ∧ P lo (keys !! r) t ∧ before_ok P (keys !! r) hi p'
  end.

(** the lower bound of the child after [p] *)
Definition lower (lo : option K) (p : list (tree * RID)) : option K :=
  foldl (λ _ tr, keys !! tr.2) lo p.
Definition upper (hi : option K) (s : list (RID * tree)) : option K :=
  match s with [] => hi | (r, _) :: _ => keys !! r end.

Lemma kids_ok_plug P lo hi p c s :
  kids_ok P lo hi (plug p c s).1 (plug p c s).2 ↔
  before_ok P lo hi p ∧ kids_ok P (lower lo p) hi c s.
Proof.
  revert lo. induction p as [|[t r] p IH]; intros lo; simpl; [naive_solver|].
  specialize (IH (keys !! r)). destruct (plug p c s) as [c' s']. simpl in *. tauto.
Qed.

Lemma kids_ok_first P lo hi c s : kids_ok P lo hi c s → P lo (upper hi s) c.
Proof. destruct s as [|[r c'] s]; simpl; tauto. Qed.

Lemma plug_exists c0 kids (i : nat) : (i <= length kids)%nat →
  ∃ p c s, c0 = (plug p c s).1 ∧ kids = (plug p c s).2 ∧ length p = i.
Proof.
  revert c0 kids. induction i as [|i IH]; intros c0 kids Hi.
  - by exists [], c0, kids.
  - destruct kids as [|[r c1] kids]; [simpl in Hi; lia|].
    destruct (IH c1 kids) as (p & c & s & E1 & E2 & Hl); [simpl in Hi; lia|].
    exists ((c0, r) :: p), c, s. simpl. destruct (plug p c s) as [c' s'].
    simpl in *. subst. done.
Qed.

Lemma plug_seps p c s : (plug p c s).2.*1 = p.*2 ++ s.*1.
Proof.
  induction p as [|[t r] p IH]; [done|]. simpl. destruct (plug p c s). simpl in *. f_equal. exact IH.
Qed.

Lemma plug_length p c s : length (plug p c s).2 = (length p + length s)%nat.
Proof. rewrite <- (length_fmap fst), plug_seps, length_app, !length_fmap. done. Qed.

Lemma plug_children {A} (f : tree → A) p c s :
  f (plug p c s).1 :: ((λ rc, f rc.2) <$> (plug p c s).2) =
  ((λ tr, f tr.1) <$> p) ++ f c :: ((λ rc, f rc.2) <$> s).
Proof.
  induction p as [|[t r] p IH]; [done|]. simpl. destruct (plug p c s) as [c' s'].
  simpl in *. f_equal. exact IH.
Qed.

Lemma plug_flat {A} (f : tree → list A) p c s :
  f (plug p c s).1 ++ flat_map (λ rc, f rc.2) (plug p c s).2 =
  flat_map (λ tr, f tr.1) p ++ f c ++ flat_map (λ rc, f rc.2) s.
Proof.
  induction p as [|[t r] p IH]; [done|]. simpl. destruct (plug p c s) as [c' s'].
  simpl in *. by rewrite IH, app_assoc.
Qed.

Lemma plug_stored ns p c s :
  stored ns (plug p c s).1 ∧ foldr (λ rc P, stored ns rc.2 ∧ P) True (plug p c s).2 ↔
  Forall (λ tr, stored ns tr.1) p ∧ stored ns c ∧ Forall (λ rc, stored ns rc.2) s.
Proof.
  induction p as [|[t r] p IH]; simpl.
  - rewrite Forall_nil. induction s as [|[r c'] s IHs]; simpl; [rewrite Forall_nil; tauto|].
    rewrite Forall_cons. simpl. tauto.
  - rewrite Forall_cons. destruct (plug p c s) as [c' s']. simpl in *. tauto.
Qed.

Lemma wf_height m h : ∀ lo hi t, wf m h lo hi t → height t = h.
Proof.
  revert m. induction h as [|h IH]; intros m lo hi [a rows|a c0 kids] Hwf; simpl in *; try done.
  destruct Hwf as [_ Hk]. f_equal. destruct kids as [|[r c] kids]; simpl in Hk.
  - by eapply (IH 2%nat).
  - destruct Hk as (_ & Hc & _). by eapply (IH 2%nat).
Qed.

Lemma stored_addr ns t : stored ns t → is_Some (ns !! addr t).
Proof. destruct t; simpl; [intros (v & Hv & _)|intros ((v & Hv & _) & _)]; by exists v. Qed.

(** the tree the control block of an index points at *)
Definition rooted (g : ipool) (o : option tree) : Prop :=
  match o with
  | None => i_root g = -1
  | Some t => i_root g = addr t ∧ wf 1 (height t) None None t ∧ stored (i_nodes g) t
  end.
Definition index_rows (o : option tree) : list RID := match o with None => [] | Some t => elems t end.
(** the pages a search visits *)
Definition index_depth (o : option tree) : Z :=
  match o with None => 1 | Some t => Z.of_nat (height t) + 2 end.
End order.
