(* ===== verification/NodeOps.v ===== *)
(** The redistribution of rows and children inside and between nodes, in terms
    of lists: what the loops of [src/b_tree.c] do to the nodes they work on. *)
From stdpp Require Import base gmap list fin_maps.
From Stdlib Require Import ZArith Lia Strings.Byte.
From S2P Require Import Prelude FileIO BufferPool PoolLogic PoolClient Table HeapStore BTree NodeSpec NodeFocus TreeSpec.
#[local] Open Scope Z_scope.

(** a node of any contents *)
Definition node_shape (v : nview) : Prop := length (v_child v) = 5%nat ∧ length (v_row v) = 4%nat.

Lemma view_shape pg : node_shape (view pg).
Proof. done. Qed.

Lemma node_is_shape v leaf rs cs : node_is v leaf rs cs → node_shape v.
Proof. intros [_ _ [? _] [? _]]. by split. Qed.

(** every node of a represented index has the shape of a [BNode] *)
Lemma ipool_rep_shape p g a v : rep p g → i_nodes g !! a = Some v → node_shape v.
Proof.
  intros (m & _ & _ & ->) H. apply nodes_of_lookup in H as (_ & pg & _ & ->). apply view_shape.
Qed.

Lemma node_is_intro n nx cs crest rs rrest lf :
  n = Z.of_nat (length rs) → length (cs ++ crest) = 5%nat → length (rs ++ rrest) = 4%nat →
  node_is (NV n nx (cs ++ crest) (rs ++ rrest) lf) (negb (lf =? 0)) rs cs.
Proof. intros Hn Hc Hr. split; [done|done|split; [done|eauto]..]. Qed.

Lemma node_is_elim v leaf rs cs : node_is v leaf rs cs →
  ∃ nx crest rrest lf, v = NV (Z.of_nat (length rs)) nx (cs ++ crest) (rs ++ rrest) lf ∧
    negb (lf =? 0) = leaf ∧ length (cs ++ crest) = 5%nat ∧ length (rs ++ rrest) = 4%nat.
Proof.
  destruct v as [n nx cc rr lf]. intros [Hn Hl [Hr [rrest Er]] [Hc [crest Ec]]].
  cbn [v_n v_next v_child v_row v_leaf] in *. subst. by exists nx, crest, rrest, lf.
Qed.

(** a list made explicit by its length *)
Ltac explicit_list l :=
  let H := fresh in
  match goal with E : length l = _ |- _ => rename E into H end;
  repeat (let x := fresh "x" in destruct l as [|x l]; [discriminate H|injection H as H]);
  destruct l; [|discriminate H]; clear H.

Ltac Forall_split := repeat match goal with
  | H : Forall _ (_ :: _) |- _ => apply Forall_cons in H as [? H]
  | H : Forall _ [] |- _ => clear H
  end.

Section ops.
Context {W GW : Type} {RW : Rep W GW}.
Context (root free : Z) (ns : gmap Z nview) (l : Z) (ps : gmap Z (nat * Z)) (h : Z).
Context (a : Z) (ka : Ptr) (b : Z) (kb : Ptr) (w : GW).
Abbreviation pgs1 := [(a, ka)].
Abbreviation pgs2 := [(a, ka); (b, kb)].
Context (Hnd1 : NoDup pgs1.*1) (Hpin1 : pinned ps pgs1).
Context (Hnd : NoDup pgs2.*1) (Hpin : pinned ps pgs2).

Abbreviation state1 va := (IPool root free (overlay pgs1 [va] ns) l ps h, w).
Abbreviation state2 va vb := (IPool root free (overlay pgs2 [va; vb] ns) l ps h, w).

(** *** Rows *)

(** the rows of a full leaf with [rid] at [i], cut after the second *)
Definition with_new {A} (i : nat) (x : A) (rs : list A) : list A := take i rs ++ x :: drop i rs.

Lemma split_rows_spec i rid rs nb nx cs lf vb nxb lfb rb cb (Φ : unit → ipool * GW → Prop) :
  (i <= 4)%nat → length rs = 4%nat → length rb = 4%nat → Forall rid_fits rs → rid_fits rid →
  vb = NV nb nxb cb rb lfb →
  (∀ rest restb, length rest = 2%nat → length restb = 1%nat →
    Φ tt (state2 (NV 4 nx cs (take 2 (with_new i rid rs) ++ rest) lf)
                 (NV nb nxb cb (drop 2 (with_new i rid rs) ++ restb) lfb))) →
  awp (if Z.of_nat i <? DEGREE then split_rows_left ka kb (Z.of_nat i) rid
       else split_rows_right ka kb (Z.of_nat i) rid) Φ (state2 (NV 4 nx cs rs lf) vb).
Proof using Hnd Hpin.
  clear Hnd1 Hpin1. intros Hi Hrs Hrb Hfits Hrid -> HΦ. explicit_list rs. explicit_list rb. Forall_split.
  destruct i as [|[|[|[|[|i]]]]]; [..|lia];
    match goal with |- awp (if ?c then _ else _) _ _ =>
      let c' := eval vm_compute in c in change c with c' end;
    cbv iota; unfold split_rows_left, split_rows_right; fo_run; by eapply (HΦ [_; _] [_]).
Qed.

(** *** One row more *)

Lemma shift_rows_spec {A} (next : M (BufferPool * W) A) i rid rs nx cs rrest lf (Φ : A → ipool * GW → Prop) :
  (i <= length rs)%nat → (length rs <= 3)%nat → length (rs ++ rrest) = 4%nat →
  Forall rid_fits rs → rid_fits rid →
  (∀ rest, length (with_new i rid rs ++ rest) = 4%nat →
    awp next Φ (state1 (NV (Z.of_nat (length (with_new i rid rs))) nx cs (with_new i rid rs ++ rest) lf))) →
  awp (for_down (Z.of_nat (length rs)) (Z.of_nat i) (λ i,
         row ← nd ka (rd_row (i - 1));
         nd ka (wr_row i row));;
       nd ka (wr_row (Z.of_nat i) rid);;
       n ← nd ka rd_n;
       nd ka (wr_n (n + 1));; next) Φ (state1 (NV (Z.of_nat (length rs)) nx cs (rs ++ rrest) lf)).
Proof using Hnd1 Hpin1.
  clear Hnd Hpin b kb. intros Hi Hl Hr Hfits Hrid HΦ.
  assert (length rrest = (4 - length rs)%nat) as Hrr by (rewrite length_app in Hr; lia).
  destruct rs as [|r0 [|r1 [|r2 [|r3 rs]]]]; cbn in Hi, Hl, Hrr; [..|lia];
    clear Hr; explicit_list rrest; Forall_split;
    (destruct i as [|[|[|[|i]]]]; [..|lia]); try lia; fo_run;
    eapply HΦ; reflexivity.
Qed.
(** *** One child more *)

Lemma shift_children_spec {A} (next : M (BufferPool * W) A) i rid x rs cs nx crest rrest lf
    (Φ : A → ipool * GW → Prop) :
  (i <= length rs)%nat → (1 <= length rs <= 3)%nat → length cs = S (length rs) →
  length (cs ++ crest) = 5%nat → length (rs ++ rrest) = 4%nat →
  Forall rid_fits rs → Forall (in_s 64) cs → rid_fits rid → in_s 64 x →
  (∀ rest crest', length (with_new i rid rs ++ rest) = 4%nat →
    length (with_new (S i) x cs ++ crest') = 5%nat →
    awp next Φ (state1 (NV (Z.of_nat (length (with_new i rid rs))) nx (with_new (S i) x cs ++ crest')
      (with_new i rid rs ++ rest) lf))) →
  awp (for_down (Z.of_nat (length rs)) (Z.of_nat i) (λ i,
         row ← nd ka (rd_row (i - 1));
         nd ka (wr_row i row));;
       for_down (Z.of_nat (length rs) + 1) (Z.of_nat i + 1) (λ i,
         child ← nd ka (rd_child (i - 1));
         nd ka (wr_child i child));;
       nd ka (wr_row (Z.of_nat i) rid);;
       nd ka (wr_child (Z.of_nat i + 1) x);;
       n ← nd ka rd_n;
       nd ka (wr_n (n + 1));; next) Φ
    (state1 (NV (Z.of_nat (length rs)) nx (cs ++ crest) (rs ++ rrest) lf)).
Proof using Hnd1 Hpin1.
  clear Hnd Hpin b kb. intros Hi Hl Hcs Hc Hr Hfits Hfitc Hrid Hx HΦ.
  assert (length rrest = (4 - length rs)%nat) as Hrr by (rewrite length_app in Hr; lia).
  assert (length crest = (5 - length cs)%nat) as Hcr by (rewrite length_app in Hc; lia).
  destruct rs as [|r0 [|r1 [|r2 [|r3 rs]]]]; cbn in Hi, Hl, Hrr, Hcs; try lia;
    rewrite Hcs in Hcr; cbn in Hcr; clear Hr Hc;
    explicit_list cs; explicit_list rrest; explicit_list crest; Forall_split;
    (destruct i as [|[|[|[|i]]]]; [..|lia]); try lia; fo_run;
    eapply HΦ; reflexivity.
Qed.

(** *** A full internal node and a new child, over two nodes *)

Lemma split_children_at_spec i rid x rs cs nx lf nb nxb cb rb lfb addr_new
    (Φ : NewChildEntry → ipool * GW → Prop) :
  (i <= 4)%nat → length rs = 4%nat → length cs = 5%nat → length rb = 4%nat → length cb = 5%nat →
  Forall rid_fits rs → Forall (in_s 64) cs → rid_fits rid → in_s 64 x →
  (∀ km rest crest restb crestb, with_new i rid rs !! 2%nat = Some km →
    length rest = 2%nat → length crest = 2%nat → length restb = 2%nat → length crestb = 2%nat →
    Φ (mkNCE km addr_new)
      (state2 (NV 4 nx (take 3 (with_new (S i) x cs) ++ crest) (take 2 (with_new i rid rs) ++ rest) lf)
              (NV nb nxb (drop 3 (with_new (S i) x cs) ++ crestb) (drop 3 (with_new i rid rs) ++ restb) lfb))) →
  awp (if Z.of_nat i <? DEGREE then split_child_left ka kb addr_new (Z.of_nat i) (mkNCE rid x)
       else if Z.of_nat i =? DEGREE then split_child_middle ka kb addr_new (mkNCE rid x)
       else split_child_right ka kb addr_new (Z.of_nat i) (mkNCE rid x)) Φ
    (state2 (NV 4 nx cs rs lf) (NV nb nxb cb rb lfb)).
Proof using Hnd Hpin.
  clear Hnd1 Hpin1. intros Hi Hrs Hcs Hrb Hcb Hfits Hfitc Hrid Hx HΦ.
  explicit_list rs. explicit_list rb. explicit_list cs. explicit_list cb. Forall_split.
  destruct i as [|[|[|[|[|i]]]]]; [..|lia];
    repeat match goal with |- awp (if ?c then _ else _) _ _ =>
      let c' := eval vm_compute in c in change c with c'; cbv iota end;
    unfold split_child_left, split_child_middle, split_child_right; fo_run;
    by eapply (HΦ _ [_; _] [_; _] [_; _] [_; _]).
Qed.
End ops.
