(* ===== verification/TreeFrame.v ===== *)
(** The pages a tree operation works on: those of its subtree and the free
    list.  Pages outside this territory stay as they are, and the territory
    grows only by pages at the end of the file. *)
From stdpp Require Import base gmap list fin_maps.
From Stdlib Require Import ZArith Lia Strings.Byte.
From S2P Require Import Prelude FileIO BufferPool PoolLogic PoolClient Table HeapStore BTree NodeSpec NodeFocus TreeSpec NodeOps.
#[local] Open Scope Z_scope.

(** ** The free list *)

(** the nodes of the list that starts at [f] are [fl], in this order *)
Fixpoint free_list (ns : gmap Z nview) (f : Z) (fl : list Z) : Prop :=
  match fl with
  | [] => f = -1
  | a :: fl' => f = a ∧ ∃ v, ns !! a = Some v ∧ free_list ns (v_next v) fl'
  end.

Lemma free_list_frame ns ns' f fl :
  (∀ a, a ∈ fl → ns' !! a = ns !! a) → free_list ns f fl → free_list ns' f fl.
Proof.
  revert f. induction fl as [|a fl IH]; intros f Hs; simpl; [done|].
  intros (-> & v & Hv & Hfl). split; [done|]. exists v. rewrite Hs by (by left).
  split; [done|]. apply IH; [|done]. intros. apply Hs. by right.
Qed.

Lemma free_list_dom ns f fl a : free_list ns f fl → a ∈ fl → is_Some (ns !! a).
Proof.
  revert f. induction fl as [|b fl IH]; intros f Hfl Ha; [by apply not_elem_of_nil in Ha|].
  destruct Hfl as (_ & v & Hv & Hfl). apply elem_of_cons in Ha as [->|Ha]; [by exists v|by eapply IH].
Qed.

(** ** The pages of a stored tree *)

(** induction on trees, with the hypothesis for every child *)
Lemma tree_ind' (P : tree → Prop) :
  (∀ a rows, P (Leaf a rows)) →
  (∀ a c0 kids, P c0 → Forall (λ rc, P rc.2) kids → P (Node a c0 kids)) → ∀ t, P t.
Proof.
  intros HL HN. fix IH 1. intros [a rows|a c0 kids]; [apply HL|apply HN]; [apply IH|].
  induction kids as [|[r c] kids IHk]; [constructor|]. constructor; [apply IH|exact IHk].
Qed.

Lemma stored_frame ns ns' t :
  (∀ a, a ∈ pages_of t → ns' !! a = ns !! a) → stored ns t → stored ns' t.
Proof.
  induction t as [a rows|a c0 kids IH0 IH] using tree_ind'; intros Hs; simpl.
  - intros (v & Hv & Hn). exists v. split; [|done]. rewrite Hs; [done|]. by left.
  - intros ((v & Hv & Hn) & H0 & Hk). split; [|split].
    + exists v. split; [|done]. rewrite Hs; [done|]. by left.
    + apply IH0; [|done]. intros b Hb. apply Hs. simpl. right. apply elem_of_app. by left.
    + assert (∀ b, b ∈ flat_map (λ rc, pages_of rc.2) kids → ns' !! b = ns !! b) as Hs'.
      { intros b Hb. apply Hs. simpl. right. apply elem_of_app. by right. }
      clear -IH Hk Hs'. induction kids as [|[r c] kids IHk]; [done|]. simpl in *.
      apply Forall_cons in IH as [Hc IH]. destruct Hk as [Hc' Hk]. split.
      * apply Hc; [|done]. intros b Hb. apply Hs'. apply elem_of_app. by left.
      * apply IHk; [done|done|]. intros b Hb. apply Hs'. apply elem_of_app. by right.
Qed.

Lemma stored_dom ns t a : stored ns t → a ∈ pages_of t → is_Some (ns !! a).
Proof.
  induction t as [b rows|b c0 kids IH0 IH] using tree_ind'; simpl.
  - intros (v & Hv & _) Ha. apply list_elem_of_singleton in Ha as ->. by exists v.
  - intros ((v & Hv & _) & H0 & Hk) Ha. apply elem_of_cons in Ha as [->|Ha]; [by exists v|].
    apply elem_of_app in Ha as [Ha|Ha]; [by apply IH0|].
    induction kids as [|[r c] kids IHk]; simpl in *; [by apply not_elem_of_nil in Ha|].
    apply Forall_cons in IH as [Hc IH]. destruct Hk as [Hc' Hk].
    apply elem_of_app in Ha as [Ha|Ha]; [by apply Hc|by apply IHk].
Qed.

(** ** Territories *)

(** from nodes [ns] and a file of length [l] to [ns'] and [l'] *)
Record frame_step (T T' : list Z) (ns : gmap Z nview) (l : Z) (ns' : gmap Z nview) (l' : Z) : Prop := {
  fs_len : l <= l';
  fs_frame : ∀ a, a ∉ T → a < l → ns' !! a = ns !! a;
  fs_new : ∀ a, a ∈ T' → a ∈ T ∨ l <= a;
  fs_nodup : NoDup T';
}.

Lemma frame_refl T ns l : NoDup T → frame_step T T ns l ns l.
Proof. intros. constructor; [lia|done|auto|done]. Qed.

Lemma frame_trans T1 T2 T3 ns1 l1 ns2 l2 ns3 l3 :
  frame_step T1 T2 ns1 l1 ns2 l2 → frame_step T2 T3 ns2 l2 ns3 l3 → frame_step T1 T3 ns1 l1 ns3 l3.
Proof.
  intros [L1 F1 N1 _] [L2 F2 N2 D]. constructor; [lia| | |done].
  - intros a Ha Hl. rewrite F2; [by apply F1| |lia]. intros H2. apply N1 in H2 as [?|?]; [done|lia].
  - intros a Ha. apply N2 in Ha as [Ha|?]; [|right; lia]. by apply N1 in Ha.
Qed.

Lemma frame_perm T1 T1' T2 T2' ns l ns' l' :
  T1 ≡ₚ T1' → T2 ≡ₚ T2' → frame_step T1 T2 ns l ns' l' → frame_step T1' T2' ns l ns' l'.
Proof.
  intros E1 E2 [L F N D]. constructor; [done| | |by rewrite <- E2].
  - intros a. rewrite <- E1. apply F.
  - intros a. rewrite <- E1, <- E2. apply N.
Qed.

(** pages [X] that are not touched *)
Lemma frame_add X T T' ns l ns' l' :
  NoDup (X ++ T) → (∀ a, a ∈ X → a < l) → frame_step T T' ns l ns' l' →
  frame_step (X ++ T) (X ++ T') ns l ns' l'.
Proof.
  intros HX Hl [L F N D]. apply NoDup_app in HX as (HX & Hd & _). constructor; [done| | |].
  - intros a Ha. apply F. intros H. apply Ha, elem_of_app. by right.
  - intros a [Ha|Ha]%elem_of_app; [left; apply elem_of_app; by left|].
    apply N in Ha as [Ha|Ha]; [left; apply elem_of_app; by right|by right].
  - apply NoDup_app. split; [done|]. split; [|done]. intros a Ha Ha'. apply N in Ha' as [Ha'|Ha'].
    + by eapply Hd.
    + specialize (Hl a Ha). lia.
Qed.

Lemma frame_keep X T T' ns l ns' l' a :
  NoDup (X ++ T) → (∀ a, a ∈ X → a < l) → frame_step T T' ns l ns' l' → a ∈ X → ns' !! a = ns !! a.
Proof.
  intros HX Hl [_ F _ _] Ha. apply F; [|by apply Hl]. intros HT.
  apply NoDup_app in HX as (_ & Hd & _). by eapply Hd.
Qed.

(** writing nodes of the territory *)
Lemma frame_write T ns l a v :
  NoDup T → a ∈ T → frame_step T T ns l (<[a:=v]> ns) l.
Proof.
  intros HT Ha. constructor; [lia| |auto|done].
  intros b Hb _. rewrite lookup_insert_ne; [done|]. by intros ->.
Qed.

Lemma frame_overlay T ns l pgs vs :
  NoDup T → (∀ a, a ∈ pgs.*1 → a ∈ T) → frame_step T T ns l (overlay pgs vs ns) l.
Proof.
  intros HT. revert vs. induction pgs as [|[a k] pgs IH]; intros [|v vs] Hp; try by apply frame_refl.
  cbn [overlay]. eapply frame_trans; [apply IH|].
  - intros b Hb. apply Hp. by right.
  - apply frame_write; [done|]. apply Hp. by left.
Qed.

Lemma frame_overlay_after T T' ns l ns' l' pgs vs :
  (∀ a, a ∈ pgs.*1 → a ∈ T') → frame_step T T' ns l ns' l' →
  frame_step T T' ns l (overlay pgs vs ns') l'.
Proof. intros Hp Hf. eapply frame_trans; [exact Hf|]. apply frame_overlay; [apply Hf|done]. Qed.

Lemma free_list_overlay ns f fl pgs vs :
  (∀ a, a ∈ pgs.*1 → a ∉ fl) → free_list ns f fl → free_list (overlay pgs vs ns) f fl.
Proof.
  intros Hp. apply free_list_frame. intros a Ha. apply overlay_other. intros H. by apply (Hp a).
Qed.

(** the nodes lie behind the control block, and in the file *)
Definition nodes_in (ns : gmap Z nview) (l : Z) : Prop := ∀ a, is_Some (ns !! a) → 0 < a < l.

(** the head of the list fits the field it is stored in *)
Lemma free_list_fits ns l f fl : nodes_in ns l → l <= MAX_LEN → free_list ns f fl → in_s 64 f.
Proof.
  intros Hin Hl. destruct fl as [|b fl]; cbn; [by intros ->|]. intros (-> & u & Hu & _).
  pose proof (Hin b (ex_intro _ u Hu)) as Hb.
  unfold in_s, MAX_LEN in *. change (2 ^ (64 - 1)) with (2 ^ 63). lia.
Qed.

(** ** A new node *)

Section alloc.
Context {W GW : Type} {RW : Rep W GW}.
Context (root free : Z) (ns : gmap Z nview) (l : Z) (ps : gmap Z (nat * Z)) (h : Z).

(** [a] comes from the free list, or is the page at the end of the file *)
Record new_node (fl : list Z) (a : Z) (v : nview) (free' : Z) (fl' : list Z)
    (ns' : gmap Z nview) (l' : Z) : Prop := {
  nn_node : ns' !! a = Some v;
  nn_shape : node_shape v;
  nn_frame : frame_step fl (a :: fl') ns l ns' l';
  nn_free : free_list ns' free' fl';
  nn_addr : 0 < a < l';
  nn_len : l' <= l + PAGE_SIZE;
  nn_in : nodes_in ns' l';
}.

Lemma alloc_node_spec kc fl w (Φ : Z * Ptr → ipool * GW → Prop) :
  free_list ns free fl → NoDup fl → ps !! 0 = Some (kc, 1) → (size ps < 8)%nat →
  (∀ a, a ∈ fl → ps !! a = None) → ps !! l = None → 0 < h → l + PAGE_SIZE <= MAX_LEN →
  (∀ a ka v free' fl' ns' l', new_node fl a v free' fl' ns' l' →
    Φ (a, ka) (IPool root free' ns' l' (<[a:=(ka, 1)]> ps) (h - 1), w)) →
  awp (alloc_node kc) Φ (IPool root free ns l ps h, w).
Proof.
  intros Hfl Hnd Hp0 Hs Hpf Hpl Hh HM HΦ. apply awp_rep. intros s [Hr _].
  pose proof (ipool_rep_ok _ _ Hr) as [Hdom [Hl1 Hl2]]. cbn [fst i_nodes i_len] in Hdom, Hl1, Hl2.
  unfold alloc_node. awp_step. apply awp_idx. eapply ip_rd_free; [exact Hp0|]. cbv beta.
  destruct fl as [|a fl].
  - cbn in Hfl. subst free. cbn [Z.eqb Pos.eqb negb].
    awp_step. apply awp_idx, ip_length. cbv beta.
    awp_step. apply awp_idx. eapply ip_get_past; [done|lia|done|done|done|done|]. intros ka. cbv beta.
    awp_step. apply (HΦ l ka (view EMPTY_PAGE) (-1) []). split.
    + apply lookup_insert_eq.
    + apply view_shape.
    + constructor.
      * unfold PAGE_SIZE. lia.
      * intros b _ Hb. rewrite lookup_insert_ne; [done|lia].
      * intros b Hb. apply list_elem_of_singleton in Hb as ->. right. lia.
      * apply NoDup_singleton.
    + done.
    + unfold PAGE_SIZE. lia.
    + done.
    + intros b Hb. unfold PAGE_SIZE. apply lookup_insert_is_Some in Hb as [<-|[_ Hb]]; [lia|].
      destruct (proj1 (Hdom b) Hb). lia.
  - destruct Hfl as (-> & v & Hv & Hfl). destruct (proj1 (Hdom a) (ex_intro _ v Hv)) as [Ha _].
    rewrite (proj2 (Z.eqb_neq a (-1))) by lia. cbn [negb].
    assert (node_shape v) as Hshape by (by eapply (ipool_rep_shape _ _ _ _ Hr)).
    awp_step. apply awp_idx. eapply ip_get_node; [exact Hv|apply Hpf; by left|done|done|]. intros ka. cbv beta.
    awp_step. apply awp_idx. eapply ip_read; [apply lookup_insert_eq|exact Hv|]. intros pg Hpg Hview.
    apply (wp_rd_next _ Hpg). rewrite Hview. split; [done|]. cbv beta.
    assert (in_s 64 (v_next v)) as Hnext.
    { eapply (free_list_fits ns l); [|lia|exact Hfl]. intros b Hb. by destruct (proj1 (Hdom b) Hb). }
    awp_step. apply awp_idx. eapply ip_wr_free; [|exact Hnext|].
    { rewrite lookup_insert_ne by lia. exact Hp0. }
    cbv beta. awp_step. apply (HΦ a ka v (v_next v) fl). apply NoDup_cons in Hnd as [Hafl Hnd]. split.
    + exact Hv.
    + exact Hshape.
    + apply frame_refl. by apply NoDup_cons.
    + exact Hfl.
    + lia.
    + unfold PAGE_SIZE. lia.
    + intros b Hb. by destruct (proj1 (Hdom b) Hb).
Qed.
End alloc.
