(* ===== verification/BTreeSearch.v ===== *)
(** Searching the index: [b_tree_search] returns the row with the key, if
    there is one, whatever the contents of the tree. *)
From stdpp Require Import base gmap list fin_maps sorting.
From Stdlib Require Import ZArith Lia Strings.Byte.
From S2P Require Import Prelude BufferPool PoolLogic PoolClient Table HeapStore BTree NodeSpec TreeSpec.
#[local] Open Scope Z_scope.

(** ** Order *)

Section order.
Context {K : Type} {kcmp : K → K → Z} {KO : KeyOrder kcmp}.
Implicit Types keys : gmap RID K.

Lemma kcmp_refl a : kcmp a a = 0.
Proof using KO. by apply kcmp_eq. Qed.

Lemma kcmp_le_lt a b c : kcmp a b <= 0 → kcmp b c < 0 → kcmp a c < 0.
Proof using KO.
  intros H1 H2. destruct (decide (kcmp a b = 0)) as [->%kcmp_eq|]; [done|].
  eapply kcmp_trans; [|done]. lia.
Qed.

Lemma kcmp_le_le a b c : kcmp a b <= 0 → kcmp b c <= 0 → kcmp a c <= 0.
Proof using KO.
  intros H1 H2. destruct (decide (kcmp b c = 0)) as [->%kcmp_eq|]; [done|].
  pose proof (kcmp_le_lt a b c H1). lia.
Qed.

Lemma above_le lo a b : above kcmp lo a → kcmp a b <= 0 → above kcmp lo b.
Proof using KO. destruct lo as [l|]; simpl; [|done]. by apply kcmp_le_le. Qed.

Lemma below_le hi a b : kcmp a b <= 0 → below kcmp hi b → below kcmp hi a.
Proof using KO. destruct hi as [l|]; simpl; [|done]. by apply kcmp_le_lt. Qed.

(** the rows of the children are within the bounds of the node *)
Lemma kids_within keys P lo hi c kids :
  (∀ lo hi t, P lo hi t → ∀ r, r ∈ elems t → within kcmp keys lo hi r) →
  kids_ok kcmp keys P lo hi c kids →
  ∀ r, r ∈ elems c ++ flat_map (λ rc, elems rc.2) kids → within kcmp keys lo hi r.
Proof using KO.
  intros HP. revert lo c. induction kids as [|[s c'] kids IH]; intros lo c Hk r Hr; simpl in *.
  - rewrite app_nil_r in Hr. by eapply HP.
  - destruct Hk as ((ks & Hs & Hlo & Hhi) & Hc & Hk). rewrite Hs in *.
    apply elem_of_app in Hr as [Hr|Hr].
    + destruct (HP _ _ _ Hc _ Hr) as (k & Hkr & Ha & Hb). exists k. split; [done|]. split; [done|].
      eapply below_le; [|exact Hhi]. simpl in Hb. lia.
    + destruct (IH _ _ Hk r Hr) as (k & Hkr & Ha & Hb). exists k. split; [done|]. split; [|done].
      by eapply above_le.
Qed.

Lemma wf_within keys m h : ∀ lo hi t, wf kcmp keys m h lo hi t →
  ∀ r, r ∈ elems t → within kcmp keys lo hi r.
Proof using KO.
  revert m. induction h as [|h IH]; intros m lo hi [a rows|a c0 kids] Hwf r Hr; simpl in *; try done.
  - destruct Hwf as (_ & Hw & _). by eapply Forall_forall in Hw.
  - destruct Hwf as (_ & Hk). eapply kids_within; [|exact Hk|exact Hr]. intros. by eapply (IH 2%nat).
Qed.

(** rows in strict order have distinct keys *)
Lemma unique_key keys rs r1 r2 k : StronglySorted (row_lt kcmp keys) rs →
  r1 ∈ rs → r2 ∈ rs → keys !! r1 = Some k → keys !! r2 = Some k → r1 = r2.
Proof using KO.
  assert (∀ r r', keys !! r = Some k → keys !! r' = Some k → row_lt kcmp keys r r' → False) as Hirr.
  { intros r r' Hr Hr' (k1 & k2 & E1 & E2 & Hlt). simplify_eq. by rewrite (proj2 (kcmp_eq k k)) in Hlt. }
  induction 1 as [|r rs _ IH Hlt]; intros H1 H2 K1 K2; [by apply not_elem_of_nil in H1|].
  rewrite Forall_forall in Hlt.
  apply elem_of_cons in H1 as [->|H1], H2 as [->|H2]; [done|exfalso; eauto..|by apply IH].
Qed.

(** ... and the rows of the tree are sorted *)
Lemma elems_sorted keys m h lo hi t : wf kcmp keys m h lo hi t →
  StronglySorted (row_lt kcmp keys) (elems t).
Proof using KO.
  revert m lo hi t. induction h as [|h IH]; intros m lo hi [a rows|a c0 kids] Hwf; simpl in *; try done.
  { apply Hwf. }
  destruct Hwf as (_ & Hk). clear a m. revert lo c0 Hk.
  induction kids as [|[s c'] kids IHk]; intros lo c Hk; simpl in *.
  { rewrite app_nil_r. by eapply IH. }
  destruct Hk as ((ks & Hs & _) & Hc & Hk). rewrite Hs in *.
  apply StronglySorted_app_2; [|by eapply IH|by eapply IHk].
  intros x y Hx Hy.
  destruct (wf_within _ _ _ _ _ _ Hc _ Hx) as (kx & ? & _ & Hbx).
  destruct (kids_within keys (wf kcmp keys 2 h) (Some ks) hi c' kids) with y as (ky & ? & Hay & _).
  - intros. by eapply wf_within.
  - exact Hk.
  - exact Hy.
  - exists kx, ky. split; [done|]. split; [done|]. simpl in *.
    destruct (decide (kcmp ks ky = 0)) as [E|].
    + apply kcmp_eq in E as ->. done.
    + eapply kcmp_trans; [exact Hbx|lia].
Qed.
End order.

(** ** Scanning a node *)

Section scan.
Context {K W : Type} {kcmp : K → K → Z} {KO : KeyOrder kcmp}.
Context {RW : Rep W (world K)} {KW : KeyWorld K W}.
Context (cmp : RID → M W Z) (k : K) (cost : Z) {HC : Comparer kcmp cmp k cost}.
Context (Hcost : 0 <= cost).

Lemma awp_world_spend {G} {RG : Rep BufferPool G} {A} (m : M (BufferPool * W) A)
    (Φ : A → G * world K → Prop) g keys n n' :
  n' <= n → awp m Φ (g, World keys n') → awp m Φ (g, World keys n).
Proof using KW. intros Hn Hm s [Hg Hw]. apply Hm. split; [done|]. by eapply world_spend. Qed.

Lemma awp_post_spend {G} {RG : Rep BufferPool G} {A} (m : M (BufferPool * W) A)
    (Φ : A → G * world K → Prop) keys n0 g :
  awp m (λ a g', ∃ ip n', n0 <= n' ∧ g' = (ip, World keys n') ∧ Φ a (ip, World keys n0)) g →
  awp m Φ g.
Proof using KW.
  intros Hm s Hs. eapply wp_mono; [by apply Hm|].
  intros a [p w] (g' & [Hp Hw] & ip & n' & Hn' & -> & HΦ). exists (ip, World keys n0).
  split; [|done]. split; [done|]. by eapply world_spend.
Qed.

(** the first position whose row passes the test [f] on its comparison *)
Lemma scan_spec root free ns l ps h a kp c v leaf rs cs keys n f (Φ : Z → ipool * world K → Prop) :
  ps !! a = Some (kp, c) → ns !! a = Some v → node_is v leaf rs cs → (length rs <= 4)%nat →
  (∀ r, r ∈ rs → is_Some (keys !! r)) → 4 * cost <= n →
  (∀ i : nat, (i <= length rs)%nat →
    (∀ j r kr, (j < i)%nat → rs !! j = Some r → keys !! r = Some kr → f (kcmp k kr) = false) →
    (∀ r kr, rs !! i = Some r → keys !! r = Some kr → f (kcmp k kr) = true) →
    Φ (Z.of_nat i) (IPool root free ns l ps h, World keys (n - 4 * cost))) →
  awp (iter_find (length rs) 0 (λ i,
      row ← nd kp (rd_row i); c ← ext (cmp row); mret (f c : bool)))
    Φ (IPool root free ns l ps h, World keys n).
Proof using HC Hcost KW RW.
  intros Hps Hns Hnode Hlen Hkeys Hn HΦ.
  set (P := λ i : Z, match rs !! Z.to_nat i with
                     | Some r => match keys !! r with Some kr => f (kcmp k kr) | None => false end
                     | None => false end).
  set (J := λ (i : Z) (g : ipool * world K), ∃ n', n - cost * i <= n' ∧
        g = (IPool root free ns l ps h, World keys n')).
  apply awp_post_spend with keys (n - 4 * cost). apply (awp_iter_find _ _ _ P J).
  - exists n. split; [lia|done].
  - intros i g Hi (n' & Hn' & ->).
    destruct (lookup_lt_is_Some_2 rs (Z.to_nat i)) as [r Hr]; [lia|].
    destruct (Hkeys r (list_elem_of_lookup_2 _ _ _ Hr)) as [kr Hkr].
    awp_step. apply awp_idx. eapply ip_read; [done..|]. intros pg Hpg Hv.
    eapply (wp_rd_row _ Hpg (Z.to_nat i) i r); [lia| |].
    { rewrite Hv. destruct (n_rows _ _ _ _ Hnode) as [_ [rest ->]]. by apply lookup_app_l_Some. }
    split; [done|]. awp_step. apply awp_world. eapply compare_row; [done|nia|].
    awp_step. split; [unfold P; by rewrite Hr, Hkr|]. exists (n' - cost). split; [lia|done].
  - intros i j g Hi Hbefore Hat Hj (n' & Hn' & ->).
    eexists _, n'. split; [nia|]. split; [done|]. rewrite <- (Z2Nat.id i) by lia.
    apply HΦ; [lia| |].
    + intros j' r kr Hj' Hr Hkr. specialize (Hbefore (Z.of_nat j') ltac:(lia)).
      unfold P in Hbefore. by rewrite Nat2Z.id, Hr, Hkr in Hbefore.
    + intros r kr Hr Hkr. pose proof (lookup_lt_Some _ _ _ Hr).
      specialize (Hat ltac:(lia)). unfold P in Hat. by rewrite Hr, Hkr in Hat.
Qed.

(** *** Descending *)

(** the child [find_subtree] chooses is the one whose bounds have the key *)
Lemma kids_choose keys P lo hi p c s :
  kids_ok kcmp keys P lo hi (plug p c s).1 (plug p c s).2 →
  above kcmp lo k → below kcmp hi k →
  (∀ j r kr, (j < length p)%nat → (plug p c s).2.*1 !! j = Some r → keys !! r = Some kr →
     (kcmp k kr <? 0) = false) →
  (∀ r kr, (plug p c s).2.*1 !! length p = Some r → keys !! r = Some kr →
     (kcmp k kr <? 0) = true) →
  above kcmp (lower keys lo p) k ∧ below kcmp (upper keys hi s) k.
Proof using KO.
  intros Hk Hlo Hhi Hbefore Hat. rewrite plug_seps in Hbefore, Hat.
  apply kids_ok_plug in Hk as [Hp Hs]. split.
  - clear Hs Hat. assert (∀ tr kr, tr ∈ p → keys !! tr.2 = Some kr → kcmp kr k <= 0) as Hall.
    { intros tr kr Htr Hkr. apply list_elem_of_lookup in Htr as [j Hj].
      pose proof (lookup_lt_Some _ _ _ Hj).
      specialize (Hbefore j tr.2 kr ltac:(done)). rewrite lookup_app_l in Hbefore by (by rewrite length_fmap).
      rewrite list_lookup_fmap, Hj in Hbefore. specialize (Hbefore eq_refl Hkr).
      rewrite kcmp_swap. lia. }
    clear Hbefore. revert lo Hlo Hp. induction p as [|[t r] p IH]; intros lo Hlo Hp; [done|].
    simpl in *. destruct Hp as ((kr & Hkr & _) & _ & Hp). rewrite Hkr in *. apply IH; [|simpl|done].
    + intros tr kr' Htr. apply Hall. by right.
    + apply (Hall (t, r)); [by left|done].
  - destruct s as [|[r c'] s]; [done|]. simpl. destruct (keys !! r) as [kr|] eqn:Hkr; [|done].
    specialize (Hat r kr). rewrite lookup_app_r in Hat by (by rewrite length_fmap).
    rewrite length_fmap, Nat.sub_diag in Hat. specialize (Hat eq_refl Hkr). simpl. lia.
Qed.

Lemma lower_above keys P lo hi p :
  before_ok kcmp keys P lo hi p → above kcmp (lower keys lo p) k → above kcmp lo k.
Proof using KO.
  revert lo. induction p as [|[t r] p IH]; intros lo Hp Ha; [done|]. simpl in *.
  destruct Hp as ((kr & Hkr & Hlo & _) & _ & Hp). rewrite Hkr in *.
  eapply above_le; [exact Hlo|]. by apply (IH _ Hp).
Qed.

(** the rows with the key are those of the chosen child *)
Lemma kids_elems keys m h lo hi p c s r :
  kids_ok kcmp keys (wf kcmp keys m h) lo hi (plug p c s).1 (plug p c s).2 →
  above kcmp (lower keys lo p) k → below kcmp (upper keys hi s) k →
  keys !! r = Some k →
  r ∈ elems (plug p c s).1 ++ flat_map (λ rc, elems rc.2) (plug p c s).2 → r ∈ elems c.
Proof using KO.
  intros Hk Ha Hb Hkr Hr. rewrite (plug_flat elems) in Hr. apply kids_ok_plug in Hk as [Hp Hs].
  apply elem_of_app in Hr as [Hr|[Hr|Hr]%elem_of_app]; [exfalso|done|exfalso].
  - revert lo Hp Ha Hs. induction p as [|[t q] p IH]; intros lo Hp Ha Hs; simpl in *.
    { by apply not_elem_of_nil in Hr. }
    destruct Hp as ((kq & Hkq & _) & Ht & Hp). rewrite Hkq in *.
    apply elem_of_app in Hr as [Hr|Hr]; [|by eapply IH].
    destruct (wf_within _ _ _ _ _ _ Ht _ Hr) as (kr & Hkr' & _ & Hlt). simplify_eq. simpl in Hlt.
    pose proof (lower_above _ _ _ _ _ Hp Ha) as Hle. simpl in Hle.
    rewrite kcmp_swap in Hle. lia.
  - destruct s as [|[q c'] s]; [by apply not_elem_of_nil in Hr|]. simpl in *.
    destruct Hs as ((kq & Hkq & _) & _ & Hs). rewrite Hkq in *. simpl in Hb.
    destruct (kids_within keys (wf kcmp keys m h) (Some kq) hi c' s) with r as (kr & Hkr' & Hle & _).
    + intros. by eapply wf_within.
    + exact Hs.
    + exact Hr.
    + simplify_eq. simpl in Hle. rewrite kcmp_swap in Hle. lia.
Qed.

Lemma kids_keys keys P lo hi c kids r :
  kids_ok kcmp keys P lo hi c kids → r ∈ kids.*1 → is_Some (keys !! r).
Proof using.
  revert lo c. induction kids as [|[q c'] kids IH]; intros lo c Hk Hr; simpl in *.
  { by apply not_elem_of_nil in Hr. }
  destruct Hk as ((kq & Hkq & _) & _ & Hk). apply elem_of_cons in Hr as [->|Hr]; [by eexists|].
  by eapply IH.
Qed.

(** the node [k] points at, read through the pointer *)
Lemma nd_read_n root free ns l ps h a kp c v leaf rs cs w (Φ : Z → ipool * world K → Prop) :
  ps !! a = Some (kp, c) → ns !! a = Some v → node_is v leaf rs cs →
  Φ (Z.of_nat (length rs)) (IPool root free ns l ps h, w) →
  awp (nd kp rd_n) Φ (IPool root free ns l ps h, w).
Proof using.
  intros Hp Hn Hv HΦ. apply awp_idx. eapply ip_read; [done..|]. intros pg Hpg Hview.
  apply (wp_rd_n _ Hpg). rewrite Hview, (n_n _ _ _ _ Hv). by split.
Qed.

Lemma nd_read_leaf root free ns l ps h a kp c v leaf rs cs w (Φ : bool → ipool * world K → Prop) :
  ps !! a = Some (kp, c) → ns !! a = Some v → node_is v leaf rs cs →
  Φ leaf (IPool root free ns l ps h, w) →
  awp (nd kp rd_leaf) Φ (IPool root free ns l ps h, w).
Proof using.
  intros Hp Hn Hv HΦ. apply awp_idx. eapply ip_read; [done..|]. intros pg Hpg Hview.
  apply (wp_rd_leaf _ Hpg). rewrite Hview, (n_leaf _ _ _ _ Hv). by split.
Qed.

Lemma nd_read_row root free ns l ps h a kp c v leaf rs cs w (i : nat) z r
    (Φ : RID → ipool * world K → Prop) :
  ps !! a = Some (kp, c) → ns !! a = Some v → node_is v leaf rs cs →
  z = Z.of_nat i → rs !! i = Some r → Φ r (IPool root free ns l ps h, w) →
  awp (nd kp (rd_row z)) Φ (IPool root free ns l ps h, w).
Proof using.
  intros Hp Hn Hv Hz Hr HΦ. apply awp_idx. eapply ip_read; [done..|]. intros pg Hpg Hview.
  eapply (wp_rd_row _ Hpg i); [done| |by split].
  rewrite Hview. destruct (n_rows _ _ _ _ Hv) as [_ [rest ->]]. by apply lookup_app_l_Some.
Qed.

Lemma nd_read_child root free ns l ps h a kp c v leaf rs cs w (i : nat) z x
    (Φ : Z → ipool * world K → Prop) :
  ps !! a = Some (kp, c) → ns !! a = Some v → node_is v leaf rs cs →
  z = Z.of_nat i → cs !! i = Some x → Φ x (IPool root free ns l ps h, w) →
  awp (nd kp (rd_child z)) Φ (IPool root free ns l ps h, w).
Proof using.
  intros Hp Hn Hv Hz Hr HΦ. apply awp_idx. eapply ip_read; [done..|]. intros pg Hpg Hview.
  eapply (wp_rd_child _ Hpg i); [done| |by split].
  rewrite Hview. destruct (n_kids _ _ _ _ Hv) as [_ [rest ->]]. by apply lookup_app_l_Some.
Qed.

(** a leaf *)
Lemma search_leaf_spec root free ns l keys fuel m lo hi a rows hh n (Φ : RID → ipool * world K → Prop) :
  wf kcmp keys m 0 lo hi (Leaf a rows) → stored ns (Leaf a rows) → 0 < hh → 4 * cost <= n →
  (let g' := (IPool root free ns l ∅ (hh - 1), World keys (n - 4 * cost)) in
   (∀ r, r ∈ rows → keys !! r = Some k → Φ r g') ∧ ((∀ r, r ∈ rows → keys !! r ≠ Some k) → Φ failed_rid g')) →
  awp (search_entry cmp (S fuel) a) Φ (IPool root free ns l ∅ hh, World keys n).
Proof using HC Hcost KO KW RW.
  intros Hwf Hst Hhh Hn [HΦ1 HΦ2]. cbn [search_entry].
  destruct Hwf as (Hlen & Hw & _). destruct Hst as (v & Hv & Hnode).
  rewrite Forall_forall in Hw. assert (∀ r, r ∈ rows → is_Some (keys !! r)) as Hkeys.
  { intros r Hr. destruct (Hw r Hr) as (kr & ? & _). eauto. }
  awp_step. apply awp_idx. eapply ip_get_node; [exact Hv|map_find|pins_size|lia|]. intros kp.
  awp_step. eapply nd_read_leaf; [map_find|exact Hv|exact Hnode|].
  cbv beta iota. awp_step. unfold find_row. awp_step. eapply nd_read_n; [map_find|exact Hv|exact Hnode|].
  cbv beta. unfold find_lt. rewrite Z.sub_0_r, Nat2Z.id.
  eapply (scan_spec _ _ _ _ _ _ _ _ _ _ _ _ _ _ _ (λ z, z =? 0));
    [map_find|exact Hv|exact Hnode|lia|done|lia|].
  intros i Hi Hbefore Hat. cbv beta. awp_step. eapply nd_read_n; [map_find|exact Hv|exact Hnode|].
  cbv beta.
  destruct (Z.ltb_spec (Z.of_nat i) (Z.of_nat (length rows))).
  + destruct (lookup_lt_is_Some_2 rows i) as [r Hr]; [lia|].
    pose proof (list_elem_of_lookup_2 _ _ _ Hr) as Hin. destruct (Hkeys r Hin) as [kr Hkr].
    specialize (Hat r kr Hr Hkr). apply Z.eqb_eq, kcmp_eq in Hat as <-.
    awp_step. eapply nd_read_row; [map_find|exact Hv|exact Hnode|done|exact Hr|].
    cbv beta. awp_step. apply awp_idx. eapply ip_release; [map_find|]. rewrite delete_insert_id by done.
    cbv beta. awp_step. by apply HΦ1.
  + awp_step. apply awp_idx. eapply ip_release; [map_find|]. rewrite delete_insert_id by done.
    cbv beta. awp_step. apply HΦ2. intros r Hr Hkr. apply list_elem_of_lookup in Hr as [j Hj].
    pose proof (lookup_lt_Some _ _ _ Hj).
    specialize (Hbefore j r k ltac:(lia) Hj Hkr). simpl in Hbefore.
    by rewrite (kcmp_refl (kcmp := kcmp)) in Hbefore.
Qed.

(** the fuel is the height and one more *)
Lemma search_entry_spec root free ns l keys fuel : ∀ m h lo hi t hh n (Φ : RID → ipool * world K → Prop),
  wf kcmp keys m h lo hi t → stored ns t → above kcmp lo k → below kcmp hi k →
  (h < fuel)%nat → Z.of_nat h < hh → 4 * cost * Z.of_nat (S h) <= n →
  (let g' := (IPool root free ns l ∅ (hh - Z.of_nat (S h)), World keys (n - 4 * cost * Z.of_nat (S h))) in
   (∀ r, r ∈ elems t → keys !! r = Some k → Φ r g') ∧
   ((∀ r, r ∈ elems t → keys !! r ≠ Some k) → Φ failed_rid g')) →
  awp (search_entry cmp fuel (addr t)) Φ (IPool root free ns l ∅ hh, World keys n).
Proof using HC Hcost KO KW RW.
  induction fuel as [|fuel IH]; intros m h lo hi t hh n Φ Hwf Hst Hlo Hhi Hf Hhh Hn [HΦ1 HΦ2]; [lia|].
  cbn [search_entry].
  destruct h as [|h], t as [a rows|a c0 kids]; simpl in Hwf; try done.
  - eapply (search_leaf_spec _ _ _ _ _ fuel _ _ _ a rows); [exact Hwf|exact Hst|lia|lia|]. cbv zeta.
    replace (n - 4 * cost) with (n - 4 * cost * Z.of_nat 1) by lia. by split.
  - destruct Hwf as (Hlen & Hk). destruct Hst as ((v & Hv & Hnode) & Hst).
    assert (length kids.*1 = length kids) as Hlk by apply length_fmap.
    awp_step. apply awp_idx. eapply ip_get_node; [exact Hv|map_find|pins_size|lia|]. intros kp.
    awp_step. eapply nd_read_leaf; [map_find|exact Hv|exact Hnode|].
    cbv beta iota. awp_step. unfold find_subtree.
    awp_step. eapply nd_read_n; [map_find|exact Hv|exact Hnode|].
    cbv beta. unfold find_ne. rewrite Z.sub_0_r, Nat2Z.id.
    rewrite (proj2 (Z.ltb_ge _ 0)) by lia.
    eapply (scan_spec _ _ _ _ _ _ _ _ _ _ _ _ _ _ _ (λ z, z <? 0));
      [map_find|exact Hv|exact Hnode|lia| |lia|].
    { intros r Hr. by eapply kids_keys. }
    intros i Hi Hbefore Hat. cbv beta. rewrite Hlk in Hi.
    destruct (plug_exists c0 kids i Hi) as (p & c & s & -> & -> & Hp).
    rewrite <- Hp in *. clear i Hp.
    destruct (kids_choose _ _ _ _ _ _ _ Hk Hlo Hhi Hbefore Hat) as [Hlo' Hhi'].
    awp_step. eapply nd_read_child; [map_find|exact Hv|exact Hnode|done| |].
    { rewrite plug_children. rewrite lookup_app_r by (by rewrite length_fmap).
      by rewrite length_fmap, Nat.sub_diag. }
    cbv beta. awp_step. apply awp_idx. eapply ip_release; [map_find|].
    rewrite delete_insert_id by done. cbv beta.
    apply plug_stored in Hst as (_ & Hst & _).
    pose proof (proj1 (kids_ok_plug _ _ _ _ _ _ _ _) Hk) as [_ Hs].
    pose proof (kids_ok_first _ _ _ _ _ _ _ Hs) as Hwc.
    eapply (IH 2%nat h); [exact Hwc|done|done|done|lia|lia|lia|]. cbv zeta.
    replace (hh - 1 - Z.of_nat (S h)) with (hh - Z.of_nat (S (S h))) by lia.
    replace (n - 4 * cost - 4 * cost * Z.of_nat (S h)) with (n - 4 * cost * Z.of_nat (S (S h))) by lia.
    split.
    + intros r Hr. apply HΦ1. cbn [elems]. rewrite (plug_flat elems).
      apply elem_of_app. right. apply elem_of_app. by left.
    + intros Hno. apply HΦ2. intros r Hr Hkr. apply (Hno r); [|done]. by eapply kids_elems.
Qed.

Lemma b_tree_search_spec g keys o fuel n (Φ : RID → ipool * world K → Prop) :
  rooted kcmp keys g o → i_pins g = ∅ → index_depth o <= Z.of_nat fuel + 1 →
  index_depth o <= i_hits g → 4 * cost * index_depth o <= n →
  (let g' := (IPool (i_root g) (i_free g) (i_nodes g) (i_len g) ∅ (i_hits g - index_depth o),
              World keys (n - 4 * cost * index_depth o)) in
   (∀ r, r ∈ index_rows o → keys !! r = Some k → Φ r g') ∧
   ((∀ r, r ∈ index_rows o → keys !! r ≠ Some k) → Φ failed_rid g')) →
  awp (b_tree_search cmp fuel) Φ (g, World keys n).
Proof using HC Hcost KO KW RW.
  destruct g as [root free ns l ps hh]. cbn [i_root i_free i_nodes i_len i_pins i_hits].
  intros Hr -> Hf Hh Hn HΦ. unfold b_tree_search.
  assert (1 <= index_depth o) by (destruct o; simpl; lia).
  awp_step. apply awp_idx. eapply ip_get_ctrl; [map_find|pins_size|lia|]. intros kp.
  awp_step. apply awp_idx. eapply ip_rd_root; [map_find|]. cbv beta.
  awp_step. apply awp_idx. eapply ip_release; [map_find|].
  rewrite delete_insert_id by done. cbv beta.
  destruct o as [t|]; cbn [index_depth index_rows] in *.
  - cbn [rooted i_root i_nodes] in Hr. destruct Hr as (-> & Hwf & Hst).
    assert (addr t =? -1 = false ∨ addr t = -1) as [E|E] by (destruct (Z.eqb_spec (addr t) (-1)); auto).
    2:{ intros s [Hp _]. exfalso. pose proof (ipool_rep_ok _ _ Hp) as [Hd _].
        destruct (proj1 (Hd (addr t)) (stored_addr _ _ Hst)) as [? _]. lia. }
    rewrite E. apply (awp_world_spend _ _ _ _ _ (n - 4 * cost)); [lia|].
    eapply (search_entry_spec _ _ _ _ _ fuel 1 (height t) None None); [exact Hwf|done|done|done|lia|lia|lia|].
    cbv zeta in *.
    replace (hh - 1 - Z.of_nat (S (height t))) with (hh - (Z.of_nat (height t) + 2)) by lia.
    replace (n - 4 * cost - 4 * cost * Z.of_nat (S (height t)))
      with (n - 4 * cost * (Z.of_nat (height t) + 2)) by lia.
    exact HΦ.
  - cbn in Hr. subst root. cbn [Z.eqb Pos.eqb].
    apply (awp_world_spend _ _ _ _ _ (n - 4 * cost * 1)); [lia|].
    awp_step. apply HΦ. intros r Hr. by apply not_elem_of_nil in Hr.
Qed.
End scan.
