(* ===== verification/TreeInsert.v ===== *)
(** Growing a B+ tree: what adding a row, a child or a level keeps. *)
From stdpp Require Import base gmap list fin_maps sorting.
From Stdlib Require Import ZArith Lia Strings.Byte.
From S2P Require Import Prelude PoolLogic Table HeapStore BTree NodeSpec TreeSpec BTreeSearch.
#[local] Open Scope Z_scope.

Section order.
Context {K : Type} {kcmp : K → K → Z} {KO : KeyOrder kcmp}.
Implicit Types keys : gmap RID K.

(** *** More keys *)

Lemma within_mono keys keys' lo hi r :
  keys ⊆ keys' → within kcmp keys lo hi r → within kcmp keys' lo hi r.
Proof using. intros Hs (k & Hk & H). exists k. split; [|done]. by eapply lookup_weaken. Qed.

Lemma row_lt_mono keys keys' r1 r2 :
  keys ⊆ keys' → row_lt kcmp keys r1 r2 → row_lt kcmp keys' r1 r2.
Proof using.
  intros Hs (k1 & k2 & H1 & H2 & H). exists k1, k2. split_and!; [..|done]; by eapply lookup_weaken.
Qed.

Lemma sorted_mono keys keys' rs :
  keys ⊆ keys' → StronglySorted (row_lt kcmp keys) rs → StronglySorted (row_lt kcmp keys') rs.
Proof using.
  intros Hs. induction 1 as [|r rs _ IH Hr]; constructor; [done|].
  eapply Forall_impl; [exact Hr|]. intros. by eapply row_lt_mono.
Qed.

Lemma kids_mono keys keys' (P P' : option K → option K → tree → Prop) lo hi c kids :
  keys ⊆ keys' → (∀ lo hi t, P lo hi t → P' lo hi t) →
  kids_ok kcmp keys P lo hi c kids → kids_ok kcmp keys' P' lo hi c kids.
Proof using.
  intros Hs HP. revert lo c. induction kids as [|[r c'] kids IH]; intros lo c; simpl; [auto|].
  intros (Hw & Hc & Hk). pose proof Hw as (k & Hr & _). rewrite Hr in *.
  rewrite (lookup_weaken _ _ _ _ Hr Hs). split; [by eapply within_mono|]. auto.
Qed.

Lemma wf_mono keys keys' m h lo hi t :
  keys ⊆ keys' → wf kcmp keys m h lo hi t → wf kcmp keys' m h lo hi t.
Proof using.
  intros Hs. revert m lo hi t. induction h as [|h IH]; intros m lo hi [a rows|a c0 kids]; simpl; try done.
  - intros (Hl & Hw & Hsort). split; [done|]. split; [|by eapply sorted_mono].
    eapply Forall_impl; [exact Hw|]. intros. by eapply within_mono.
  - intros (Hl & Hk). split; [done|]. eapply kids_mono; [done| |exact Hk]. intros. by apply IH.
Qed.

(** *** Fewer demands *)

Lemma wf_weaken keys m m' h lo hi t :
  (m' <= m)%nat → wf kcmp keys m h lo hi t → wf kcmp keys m' h lo hi t.
Proof using. intros Hm. destruct h, t; simpl; try done; intros (? & ?); (split; [lia|done]). Qed.

(** *** Rows *)

Lemma within_above keys lo hi r k : keys !! r = Some k → within kcmp keys lo hi r → above kcmp lo k.
Proof using. intros Hk (k' & Hk' & H & _). by simplify_eq. Qed.
Lemma within_below keys lo hi r k : keys !! r = Some k → within kcmp keys lo hi r → below kcmp hi k.
Proof using. intros Hk (k' & Hk' & _ & H). by simplify_eq. Qed.

(** the place a scan for the first greater key finds, in rows without the key *)
Definition scan_at keys (k : K) (rs : list RID) (i : nat) : Prop :=
  (∀ j r kr, (j < i)%nat → rs !! j = Some r → keys !! r = Some kr → (kcmp k kr <? 0) = false) ∧
  (∀ r kr, rs !! i = Some r → keys !! r = Some kr → (kcmp k kr <? 0) = true).

Lemma row_lt_trans keys a b c :
  row_lt kcmp keys a b → row_lt kcmp keys b c → row_lt kcmp keys a c.
Proof using KO.
  intros (ka & kb & Ha & Hb & H) (kb' & kc & Hb' & Hc & H'). simplify_eq.
  exists ka, kc. split_and!; [done..|]. by eapply kcmp_trans.
Qed.

Lemma rows_insert keys lo hi p s rid k :
  Forall (within kcmp keys lo hi) (p ++ s) → StronglySorted (row_lt kcmp keys) (p ++ s) →
  keys !! rid = Some k → above kcmp lo k → below kcmp hi k →
  (∀ r, r ∈ p ++ s → keys !! r ≠ Some k) → scan_at keys k (p ++ s) (length p) →
  Forall (within kcmp keys lo hi) (p ++ rid :: s) ∧
  StronglySorted (row_lt kcmp keys) (p ++ rid :: s).
Proof using KO.
  intros Hw Hs Hk Hlo Hhi Hno [Hbefore Hat]. apply Forall_app in Hw as [Hwp Hws].
  split. { apply Forall_app. split; [done|]. constructor; [|done]. by exists k. }
  apply StronglySorted_app in Hs as (Hps & Hp & Hs).
  apply StronglySorted_app_2; [|done|].
  - intros x y Hx Hy. apply elem_of_cons in Hy as [->|Hy]; [|by apply Hps].
    rewrite Forall_forall in Hwp. destruct (Hwp x Hx) as (kx & Hkx & _). exists kx, k. split_and!; [done..|].
    apply list_elem_of_lookup in Hx as [j Hj]. pose proof (lookup_lt_Some _ _ _ Hj).
    pose proof (Hbefore j x kx ltac:(done) ltac:(by apply lookup_app_l_Some) Hkx) as Hle.
    rewrite kcmp_swap. apply Z.ltb_ge in Hle.
    destruct (decide (kcmp k kx = 0)) as [E|]; [|lia]. apply kcmp_eq in E as <-.
    destruct (Hno x); [|done]. apply elem_of_app. left. by eapply list_elem_of_lookup_2.
  - constructor; [done|]. rewrite Forall_forall. intros y Hy.
    destruct s as [|z s]; [by apply not_elem_of_nil in Hy|].
    rewrite Forall_forall in Hws. destruct (Hws z ltac:(by left)) as (kz & Hkz & _).
    assert (row_lt kcmp keys rid z) as Hz.
    { exists k, kz. split_and!; [done..|]. apply Z.ltb_lt. eapply Hat; [|exact Hkz].
      by rewrite list_lookup_middle. }
    apply elem_of_cons in Hy as [->|Hy]; [done|]. eapply row_lt_trans; [exact Hz|].
    apply StronglySorted_inv in Hs as [_ Hs]. by eapply Forall_forall in Hs.
Qed.

(** rows cut before [x], whose key a new key [sep] copies *)
Lemma rows_split keys lo hi L1 x L2 sep km :
  Forall (within kcmp keys lo hi) (L1 ++ x :: L2) →
  StronglySorted (row_lt kcmp keys) (L1 ++ x :: L2) →
  keys !! x = Some km → keys !! sep = Some km →
  (Forall (within kcmp keys lo (Some km)) L1 ∧ StronglySorted (row_lt kcmp keys) L1) ∧
  (Forall (within kcmp keys (Some km) hi) (x :: L2) ∧ StronglySorted (row_lt kcmp keys) (x :: L2)) ∧
  within kcmp keys lo hi sep.
Proof using KO.
  intros Hw Hs Hx Hsep. apply Forall_app in Hw as [Hw1 Hw2].
  apply StronglySorted_app in Hs as (H12 & Hs1 & Hs2).
  split; [split; [|done]|split; [split; [|done]|]].
  - rewrite Forall_forall in *. intros y Hy. destruct (Hw1 y Hy) as (ky & Hky & Hl & _).
    exists ky. split_and!; [done..|]. destruct (H12 y x Hy ltac:(by left)) as (ky' & kx & ? & ? & ?).
    by simplify_eq.
  - rewrite Forall_forall in *. intros y Hy. destruct (Hw2 y Hy) as (ky & Hky & _ & Hh).
    exists ky. split_and!; [done| |done]. simpl. apply elem_of_cons in Hy as [->|Hy].
    + simplify_eq. by rewrite (kcmp_refl (kcmp := kcmp)).
    + apply StronglySorted_inv in Hs2 as [_ Hs2]. rewrite Forall_forall in Hs2.
      destruct (Hs2 y Hy) as (kx & ky' & ? & ? & ?). simplify_eq. lia.
  - apply Forall_cons in Hw2 as [(kx & Hkx & Hl & Hh) _]. simplify_eq. by exists kx.
Qed.

(** *** Children *)

Lemma kids_ok_replace keys P lo hi p c s c' :
  kids_ok kcmp keys P lo hi (plug p c s).1 (plug p c s).2 →
  P (lower keys lo p) (upper keys hi s) c' →
  kids_ok kcmp keys P lo hi (plug p c' s).1 (plug p c' s).2.
Proof using.
  rewrite !kids_ok_plug. intros [Hb Hk] Hc'. split; [done|].
  destruct s as [|[r c1] s]; [done|]. simpl in *. tauto.
Qed.

(** the child is cut in two, with a new key between the halves *)
Lemma kids_ok_grow keys P lo hi p c s t1 sep km t2 :
  kids_ok kcmp keys P lo hi (plug p c s).1 (plug p c s).2 →
  keys !! sep = Some km → within kcmp keys (lower keys lo p) (upper keys hi s) sep →
  P (lower keys lo p) (Some km) t1 → P (Some km) (upper keys hi s) t2 →
  kids_ok kcmp keys P lo hi (plug p t1 ((sep, t2) :: s)).1 (plug p t1 ((sep, t2) :: s)).2.
Proof using KO.
  rewrite !kids_ok_plug. intros [Hb Hk] Hsep Hw H1 H2. split; [done|]. simpl. rewrite Hsep.
  split; [|split; [done|]].
  - destruct s as [|[r c1] s]; [done|]. simpl in *. destruct Hk as ((kr & Hr & Hl & Hh) & _ & _).
    rewrite Hr in Hw. destruct Hw as (k & Hk & Hlo & Hb'). exists k. split; [done|]. split; [done|].
    eapply below_le; [|exact Hh]. simpl in Hb'. lia.
  - destruct s as [|[r c1] s]; [done|]. simpl in *. destruct Hk as ((kr & Hr & Hl & Hh) & _ & Hk).
    split; [|split; [done|done]]. exists kr. split; [done|]. split; [|done]. rewrite Hr in *.
    destruct Hw as (k & Hk' & _ & Hb'). simplify_eq. simpl in *. lia.
Qed.

(** the place of a key between the bounds of a child is that of the child *)
Lemma lower_between keys P lo hi p k :
  before_ok kcmp keys P lo hi p → above kcmp (lower keys lo p) k →
  ∀ tr kr, tr ∈ p → keys !! tr.2 = Some kr → kcmp kr k <= 0.
Proof using KO.
  revert lo. induction p as [|[t r] p IH]; intros lo Hp Ha tr kr Htr Hkr; [by apply not_elem_of_nil in Htr|].
  simpl in *. destruct Hp as ((kr' & Hr & Hlo & _) & _ & Hp). rewrite Hr in *.
  apply elem_of_cons in Htr as [->|Htr]; [|by eapply IH].
  simpl in Hkr. assert (kr' = kr) as -> by congruence. exact (lower_above _ _ _ _ _ _ Hp Ha).
Qed.

Lemma scan_plug keys P lo hi p c s k i :
  kids_ok kcmp keys P lo hi (plug p c s).1 (plug p c s).2 →
  above kcmp (lower keys lo p) k → below kcmp (upper keys hi s) k →
  (i <= length (plug p c s).2)%nat → scan_at keys k (plug p c s).2.*1 i → i = length p.
Proof using KO.
  intros Hk Ha Hb Hi [Hbefore Hat]. pose proof Hk as Hk'.
  apply kids_ok_plug in Hk as [Hp Hs]. rewrite plug_seps in *.
  assert (length (plug p c s).2 = (length p + length s)%nat) as Hl.
  { rewrite <- (length_fmap fst), plug_seps, length_app, !length_fmap. done. }
  destruct (Nat.lt_trichotomy i (length p)) as [Hlt|[->|Hgt]]; [exfalso|done|exfalso].
  - destruct (lookup_lt_is_Some_2 p i Hlt) as [[t r] Hr].
    assert (r ∈ (plug p c s).2.*1) as Hin.
    { rewrite plug_seps. apply elem_of_app. left. apply list_elem_of_fmap. exists (t, r).
      split; [done|]. by eapply list_elem_of_lookup_2. }
    destruct (kids_keys _ _ _ _ _ _ _ Hk' Hin) as [kr Hkr].
    specialize (Hat r kr). rewrite lookup_app_l in Hat by (by rewrite length_fmap).
    rewrite list_lookup_fmap, Hr in Hat. specialize (Hat eq_refl Hkr). apply Z.ltb_lt in Hat.
    pose proof (lower_between _ _ _ _ _ _ Hp Ha (t, r) kr ltac:(by eapply list_elem_of_lookup_2) Hkr) as Hle.
    rewrite kcmp_swap in Hat. lia.
  - destruct s as [|[r c'] s]; [simpl in Hl; lia|]. simpl in Hs, Hb.
    destruct Hs as ((kr & Hr & _) & _). rewrite Hr in Hb. simpl in Hb.
    specialize (Hbefore (length p) r kr Hgt). rewrite lookup_app_r in Hbefore by (by rewrite length_fmap).
    rewrite length_fmap, Nat.sub_diag in Hbefore. specialize (Hbefore eq_refl Hr).
    apply Z.ltb_ge in Hbefore. lia.
Qed.

(** trees with a row *)
Lemma wf_row keys m h lo hi t : wf kcmp keys (S m) h lo hi t → ∃ r, r ∈ elems t.
Proof using.
  revert m lo hi t. induction h as [|h IH]; intros m lo hi [a rows|a c0 kids]; simpl; try done.
  - intros (Hl & _). destruct rows as [|r rows]; [simpl in Hl; lia|]. exists r. by left.
  - intros (Hl & Hk). assert (∃ lo' hi', wf kcmp keys 2 h lo' hi' c0) as (lo' & hi' & Hc).
    { destruct kids as [|[r c] kids]; simpl in Hk; [eauto|]. destruct Hk as (_ & Hc & _). eauto. }
    destruct (IH _ _ _ _ Hc) as [r Hr]. exists r. apply elem_of_app. by left.
Qed.

Lemma kids_strict keys h a b c kids :
  kids_ok kcmp keys (wf kcmp keys 2 h) (Some a) (Some b) c kids → kcmp a b < 0.
Proof using KO.
  intros Hk. assert (∃ r, r ∈ elems c ++ flat_map (λ rc, elems rc.2) kids) as [r Hr].
  { assert (∃ lo' hi', wf kcmp keys 2 h lo' hi' c) as (lo' & hi' & Hc).
    { destruct kids as [|[r c'] kids]; simpl in Hk; [eauto|]. destruct Hk as (_ & Hc & _). eauto. }
    destruct (wf_row _ _ _ _ _ _ Hc) as [r Hr]. exists r. apply elem_of_app. by left. }
  destruct (kids_within keys (wf kcmp keys 2 h) (Some a) (Some b) c kids) with r as (k & _ & Ha & Hb).
  - intros. by eapply wf_within.
  - done.
  - done.
  - simpl in *. by eapply kcmp_le_lt.
Qed.

(** the children cut at a key *)
Lemma kids_ok_cut keys h lo hi c k1 r c' k2 :
  kids_ok kcmp keys (wf kcmp keys 2 h) lo hi c (k1 ++ (r, c') :: k2) →
  kids_ok kcmp keys (wf kcmp keys 2 h) lo (keys !! r) c k1 ∧
  kids_ok kcmp keys (wf kcmp keys 2 h) (keys !! r) hi c' k2 ∧ within kcmp keys lo hi r.
Proof using KO.
  revert lo c. induction k1 as [|[r1 c1] k1 IH]; intros lo c; simpl; [tauto|].
  intros (Hw1 & Hc & Hk). destruct (IH _ _ Hk) as (H1 & H2 & Hw). split; [|split; [done|]].
  - split; [|by split]. destruct Hw1 as (kr1 & E1 & Hlo & _). exists kr1. split; [done|]. split; [done|].
    destruct Hw as (kr & E & _ & _). rewrite E, E1 in *. by apply kids_strict in H1.
  - destruct Hw1 as (kr1 & E1 & Hlo & _), Hw as (kr & E & Hl & Hh). rewrite E1 in *.
    exists kr. split_and!; [done| |done]. by eapply above_le.
Qed.

(** ... and joined *)
Lemma kids_ok_join keys P lo hi c k1 r c' k2 :
  kids_ok kcmp keys P lo (keys !! r) c k1 → kids_ok kcmp keys P (keys !! r) hi c' k2 →
  within kcmp keys lo hi r → kids_ok kcmp keys P lo hi c (k1 ++ (r, c') :: k2).
Proof using KO.
  revert lo c. induction k1 as [|[r1 c1] k1 IH]; intros lo c; simpl; [tauto|].
  intros ((kr1 & E1 & Hlo & Hhi1) & Hc & Hk) H2 (kr & E & Hl & Hh). rewrite E1, E in *. simpl in Hhi1.
  split; [|split; [done|]].
  - exists kr1. split_and!; [done..|]. eapply below_le; [|exact Hh]. lia.
  - apply IH; [exact Hk|exact H2|]. exists kr. split_and!; [done| |done]. simpl. lia.
Qed.
End order.
