(* ===== verification/TreeDelete.v ===== *)
(** Shrinking a B+ tree: what removing a row, moving one between brothers and
    merging brothers keep. *)
From stdpp Require Import base gmap list fin_maps sorting.
From Stdlib Require Import ZArith Lia Strings.Byte.
From S2P Require Import Prelude PoolLogic Table HeapStore BTree NodeSpec TreeSpec BTreeSearch TreeFrame TreeInsert.
#[local] Open Scope Z_scope.

(** the keys of the internal nodes, from left to right *)
Fixpoint seps (t : tree) : list RID :=
  match t with
  | Leaf _ _ => []
  | Node _ c0 kids => seps c0 ++ flat_map (λ rc, rc.1 :: seps rc.2) kids
  end.

Definition kid_seps (kids : list (RID * tree)) : list RID := flat_map (λ rc, rc.1 :: seps rc.2) kids.

Lemma plug_seps_all p c s : seps (plug p c s).1 ++ kid_seps (plug p c s).2 =
  flat_map (λ tr, seps tr.1 ++ [tr.2]) p ++ seps c ++ kid_seps s.
Proof.
  induction p as [|[t r] p IH]; [done|]. simpl. destruct (plug p c s) as [c' s'].
  simpl in *. by rewrite <- !app_assoc, <- IH.
Qed.

Lemma plug_snoc p x r y s : plug (p ++ [(x, r)]) y s = plug p x ((r, y) :: s).
Proof. induction p as [|[t q] p IH]; [done|]. simpl. by rewrite IH. Qed.

(** a child before the others, seen from the end *)
Lemma list_snoc {A} (l : list A) : l ≠ [] → ∃ l' x, l = l' ++ [x].
Proof. destruct l as [|x l] using rev_ind; [done|]. by exists l, x. Qed.

Section order.
Context {K : Type} {kcmp : K → K → Z} {KO : KeyOrder kcmp}.
Implicit Types keys : gmap RID K.

(** *** Other keys *)

(** the identifiers [l] have the same keys in [keys'] *)
Definition agree keys keys' (l : list RID) : Prop := ∀ r, r ∈ l → keys' !! r = keys !! r.

Lemma agree_app keys keys' l1 l2 : agree keys keys' (l1 ++ l2) ↔ agree keys keys' l1 ∧ agree keys keys' l2.
Proof using. unfold agree. setoid_rewrite elem_of_app. naive_solver. Qed.
Lemma agree_cons keys keys' r l : agree keys keys' (r :: l) ↔ keys' !! r = keys !! r ∧ agree keys keys' l.
Proof using. unfold agree. setoid_rewrite elem_of_cons. naive_solver. Qed.
Lemma agree_nil keys keys' : agree keys keys' [].
Proof using. by intros r []%not_elem_of_nil. Qed.

Lemma within_agree keys keys' lo hi r :
  keys' !! r = keys !! r → within kcmp keys lo hi r → within kcmp keys' lo hi r.
Proof using. intros E (k & Hk & H). exists k. by rewrite E. Qed.

Lemma rows_agree keys keys' lo hi rs : agree keys keys' rs →
  Forall (within kcmp keys lo hi) rs ∧ StronglySorted (row_lt kcmp keys) rs →
  Forall (within kcmp keys' lo hi) rs ∧ StronglySorted (row_lt kcmp keys') rs.
Proof using.
  intros Ha [Hw Hs]. split.
  - rewrite Forall_forall in *. intros r Hr. eapply within_agree; [by apply Ha|by apply Hw].
  - clear Hw. induction Hs as [|r rs _ IH Hr]; constructor; apply agree_cons in Ha as [E Ha]; [by apply IH|].
    rewrite Forall_forall in *. intros q Hq. destruct (Hr q Hq) as (k1 & k2 & E1 & E2 & H).
    exists k1, k2. by rewrite E, (Ha q Hq).
Qed.

Lemma kids_agree keys keys' (P P' : option K → option K → tree → Prop) lo hi c kids :
  agree keys keys' kids.*1 → (∀ lo hi t, t ∈ c :: kids.*2 → P lo hi t → P' lo hi t) →
  kids_ok kcmp keys P lo hi c kids → kids_ok kcmp keys' P' lo hi c kids.
Proof using.
  revert lo c. induction kids as [|[r c'] kids IH]; intros lo c Ha HP; simpl.
  - apply HP. by left.
  - cbn [fmap list_fmap fst snd] in *. apply agree_cons in Ha as [E Ha]. intros (Hw & Hc & Hk). rewrite E.
    split; [by eapply within_agree|]. split; [apply HP; [by left|done]|].
    apply IH; [done| |done]. intros lo' hi' t Ht. apply HP. by right.
Qed.

Lemma wf_agree keys keys' m h lo hi t :
  agree keys keys' (elems t) → agree keys keys' (seps t) → wf kcmp keys m h lo hi t → wf kcmp keys' m h lo hi t.
Proof using.
  revert m lo hi t. induction h as [|h IH]; intros m lo hi [a rows|a c0 kids] He Hs; try done.
  - intros (Hl & H). split; [done|]. by eapply rows_agree.
  - intros (Hl & Hk). split; [done|]. cbn [elems seps] in *.
    apply agree_app in He as [He0 He], Hs as [Hs0 Hs].
    assert (∀ rc, rc ∈ kids → agree keys keys' (elems rc.2) ∧ keys' !! rc.1 = keys !! rc.1 ∧ agree keys keys' (seps rc.2)) as Hkid.
    { intros rc Hrc. split; [|split].
      - intros r Hr. apply He, list_elem_of_In, in_flat_map. exists rc. by rewrite <- !list_elem_of_In.
      - apply Hs, list_elem_of_In, in_flat_map. exists rc. split; [by apply list_elem_of_In|by left].
      - intros r Hr. apply Hs, list_elem_of_In, in_flat_map. exists rc.
        split; [by apply list_elem_of_In|]. right. by apply list_elem_of_In. }
    eapply kids_agree; [| |exact Hk].
    + intros r (rc & -> & Hrc)%list_elem_of_fmap. by apply Hkid.
    + intros lo' hi' t [->|(rc & -> & Hrc)%list_elem_of_fmap]%elem_of_cons; [by apply IH|].
      destruct (Hkid _ Hrc) as (? & _ & ?). by apply IH.
Qed.

(** *** What is around a child *)

Definition after_ok keys (P : option K → option K → tree → Prop) (lo hi : option K) (s : list (RID * tree)) : Prop :=
  match s with [] => True | (r, c) :: s' => within kcmp keys lo hi r ∧ kids_ok kcmp keys P (keys !! r) hi c s' end.

Lemma kids_ok_after keys P lo hi c s :
  kids_ok kcmp keys P lo hi c s ↔ P lo (upper keys hi s) c ∧ after_ok keys P lo hi s.
Proof using. destruct s as [|[r c1] s]; simpl; tauto. Qed.

Definition around keys (h : nat) (lo hi : option K) (p : list (tree * RID)) (s : list (RID * tree)) : Prop :=
  before_ok kcmp keys (wf kcmp keys 2 h) lo hi p ∧ after_ok keys (wf kcmp keys 2 h) (lower keys lo p) hi s.

Lemma around_plug keys h lo hi p c s :
  kids_ok kcmp keys (wf kcmp keys 2 h) lo hi (plug p c s).1 (plug p c s).2 ↔
  around keys h lo hi p s ∧ wf kcmp keys 2 h (lower keys lo p) (upper keys hi s) c.
Proof using. unfold around. rewrite kids_ok_plug, kids_ok_after. naive_solver. Qed.

(** the identifiers around a child *)
Definition around_elems (p : list (tree * RID)) (s : list (RID * tree)) : list RID :=
  flat_map (λ tr, elems tr.1) p ++ flat_map (λ rc, elems rc.2) s.
Definition around_seps (p : list (tree * RID)) (s : list (RID * tree)) : list RID :=
  flat_map (λ tr, seps tr.1 ++ [tr.2]) p ++ kid_seps s.

Lemma around_agree keys keys' h lo hi p s :
  agree keys keys' (around_elems p s) → agree keys keys' (around_seps p s) → around keys h lo hi p s →
  around keys' h lo hi p s ∧ lower keys' lo p = lower keys lo p ∧ upper keys' hi s = upper keys hi s.
Proof using.
  unfold around, around_elems, around_seps. rewrite !agree_app. intros [He1 He2] [Hs1 Hs2] [Hp Hs].
  assert (before_ok kcmp keys' (wf kcmp keys' 2 h) lo hi p ∧ lower keys' lo p = lower keys lo p) as [Hp' El].
  { clear Hs. revert lo Hp. induction p as [|[t r] p IH]; intros lo; [done|]. simpl in *.
    rewrite !agree_app, agree_cons in Hs1. rewrite agree_app in He1.
    destruct Hs1 as ((St & Er & _) & Sp), He1 as [Et Ep]. intros (Hw & Hc & Hp). rewrite Er.
    destruct (IH Ep Sp _ Hp) as [Hp' El]. split; [|exact El].
    split; [by eapply within_agree|]. split; [by eapply wf_agree|done]. }
  split; [|split; [done|]].
  - split; [done|]. rewrite El. destruct s as [|[r c] s]; [done|]. simpl in *.
    rewrite agree_cons, agree_app in Hs2. rewrite agree_app in He2.
    destruct Hs2 as (Er & Sc & Ss), He2 as [Ec Es]. destruct Hs as [Hw Hk]. rewrite Er.
    split; [by eapply within_agree|]. eapply (kids_agree keys); [| |exact Hk].
    + intros q (rc & -> & Hrc)%list_elem_of_fmap. apply Ss, list_elem_of_In, in_flat_map. exists rc.
      split; [by apply list_elem_of_In|by left].
    + intros lo' hi' t [->|(rc & -> & Hrc)%list_elem_of_fmap]%elem_of_cons; [by apply wf_agree|].
      apply wf_agree; intros q Hq.
      * apply Es, list_elem_of_In, in_flat_map. exists rc. by rewrite <- !list_elem_of_In.
      * apply Ss, list_elem_of_In, in_flat_map. exists rc. split; [by apply list_elem_of_In|].
        right. by apply list_elem_of_In.
  - destruct s as [|[r c] s]; [done|]. simpl in *. apply agree_cons in Hs2 as [Er _]. exact Er.
Qed.

(** *** Two brothers *)

Lemma pair_elim keys h lo hi p x r y s :
  kids_ok kcmp keys (wf kcmp keys 2 h) lo hi (plug p x ((r, y) :: s)).1 (plug p x ((r, y) :: s)).2 →
  ∃ kr, keys !! r = Some kr ∧ within kcmp keys (lower keys lo p) (upper keys hi s) r ∧
    wf kcmp keys 2 h (lower keys lo p) (Some kr) x ∧ wf kcmp keys 2 h (Some kr) (upper keys hi s) y ∧
    around keys h lo hi p s.
Proof using KO.
  intros [[Hp [Hw Hk]] Hx]%around_plug. pose proof Hw as (kr & Ek & Hlo & Hhi). cbn [upper] in Hx. rewrite Ek in *.
  apply kids_ok_after in Hk as [Hy Hs]. exists kr. split; [done|]. split; [|split; [done|split; [done|split; [done|]]]].
  - exists kr. split; [done|]. split; [done|]. destruct s as [|[r2 c2] s]; [done|]. simpl in *.
    destruct Hs as [(k2 & E2 & _) _]. rewrite E2 in *. destruct (wf_row _ _ _ _ _ _ Hy) as [q Hq].
    destruct (wf_within _ _ _ _ _ _ Hy _ Hq) as (kq & _ & H1 & H2). simpl in *. by eapply kcmp_le_lt.
  - destruct s as [|[r2 c2] s]; [done|]. simpl in *. destruct Hs as [(k2 & E2 & H1 & H2) Hk]. split; [|done].
    exists k2. split; [done|]. split; [|done]. by eapply above_le.
Qed.

Lemma pair_intro keys h lo hi p x r kr y s :
  around keys h lo hi p s → keys !! r = Some kr → within kcmp keys (lower keys lo p) (upper keys hi s) r →
  wf kcmp keys 2 h (lower keys lo p) (Some kr) x → wf kcmp keys 2 h (Some kr) (upper keys hi s) y →
  kids_ok kcmp keys (wf kcmp keys 2 h) lo hi (plug p x ((r, y) :: s)).1 (plug p x ((r, y) :: s)).2.
Proof using KO.
  intros [Hp Hs] Ek (k' & Ek' & Hlo & Hhi) Hx Hy. simplify_eq. apply kids_ok_plug. split; [done|]. simpl. rewrite Ek.
  split; [|split; [done|apply kids_ok_after; split; [done|]]].
  - exists kr. split; [done|]. split; [done|]. destruct s as [|[r2 c2] s]; [done|]. simpl in *.
    destruct Hs as [(k2 & E2 & _ & H2) _]. rewrite E2 in Hhi. eapply below_le; [|exact H2]. simpl in Hhi. lia.
  - destruct s as [|[r2 c2] s]; [done|]. simpl in *. destruct Hs as [(k2 & E2 & H1 & H2) Hk]. split; [|done].
    exists k2. split; [done|]. split; [|done]. rewrite E2 in Hhi. simpl in *. lia.
Qed.

(** *** Rows *)

Lemma rows_without keys lo hi l1 r l2 :
  Forall (within kcmp keys lo hi) (l1 ++ r :: l2) → StronglySorted (row_lt kcmp keys) (l1 ++ r :: l2) →
  Forall (within kcmp keys lo hi) (l1 ++ l2) ∧ StronglySorted (row_lt kcmp keys) (l1 ++ l2).
Proof using.
  intros Hw Hs. apply Forall_app in Hw as [H1 [_ H2]%Forall_cons]. apply StronglySorted_app in Hs as (H12 & S1 & S2).
  split; [by apply Forall_app|]. apply StronglySorted_inv in S2 as [S2 _].
  apply StronglySorted_app_2; [|done|done]. intros x y Hx Hy. apply H12; [done|by right].
Qed.

Lemma rows_join keys lo hi r k l1 l2 :
  keys !! r = Some k → within kcmp keys lo hi r →
  Forall (within kcmp keys lo (Some k)) l1 ∧ StronglySorted (row_lt kcmp keys) l1 →
  Forall (within kcmp keys (Some k) hi) l2 ∧ StronglySorted (row_lt kcmp keys) l2 →
  Forall (within kcmp keys lo hi) (l1 ++ l2) ∧ StronglySorted (row_lt kcmp keys) (l1 ++ l2).
Proof using KO.
  intros Ek (k' & Ek' & Hlo & Hhi) [W1 S1] [W2 S2]. simplify_eq. rewrite !Forall_forall in *. split.
  - intros q [Hq|Hq]%elem_of_app.
    + destruct (W1 q Hq) as (kq & Eq & H1 & H2). exists kq. split; [done|]. split; [done|].
      eapply below_le; [|exact Hhi]. simpl in H2. lia.
    + destruct (W2 q Hq) as (kq & Eq & H1 & H2). exists kq. split; [done|]. split; [|done]. by eapply above_le.
  - apply StronglySorted_app_2; [|done|done]. intros x y Hx Hy.
    destruct (W1 x Hx) as (kx & Ex & _ & H1), (W2 y Hy) as (ky & Ey & H2 & _). exists kx, ky.
    split; [done|]. split; [done|]. simpl in *. destruct (decide (kcmp k ky = 0)) as [E|]; [by apply kcmp_eq in E as ->|].
    eapply kcmp_trans; [exact H1|lia].
Qed.

(** *** The separators are distinct *)

Definition above_strict (lo : option K) (k : K) : Prop := match lo with None => True | Some l => kcmp l k < 0 end.
Definition sep_within keys (lo hi : option K) (r : RID) : Prop :=
  ∃ k, keys !! r = Some k ∧ above_strict lo k ∧ below kcmp hi k.

Lemma above_strict_le lo a b : above_strict lo a → kcmp a b < 0 → above_strict lo b.
Proof using KO. destruct lo as [l|]; simpl; [|done]. apply kcmp_trans. Qed.

Lemma seps_sorted keys m h lo hi t : wf kcmp keys m h lo hi t →
  Forall (sep_within keys lo hi) (seps t) ∧ StronglySorted (row_lt kcmp keys) (seps t).
Proof using KO.
  revert m lo hi t. induction h as [|h IH]; intros m lo hi [a rows|a c0 kids]; try done.
  { intros _. split; constructor. }
  intros [_ Hk]. cbn [seps]. clear a m. revert lo c0 Hk.
  induction kids as [|[r c'] kids IHk]; intros lo c Hk; cbn [kids_ok flat_map fst snd] in *.
  { rewrite app_nil_r. by eapply IH. }
  destruct Hk as ((kr & Er & Hlo & Hhi) & Hc & Hk). rewrite Er in *.
  destruct (IH _ _ _ _ Hc) as [W1 S1], (IHk _ _ Hk) as [W2 S2]. clear IH IHk.
  destruct (wf_row _ _ _ _ _ _ Hc) as [q Hq]. destruct (wf_within _ _ _ _ _ _ Hc _ Hq) as (kq & _ & Hq1 & Hq2).
  simpl in Hq2. assert (above_strict lo kr) as Hstrict.
  { destruct lo as [l|]; simpl in *; [|done]. by eapply kcmp_le_lt. }
  rewrite !Forall_forall in *. split.
  - intros x [Hx|[->|Hx]%elem_of_cons]%elem_of_app.
    + destruct (W1 x Hx) as (k & E & H1 & H2). exists k. split; [done|]. split; [done|].
      eapply below_le; [|exact Hhi]. simpl in H2. lia.
    + by exists kr.
    + destruct (W2 x Hx) as (k & E & H1 & H2). exists k. split; [done|]. split; [|done].
      by eapply above_strict_le.
  - assert (∀ x, x ∈ seps c' ++ flat_map (λ rc, rc.1 :: seps rc.2) kids → row_lt kcmp keys r x) as Hr.
    { intros x Hx. destruct (W2 x Hx) as (k & E & H1 & _). by exists kr, k. }
    apply StronglySorted_app_2; [|done|constructor; [done|by apply Forall_forall]].
    intros x y Hx Hy. destruct (W1 x Hx) as (k & E & _ & H2). assert (row_lt kcmp keys x r) as Hxr by (by exists k, kr).
    apply elem_of_cons in Hy as [->|Hy]; [done|]. eapply row_lt_trans; [exact Hxr|by apply Hr].
Qed.

Lemma sorted_nodup keys l : StronglySorted (row_lt kcmp keys) l → NoDup l.
Proof using KO.
  induction 1 as [|r l _ IH Hr]; constructor; [|done]. intros Hin. rewrite Forall_forall in Hr.
  destruct (Hr r Hin) as (k1 & k2 & E1 & E2 & H). simplify_eq. by rewrite (kcmp_refl (kcmp := kcmp)) in H.
Qed.

Lemma seps_nodup keys m h lo hi t : wf kcmp keys m h lo hi t → NoDup (seps t).
Proof using KO. intros H%seps_sorted. by eapply sorted_nodup, H. Qed.

(** every identifier of the tree has a key *)
Lemma seps_known keys m h lo hi t r : wf kcmp keys m h lo hi t → r ∈ seps t → is_Some (keys !! r).
Proof using KO. intros [H _]%seps_sorted Hr. rewrite Forall_forall in H. destruct (H r Hr) as (k & ? & _). by exists k. Qed.
Lemma elems_known keys m h lo hi t r : wf kcmp keys m h lo hi t → r ∈ elems t → is_Some (keys !! r).
Proof using KO. intros H Hr. destruct (wf_within _ _ _ _ _ _ H _ Hr) as (k & ? & _). by exists k. Qed.
End order.
