(* ===== verification/TreeBrothers.v ===== *)
(** Two brothers below a node: what they hold together, and the trees that
    come of moving rows or children between them or of merging them. *)
From stdpp Require Import base gmap list fin_maps sorting.
From Stdlib Require Import ZArith Lia Strings.Byte.
From S2P Require Import Prelude PoolLogic Table HeapStore BTree NodeSpec TreeSpec BTreeSearch TreeFrame TreeInsert TreeDelete.
#[local] Open Scope Z_scope.

Definition kid_pages (kids : list (RID * tree)) : list Z := flat_map (λ rc, pages_of rc.2) kids.
Definition kid_elems (kids : list (RID * tree)) : list RID := flat_map (λ rc, elems rc.2) kids.
Definition kid_addrs (c0 : tree) (kids : list (RID * tree)) : list Z :=
  addr c0 :: ((λ rc, addr rc.2) <$> kids).

(** *** The page of a tree, and those below it *)

Definition page_rows (t : tree) : list RID := match t with Leaf _ rows => rows | Node _ _ kids => kids.*1 end.
Definition page_kids (t : tree) : list Z := match t with Leaf _ _ => [] | Node _ c0 kids => kid_addrs c0 kids end.
Definition is_leaf (t : tree) : bool := match t with Leaf _ _ => true | Node _ _ _ => false end.
Definition below_pages (t : tree) : list Z :=
  match t with Leaf _ _ => [] | Node _ c0 kids => pages_of c0 ++ kid_pages kids end.
Definition below_stored (ns : gmap Z nview) (t : tree) : Prop :=
  match t with Leaf _ _ => True | Node _ c0 kids => stored ns c0 ∧ Forall (λ rc, stored ns rc.2) kids end.

Lemma pages_below t : pages_of t = addr t :: below_pages t.
Proof. by destruct t. Qed.

Lemma stored_page ns t :
  stored ns t ↔ stored_node ns (addr t) (is_leaf t) (page_rows t) (page_kids t) ∧ below_stored ns t.
Proof.
  destruct t as [a rows|a c0 kids]; simpl; [tauto|]. pose proof (plug_stored ns [] c0 kids) as H. simpl in *.
  rewrite Forall_nil in H. unfold kid_addrs. tauto.
Qed.

Lemma below_frame ns ns' t :
  (∀ a, a ∈ below_pages t → ns' !! a = ns !! a) → below_stored ns t → below_stored ns' t.
Proof.
  destruct t as [a rows|a c0 kids]; [done|]. cbn. intros Hs [H0 Hk]. split.
  - eapply stored_frame; [|exact H0]. intros x Hx. apply Hs, elem_of_app. by left.
  - rewrite Forall_forall in *. intros rc Hrc. eapply stored_frame; [|by apply Hk].
    intros x Hx. apply Hs, elem_of_app. right. apply list_elem_of_In, in_flat_map. exists rc. by rewrite <- !list_elem_of_In.
Qed.

Lemma kid_addrs_nodup c0 kids : NoDup (pages_of c0 ++ kid_pages kids) → NoDup (kid_addrs c0 kids).
Proof.
  assert (∀ k, ((λ rc, addr rc.2) <$> k) ⊆+ kid_pages k) as H.
  { induction k as [|[r c] k IH]; [done|]. cbn. rewrite pages_below. cbn. apply submseteq_skip.
    etrans; [exact IH|]. apply submseteq_inserts_l. done. }
  intros Hnd. assert (kid_addrs c0 kids ⊆+ pages_of c0 ++ kid_pages kids) as [k E]%submseteq_Permutation.
  { unfold kid_addrs. rewrite pages_below. cbn. apply submseteq_skip. etrans; [apply H|]. by apply submseteq_inserts_l. }
  rewrite E in Hnd. by apply NoDup_app in Hnd as [? _].
Qed.

(** *** A row or a child leaves a node *)

Lemma delete_middle {A} (l1 : list A) x l2 : delete (length l1) (l1 ++ x :: l2) = l1 ++ l2.
Proof. induction l1 as [|y l1 IH]; [done|]. cbn. by f_equal. Qed.

(** the page of a node two of whose children became the child [m] *)
Lemma pending_rows p m (s : list (RID * tree)) r :
  delete (length p) (p.*2 ++ r :: s.*1) = (plug p m s).2.*1.
Proof. rewrite plug_seps. rewrite <- (length_fmap snd p). apply delete_middle. Qed.

Lemma pending_addrs p m s y :
  delete (S (length p)) (((λ tr, addr tr.1) <$> p) ++ addr m :: y :: ((λ rc, addr rc.2) <$> s)) =
  kid_addrs (plug p m s).1 (plug p m s).2.
Proof.
  unfold kid_addrs. rewrite (plug_children addr), (cons_middle (addr m)), app_assoc.
  assert (S (length p) = length (((λ tr, addr tr.1) <$> p) ++ [addr m])) as ->.
  { rewrite length_app, length_fmap. simpl. lia. }
  rewrite delete_middle. by rewrite <- app_assoc.
Qed.

(** *** The children of two brothers *)

Lemma nodes_cut_elems a b a' b' x0 xk r y0 yk k1 r' y1 k2 :
  xk ++ (r, y0) :: yk = k1 ++ (r', y1) :: k2 →
  elems (Node a' x0 k1) ++ elems (Node b' y1 k2) = elems (Node a x0 xk) ++ elems (Node b y0 yk).
Proof.
  intros E. assert (kid_elems (xk ++ (r, y0) :: yk) = kid_elems (k1 ++ (r', y1) :: k2)) as H by (by rewrite E).
  unfold kid_elems in H. rewrite !flat_map_app in H. cbn in *. rewrite <- !app_assoc. by rewrite H.
Qed.

Lemma nodes_cut_seps a b a' b' x0 xk r y0 yk k1 r' y1 k2 :
  xk ++ (r, y0) :: yk = k1 ++ (r', y1) :: k2 →
  seps (Node a' x0 k1) ++ r' :: seps (Node b' y1 k2) = seps (Node a x0 xk) ++ r :: seps (Node b y0 yk).
Proof.
  intros E. assert (kid_seps (xk ++ (r, y0) :: yk) = kid_seps (k1 ++ (r', y1) :: k2)) as H by (by rewrite E).
  unfold kid_seps in H. rewrite !flat_map_app in H. cbn in *. rewrite <- !app_assoc. f_equal. by rewrite H.
Qed.

Lemma nodes_join_elems a b a' x0 xk r y0 yk :
  elems (Node a' x0 (xk ++ (r, y0) :: yk)) = elems (Node a x0 xk) ++ elems (Node b y0 yk).
Proof. cbn. rewrite flat_map_app. cbn. by rewrite <- app_assoc. Qed.

Lemma nodes_join_seps a b a' x0 xk r y0 yk :
  seps (Node a' x0 (xk ++ (r, y0) :: yk)) = seps (Node a x0 xk) ++ r :: seps (Node b y0 yk).
Proof. cbn. rewrite flat_map_app. cbn. by rewrite <- app_assoc. Qed.

Lemma nodes_cut_pages a b x0 xk r y0 yk k1 r' y1 k2 :
  xk ++ (r, y0) :: yk = k1 ++ (r', y1) :: k2 →
  pages_of (Node a x0 k1) ++ pages_of (Node b y1 k2) ≡ₚ pages_of (Node a x0 xk) ++ pages_of (Node b y0 yk).
Proof.
  intros E. assert (kid_pages (xk ++ (r, y0) :: yk) = kid_pages (k1 ++ (r', y1) :: k2)) as H by (by rewrite E).
  unfold kid_pages in H. rewrite !flat_map_app in H. cbn in H.
  assert (∀ u z0 uk w z1 wk, pages_of (Node u z0 uk) ++ pages_of (Node w z1 wk) ≡ₚ
    u :: w :: pages_of z0 ++ (flat_map (λ rc, pages_of rc.2) uk ++ pages_of z1 ++ flat_map (λ rc, pages_of rc.2) wk)) as G.
  { intros. cbn. perm. }
  rewrite !G. by rewrite H.
Qed.

Lemma nodes_join_pages a b a' x0 xk r y0 yk :
  a :: b :: pages_of x0 ++ kid_pages (xk ++ (r, y0) :: yk) ≡ₚ pages_of (Node a x0 xk) ++ pages_of (Node b y0 yk) ∧
  pages_of (Node a' x0 (xk ++ (r, y0) :: yk)) = a' :: pages_of x0 ++ kid_pages (xk ++ (r, y0) :: yk).
Proof. split; [|done]. unfold kid_pages. rewrite flat_map_app. cbn. perm. Qed.

Section order.
Context {K : Type} {kcmp : K → K → Z} {KO : KeyOrder kcmp}.
Implicit Types keys : gmap RID K.

(** *** The brother on the right, on the left *)

Lemma around_right keys h lo hi p r y s : around (kcmp := kcmp) keys h lo hi p ((r, y) :: s) →
  ∃ kr, keys !! r = Some kr ∧ within kcmp keys (lower keys lo p) (upper keys hi s) r ∧
    wf kcmp keys 2 h (Some kr) (upper keys hi s) y ∧ around (kcmp := kcmp) keys h lo hi p s.
Proof using KO.
  intros [Hp [Hw Hk]]. pose proof Hw as (kr & Ek & Hlo & Hhi). rewrite Ek in *.
  apply kids_ok_after in Hk as [Hy Hs]. exists kr. split; [done|]. split; [|split; [done|split; [done|]]].
  - exists kr. split; [done|]. split; [done|]. destruct s as [|[r2 c2] s]; [done|]. simpl in *.
    destruct Hs as [(k2 & E2 & _) _]. rewrite E2 in *. destruct (wf_row _ _ _ _ _ _ Hy) as [q Hq].
    destruct (wf_within _ _ _ _ _ _ Hy _ Hq) as (kq & _ & H1 & H2). simpl in *. by eapply kcmp_le_lt.
  - destruct s as [|[r2 c2] s]; [done|]. simpl in *. destruct Hs as [(k2 & E2 & H1 & H2) Hk]. split; [|done].
    exists k2. split; [done|]. split; [|done]. by eapply above_le.
Qed.

Lemma lower_snoc keys lo p y r : lower keys lo (p ++ [(y, r)]) = keys !! r.
Proof using. unfold lower. by rewrite foldl_app. Qed.

Lemma before_snoc keys P lo hi p y r : before_ok kcmp keys P lo hi (p ++ [(y, r)]) ↔
  before_ok kcmp keys P lo hi p ∧ within kcmp keys (lower keys lo p) hi r ∧ P (lower keys lo p) (keys !! r) y.
Proof using. revert lo. induction p as [|[t q] p IH]; intros lo; simpl; [tauto|]. rewrite IH. unfold lower. tauto. Qed.

Lemma around_left keys h lo hi p y r s x :
  around (kcmp := kcmp) keys h lo hi (p ++ [(y, r)]) s → wf kcmp keys 1 h (keys !! r) (upper keys hi s) x →
  ∃ kr, keys !! r = Some kr ∧ within kcmp keys (lower keys lo p) (upper keys hi s) r ∧
    wf kcmp keys 2 h (lower keys lo p) (Some kr) y ∧ around (kcmp := kcmp) keys h lo hi p s.
Proof using KO.
  unfold around. rewrite lower_snoc, before_snoc. intros [(Hp & (kr & Ek & Hlo & Hhi) & Hy) Hs] Hx. rewrite Ek in *.
  exists kr. split; [done|]. split; [|split; [done|split; [done|]]].
  - exists kr. split; [done|]. split; [done|]. destruct s as [|[r2 c2] s]; [done|]. simpl in *.
    destruct Hs as [(k2 & E2 & _) _]. rewrite E2 in *. destruct (wf_row _ _ _ _ _ _ Hx) as [q Hq].
    destruct (wf_within _ _ _ _ _ _ Hx _ Hq) as (kq & _ & H1 & H2). simpl in *. by eapply kcmp_le_lt.
  - destruct s as [|[r2 c2] s]; [done|]. simpl in *. destruct Hs as [(k2 & E2 & H1 & H2) Hk]. split; [|done].
    exists k2. split; [done|]. split; [|done]. by eapply above_le.
Qed.

(** *** What becomes of them *)

Section pair.
Context (keys : gmap RID K) (lo hi : option K) (p : list (tree * RID)) (r : RID) (kr : K) (s : list (RID * tree)).
Context (Hk : keys !! r = Some kr) (Hr : within kcmp keys (lower keys lo p) (upper keys hi s) r).

Lemma leaves_merged xs ys a b a' :
  around (kcmp := kcmp) keys 0 lo hi p s → (2 <= length (xs ++ ys) <= 4)%nat →
  wf kcmp keys 1 0 (lower keys lo p) (Some kr) (Leaf a xs) → wf kcmp keys 1 0 (Some kr) (upper keys hi s) (Leaf b ys) →
  kids_ok kcmp keys (wf kcmp keys 2 0) lo hi (plug p (Leaf a' (xs ++ ys)) s).1 (plug p (Leaf a' (xs ++ ys)) s).2.
Proof using KO Hk Hr.
  intros Ha Hl [_ Hx] [_ Hy]. apply around_plug. split; [done|]. split; [done|]. by eapply rows_join.
Qed.

Lemma leaves_moved keys' xs ys a b a' b' xs' r1 k1 ys' sep' :
  around (kcmp := kcmp) keys 0 lo hi p s → xs ++ ys = xs' ++ r1 :: ys' →
  (2 <= length xs' <= 4)%nat → (2 <= length (r1 :: ys') <= 4)%nat →
  wf kcmp keys 1 0 (lower keys lo p) (Some kr) (Leaf a xs) → wf kcmp keys 1 0 (Some kr) (upper keys hi s) (Leaf b ys) →
  keys !! r1 = Some k1 → keys' !! sep' = Some k1 →
  agree keys keys' (around_elems p s) → agree keys keys' (around_seps p s) → agree keys keys' (xs ++ ys) →
  kids_ok kcmp keys' (wf kcmp keys' 2 0) lo hi
    (plug p (Leaf a' xs') ((sep', Leaf b' (r1 :: ys')) :: s)).1 (plug p (Leaf a' xs') ((sep', Leaf b' (r1 :: ys')) :: s)).2.
Proof using KO Hk Hr.
  intros Ha E L1 L2 [_ Hx] [_ Hy] Hk1 Hk' Ge Gs Gx.
  destruct (rows_join _ _ _ _ _ _ _ Hk Hr Hx Hy) as [Hw Hs].
  destruct (around_agree _ _ _ _ _ _ _ Ge Gs Ha) as (Ha' & Elo & Ehi).
  destruct (rows_agree _ _ _ _ _ Gx (conj Hw Hs)) as [Hw' Hs']. rewrite E in *. rewrite <- Elo, <- Ehi in *.
  assert (keys' !! r1 = Some k1) as Hk1'.
  { rewrite Gx; [done|]. apply elem_of_app. right. by left. }
  destruct (rows_split keys' _ _ _ _ _ _ _ Hw' Hs' Hk1' Hk') as (H1 & H2 & H3).
  eapply pair_intro; [exact Ha'|exact Hk'|exact H3|by split|by split].
Qed.

Context (h : nat) (x0 : tree) (xk : list (RID * tree)) (y0 : tree) (yk : list (RID * tree)) (a b : Z).
Context (Ha : around (kcmp := kcmp) keys (S h) lo hi p s).
Context (Hx : wf kcmp keys 1 (S h) (lower keys lo p) (Some kr) (Node a x0 xk)).
Context (Hy : wf kcmp keys 1 (S h) (Some kr) (upper keys hi s) (Node b y0 yk)).

Lemma nodes_joined : kids_ok kcmp keys (wf kcmp keys 2 h) (lower keys lo p) (upper keys hi s) x0 (xk ++ (r, y0) :: yk).
Proof using KO Hk Hr Hx Hy. destruct Hx as [_ Kx], Hy as [_ Ky]. rewrite <- Hk in Kx, Ky. by apply kids_ok_join. Qed.

Lemma nodes_merged a' : (2 <= length (xk ++ (r, y0) :: yk) <= 4)%nat →
  kids_ok kcmp keys (wf kcmp keys 2 (S h)) lo hi
    (plug p (Node a' x0 (xk ++ (r, y0) :: yk)) s).1 (plug p (Node a' x0 (xk ++ (r, y0) :: yk)) s).2.
Proof using KO Hk Hr Hx Hy Ha. intros Hl. apply around_plug. split; [done|]. split; [done|apply nodes_joined]. Qed.

Lemma nodes_moved k1 r' y1 k2 a' b' :
  xk ++ (r, y0) :: yk = k1 ++ (r', y1) :: k2 → (2 <= length k1 <= 4)%nat → (2 <= length k2 <= 4)%nat →
  kids_ok kcmp keys (wf kcmp keys 2 (S h)) lo hi
    (plug p (Node a' x0 k1) ((r', Node b' y1 k2) :: s)).1 (plug p (Node a' x0 k1) ((r', Node b' y1 k2) :: s)).2.
Proof using KO Hk Hr Hx Hy Ha.
  intros E L1 L2. pose proof nodes_joined as H. rewrite E in H. apply kids_ok_cut in H as (H1 & H2 & H3).
  pose proof H3 as (kr' & Ek & _). rewrite Ek in *. eapply pair_intro; [exact Ha|exact Ek|exact H3|by split|by split].
Qed.
End pair.
End order.
