(* ===== verification/NodeDelete.v ===== *)
(** The loops of [delete_entry] in terms of lists: a row or a child leaves a
    node, moves over from a brother, or two brothers become one node. *)
From stdpp Require Import base gmap list fin_maps.
From Stdlib Require Import ZArith Lia Strings.Byte.
From S2P Require Import Prelude FileIO BufferPool PoolLogic PoolClient Table HeapStore BTree NodeSpec NodeFocus TreeSpec NodeOps.
#[local] Open Scope Z_scope.

Section one.
Context {W GW : Type} {RW : Rep W GW}.
Context (root free : Z) (ns : gmap Z nview) (l : Z) (ps : gmap Z (nat * Z)) (h : Z).
Context (a : Z) (ka : Ptr) (w : GW).
Abbreviation pgs1 := [(a, ka)].
Context (Hnd1 : NoDup pgs1.*1) (Hpin1 : pinned ps pgs1).
Abbreviation state1 va := (IPool root free (overlay pgs1 [va] ns) l ps h, w).

(** the rows after the one at [i] move down *)
Lemma drop_row_at_spec i rs nx cs rrest lf (Φ : unit → ipool * GW → Prop) :
  (i < length rs)%nat → (length rs <= 4)%nat → length (rs ++ rrest) = 4%nat → Forall rid_fits rs →
  (∀ rest, length (delete i rs ++ rest) = 4%nat →
    Φ tt (state1 (NV (Z.of_nat (length (delete i rs))) nx cs (delete i rs ++ rest) lf))) →
  awp (n ← nd ka rd_n;
       for_ne (Z.of_nat i) (n - 1) (λ i,
         row ← nd ka (rd_row (i + 1));
         nd ka (wr_row i row));;
       dec_n ka) Φ (state1 (NV (Z.of_nat (length rs)) nx cs (rs ++ rrest) lf)).
Proof using Hnd1 Hpin1.
  intros Hi Hl Hr Hfits HΦ.
  assert (length rrest = (4 - length rs)%nat) as Hrr by (rewrite length_app in Hr; lia).
  destruct rs as [|r0 [|r1 [|r2 [|r3 [|r4 rs]]]]]; cbn in Hi, Hl, Hrr; try lia;
    clear Hr; explicit_list rrest; Forall_split;
    (destruct i as [|[|[|[|i]]]]; try lia); fo_run;
    first [eapply (HΦ [_]); reflexivity | eapply (HΦ [_; _]); reflexivity
          |eapply (HΦ [_; _; _]); reflexivity|eapply (HΦ [_; _; _; _]); reflexivity].
Qed.

(** a key leaves, with the child after it *)
Lemma drop_child_at_spec i rs nx cs crest rrest lf (Φ : unit → ipool * GW → Prop) :
  (i < length rs)%nat → (length rs <= 4)%nat → length cs = S (length rs) →
  length (cs ++ crest) = 5%nat → length (rs ++ rrest) = 4%nat → Forall rid_fits rs → Forall (in_s 64) cs →
  (∀ rest crest', length (delete i rs ++ rest) = 4%nat → length (delete (S i) cs ++ crest') = 5%nat →
    Φ tt (state1 (NV (Z.of_nat (length (delete i rs))) nx (delete (S i) cs ++ crest') (delete i rs ++ rest) lf))) →
  awp (n ← nd ka rd_n;
       for_ne (Z.of_nat i) (n - 1) (λ i,
         row ← nd ka (rd_row (i + 1));
         nd ka (wr_row i row);;
         child ← nd ka (rd_child (i + 2));
         nd ka (wr_child (i + 1) child));;
       dec_n ka) Φ (state1 (NV (Z.of_nat (length rs)) nx (cs ++ crest) (rs ++ rrest) lf)).
Proof using Hnd1 Hpin1.
  intros Hi Hl Hcs Hc Hr Hfits Hfitc HΦ.
  assert (length rrest = (4 - length rs)%nat) as Hrr by (rewrite length_app in Hr; lia).
  assert (length crest = (5 - length cs)%nat) as Hcr by (rewrite length_app in Hc; lia).
  destruct rs as [|r0 [|r1 [|r2 [|r3 [|r4 rs]]]]]; cbn in Hi, Hl, Hrr, Hcs; try lia;
    rewrite Hcs in Hcr; cbn in Hcr; clear Hr Hc;
    explicit_list cs; explicit_list rrest; explicit_list crest; Forall_split;
    (destruct i as [|[|[|[|i]]]]; try lia); fo_run;
    first [eapply (HΦ [_] [_]); reflexivity | eapply (HΦ [_; _] [_; _]); reflexivity
          |eapply (HΦ [_; _; _] [_; _; _]); reflexivity|eapply (HΦ [_; _; _; _] [_; _; _; _]); reflexivity].
Qed.
End one.

(** *** Rows of two brothers *)

Section two.
Context {W GW : Type} {RW : Rep W GW}.
Context (root free : Z) (ns : gmap Z nview) (l : Z) (ps : gmap Z (nat * Z)) (h : Z).
Context (a : Z) (ka : Ptr) (b : Z) (kb : Ptr) (w : GW).
Abbreviation pgs2 := [(a, ka); (b, kb)].
Context (Hnd : NoDup pgs2.*1) (Hpin : pinned ps pgs2).
Abbreviation state2 va vb := (IPool root free (overlay pgs2 [va; vb] ns) l ps h, w).

(** the first row of the right brother [b] comes to the end of [a] *)
Lemma borrow_row_right_at {A} (next : M (BufferPool * W) A) x bx bs nx cs rest lf nb csb restb lfb
    (Φ : A → ipool * GW → Prop) :
  (2 <= length bs <= 3)%nat → length ([x] ++ rest) = 4%nat → length ((bx :: bs) ++ restb) = 4%nat →
  rid_fits x → Forall rid_fits (bx :: bs) →
  (∀ rest' restb', length ([x; bx] ++ rest') = 4%nat → length (bs ++ restb') = 4%nat →
    awp next Φ (state2 (NV 2 nx cs ([x; bx] ++ rest') lf) (NV (Z.of_nat (length bs)) nb csb (bs ++ restb') lfb))) →
  awp (n ← nd ka rd_n;
       row ← nd kb (rd_row 0);
       nd ka (wr_row n row);;
       bn ← nd kb rd_n;
       for_ne 1 bn (λ i,
         row ← nd kb (rd_row i);
         nd kb (wr_row (i - 1) row));;
       inc_n ka;; dec_n kb;; next) Φ
    (state2 (NV 1 nx cs ([x] ++ rest) lf) (NV (Z.of_nat (length (bx :: bs))) nb csb ((bx :: bs) ++ restb) lfb)).
Proof using Hnd Hpin.
  intros Hl Hr Hrb Hx Hfits HΦ. cbn in Hr. injection Hr as Hr. explicit_list rest.
  cbn in Hrb. injection Hrb as Hrb. rewrite length_app in Hrb.
  assert (length restb = (3 - length bs)%nat) as Hrr by lia. clear Hrb.
  destruct bs as [|b0 [|b1 [|b2 [|b3 bs]]]]; cbn in Hl, Hrr; try lia; explicit_list restb; Forall_split; fo_run;
    first [eapply (HΦ [_; _] [_]); reflexivity | eapply (HΦ [_; _] [_; _]); reflexivity].
Qed.

(** the last row of the left brother [b] comes to the front of [a], over the
    row at [i] that leaves *)
Lemma borrow_row_left_at {A} (next : M (BufferPool * W) A) i rs bx bs nx cs rest lf nb csb restb lfb
    (Φ : A → ipool * GW → Prop) :
  (i < length rs)%nat → length rs = 2%nat → (2 <= length bs <= 3)%nat → length (rs ++ rest) = 4%nat →
  length ((bs ++ [bx]) ++ restb) = 4%nat → Forall rid_fits rs → Forall rid_fits (bs ++ [bx]) →
  (∀ restb', length (bs ++ restb') = 4%nat →
    awp next Φ (state2 (NV 2 nx cs ((bx :: delete i rs) ++ rest) lf) (NV (Z.of_nat (length bs)) nb csb (bs ++ restb') lfb))) →
  awp (for_down (Z.of_nat i) 0 (λ i,
         row ← nd ka (rd_row (i - 1));
         nd ka (wr_row i row));;
       dec_n ka;;
       bn ← nd kb rd_n;
       row ← nd kb (rd_row (bn - 1));
       nd ka (wr_row 0 row);;
       inc_n ka;; dec_n kb;; next) Φ
    (state2 (NV 2 nx cs (rs ++ rest) lf) (NV (Z.of_nat (length (bs ++ [bx]))) nb csb ((bs ++ [bx]) ++ restb) lfb)).
Proof using Hnd Hpin.
  intros Hi Hrs Hl Hr Hrb Hfits Hfitb HΦ. rewrite length_app, Hrs in Hr. assert (length rest = 2%nat) as Hr2 by lia. clear Hr.
  explicit_list rs. explicit_list rest. rewrite !length_app in Hrb. cbn in Hi, Hrb.
  assert (length restb = (3 - length bs)%nat) as Hrr by lia. clear Hrb.
  destruct bs as [|b0 [|b1 [|b2 [|b3 bs]]]]; cbn in Hl, Hrr; try lia; explicit_list restb; cbn [app] in *; Forall_split;
    (destruct i as [|[|i]]; [..|lia]); fo_run;
    first [eapply (HΦ [_]); reflexivity | eapply (HΦ [_; _]); reflexivity].
Qed.

(** the rows of the right brother [b] join those of [a] *)
Lemma merge_row_right_at {A} (next : M (BufferPool * W) A) x bs nx cs rest lf nb csb restb lfb
    (Φ : A → ipool * GW → Prop) :
  length bs = 2%nat → length ([x] ++ rest) = 4%nat → length (bs ++ restb) = 4%nat → rid_fits x → Forall rid_fits bs →
  (∀ rest', length ((x :: bs) ++ rest') = 4%nat →
    awp next Φ (state2 (NV 3 nx cs ((x :: bs) ++ rest') lf) (NV 2 nb csb (bs ++ restb) lfb))) →
  awp (n ← nd ka rd_n;
       bn ← nd kb rd_n;
       for_ne 0 bn (λ i,
         row ← nd kb (rd_row i);
         nd ka (wr_row (n + i) row));;
       nd ka (wr_n (n + bn));; next) Φ
    (state2 (NV 1 nx cs ([x] ++ rest) lf) (NV 2 nb csb (bs ++ restb) lfb)).
Proof using Hnd Hpin.
  intros Hl Hr Hrb Hx Hfits HΦ. cbn in Hr. injection Hr as Hr. rewrite length_app, Hl in Hrb. injection Hrb as Hrb.
  explicit_list rest. explicit_list bs. explicit_list restb. Forall_split. fo_run. by eapply (HΦ [_]).
Qed.

(** the rows of [a] join those of its left brother [b] *)
Lemma merge_row_left_at {A} (next : M (BufferPool * W) A) x bs nx cs rest lf nb csb restb lfb
    (Φ : A → ipool * GW → Prop) :
  length bs = 2%nat → length ([x] ++ rest) = 4%nat → length (bs ++ restb) = 4%nat → rid_fits x → Forall rid_fits bs →
  (∀ restb', length ((bs ++ [x]) ++ restb') = 4%nat →
    awp next Φ (state2 (NV 1 nx cs ([x] ++ rest) lf) (NV 3 nb csb ((bs ++ [x]) ++ restb') lfb))) →
  awp (n ← nd ka rd_n;
       bn ← nd kb rd_n;
       for_ne 0 n (λ i,
         row ← nd ka (rd_row i);
         nd kb (wr_row (bn + i) row));;
       nd kb (wr_n (bn + n));; next) Φ
    (state2 (NV 1 nx cs ([x] ++ rest) lf) (NV 2 nb csb (bs ++ restb) lfb)).
Proof using Hnd Hpin.
  intros Hl Hr Hrb Hx Hfits HΦ. cbn in Hr. injection Hr as Hr. rewrite length_app, Hl in Hrb. injection Hrb as Hrb.
  explicit_list rest. explicit_list bs. explicit_list restb. Forall_split. fo_run. by eapply (HΦ [_]).
Qed.
(** the keys and the children of the right brother, behind its first child,
    join those of [a] *)
Lemma merge_child_right_at {A} (next : M (BufferPool * W) A) rs cs bs d ds nx rest crest lf nb csb restb lfb
    (Φ : A → ipool * GW → Prop) :
  length rs = 2%nat → length cs = 3%nat → length bs = 2%nat → length ds = 2%nat →
  length (rs ++ rest) = 4%nat → length (cs ++ crest) = 5%nat → length (bs ++ restb) = 4%nat →
  length ((d :: ds) ++ csb) = 5%nat → Forall rid_fits bs → Forall (in_s 64) ds →
  awp next Φ (state2 (NV 4 nx (cs ++ ds) (rs ++ bs) lf) (NV 2 nb ((d :: ds) ++ csb) (bs ++ restb) lfb)) →
  awp (n ← nd ka rd_n;
       bn ← nd kb rd_n;
       for_ne 0 bn (λ i,
         row ← nd kb (rd_row i);
         nd ka (wr_row (n + i) row);;
         child ← nd kb (rd_child (i + 1));
         nd ka (wr_child (n + i + 1) child));;
       nd ka (wr_n (n + bn));; next) Φ
    (state2 (NV 2 nx (cs ++ crest) (rs ++ rest) lf) (NV 2 nb ((d :: ds) ++ csb) (bs ++ restb) lfb)).
Proof using Hnd Hpin.
  intros Hrs Hcs Hbs Hds Hr Hc Hrb Hcb Hfits Hfd HΦ. rewrite length_app in Hr, Hc, Hrb, Hcb. cbn [length] in Hcb.
  assert (length rest = 2%nat ∧ length crest = 2%nat ∧ length restb = 2%nat ∧ length csb = 2%nat) as (Lr & Lc & Lrb & Lcb) by lia.
  clear Hr Hc Hrb Hcb.
  explicit_list rs. explicit_list cs. explicit_list bs. explicit_list ds. explicit_list rest. explicit_list crest.
  explicit_list restb. explicit_list csb. Forall_split. fo_run. exact HΦ.
Qed.

(** the keys and the children of [a], behind its first child, join those of
    its left brother [b] *)
Lemma merge_child_left_at {A} (next : M (BufferPool * W) A) x c0 c1 bs ds nx rest crest lf nb csb restb lfb
    (Φ : A → ipool * GW → Prop) :
  length bs = 3%nat → length ds = 4%nat → length ([x] ++ rest) = 4%nat → length ([c0; c1] ++ crest) = 5%nat →
  length (bs ++ restb) = 4%nat → length (ds ++ csb) = 5%nat → rid_fits x → in_s 64 c1 →
  awp next Φ (state2 (NV 1 nx ([c0; c1] ++ crest) ([x] ++ rest) lf) (NV 4 nb (ds ++ [c1]) (bs ++ [x]) lfb)) →
  awp (n ← nd ka rd_n;
       bn ← nd kb rd_n;
       for_ne 0 n (λ i,
         row ← nd ka (rd_row i);
         nd kb (wr_row (bn + i) row);;
         child ← nd ka (rd_child (i + 1));
         nd kb (wr_child (bn + i + 1) child));;
       nd kb (wr_n (bn + n));; next) Φ
    (state2 (NV 1 nx ([c0; c1] ++ crest) ([x] ++ rest) lf) (NV 3 nb (ds ++ csb) (bs ++ restb) lfb)).
Proof using Hnd Hpin.
  intros Hbs Hds Hr Hc Hrb Hcb Hx Hc1 HΦ. rewrite length_app in Hr, Hc, Hrb, Hcb. cbn [length] in Hr, Hc.
  assert (length rest = 3%nat ∧ length crest = 3%nat ∧ length restb = 1%nat ∧ length csb = 1%nat) as (Lr & Lc & Lrb & Lcb) by lia.
  clear Hr Hc Hrb Hcb.
  explicit_list bs. explicit_list ds. explicit_list rest. explicit_list crest.
  explicit_list restb. explicit_list csb. fo_run. exact HΦ.
Qed.
End two.

(** *** Children of two brothers, below a parent *)

Section three.
Context {W GW : Type} {RW : Rep W GW}.
Context (root free : Z) (ns : gmap Z nview) (l : Z) (ps : gmap Z (nat * Z)) (h : Z).
Context (a : Z) (ka : Ptr) (b : Z) (kb : Ptr) (p : Z) (kp : Ptr) (w : GW).
Abbreviation pgs3 := [(a, ka); (b, kb); (p, kp)].
Context (Hnd : NoDup pgs3.*1) (Hpin : pinned ps pgs3).
Abbreviation state3 va vb vp := (IPool root free (overlay pgs3 [va; vb; vp] ns) l ps h, w).

(** the key at [t] of the parent *)
Context (t : nat) (sep : RID) (np nxp : Z) (csp : list Z) (rsp : list RID) (lfp : Z).
Context (Ht : rsp !! t = Some sep) (Ht4 : (t < 4)%nat) (Hsep : rid_fits sep).
Abbreviation parent := (NV np nxp csp rsp lfp).

#[local] Ltac par_step := lazymatch goal with
  | |- awp (nd kp (rd_row _)) _ _ =>
      eapply fo_rd_row with (j:=2%nat) (i:=t); [exact Hnd|exact Hpin|reflexivity|reflexivity|first [reflexivity|lia]|exact Ht|]
  | |- awp (nd kp (wr_row _ _)) _ _ =>
      eapply fo_wr_row with (j:=2%nat) (i:=t); [exact Hnd|exact Hpin|reflexivity|reflexivity|first [reflexivity|lia]|exact Ht4|assumption|]; view_red
  end.
#[local] Ltac run := repeat first [progress (par_step; cbv beta) | fo_step].

Lemma borrow_child_right_at {A} (next : M (BufferPool * W) A) z x cs bx bs d ds nx crest rest lf nb crestb restb lfb
    (Φ : A → ipool * GW → Prop) :
  z = Z.of_nat t → length cs = 2%nat → (2 <= length bs <= 3)%nat → length ds = S (length bs) →
  length (cs ++ crest) = 5%nat → length ([x] ++ rest) = 4%nat →
  length ((d :: ds) ++ crestb) = 5%nat → length ((bx :: bs) ++ restb) = 4%nat →
  rid_fits x → Forall rid_fits (bx :: bs) → Forall (in_s 64) cs → Forall (in_s 64) (d :: ds) →
  (∀ rest' crest' restb' crestb', length ([x; sep] ++ rest') = 4%nat → length ((cs ++ [d]) ++ crest') = 5%nat →
    length (bs ++ restb') = 4%nat → length (ds ++ crestb') = 5%nat →
    awp next Φ (state3 (NV 2 nx ((cs ++ [d]) ++ crest') ([x; sep] ++ rest') lf)
      (NV (Z.of_nat (length bs)) nb (ds ++ crestb') (bs ++ restb') lfb) (with_row t bx parent))) →
  awp (n ← nd ka rd_n;
       row ← nd kp (rd_row z);
       nd ka (wr_row n row);;
       child ← nd kb (rd_child 0);
       nd ka (wr_child (n + 1) child);;
       inc_n ka;;
       row ← nd kb (rd_row 0);
       nd kp (wr_row z row);;
       bn ← nd kb rd_n;
       for_ne 1 bn (λ i,
         row ← nd kb (rd_row i);
         nd kb (wr_row (i - 1) row);;
         child ← nd kb (rd_child i);
         nd kb (wr_child (i - 1) child));;
       child ← nd kb (rd_child bn);
       nd kb (wr_child (bn - 1) child);;
       dec_n kb;; next) Φ
    (state3 (NV 1 nx (cs ++ crest) ([x] ++ rest) lf)
       (NV (Z.of_nat (length (bx :: bs))) nb ((d :: ds) ++ crestb) ((bx :: bs) ++ restb) lfb) parent).
Proof using Hnd Hpin Ht Ht4 Hsep.
  intros -> Hcs Hl Hds Hc Hr Hcb Hrb Hx Hfits Hfc Hfd HΦ. cbn in Hr, Hcb, Hrb. injection Hr as Hr. injection Hcb as Hcb.
  injection Hrb as Hrb. rewrite length_app in Hc, Hcb, Hrb. rewrite Hcs in Hc. injection Hc as Hc.
  assert (length restb = (3 - length bs)%nat) as Hrr by lia. assert (length crestb = (4 - length ds)%nat) as Hcr by lia.
  clear Hrb Hcb. explicit_list cs. explicit_list rest. explicit_list crest.
  destruct bs as [|b0 [|b1 [|b2 [|b3 bs]]]]; cbn in Hl, Hrr, Hds; try lia; rewrite Hds in Hcr; cbn in Hcr;
    explicit_list restb; explicit_list ds; explicit_list crestb; Forall_split; run;
    first [eapply (HΦ [_; _] [_; _] [_] [_]); reflexivity | eapply (HΦ [_; _] [_; _] [_; _] [_; _]); reflexivity].
Qed.
(** the first steps of a merge: the key of the parent comes down *)
Lemma take_sep_right_at {A} (next : M (BufferPool * W) A) z x cs d ds nx rest crest lf nbn nb crestb rsb lfb
    (Φ : A → ipool * GW → Prop) :
  z = Z.of_nat t → length cs = 2%nat → length ([x] ++ rest) = 4%nat → length (cs ++ crest) = 5%nat → in_s 64 d →
  (∀ rest' crest', length ([x; sep] ++ rest') = 4%nat → length ((cs ++ [d]) ++ crest') = 5%nat →
    awp next Φ (state3 (NV 2 nx ((cs ++ [d]) ++ crest') ([x; sep] ++ rest') lf)
      (NV nbn nb ((d :: ds) ++ crestb) rsb lfb) parent)) →
  awp (n ← nd ka rd_n;
       row ← nd kp (rd_row z);
       nd ka (wr_row n row);;
       child ← nd kb (rd_child 0);
       nd ka (wr_child (n + 1) child);;
       inc_n ka;; next) Φ
    (state3 (NV 1 nx (cs ++ crest) ([x] ++ rest) lf) (NV nbn nb ((d :: ds) ++ crestb) rsb lfb) parent).
Proof using Hnd Hpin Ht Ht4 Hsep.
  intros -> Hcs Hr Hc Hd HΦ. rewrite length_app in Hr, Hc. cbn [length] in Hr.
  assert (length rest = 3%nat ∧ length crest = 3%nat) as [Lr Lc] by lia. clear Hr Hc.
  explicit_list cs. explicit_list rest. explicit_list crest. run. by eapply (HΦ [_; _] [_; _]).
Qed.

Lemma take_sep_left_at {A} (next : M (BufferPool * W) A) z nan nxa c0 cresta rsa lfa bs ds nb restb crestb lfb
    (Φ : A → ipool * GW → Prop) :
  z = Z.of_nat t → length bs = 2%nat → length ds = 3%nat → length (bs ++ restb) = 4%nat → length (ds ++ crestb) = 5%nat →
  in_s 64 c0 →
  (∀ restb' crestb', length ((bs ++ [sep]) ++ restb') = 4%nat → length ((ds ++ [c0]) ++ crestb') = 5%nat →
    awp next Φ (state3 (NV nan nxa (c0 :: cresta) rsa lfa)
      (NV 2 nb ((ds ++ [c0]) ++ crestb') ((bs ++ [sep]) ++ restb') lfb) parent)) →
  awp (bn ← nd kb rd_n;
       row ← nd kp (rd_row z);
       nd kb (wr_row bn row);;
       child ← nd ka (rd_child 0);
       nd kb (wr_child (bn + 1) child);; next) Φ
    (state3 (NV nan nxa (c0 :: cresta) rsa lfa) (NV 2 nb (ds ++ crestb) (bs ++ restb) lfb) parent).
Proof using Hnd Hpin Ht Ht4 Hsep.
  intros -> Hbs Hds Hr Hc Hd HΦ. rewrite length_app in Hr, Hc.
  assert (length restb = 2%nat ∧ length crestb = 2%nat) as [Lr Lc] by lia. clear Hr Hc.
  explicit_list bs. explicit_list ds. explicit_list restb. explicit_list crestb. run. by eapply (HΦ [_] [_]).
Qed.

(** the last child of the left brother [b] comes to the front of [a] *)
Lemma borrow_child_left_at {A} (next : M (BufferPool * W) A) z x c0 c1 bx bs d ds nx crest rest lf nb crestb restb lfb
    (Φ : A → ipool * GW → Prop) :
  z = Z.of_nat t → (2 <= length bs <= 3)%nat → length ds = S (length bs) →
  length ([c0; c1] ++ crest) = 5%nat → length ([x] ++ rest) = 4%nat →
  length ((ds ++ [d]) ++ crestb) = 5%nat → length ((bs ++ [bx]) ++ restb) = 4%nat →
  rid_fits x → in_s 64 c0 → in_s 64 c1 → Forall rid_fits (bs ++ [bx]) → Forall (in_s 64) (ds ++ [d]) →
  (∀ rest' crest' restb' crestb', length ([sep; x] ++ rest') = 4%nat → length ([d; c0; c1] ++ crest') = 5%nat →
    length (bs ++ restb') = 4%nat → length (ds ++ crestb') = 5%nat →
    awp next Φ (state3 (NV 2 nx ([d; c0; c1] ++ crest') ([sep; x] ++ rest') lf)
      (NV (Z.of_nat (length bs)) nb (ds ++ crestb') (bs ++ restb') lfb) (with_row t bx parent))) →
  awp (n ← nd ka rd_n;
       for_down n 0 (λ i,
         row ← nd ka (rd_row (i - 1));
         nd ka (wr_row i row);;
         child ← nd ka (rd_child i);
         nd ka (wr_child (i + 1) child));;
       child ← nd ka (rd_child 0);
       nd ka (wr_child 1 child);;
       inc_n ka;;
       row ← nd kp (rd_row z);
       nd ka (wr_row 0 row);;
       bn ← nd kb rd_n;
       child ← nd kb (rd_child bn);
       nd ka (wr_child 0 child);;
       row ← nd kb (rd_row (bn - 1));
       nd kp (wr_row z row);;
       dec_n kb;; next) Φ
    (state3 (NV 1 nx ([c0; c1] ++ crest) ([x] ++ rest) lf)
       (NV (Z.of_nat (length (bs ++ [bx]))) nb ((ds ++ [d]) ++ crestb) ((bs ++ [bx]) ++ restb) lfb) parent).
Proof using Hnd Hpin Ht Ht4 Hsep.
  intros -> Hl Hds Hc Hr Hcb Hrb Hx Hc0 Hc1 Hfits Hfd HΦ. cbn in Hr, Hc. injection Hr as Hr. injection Hc as Hc.
  rewrite !length_app in Hcb, Hrb. cbn [length] in Hcb, Hrb.
  assert (length restb = (3 - length bs)%nat) as Hrr by lia. assert (length crestb = (4 - length ds)%nat) as Hcr by lia.
  clear Hrb Hcb. explicit_list rest. explicit_list crest.
  destruct bs as [|b0 [|b1 [|b2 [|b3 bs]]]]; cbn in Hl, Hrr, Hds; try lia; rewrite Hds in Hcr; cbn in Hcr;
    explicit_list restb; explicit_list ds; explicit_list crestb; cbn [app] in *; Forall_split; run;
    first [eapply (HΦ [_; _] [_; _] [_] [_]); reflexivity | eapply (HΦ [_; _] [_; _] [_; _] [_; _]); reflexivity].
Qed.
End three.
