(* ===== verification/BTreeInsert.v ===== *)
(** Inserting into the index: the pieces of [insert_entry] in terms of nodes,
    lists of rows and territories. *)
From stdpp Require Import base gmap list fin_maps sorting.
From Stdlib Require Import ZArith Lia Strings.Byte.
From S2P Require Import Prelude FileIO BufferPool PoolLogic PoolClient Table HeapStore BTree NodeSpec NodeFocus TreeSpec NodeOps.
From S2P Require Import TreeFrame BTreeSearch TreeInsert.
#[local] Open Scope Z_scope.

(** ** What the index asks of its callbacks *)

(** the comparison of two rows *)
Class RowComparer {K W} (kcmp : K → K → Z) `{RW : Rep W (world K)} (cmp : RID → RID → M W Z)
    (cost : Z) : Prop :=
  compare_rows : ∀ keys r1 k1 r2 k2 n (Φ : Z → world K → Prop),
    keys !! r1 = Some k1 → keys !! r2 = Some k2 → cost <= n →
    Φ (kcmp k1 k2) (World keys (n - cost)) → awp (cmp r1 r2) Φ (World keys n).

(** the copy of a row for an internal node: a new identifier with the same key *)
Class KeyCopier {K W} `{RW : Rep W (world K)} (insert_handler : RID → M W RID) (cost : Z) : Prop :=
  copy_key : ∀ keys r k n (Φ : RID → world K → Prop),
    keys !! r = Some k → cost <= n →
    (∀ r', keys !! r' = None → Φ r' (World (<[r':=k]> keys) (n - cost))) →
    awp (insert_handler r) Φ (World keys n).

Section insert.
Context {K W : Type} {kcmp : K → K → Z} {KO : KeyOrder kcmp}.
Context {RW : Rep W (world K)} {KW : KeyWorld K W}.
Context (cmp : RID → RID → M W Z) (insert_handler : RID → M W RID) (cost hcost : Z).
Context {HC : RowComparer kcmp cmp cost} {HI : KeyCopier insert_handler hcost}.
Context (Hcost : 0 <= cost) (Hhcost : 0 <= hcost).

(** *** One row compared with others *)

Section keyed.
Context (rid : RID) (k : K).

Definition keyed_Rep : Rep W (world K) := λ s g, @rep _ _ RW s g ∧ w_keys g !! rid = Some k.

Local Instance keyed_world : @KeyWorld K W keyed_Rep.
Proof using KW.
  constructor.
  - intros s keys n n' [Hs Hk] Hn. split; [|exact Hk]. by eapply world_spend.
  - intros s keys n r kr [Hs _] Hr. by eapply world_rids.
Qed.

Local Instance keyed_comparer : @Comparer K W kcmp keyed_Rep (cmp rid) k cost.
Proof using HC.
  intros keys r kr n Φ Hr Hn HΦ s [Hs Hk]. cbn in Hk.
  eapply wp_mono; [eapply (compare_rows keys rid k r kr n
    (λ z g, g = World keys (n - cost) ∧ z = kcmp k kr)); [done|done|done|done|exact Hs]|].
  intros z s' (g & Hg & -> & ->). exists (World keys (n - cost)). by split; [split|].
Qed.

Lemma awp_keyed {A} (m : M (BufferPool * W) A) (Φ : A → ipool * world K → Prop) g keys n :
  keys !! rid = Some k →
  @awp _ _ (@pair_Rep BufferPool W ipool (world K) _ keyed_Rep) _ m Φ (g, World keys n) →
  awp m Φ (g, World keys n).
Proof using.
  intros Hk Hm s [Hg Hs]. eapply wp_mono; [apply Hm; by split|].
  intros x s' ([g' w'] & [Hg' [Hs' _]] & HΦ). exists (g', w').
  split; [split; [exact Hg'|exact Hs']|exact HΦ].
Qed.

Lemma row_scan_spec root free ns l ps h a kp c v leaf rs cs keys n (Φ : Z → ipool * world K → Prop) :
  ps !! a = Some (kp, c) → ns !! a = Some v → node_is v leaf rs cs → (length rs <= 4)%nat →
  (∀ r, r ∈ rs → is_Some (keys !! r)) → keys !! rid = Some k → 4 * cost <= n →
  (∀ i : nat, (i <= length rs)%nat → scan_at (kcmp := kcmp) keys k rs i →
    Φ (Z.of_nat i) (IPool root free ns l ps h, World keys (n - 4 * cost))) →
  awp (find_ne 0 (Z.of_nat (length rs)) (λ p,
    row ← nd kp (rd_row p); c ← ext (cmp rid row); mret (c <? 0)))
    Φ (IPool root free ns l ps h, World keys n).
Proof using HC Hcost KW.
  intros Hp Hns Hv Hlen Hkeys Hk Hn HΦ. apply awp_keyed; [exact Hk|].
  unfold find_ne. rewrite (proj2 (Z.ltb_ge _ 0)) by lia. rewrite Z.sub_0_r, Nat2Z.id.
  eapply (scan_spec (cmp rid) k cost Hcost _ _ _ _ _ _ _ _ _ _ _ _ _ _ _ (λ z, z <? 0));
    [exact Hp|exact Hns|exact Hv|done|done|done|].
  intros i Hi H1 H2. by apply HΦ.
Qed.
End keyed.

Lemma find_pos_spec rid k root free ns l ps h a kp c v leaf rs cs keys n (Φ : Z → ipool * world K → Prop) :
  keys !! rid = Some k →
  ps !! a = Some (kp, c) → ns !! a = Some v → node_is v leaf rs cs → (length rs <= 4)%nat →
  (∀ r, r ∈ rs → is_Some (keys !! r)) → 4 * cost <= n →
  (∀ i : nat, (i <= length rs)%nat → scan_at (kcmp := kcmp) keys k rs i →
    Φ (Z.of_nat i) (IPool root free ns l ps h, World keys (n - 4 * cost))) →
  awp (find_pos cmp kp rid (Z.of_nat (length rs))) Φ (IPool root free ns l ps h, World keys n).
Proof using HC Hcost KW. intros. by eapply row_scan_spec. Qed.

Lemma find_subtree_spec rid k root free ns l ps h a kp c v leaf rs cs keys n (Φ : Z → ipool * world K → Prop) :
  keys !! rid = Some k →
  ps !! a = Some (kp, c) → ns !! a = Some v → node_is v leaf rs cs → (length rs <= 4)%nat →
  (∀ r, r ∈ rs → is_Some (keys !! r)) → 4 * cost <= n →
  (∀ i : nat, (i <= length rs)%nat → scan_at (kcmp := kcmp) keys k rs i →
    Φ (Z.of_nat i) (IPool root free ns l ps h, World keys (n - 4 * cost))) →
  awp (find_subtree (cmp rid) kp) Φ (IPool root free ns l ps h, World keys n).
Proof using HC Hcost KW.
  intros. unfold find_subtree. awp_step. eapply nd_read_n; [eassumption..|]. cbv beta.
  by eapply row_scan_spec.
Qed.

(** identifiers with a key survive being stored *)
Lemma awp_fits {A} (m : M (BufferPool * W) A) (Φ : A → ipool * world K → Prop) g keys n :
  ((∀ r, is_Some (keys !! r) → rid_fits r) → awp m Φ (g, World keys n)) →
  awp m Φ (g, World keys n).
Proof using KW.
  intros Hm. apply awp_rep. intros s [_ Hs]. apply Hm. intros r [k Hk].
  apply rid_dec_enc. by eapply world_rids.
Qed.

(** *** A leaf with room *)

Lemma insert_row_spec rid k root free ns l ps h a ka v rs cs keys n
    (Φ : NewChildEntry → ipool * world K → Prop) :
  keys !! rid = Some k → ps !! a = Some (ka, 1) → ns !! a = Some v → node_is v true rs cs →
  (length rs <= 3)%nat → (∀ r, r ∈ rs → is_Some (keys !! r)) → 4 * cost <= n →
  (∀ i v', (i <= length rs)%nat → scan_at (kcmp := kcmp) keys k rs i →
    node_is v' true (with_new i rid rs) cs →
    Φ result_empty (IPool root free (<[a:=v']> ns) l (delete a ps) h, World keys (n - 4 * cost))) →
  awp (insert_row cmp a ka rid) Φ (IPool root free ns l ps h, World keys n).
Proof using HC Hcost KW.
  intros Hk Hp Hns Hv Hlen Hkeys Hn HΦ. apply awp_fits. intros Hfits.
  unfold insert_row. awp_step. eapply nd_read_n; [exact Hp|exact Hns|exact Hv|]. cbv beta.
  awp_step. eapply find_pos_spec; [exact Hk|exact Hp|exact Hns|exact Hv|lia|done|done|]. intros i Hi Hscan.
  cbv beta. pose proof (node_is_elim _ _ _ _ Hv) as (nx & crest & rrest & lf & -> & Hlf & Hc & Hr).
  eapply (awp_focus _ _ _ _ _ _ [(a, ka)] _ _ [_]); [by repeat constructor|].
  eapply shift_rows_spec; [apply NoDup_singleton|by eapply pinned_one|done|done|done| |by apply Hfits; eexists|].
  { apply Forall_forall. intros. by apply Hfits, Hkeys. }
  intros rest Hrest. awp_step. apply awp_idx. eapply ip_release; [exact Hp|]. cbv beta.
  awp_step. eapply HΦ; [done|exact Hscan|]. rewrite <- Hlf. by apply node_is_intro.
Qed.

(** *** An internal node with room *)

Lemma insert_child_spec sep km b root free ns l ps h a ka v rs cs keys n
    (Φ : NewChildEntry → ipool * world K → Prop) :
  keys !! sep = Some km → in_s 64 b → Forall (in_s 64) cs →
  ps !! a = Some (ka, 1) → ns !! a = Some v → node_is v false rs cs →
  (1 <= length rs <= 3)%nat → length cs = S (length rs) →
  (∀ r, r ∈ rs → is_Some (keys !! r)) → 4 * cost <= n →
  (∀ i v', (i <= length rs)%nat → scan_at (kcmp := kcmp) keys km rs i →
    node_is v' false (with_new i sep rs) (with_new (S i) b cs) →
    Φ result_empty (IPool root free (<[a:=v']> ns) l (delete a ps) h, World keys (n - 4 * cost))) →
  awp (insert_child cmp a ka (mkNCE sep b)) Φ (IPool root free ns l ps h, World keys n).
Proof using HC Hcost KW.
  intros Hk Hb Hcs64 Hp Hns Hv Hlen Hcs Hkeys Hn HΦ. apply awp_fits. intros Hfits.
  unfold insert_child. cbn [child_key child_ptr].
  awp_step. eapply nd_read_n; [exact Hp|exact Hns|exact Hv|]. cbv beta.
  awp_step. eapply find_pos_spec; [exact Hk|exact Hp|exact Hns|exact Hv|lia|done|done|]. intros i Hi Hscan.
  cbv beta. pose proof (node_is_elim _ _ _ _ Hv) as (nx & crest & rrest & lf & -> & Hlf & Hc & Hr).
  eapply (awp_focus _ _ _ _ _ _ [(a, ka)] _ _ [_]); [by repeat constructor|].
  eapply shift_children_spec;
    [apply NoDup_singleton|by eapply pinned_one|done|done|done|done|done| |done|by apply Hfits; eexists|done|].
  { apply Forall_forall. intros. by apply Hfits, Hkeys. }
  intros rest crest' Hrest Hcrest. awp_step. apply awp_idx. eapply ip_release; [exact Hp|]. cbv beta.
  awp_step. eapply HΦ; [done|exact Hscan|]. rewrite <- Hlf. by apply node_is_intro.
Qed.

(** *** A full leaf *)

(** the page of a node and the free list, a node [b] taken from it, and new
    contents for the two *)
Lemma new_node_frame ns l fl a v b vb free' fl' ns' l' ka kb v' vb' :
  NoDup (a :: fl) → 0 < a < l → ns !! a = Some v → new_node ns l fl b vb free' fl' ns' l' →
  a ≠ b ∧ ns' !! a = Some v ∧
  frame_step (a :: fl) (a :: b :: fl') ns l (overlay [(a, ka); (b, kb)] [v'; vb'] ns') l' ∧
  free_list (overlay [(a, ka); (b, kb)] [v'; vb'] ns') free' fl'.
Proof using.
  intros Hnd Ha Hv [Hb _ Hf Hfl _ _ _].
  assert (a ∉ fl) as Hafl by (by apply NoDup_cons in Hnd as [? _]).
  pose proof (frame_add [a] fl (b :: fl') ns l ns' l' Hnd ltac:(intros x Hx; apply list_elem_of_singleton in Hx as ->; lia) Hf)
    as Hf'. cbn [app] in Hf'.
  assert (a ≠ b) as Hne. { pose proof (fs_nodup _ _ _ _ _ _ Hf') as H. apply NoDup_cons in H as [H _].
    intros ->. apply H. by left. }
  split; [done|]. split; [rewrite <- Hv; apply (fs_frame _ _ _ _ _ _ Hf); [done|lia]|].
  pose proof (fs_nodup _ _ _ _ _ _ Hf') as Hnd'. split.
  - eapply frame_trans; [exact Hf'|]. apply frame_overlay; [done|].
    intros x [->|[->|Hx]%elem_of_cons]%elem_of_cons; [by left|right; by left|by apply not_elem_of_nil in Hx].
  - eapply free_list_frame; [|exact Hfl]. intros x Hx. apply overlay_other.
    apply NoDup_cons in Hnd' as [H1 H2]. apply NoDup_cons in H2 as [H2 _].
    intros [->|[->|Hx']%elem_of_cons]%elem_of_cons; [apply H1; by right|done|by apply not_elem_of_nil in Hx'].
Qed.

(** taking a new node while [a] is pinned *)
Lemma take_node_spec root free ns l h a ka v fl w (kont : Z → Ptr → M (BufferPool * W) NewChildEntry)
    (Φ : NewChildEntry → ipool * world K → Prop) :
  nodes_in ns l → ns !! a = Some v → free_list ns free fl → NoDup (a :: fl) →
  1 < h → l + PAGE_SIZE <= MAX_LEN →
  (∀ b kb vb free' fl' ns' l', new_node ns l fl b vb free' fl' ns' l' → a ≠ b →
    awp (kont b kb) Φ (IPool root free' ns' l' (<[b:=(kb, 1)]> (<[a:=(ka, 1)]> ∅)) (h - 2), w)) →
  awp (ctrl ← idx (get_page 0); '(b, kb) ← alloc_node ctrl; idx (release 0);; kont b kb) Φ
    (IPool root free ns l (<[a:=(ka, 1)]> ∅) h, w).
Proof using.
  intros Hin Hv Hfl Hnd Hh HM Hk. pose proof (Hin a ltac:(by eexists)) as Ha.
  awp_step. apply awp_idx. eapply ip_get_ctrl; [map_find|pins_size|lia|]. intros kc. cbv beta.
  awp_step. eapply (alloc_node_spec _ _ _ _ _ _ kc fl); [done|by apply NoDup_cons in Hnd as [_ ?]|map_find|pins_size| |map_find|lia|done|].
  { intros x Hx. pose proof (Hin x ltac:(by eapply free_list_dom)).
    rewrite lookup_insert_ne by lia. rewrite lookup_insert_ne; [apply lookup_empty|].
    intros ->. by apply NoDup_cons in Hnd as [? _]. }
  intros b kb vb free' fl' ns' l' Hnew. cbv beta iota.
  destruct (new_node_frame _ _ _ _ _ _ _ _ _ _ _ ka kb v vb Hnd Ha Hv Hnew) as [Hne _].
  pose proof (nn_addr _ _ _ _ _ _ _ _ _ Hnew) as Hb.
  awp_step. apply awp_idx. eapply ip_release; [map_find|]. cbv beta.
  rewrite delete_insert_ne by lia. rewrite delete_insert_id by map_find.
  replace (h - 1 - 1) with (h - 2) by lia. by eapply Hk.
Qed.

(** taking two new nodes *)
Record two_nodes (ns : gmap Z nview) (l : Z) (fl : list Z) (a : Z) (va : nview) (b : Z) (vb : nview) (c : Z) (vc : nview)
    (free' : Z) (fl' : list Z) (ns' : gmap Z nview) (l' : Z) : Prop := {
  tw_ne : a ≠ b ∧ a ≠ c ∧ b ≠ c;
  tw_nodes : ns' !! a = Some va ∧ ns' !! b = Some vb ∧ ns' !! c = Some vc;
  tw_shape : node_shape vb ∧ node_shape vc;
  tw_frame : frame_step (a :: fl) (a :: b :: c :: fl') ns l ns' l';
  tw_free : free_list ns' free' fl';
  tw_addr : 0 < b < l' ∧ 0 < c < l';
  tw_len : l' <= l + 2 * PAGE_SIZE;
}.

Lemma two_nodes_intro ns l fl a va b vb f1 fl1 ns1 l1 c vc f2 fl2 ns2 l2 :
  NoDup (a :: fl) → 0 < a < l → ns !! a = Some va →
  new_node ns l fl b vb f1 fl1 ns1 l1 → new_node ns1 l1 fl1 c vc f2 fl2 ns2 l2 →
  two_nodes ns l fl a va b vb c vc f2 fl2 ns2 l2.
Proof using.
  intros Hnd Ha Hv [Hb Sb Fb _ Ab Lb _] [Hc Sc Fc Lc Ac Lc2 _].
  assert (frame_step (b :: fl1) (b :: c :: fl2) ns1 l1 ns2 l2) as F2.
  { apply (frame_add [b]); [apply Fb| |done]. intros x Hx. apply list_elem_of_singleton in Hx as ->. lia. }
  assert (frame_step (a :: fl) (a :: b :: c :: fl2) ns l ns2 l2) as F.
  { apply (frame_add [a]); [done| |by eapply frame_trans].
    intros x Hx. apply list_elem_of_singleton in Hx as ->. lia. }
  pose proof (fs_nodup _ _ _ _ _ _ F) as ND. rewrite !NoDup_cons, !not_elem_of_cons in ND.
  destruct ND as ((Hab & Hac & _) & (Hbc & Hbf) & _ & _).
  assert (a ∉ fl ∧ a ∉ fl1) as [Hafl Hafl1].
  { apply NoDup_cons in Hnd as [Hafl _]. split; [done|]. intros Ha1.
    destruct (fs_new _ _ _ _ _ _ Fb a) as [?|?]; [by right|done|lia]. }
  pose proof (fs_len _ _ _ _ _ _ Fb). pose proof (fs_len _ _ _ _ _ _ Fc).
  assert (b ∉ fl1) as Hbf1 by (pose proof (fs_nodup _ _ _ _ _ _ Fb) as ND2; by apply NoDup_cons in ND2 as [? _]).
  split; [done| |done|done|done| |].
  - split; [|split; [|done]].
    + rewrite (fs_frame _ _ _ _ _ _ Fc); [|done|lia]. by rewrite (fs_frame _ _ _ _ _ _ Fb); [|done|lia].
    + by rewrite (fs_frame _ _ _ _ _ _ Fc); [|done|lia].
  - lia.
  - lia.
Qed.

Lemma take_two_spec root free ns l h a ka v fl w
    (kont : Z → Ptr → Z → Ptr → M (BufferPool * W) NewChildEntry)
    (Φ : NewChildEntry → ipool * world K → Prop) :
  nodes_in ns l → ns !! a = Some v → free_list ns free fl → NoDup (a :: fl) →
  2 < h → l + 2 * PAGE_SIZE <= MAX_LEN →
  (∀ b kb vb c kc vc free' fl' ns' l', two_nodes ns l fl a v b vb c vc free' fl' ns' l' →
    awp (kont b kb c kc) Φ
      (IPool root free' ns' l' (<[c:=(kc, 1)]> (<[b:=(kb, 1)]> (<[a:=(ka, 1)]> ∅))) (h - 3), w)) →
  awp (ctrl ← idx (get_page 0); '(b, kb) ← alloc_node ctrl; '(c, kc) ← alloc_node ctrl;
       idx (release 0);; kont b kb c kc) Φ
    (IPool root free ns l (<[a:=(ka, 1)]> ∅) h, w).
Proof using.
  intros Hin Hv Hfl Hnd Hh HM Hk. pose proof (Hin a ltac:(by eexists)) as Ha.
  assert (∀ x, x ∈ fl → 0 < x < l ∧ x ≠ a) as Hflin.
  { intros x Hx. split; [apply Hin; by eapply free_list_dom|].
    intros ->. by apply NoDup_cons in Hnd as [? _]. }
  unfold PAGE_SIZE in HM.
  awp_step. apply awp_idx. eapply ip_get_ctrl; [map_find|pins_size|lia|]. intros kc0. cbv beta.
  awp_step. eapply (alloc_node_spec _ _ _ _ _ _ kc0 fl);
    [done|by apply NoDup_cons in Hnd as [_ ?]|map_find|pins_size| |map_find|lia|unfold PAGE_SIZE; lia|].
  { intros x Hx. destruct (Hflin x Hx). map_find. }
  intros b kb vb f1 fl1 ns1 l1 Hnew1. cbv beta iota.
  pose proof Hnew1 as [_ _ Fb Hfl1 Ab Lb Hin1]. unfold PAGE_SIZE in Lb.
  pose proof (fs_nodup _ _ _ _ _ _ Fb) as ND1. apply NoDup_cons in ND1 as [Hb1 ND1].
  pose proof (fs_len _ _ _ _ _ _ Fb).
  assert (∀ x, x ∈ b :: fl1 → x ≠ a) as Hnea.
  { intros x Hx. destruct (fs_new _ _ _ _ _ _ Fb x Hx) as [Hx'|Hx']; [by apply Hflin|lia]. }
  pose proof (Hnea b ltac:(by left)) as Hba.
  awp_step. eapply (alloc_node_spec _ _ _ _ _ _ kc0 fl1);
    [exact Hfl1|exact ND1|map_find|pins_size| |map_find|lia|unfold PAGE_SIZE; lia|].
  { intros x Hx. pose proof (Hin1 x ltac:(by eapply free_list_dom)). pose proof (Hnea x ltac:(by right)).
    assert (x ≠ b) by (intros ->; done). map_find. }
  intros c kc vc f2 fl2 ns2 l2 Hnew2. cbv beta iota.
  pose proof (two_nodes_intro _ _ _ _ _ _ _ _ _ _ _ _ _ _ _ _ _ Hnd Ha Hv Hnew1 Hnew2) as Htw.
  destruct (tw_ne _ _ _ _ _ _ _ _ _ _ _ _ _ Htw) as (Hab & Hac & Hbc).
  destruct (tw_addr _ _ _ _ _ _ _ _ _ _ _ _ _ Htw) as [Hb0 Hc0].
  awp_step. apply awp_idx. eapply ip_release; [map_find|]. cbv beta.
  rewrite !delete_insert_ne by lia. rewrite delete_insert_id by map_find.
  replace (h - 1 - 1 - 1) with (h - 3) by lia. by eapply Hk.
Qed.

Lemma with_new_after {A} i j (x : A) rs :
  (i <= j)%nat → (i <= length rs)%nat → with_new i x rs !! S j = rs !! j.
Proof using.
  intros Hj Hi. unfold with_new. rewrite lookup_app_r by (rewrite length_take; lia).
  rewrite length_take, Nat.min_l by lia. replace (S j - i)%nat with (S (j - i)) by lia. simpl.
  rewrite lookup_drop. f_equal. lia.
Qed.

Lemma with_new_elem {A} i (x : A) rs y : y ∈ with_new i x rs → y = x ∨ y ∈ rs.
Proof using.
  intros [H|[->|H]%elem_of_cons]%elem_of_app; [right|by left|right];
    rewrite <- (take_drop i rs); apply elem_of_app; auto.
Qed.

Lemma with_new_length {A} i (x : A) rs : (i <= length rs)%nat → length (with_new i x rs) = S (length rs).
Proof using. intros H. unfold with_new. rewrite length_app, length_take. cbn [length]. rewrite length_drop. lia. Qed.

(** a node of any shape, with its three fields set as a new leaf *)
Lemma new_leaf_intro rows restb nxb cb : length (rows ++ restb) = 4%nat → length cb = 5%nat →
  node_is (NV (Z.of_nat (length rows)) nxb cb (rows ++ restb) 1) true rows [].
Proof using. intros Hr Hc. by apply (node_is_intro _ nxb [] cb rows restb 1). Qed.

(** a new root over two nodes *)
Lemma new_root_intro sep a b rest crest nx : length (sep :: rest) = 4%nat → length (a :: b :: crest) = 5%nat →
  node_is (NV 1 nx (a :: b :: crest) (sep :: rest) 0) false [sep] [a; b].
Proof using. intros Hr Hc. by apply (node_is_intro 1 nx [a; b] crest [sep] rest 0). Qed.

(** explicit views of two nodes of any shape *)
Lemma shape_elim v : node_shape v → ∃ n nx cs rs lf, v = NV n nx cs rs lf ∧ length cs = 5%nat ∧ length rs = 4%nat.
Proof using. destruct v as [n nx cs rs lf]. intros [Hc Hr]. by exists n, nx, cs, rs, lf. Qed.

Lemma full_elim v leaf rs cs : node_is v leaf rs cs → length rs = 4%nat →
  ∃ nx crest lf, v = NV 4 nx (cs ++ crest) rs lf ∧ negb (lf =? 0) = leaf ∧ length (cs ++ crest) = 5%nat.
Proof using.
  intros Hnode Hlen. destruct (node_is_elim _ _ _ _ Hnode) as (nx & crest & rrest & lf & -> & Hlf & Hc & Hr).
  assert (rrest = []) as -> by (apply nil_length_inv; rewrite length_app in Hr; lia).
  rewrite app_nil_r, Hlen. by exists nx, crest, lf.
Qed.

Lemma middle_row (keys : gmap RID K) rid k rs i : keys !! rid = Some k → length rs = 4%nat → (i <= 4)%nat →
  (∀ r, r ∈ rs → is_Some (keys !! r)) →
  ∃ r (km : K), with_new i rid rs !! 2%nat = Some r ∧ keys !! r = Some km.
Proof using.
  intros Hk Hrs Hi Hkeys. destruct (lookup_lt_is_Some_2 (with_new i rid rs) 2) as [r Hr].
  { rewrite with_new_length; lia. }
  pose proof (list_elem_of_lookup_2 _ _ _ Hr) as Hin. apply with_new_elem in Hin as [->|Hin]; [by eauto|].
  destruct (Hkeys r Hin) as [km Hkm]. eauto.
Qed.

(** the two halves of a leaf with its new row *)
Lemma leaf_halves i (rid : RID) rs nx crest lf rest cb restb : (i <= 4)%nat → length rs = 4%nat → negb (lf =? 0) = true →
  length rest = 2%nat → length crest = 5%nat → length restb = 1%nat → length cb = 5%nat →
  node_is (NV 2 nx crest (take 2 (with_new i rid rs) ++ rest) lf) true (take 2 (with_new i rid rs)) [] ∧
  node_is (NV 3 (-1) cb (drop 2 (with_new i rid rs) ++ restb) 1) true (drop 2 (with_new i rid rs)) [].
Proof using.
  intros Hi Hrs Hlf Hr Hc Hrb Hcb. assert (length (with_new i rid rs) = 5%nat) as HL by (rewrite with_new_length; lia). split.
  - rewrite <- Hlf. apply (node_is_intro 2 nx [] crest); [rewrite length_take; lia|done|].
    rewrite length_app, length_take. lia.
  - change 3 with (Z.of_nat 3). replace 3%nat with (length (drop 2 (with_new i rid rs))) by (rewrite length_drop; lia).
    apply new_leaf_intro; [|done]. rewrite length_app, length_drop. lia.
Qed.

(** the control page names a new root *)
Lemma root_moves_spec {A} root free ns l c h w (res : A) (Φ : A → ipool * world K → Prop) : in_s 64 c → 0 < h →
  Φ res (IPool c free ns l ∅ (h - 1), w) →
  awp (ctrl ← idx (get_page 0); nd ctrl (wr_64 off_root_node c);; idx (release 0);; mret res) Φ
    (IPool root free ns l ∅ h, w).
Proof using.
  intros Hc Hh HΦ. awp_step. apply awp_idx. eapply ip_get_ctrl; [map_find|pins_size|lia|]. intros kc. cbv beta.
  awp_step. apply awp_idx. eapply ip_wr_root; [map_find|exact Hc|]. cbv beta.
  awp_step. apply awp_idx. eapply ip_release; [map_find|]. rewrite delete_insert_id by apply lookup_empty. cbv beta.
  by awp_step.
Qed.

(** a leaf [a] and a new one [b] share the rows; the middle one is copied, before
    or after the rows move *)
Section leaf_rows.
Context (root free : Z) (ns : gmap Z nview) (l h a : Z) (ka : nat) (b : Z) (kb : nat) (Hne : a ≠ b).
Context (rid : RID) (rs : list RID) (keys : gmap RID K) (n : Z) (i : nat) (r : RID) (km : K).
Context (Hi : (i <= 4)%nat) (Hrs : length rs = 4%nat) (Hr : with_new i rid rs !! 2%nat = Some r) (Hkm : keys !! r = Some km).
Context (Hfr : Forall rid_fits rs) (Hfk : rid_fits rid) (Hn : hcost <= n).
Context (nx : Z) (crest : list Z) (lf : Z) (cb : list Z) (rb : list RID) (Hrb : length rb = 4%nat).

Lemma leaf_rows_spec (Φ : RID → ipool * world K → Prop) :
  (∀ sep rest restb, keys !! sep = None → length rest = 2%nat → length restb = 1%nat →
    Φ sep (IPool root free (overlay [(a, ka); (b, kb)]
        [NV 4 nx crest (take 2 (with_new i rid rs) ++ rest) lf; NV 3 (-1) cb (drop 2 (with_new i rid rs) ++ restb) 1] ns) l
        (<[b:=(kb, 1)]> (<[a:=(ka, 1)]> ∅)) h, World (<[sep:=km]> keys) (n - hcost))) →
  awp (if Z.of_nat i <? DEGREE then
         row ← nd ka (rd_row (DEGREE - 1));
         key ← ext (insert_handler row);
         split_rows_left ka kb (Z.of_nat i) rid;;
         mret key
       else
         split_rows_right ka kb (Z.of_nat i) rid;;
         row ← nd kb (rd_row 0);
         ext (insert_handler row)) Φ
    (IPool root free (overlay [(a, ka); (b, kb)] [NV 4 nx crest rs lf; NV 3 (-1) cb rb 1] ns) l
      (<[b:=(kb, 1)]> (<[a:=(ka, 1)]> ∅)) h, World keys n).
Proof using HI Hfk Hfr Hhcost Hi Hkm Hn Hne Hr Hrb Hrs KW.
  intros HΦ. set (pgs := [(a, ka); (b, kb)]) in *. pose proof (pages_two a b ka kb Hne : NoDup pgs.*1) as Hndp.
  assert (pinned (<[b:=(kb, 1)]> (<[a:=(ka, 1)]> ∅)) pgs) as Hpin by (eapply pinned_cons; [map_find|eapply pinned_one; map_find]).
  pose proof (λ w Φ, split_rows_spec root free ns l (<[b:=(kb, 1)]> (<[a:=(ka, 1)]> ∅)) h a ka b kb w
    Hndp Hpin i rid rs 3 nx crest lf (NV 3 (-1) cb rb 1) (-1) 1 rb cb Φ Hi Hrs Hrb Hfr Hfk eq_refl) as Hsplit.
  fold pgs in Hsplit. destruct (Z.ltb_spec (Z.of_nat i) DEGREE) as [Hlt|Hge].
  - awp_step. assert (i <= 1)%nat as Hi1 by (change DEGREE with 2 in Hlt; lia).
    eapply fo_rd_row with (j:=0%nat) (i:=1%nat); [eassumption|eassumption|reflexivity|reflexivity|reflexivity| |].
    { rewrite (with_new_after i 1) in Hr by lia. exact Hr. }
    cbv beta. awp_step. apply awp_world. eapply copy_key; [exact Hkm|lia|]. intros sep Hsep. cbv beta.
    awp_step. apply Hsplit. intros rest restb Hrest Hrestb. awp_step. by apply HΦ.
  - awp_step. apply Hsplit. intros rest restb Hrest Hrestb.
    awp_step. eapply fo_rd_row with (j:=1%nat) (i:=0%nat); [eassumption|eassumption|reflexivity|reflexivity|reflexivity| |].
    { cbn [v_row]. apply lookup_app_l_Some. by rewrite lookup_drop. }
    cbv beta. apply awp_world. eapply copy_key; [exact Hkm|lia|]. intros sep Hsep. by apply HΦ.
Qed.
End leaf_rows.

Lemma split_leaf_spec rid k root free ns l h a ka v rs keys n fl
    (Φ : NewChildEntry → ipool * world K → Prop) :
  keys !! rid = Some k → nodes_in ns l → ns !! a = Some v → node_is v true rs [] → length rs = 4%nat →
  (∀ r, r ∈ rs → is_Some (keys !! r)) → 4 * cost + hcost <= n →
  free_list ns free fl → NoDup (a :: fl) → 1 < h → l + PAGE_SIZE <= MAX_LEN →
  (∀ i b sep r km v' vb' free' fl' ns' l', (i <= 4)%nat → scan_at (kcmp := kcmp) keys k rs i →
    with_new i rid rs !! 2%nat = Some r → keys !! r = Some km → keys !! sep = None →
    frame_step (a :: fl) (a :: b :: fl') ns l ns' l' → l' <= l + PAGE_SIZE → 0 < b < l' →
    ns' !! a = Some v' → ns' !! b = Some vb' → free_list ns' free' fl' →
    node_is v' true (take 2 (with_new i rid rs)) [] → node_is vb' true (drop 2 (with_new i rid rs)) [] →
    Φ (mkNCE sep b) (IPool root free' ns' l' ∅ (h - 2), World (<[sep:=km]> keys) (n - 4 * cost - hcost))) →
  awp (split_leaf cmp insert_handler a ka rid) Φ (IPool root free ns l (<[a:=(ka, 1)]> ∅) h, World keys n).
Proof using HC HI Hcost Hhcost KW.
  intros Hk Hin Hv Hnode Hlen Hkeys Hn Hfl Hnd Hh HM HΦ. apply awp_fits. intros Hfits.
  unfold split_leaf. eapply take_node_spec; [exact Hin|exact Hv|exact Hfl|exact Hnd|done|done|].
  intros b kb vb free' fl' ns' l' Hnew Hne.
  pose proof (Hin a ltac:(by eexists)) as Ha.
  destruct (full_elim _ _ _ _ Hnode Hlen) as (nx & crest & lf & -> & Hlf & Hc). cbn [app] in *.
  destruct (nn_shape _ _ _ _ _ _ _ _ _ Hnew) as [Hcb Hrb]. destruct vb as [nb nxb cb rb lfb].
  cbn [v_child v_row] in Hcb, Hrb.
  destruct (new_node_frame _ _ _ _ _ _ _ _ _ _ _ ka kb (view EMPTY_PAGE) (view EMPTY_PAGE) Hnd Ha Hv Hnew) as (_ & Hv' & _).
  set (pgs := [(a, ka); (b, kb)]).
  pose proof (pages_two a b ka kb Hne : NoDup pgs.*1) as Hndp.
  assert (pinned (<[b:=(kb, 1)]> (<[a:=(ka, 1)]> ∅)) pgs) as Hpin.
  { eapply pinned_cons; [map_find|]. eapply pinned_one. map_find. }
  eapply (awp_focus _ _ _ _ _ _ pgs _ _ [_; _]).
  { constructor; [exact Hv'|]. constructor; [exact (nn_node _ _ _ _ _ _ _ _ _ Hnew)|constructor]. }
  do 3 (fo_step; fo_step).
  awp_step. change (2 * DEGREE) with (Z.of_nat 4). rewrite <- Hlen at 1.
  eapply find_pos_spec with (a:=a); [exact Hk|map_find|by eapply (overlay_lookup pgs _ _ 0)|exact Hnode|lia|done|lia|].
  intros i Hi Hscan. cbv beta. rewrite Hlen in Hi.
  destruct (middle_row _ _ _ _ _ Hk Hlen Hi Hkeys) as (r & km & Hr2 & Hkm).
  assert (Forall rid_fits rs) as Hfr by (apply Forall_forall; intros; by apply Hfits, Hkeys).
  awp_step. eapply (leaf_rows_spec root free' ns' l' _ a ka b kb); try done; [by apply Hfits; eexists|lia|].
  intros sep rest restb Hsep Hrl Hrbl. fold pgs. cbv beta.
  fo_step. fo_step. awp_step. apply awp_idx. eapply ip_release; [map_find|]. cbv beta.
  awp_step. apply awp_idx. eapply ip_release; [map_find|]. cbv beta. awp_step.
  rewrite delete_insert_ne by congruence. rewrite !delete_insert_id by map_find.
  destruct (leaf_halves i rid rs nx crest lf rest cb restb) as [N1 N2]; try done.
  pose proof (λ v' vb', proj2 (proj2 (new_node_frame _ _ _ _ _ _ _ _ _ _ _ ka kb v' vb' Hnd Ha Hv Hnew))) as Hframe.
  eapply HΦ; [exact Hi|exact Hscan|exact Hr2|exact Hkm|exact Hsep|exact (proj1 (Hframe _ _))|apply Hnew|apply Hnew
    | | |exact (proj2 (Hframe _ _))|exact N1|exact N2].
  - by eapply (overlay_lookup pgs _ _ 0).
  - by eapply (overlay_lookup pgs _ _ 1).
Qed.

(** a new root [c] over the two halves, with a copy of the first row of the
    second *)
Section leaf_root.
Context (root free : Z) (ns : gmap Z nview) (l h a : Z) (ka : nat) (b : Z) (kb : nat) (c : Z) (kc : nat).
Context (Hab : a ≠ b) (Hac : a ≠ c) (Hbc : b ≠ c) (Ha : in_s 64 a) (Hb : in_s 64 b) (Hc : in_s 64 c).
Context (keys : gmap RID K) (n : Z) (r : RID) (km : K) (Hkm : keys !! r = Some km) (Hn : hcost <= n) (Hh : 0 < h).
Context (nx : Z) (cs : list Z) (lf : Z) (rs : list RID) (nb nxb : Z) (cb : list Z) (rb : list RID) (lfb : Z) (Hr : rb !! 0%nat = Some r).
Context (vc : nview) (Hvc : node_shape vc).

Lemma leaf_root_spec (Φ : NewChildEntry → ipool * world K → Prop) :
  (∀ sep vc', keys !! sep = None → node_is vc' false [sep] [a; b] →
    Φ (mkNCE sep b) (IPool c free (overlay [(a, ka); (b, kb); (c, kc)] [NV 2 nx cs rs lf; NV nb nxb cb rb lfb; vc'] ns) l ∅ (h - 1),
      World (<[sep:=km]> keys) (n - hcost))) →
  awp (nd ka (wr_n DEGREE);;
       nd kc (wr_leaf false);;
       nd kc (wr_n 1);;
       nd kc (wr_child 0 a);;
       nd kc (wr_child 1 b);;
       nd kc (wr_node_next (-1));;
       row ← nd kb (rd_row 0);
       key ← ext (insert_handler row);
       nd kc (wr_row 0 key);;
       idx (release a);;
       idx (release b);;
       key ← nd kc (rd_row 0);
       idx (release c);;
       ctrl ← idx (get_page 0);
       nd ctrl (wr_64 off_root_node c);;
       idx (release 0);;
       mret (mkNCE key b)) Φ
    (IPool root free (overlay [(a, ka); (b, kb); (c, kc)] [NV 4 nx cs rs lf; NV nb nxb cb rb lfb; vc] ns) l
      (<[c:=(kc, 1)]> (<[b:=(kb, 1)]> (<[a:=(ka, 1)]> ∅))) h, World keys n).
Proof using HI Ha Hab Hac Hb Hbc Hc Hh Hhcost Hkm Hn Hr Hvc KW.
  intros HΦ. destruct (shape_elim _ Hvc) as (nc & nxc & cc & rc & lfc & -> & Hcc & Hrc).
  set (ps := <[c:=(kc, 1)]> (<[b:=(kb, 1)]> (<[a:=(ka, 1)]> ∅))). set (pgs := [(a, ka); (b, kb); (c, kc)]) in *.
  pose proof (pages_three a b c ka kb kc Hab Hac Hbc : NoDup pgs.*1) as Hndp.
  assert (pinned ps pgs) as Hpin.
  { eapply pinned_cons; [unfold ps; map_find|]. eapply pinned_cons; [unfold ps; map_find|].
    eapply pinned_one. unfold ps; map_find. }
  explicit_list cc. explicit_list rc. do 6 (fo_step; fo_step).
  awp_step. eapply fo_rd_row with (j:=1%nat) (i:=0%nat); [exact Hndp|exact Hpin|reflexivity|reflexivity|reflexivity|exact Hr|].
  cbv beta. awp_step. apply awp_world. eapply copy_key; [exact Hkm|lia|]. intros sep Hsep. cbv beta.
  apply awp_fits. intros Hfits.
  awp_step. eapply fo_wr_row with (j:=2%nat) (i:=0%nat); [exact Hndp|exact Hpin|reflexivity|reflexivity|reflexivity|lia| |].
  { apply Hfits. rewrite lookup_insert_eq. by eexists. }
  view_red.
  awp_step. apply awp_idx. eapply ip_release; [unfold ps; map_find|]. cbv beta.
  awp_step. apply awp_idx. eapply ip_release; [unfold ps; map_find|]. cbv beta.
  match goal with |- awp _ _ (IPool _ _ (overlay _ [_; _; ?v] _) _ _ _, _) => set (vc' := v) end.
  assert (node_is vc' false [sep] [a; b]) as Hvc' by (by apply new_root_intro).
  assert (delete b (delete a ps) = <[c:=(kc, 1)]> ∅) as -> by (unfold ps; pins_eq).
  awp_step. eapply nd_read_row with (a:=c) (i:=0%nat); [map_find|by eapply (overlay_lookup pgs _ _ 2)|exact Hvc'|done|done|]. cbv beta.
  awp_step. apply awp_idx. eapply ip_release; [map_find|]. rewrite delete_insert_id by apply lookup_empty. cbv beta.
  apply root_moves_spec; [done|done|]. by apply HΦ.
Qed.
End leaf_root.

Lemma split_leaf_root_spec rid k root free ns l h a ka v rs keys n fl
    (Φ : NewChildEntry → ipool * world K → Prop) :
  keys !! rid = Some k → nodes_in ns l → ns !! a = Some v → node_is v true rs [] → length rs = 4%nat →
  (∀ r, r ∈ rs → is_Some (keys !! r)) → 4 * cost + hcost <= n →
  free_list ns free fl → NoDup (a :: fl) → 3 < h → l + 2 * PAGE_SIZE <= MAX_LEN →
  (∀ i b c sep r km va' vb' vc' free' fl' ns' l', (i <= 4)%nat → scan_at (kcmp := kcmp) keys k rs i →
    with_new i rid rs !! 2%nat = Some r → keys !! r = Some km → keys !! sep = None →
    frame_step (a :: fl) (a :: b :: c :: fl') ns l ns' l' → l' <= l + 2 * PAGE_SIZE → 0 < c →
    ns' !! a = Some va' → ns' !! b = Some vb' → ns' !! c = Some vc' → free_list ns' free' fl' →
    node_is va' true (take 2 (with_new i rid rs)) [] → node_is vb' true (drop 2 (with_new i rid rs)) [] →
    node_is vc' false [sep] [a; b] →
    Φ (mkNCE sep b) (IPool c free' ns' l' ∅ (h - 4), World (<[sep:=km]> keys) (n - 4 * cost - hcost))) →
  awp (split_leaf_root cmp insert_handler a ka rid) Φ (IPool root free ns l (<[a:=(ka, 1)]> ∅) h, World keys n).
Proof using HC HI Hcost Hhcost KW.
  intros Hk Hin Hv Hnode Hlen Hkeys Hn Hfl Hnd Hh HM HΦ. apply awp_fits. intros Hfits.
  unfold split_leaf_root. eapply take_two_spec; [exact Hin|exact Hv|exact Hfl|exact Hnd|lia|done|].
  intros b kb vb c kc vc free' fl' ns' l' Htw.
  destruct Htw as [(Hab & Hac & Hbc) (Hva & Hvb & Hvc) (Sb & Sc) Hf Hfl' (Hb0 & Hc0) Hl'].
  pose proof (Hin a ltac:(by eexists)) as Ha.
  destruct (full_elim _ _ _ _ Hnode Hlen) as (nx & crest & lf & -> & Hlf & Hc).
  destruct (shape_elim _ Sb) as (nb & nxb & cb & rb & lfb & -> & Hcb & Hrb).
  destruct (shape_elim _ Sc) as (nc & nxc & cc & rc & lfc & -> & Hcc & Hrc).
  cbn [app] in *. set (ps := <[c:=(kc, 1)]> (<[b:=(kb, 1)]> (<[a:=(ka, 1)]> ∅))).
  set (pgs2 := [(a, ka); (b, kb)]). set (pgs := [(a, ka); (b, kb); (c, kc)]).
  pose proof (pages_three a b c ka kb kc Hab Hac Hbc : NoDup pgs.*1) as Hndp.
  pose proof (pages_two a b ka kb Hab : NoDup pgs2.*1) as Hndp2.
  assert (pinned ps pgs) as Hpin.
  { eapply pinned_cons; [unfold ps; map_find|]. eapply pinned_cons; [unfold ps; map_find|].
    eapply pinned_one. unfold ps; map_find. }
  assert (pinned ps pgs2) as Hpin2.
  { eapply pinned_cons; [unfold ps; map_find|]. eapply pinned_one. unfold ps; map_find. }
  eapply (awp_focus _ _ _ _ _ _ pgs _ _ [_; _; _]).
  { constructor; [exact Hva|constructor; [exact Hvb|constructor; [exact Hvc|constructor]]]. }
  do 3 (fo_step; fo_step).
  awp_step. change (2 * DEGREE) with (Z.of_nat 4). rewrite <- Hlen at 1.
  eapply find_pos_spec with (a:=a); [exact Hk|unfold ps; map_find|by eapply (overlay_lookup pgs _ _ 0)|exact Hnode|lia|done|lia|].
  intros i Hi Hscan. cbv beta. rewrite Hlen in Hi.
  destruct (middle_row _ _ _ _ _ Hk Hlen Hi Hkeys) as (r & km & Hr2 & Hkm).
  assert (Forall rid_fits rs) as Hfr by (apply Forall_forall; intros; by apply Hfits, Hkeys).
  assert (rid_fits rid) as Hfk by (apply Hfits; by eexists).
  awp_step. eapply (split_rows_spec root free' (overlay [(c, kc)] [NV nc nxc cc rc lfc] ns') l' ps (h - 3) a ka b kb);
    [exact Hndp2|exact Hpin2|exact Hi|exact Hlen|exact Hrb|exact Hfr|exact Hfk|reflexivity|].
  intros rest restb Hrest Hrestb. cbv beta.
  match goal with |- awp _ _ (IPool _ _ (overlay _ [?x; ?y] (overlay _ [?z] _)) _ _ _, _) =>
    change (overlay _ [x; y] (overlay _ [z] ns')) with (overlay pgs [x; y; z] ns') end.
  assert (in_s 64 a ∧ in_s 64 b ∧ in_s 64 c) as (Ha64 & Hb64 & Hc64).
  { unfold in_s, MAX_LEN, PAGE_SIZE in *. change (2 ^ (64 - 1)) with (2 ^ 63). lia. }
  eapply (leaf_root_spec root free' ns' l' _ a ka b kb c kc) with (r := r); try done; [lia|lia| |].
  { apply lookup_app_l_Some. by rewrite lookup_drop. }
  intros sep vc' Hsep Hvc'. replace (h - 3 - 1) with (h - 4) by lia. fold pgs.
  destruct (leaf_halves i rid rs nx crest lf rest cb restb) as [N1 N2]; try done.
  assert (∀ x, x ∈ pgs.*1 → x = a ∨ x = b ∨ x = c) as Hpgs.
  { intros y. cbn. rewrite !elem_of_cons, elem_of_nil. tauto. }
  pose proof (fs_nodup _ _ _ _ _ _ Hf) as ND. rewrite !NoDup_cons, !not_elem_of_cons in ND.
  eapply HΦ; [exact Hi|exact Hscan|exact Hr2|exact Hkm|exact Hsep| |exact Hl'|apply Hc0| | | | |exact N1|exact N2|exact Hvc'].
  - apply frame_overlay_after; [|exact Hf]. intros y Hy. apply Hpgs in Hy as [->|[->| ->]]; rewrite !elem_of_cons; tauto.
  - by eapply (overlay_lookup pgs _ _ 0).
  - by eapply (overlay_lookup pgs _ _ 1).
  - by eapply (overlay_lookup pgs _ _ 2).
  - apply free_list_overlay; [|exact Hfl']. intros y Hy. apply Hpgs in Hy as [->|[->| ->]]; tauto.
Qed.

(** *** A full internal node *)

Lemma split_children_spec sep km x root free ns l ps h a ka b kb va vb rs cs keys n
    (Φ : NewChildEntry → ipool * world K → Prop) :
  keys !! sep = Some km → in_s 64 x → Forall (in_s 64) cs → a ≠ b →
  ps !! a = Some (ka, 1) → ps !! b = Some (kb, 1) → ns !! a = Some va → ns !! b = Some vb →
  node_is va false rs cs → node_shape vb → length rs = 4%nat → length cs = 5%nat →
  (∀ r, r ∈ rs → is_Some (keys !! r)) → 4 * cost <= n →
  (∀ i mid va' vb', (i <= 4)%nat → scan_at (kcmp := kcmp) keys km rs i →
    with_new i sep rs !! 2%nat = Some mid →
    node_is va' false (take 2 (with_new i sep rs)) (take 3 (with_new (S i) x cs)) →
    node_is vb' false (drop 3 (with_new i sep rs)) (drop 3 (with_new (S i) x cs)) →
    Φ (mkNCE mid b) (IPool root free (overlay [(a, ka); (b, kb)] [va'; vb'] ns) l ps h, World keys (n - 4 * cost))) →
  awp (split_children cmp ka kb b (mkNCE sep x)) Φ (IPool root free ns l ps h, World keys n).
Proof using HC Hcost KW.
  intros Hk Hx Hcs64 Hne Hpa Hpb Hva Hvb Hnode Sb Hlen Hcs Hkeys Hn HΦ. apply awp_fits. intros Hfits.
  destruct (full_elim _ _ _ _ Hnode Hlen) as (nx & crest & lf & -> & Hlf & Hc).
  assert (crest = []) as -> by (apply nil_length_inv; rewrite length_app in Hc; lia).
  rewrite app_nil_r in *.
  destruct (shape_elim _ Sb) as (nb & nxb & cb & rb & lfb & -> & Hcb & Hrb).
  set (pgs := [(a, ka); (b, kb)]). pose proof (pages_two a b ka kb Hne : NoDup pgs.*1) as Hndp.
  pose proof (pinned_cons _ _ _ _ _ Hpa (pinned_one _ _ _ _ Hpb) : pinned ps pgs) as Hpin.
  unfold split_children. eapply (awp_focus _ _ _ _ _ _ pgs _ _ [_; _]).
  { constructor; [exact Hva|constructor; [exact Hvb|constructor]]. }
  do 3 (fo_step; fo_step).
  awp_step. change (2 * 2) with (Z.of_nat 4). rewrite <- Hlen at 1.
  eapply find_pos_spec with (a:=a); [exact Hk|exact Hpa|by eapply (overlay_lookup pgs _ _ 0)|exact Hnode|lia|done|lia|].
  intros i Hi Hscan. cbv beta. rewrite Hlen in Hi.
  assert (Forall rid_fits rs) as Hfr by (apply Forall_forall; intros; by apply Hfits, Hkeys).
  assert (rid_fits sep) as Hfk by (apply Hfits; by eexists).
  awp_step. eapply split_children_at_spec;
    [exact Hndp|exact Hpin|exact Hi|exact Hlen|exact Hcs|exact Hrb|exact Hcb|exact Hfr|exact Hcs64|exact Hfk|exact Hx|].
  intros mid rest crest restb crestb Hmid Hrl Hcl Hrbl Hcbl. cbv beta.
  assert (length (with_new i sep rs) = 5%nat) as HL by (rewrite with_new_length; lia).
  assert (length (with_new (S i) x cs) = 6%nat) as HLc by (rewrite with_new_length; lia).
  fo_step. fo_step. awp_step. eapply HΦ; [exact Hi|exact Hscan|exact Hmid| |].
  - rewrite <- Hlf. apply (node_is_intro 2); rewrite ?length_app, ?length_take; lia.
  - change false with (negb (0 =? 0)). apply (node_is_intro 2); rewrite ?length_app, ?length_drop; lia.
Qed.

Lemma split_internal_spec sep km x root free ns l h a ka v rs cs keys n fl
    (Φ : NewChildEntry → ipool * world K → Prop) :
  keys !! sep = Some km → in_s 64 x → Forall (in_s 64) cs →
  nodes_in ns l → ns !! a = Some v → node_is v false rs cs → length rs = 4%nat → length cs = 5%nat →
  (∀ r, r ∈ rs → is_Some (keys !! r)) → 4 * cost <= n →
  free_list ns free fl → NoDup (a :: fl) → 1 < h → l + PAGE_SIZE <= MAX_LEN →
  (∀ i b mid va' vb' free' fl' ns' l', (i <= 4)%nat → scan_at (kcmp := kcmp) keys km rs i →
    with_new i sep rs !! 2%nat = Some mid →
    frame_step (a :: fl) (a :: b :: fl') ns l ns' l' → l' <= l + PAGE_SIZE → 0 < b < l' →
    ns' !! a = Some va' → ns' !! b = Some vb' → free_list ns' free' fl' →
    node_is va' false (take 2 (with_new i sep rs)) (take 3 (with_new (S i) x cs)) →
    node_is vb' false (drop 3 (with_new i sep rs)) (drop 3 (with_new (S i) x cs)) →
    Φ (mkNCE mid b) (IPool root free' ns' l' ∅ (h - 2), World keys (n - 4 * cost))) →
  awp (split_internal cmp a ka (mkNCE sep x)) Φ (IPool root free ns l (<[a:=(ka, 1)]> ∅) h, World keys n).
Proof using HC Hcost KW.
  intros Hk Hx Hcs64 Hin Hv Hnode Hlen Hcs Hkeys Hn Hfl Hnd Hh HM HΦ.
  unfold split_internal. eapply take_node_spec; [exact Hin|exact Hv|exact Hfl|exact Hnd|done|done|].
  intros b kb vb free' fl' ns' l' Hnew Hne. pose proof (Hin a ltac:(by eexists)) as Ha.
  pose proof (λ v' vb', proj2 (proj2 (new_node_frame _ _ _ _ _ _ _ _ _ _ _ ka kb v' vb' Hnd Ha Hv Hnew))) as Hframe.
  destruct (new_node_frame _ _ _ _ _ _ _ _ _ _ _ ka kb v v Hnd Ha Hv Hnew) as (_ & Hv' & _).
  awp_step. eapply split_children_spec with (a:=a) (ka:=ka) (kb:=kb);
    [exact Hk|exact Hx|exact Hcs64|exact Hne|map_find|map_find|exact Hv'|apply Hnew|exact Hnode|apply Hnew|done|done|done|done|].
  intros i mid va' vb' Hi Hscan Hmid Hna Hnb. cbv beta.
  awp_step. apply awp_idx. eapply ip_release; [map_find|]. cbv beta.
  awp_step. apply awp_idx. eapply ip_release; [map_find|]. cbv beta. awp_step.
  assert (delete b (delete a (<[b:=(kb, 1)]> (<[a:=(ka, 1)]> ∅))) = (∅ : gmap Z (nat * Z))) as -> by pins_eq.
  eapply HΦ; [exact Hi|exact Hscan|exact Hmid|exact (proj1 (Hframe _ _))|apply Hnew|apply Hnew
    | | |exact (proj2 (Hframe _ _))|exact Hna|exact Hnb].
  - by eapply (overlay_lookup [(a, ka); (b, kb)] _ _ 0); [apply pages_two|..].
  - by eapply (overlay_lookup [(a, ka); (b, kb)] _ _ 1); [apply pages_two|..].
Qed.

Lemma split_internal_root_spec sep km x root free ns l h a ka v rs cs keys n fl
    (Φ : NewChildEntry → ipool * world K → Prop) :
  keys !! sep = Some km → in_s 64 x → Forall (in_s 64) cs →
  nodes_in ns l → ns !! a = Some v → node_is v false rs cs → length rs = 4%nat → length cs = 5%nat →
  (∀ r, r ∈ rs → is_Some (keys !! r)) → 4 * cost <= n →
  free_list ns free fl → NoDup (a :: fl) → 3 < h → l + 2 * PAGE_SIZE <= MAX_LEN →
  (∀ i b c mid va' vb' vc' free' fl' ns' l', (i <= 4)%nat → scan_at (kcmp := kcmp) keys km rs i →
    with_new i sep rs !! 2%nat = Some mid →
    frame_step (a :: fl) (a :: b :: c :: fl') ns l ns' l' → l' <= l + 2 * PAGE_SIZE → 0 < c →
    ns' !! a = Some va' → ns' !! b = Some vb' → ns' !! c = Some vc' → free_list ns' free' fl' →
    node_is va' false (take 2 (with_new i sep rs)) (take 3 (with_new (S i) x cs)) →
    node_is vb' false (drop 3 (with_new i sep rs)) (drop 3 (with_new (S i) x cs)) →
    node_is vc' false [mid] [a; b] →
    Φ (mkNCE mid b) (IPool c free' ns' l' ∅ (h - 4), World keys (n - 4 * cost))) →
  awp (split_internal_root cmp a ka (mkNCE sep x)) Φ (IPool root free ns l (<[a:=(ka, 1)]> ∅) h, World keys n).
Proof using HC Hcost KW.
  intros Hk Hx Hcs64 Hin Hv Hnode Hlen Hcs Hkeys Hn Hfl Hnd Hh HM HΦ. apply awp_fits. intros Hfits.
  unfold split_internal_root. eapply take_two_spec; [exact Hin|exact Hv|exact Hfl|exact Hnd|lia|done|].
  intros b kb vb c kc vc free' fl' ns' l' Htw.
  destruct Htw as [(Hab & Hac & Hbc) (Hva & Hvb & Hvc) (Sb & Sc) Hf Hfl' (Hb0 & Hc0) Hl'].
  pose proof (Hin a ltac:(by eexists)) as Ha.
  set (ps := <[c:=(kc, 1)]> (<[b:=(kb, 1)]> (<[a:=(ka, 1)]> ∅))).
  awp_step. eapply split_children_spec with (a:=a) (ka:=ka) (kb:=kb);
    [exact Hk|exact Hx|exact Hcs64|exact Hab|unfold ps; map_find|unfold ps; map_find|exact Hva|exact Hvb|exact Hnode|exact Sb|done|done|done|done|].
  intros i mid va' vb' Hi Hscan Hmid Hna Hnb. cbv beta.
  awp_step. apply awp_idx. eapply ip_release; [unfold ps; map_find|]. cbv beta.
  awp_step. apply awp_idx. eapply ip_release; [unfold ps; map_find|]. cbv beta.
  assert (delete b (delete a ps) = <[c:=(kc, 1)]> ∅) as -> by (unfold ps; pins_eq).
  destruct (shape_elim _ Sc) as (nc & nxc & cc & rc & lfc & -> & Hcc & Hrc).
  set (nodes := overlay [(a, ka); (b, kb)] [va'; vb'] ns').
  assert (nodes !! c = Some (NV nc nxc cc rc lfc)) as Hvc2 by (unfold nodes; cbn [overlay]; map_find).
  assert (in_s 64 a ∧ in_s 64 b ∧ in_s 64 c) as (Ha64 & Hb64 & Hc64).
  { unfold in_s, MAX_LEN, PAGE_SIZE in *. change (2 ^ (64 - 1)) with (2 ^ 63). lia. }
  assert (rid_fits mid) as Hfm.
  { apply Hfits. apply list_elem_of_lookup_2, with_new_elem in Hmid as [->|Hm]; [by eexists|by apply Hkeys]. }
  pose proof (NoDup_singleton c : NoDup [(c, kc)].*1) as Hndp.
  assert (pinned (<[c:=(kc, 1)]> ∅) [(c, kc)]) as Hpin by (eapply pinned_one; map_find).
  eapply (awp_focus _ _ _ _ _ _ [(c, kc)] _ _ [_]); [constructor; [exact Hvc2|constructor]|].
  explicit_list cc. explicit_list rc. cbn [child_key]. do 6 (fo_step; fo_step).
  match goal with |- awp _ _ (IPool _ _ (overlay _ [?y] _) _ _ _, _) => set (vc' := y) end.
  awp_step. apply awp_idx. eapply ip_release; [map_find|]. rewrite delete_insert_id by apply lookup_empty. cbv beta.
  apply root_moves_spec; [done|lia|]. replace (h - 3 - 1) with (h - 4) by lia.
  pose proof (fs_nodup _ _ _ _ _ _ Hf) as ND. rewrite !NoDup_cons, !not_elem_of_cons in ND.
  eapply (HΦ i b c mid va' vb' vc'); [exact Hi|exact Hscan|exact Hmid| |exact Hl'|apply Hc0| | | | |exact Hna|exact Hnb|by apply new_root_intro].
  - apply frame_overlay_after; [|apply frame_overlay_after; [|exact Hf]].
    + intros y Hy. apply list_elem_of_singleton in Hy as ->. rewrite !elem_of_cons; tauto.
    + intros y [->|Hy]%elem_of_cons; [|apply list_elem_of_singleton in Hy as ->]; rewrite !elem_of_cons; tauto.
  - unfold nodes; cbn [overlay]; map_find.
  - unfold nodes; cbn [overlay]; map_find.
  - cbn [overlay]. apply lookup_insert_eq.
  - apply free_list_overlay; [|apply free_list_overlay; [|exact Hfl']].
    + intros y Hy. apply list_elem_of_singleton in Hy as ->. tauto.
    + intros y [->|Hy]%elem_of_cons; [|apply list_elem_of_singleton in Hy as ->]; tauto.
Qed.
End insert.
