(* ===== verification/BTreeDelete.v ===== *)
(** Deleting from the index: the pieces of [delete_entry] in terms of nodes
    and lists of rows. *)
From stdpp Require Import base gmap list fin_maps sorting.
From Stdlib Require Import ZArith Lia Strings.Byte.
From S2P Require Import Prelude FileIO BufferPool PoolLogic PoolClient Table HeapStore BTree NodeSpec NodeFocus TreeSpec NodeOps.
From S2P Require Import TreeFrame BTreeSearch TreeInsert TreeDelete NodeDelete BTreeInsert.
#[local] Open Scope Z_scope.

(** the removal of a key from an internal node: its record may be any that is
    not a row, and every identifier without a key may become one *)
Class KeyDropper {K W} `{RW : Rep W (world K)} (spare : RID → Prop) (delete_handler : RID → M W unit)
    (cost : Z) : Prop := {
  drop_key : ∀ keys r k n (Φ : unit → world K → Prop),
    keys !! r = Some k → spare r → cost <= n → Φ tt (World (delete r keys) (n - cost)) →
    awp (delete_handler r) Φ (World keys n);
  fresh_spare : ∀ s keys n r, rep s (World keys n) → keys !! r = None → spare r;
}.

Section delete.
Context {K W : Type} {kcmp : K → K → Z} {KO : KeyOrder kcmp}.
Context {RW : Rep W (world K)} {KW : KeyWorld K W}.
Context (cmp : RID → RID → M W Z) (insert_handler : RID → M W RID) (delete_handler : RID → M W unit).
Context (cost hcost dcost : Z) (spare : RID → Prop).
Context {HC : RowComparer kcmp cmp cost} {HI : KeyCopier insert_handler hcost}.
Context {HD : KeyDropper spare delete_handler dcost}.
Context (Hcost : 0 <= cost) (Hhcost : 0 <= hcost) (Hdcost : 0 <= dcost).

(** *** A row of a leaf *)

Lemma find_rid_spec rid k root free ns l ps h a kp c v leaf rs cs keys n (Φ : Z → ipool * world K → Prop) :
  keys !! rid = Some k → ps !! a = Some (kp, c) → ns !! a = Some v → node_is v leaf rs cs → (length rs <= 4)%nat →
  (∀ r, r ∈ rs → is_Some (keys !! r)) → StronglySorted (row_lt kcmp keys) rs → rid ∈ rs → 4 * cost <= n →
  (∀ i : nat, rs !! i = Some rid → Φ (Z.of_nat i) (IPool root free ns l ps h, World keys (n - 4 * cost))) →
  awp (find_rid cmp kp rid) Φ (IPool root free ns l ps h, World keys n).
Proof using HC Hcost KO KW.
  intros Hk Hp Hns Hv Hlen Hkeys Hsort Hin Hn HΦ. unfold find_rid.
  awp_step. eapply nd_read_n; [exact Hp|exact Hns|exact Hv|]. cbv beta.
  eapply (awp_keyed rid k); [exact Hk|].
  unfold find_ne. rewrite (proj2 (Z.ltb_ge _ 0)) by lia. rewrite Z.sub_0_r, Nat2Z.id.
  pose proof (keyed_world rid k) as KW'. pose proof (keyed_comparer cmp cost rid k) as HC'.
  eapply (@scan_spec _ _ _ _ KW' _ _ _ HC' Hcost _ _ _ _ _ _ _ _ _ _ _ _ _ _ _ (λ z, z =? 0));
    [exact Hp|exact Hns|exact Hv|done|done|done|].
  intros i Hi H1 H2. apply HΦ. apply list_elem_of_lookup in Hin as [j Hj]. pose proof (lookup_lt_Some _ _ _ Hj) as Hlt.
  destruct (Nat.lt_trichotomy i j) as [Hij|[->|Hij]]; [|done|].
  - destruct (lookup_lt_is_Some_2 rs i) as [r Hr]; [lia|].
    destruct (Hkeys r (list_elem_of_lookup_2 _ _ _ Hr)) as [kr Hkr].
    specialize (H2 r kr Hr Hkr). apply Z.eqb_eq, kcmp_eq in H2 as <-.
    assert (r = rid) as ->; [|done]. eapply unique_key; [exact Hsort|by eapply list_elem_of_lookup_2..|exact Hkr|exact Hk].
  - specialize (H1 j rid k Hij Hj Hk). by rewrite (kcmp_refl (kcmp := kcmp)) in H1.
Qed.

Lemma drop_row_spec rid k root free ns l ps h a ka c v rs cs keys n (Φ : unit → ipool * world K → Prop) :
  keys !! rid = Some k → ps !! a = Some (ka, c) → ns !! a = Some v → node_is v true rs cs → (length rs <= 4)%nat →
  (∀ r, r ∈ rs → is_Some (keys !! r)) → StronglySorted (row_lt kcmp keys) rs → rid ∈ rs → 4 * cost <= n →
  (∀ i v', rs !! i = Some rid → node_is v' true (delete i rs) cs →
    Φ tt (IPool root free (<[a:=v']> ns) l ps h, World keys (n - 4 * cost))) →
  awp (drop_row cmp ka rid) Φ (IPool root free ns l ps h, World keys n).
Proof using HC Hcost KO KW.
  intros Hk Hp Hns Hv Hlen Hkeys Hsort Hin Hn HΦ. apply awp_fits. intros Hfits. unfold drop_row.
  awp_step. eapply find_rid_spec; [exact Hk|exact Hp|exact Hns|exact Hv|done|done|done|done|done|].
  intros i Hi. cbv beta. pose proof (lookup_lt_Some _ _ _ Hi) as Hlt.
  pose proof (node_is_elim _ _ _ _ Hv) as (nx & crest & rrest & lf & -> & Hlf & Hc & Hr).
  eapply (awp_focus _ _ _ _ _ _ [(a, ka)] _ _ [_]); [by repeat constructor|].
  eapply drop_row_at_spec; [apply NoDup_singleton|by eapply pinned_one|done|done|done| |].
  { apply Forall_forall. intros. by apply Hfits, Hkeys. }
  intros rest Hrest. eapply HΦ; [exact Hi|]. rewrite <- Hlf. by apply node_is_intro.
Qed.

(** *** A node for the free list *)

Lemma free_node_spec root free ns l ps h a ka v w (Φ : unit → ipool * world K → Prop) :
  ps !! a = Some (ka, 1) → ns !! a = Some v → ps !! 0 = None → (size ps < 8)%nat → 0 < h → a ≠ 0 →
  in_s 64 free → in_s 64 a →
  (∀ v', v_next v' = free → Φ tt (IPool root a (<[a:=v']> ns) l (delete a ps) (h - 1), w)) →
  awp (free_node a ka) Φ (IPool root free ns l ps h, w).
Proof using.
  intros Hp Hv H0 Hs Hh Hne Hf Ha HΦ. unfold free_node. destruct v as [n nx cs rs lf].
  awp_step. apply awp_idx. eapply ip_get_ctrl; [done|done|done|]. intros kc. cbv beta.
  assert ((<[0:=(kc, 1)]> ps) !! a = Some (ka, 1)) as Hp' by (by rewrite lookup_insert_ne).
  pose proof (NoDup_singleton a : NoDup [(a, ka)].*1) as Hndp.
  pose proof (pinned_one _ _ _ _ Hp') as Hpin.
  eapply (awp_focus _ _ _ _ _ _ [(a, ka)] _ _ [_]); [by repeat constructor|].
  fo_step. fo_step.
  awp_step. apply awp_idx. eapply ip_rd_free; [apply lookup_insert_eq|]. cbv beta.
  fo_step. fo_step.
  awp_step. apply awp_idx. eapply ip_wr_free; [apply lookup_insert_eq|done|]. cbv beta.
  awp_step. apply awp_idx. eapply ip_release; [apply lookup_insert_eq|]. rewrite delete_insert_id by done. cbv beta.
  apply awp_idx. eapply ip_release; [exact Hp|]. cbn [overlay]. by apply HΦ.
Qed.

(** *** A key of an internal node *)

(** the keys when that at [r] leaves a node whose children are leaves, or not *)
Definition keys_after (leaves : bool) (r : RID) (keys : gmap RID K) : gmap RID K :=
  if leaves then delete r keys else keys.

Lemma drop_child_spec i r root free ns l ps h a ka c v rs cs c0 vc lfc rsc csc keys n (Φ : unit → ipool * world K → Prop) :
  ps !! a = Some (ka, c) → ns !! a = Some v → node_is v false rs cs → (length rs <= 4)%nat → length cs = S (length rs) →
  (∀ r, r ∈ rs → is_Some (keys !! r)) → Forall (in_s 64) cs → rs !! i = Some r →
  cs !! 0%nat = Some c0 → ns !! c0 = Some vc → node_is vc lfc rsc csc → ps !! c0 = None → (size ps < 8)%nat → 0 < h →
  (lfc = true → spare r) → dcost <= n →
  (∀ v', node_is v' false (delete i rs) (delete (S i) cs) →
    Φ tt (IPool root free (<[a:=v']> ns) l ps (h - 1), World (keys_after lfc r keys) (n - dcost))) →
  awp (drop_child delete_handler ka (Z.of_nat i)) Φ (IPool root free ns l ps h, World keys n).
Proof using HD Hdcost KW.
  intros Hp Hv Hn Hlen Hcs Hkeys Hc64 Hi Hc0 Hvc Hnc Hpc Hsz Hh Hsp Hdn HΦ. apply awp_fits. intros Hfits.
  assert (a ≠ c0) as Hne by (intros ->; by rewrite Hp in Hpc).
  assert ((<[c0:=(0%nat, 1)]> ps) !! a = Some (ka, c)) as _ by (by rewrite lookup_insert_ne).
  unfold drop_child. awp_step. eapply nd_read_child with (i:=0%nat); [exact Hp|exact Hv|exact Hn|done|exact Hc0|]. cbv beta.
  awp_step. apply awp_idx. eapply ip_get_node; [exact Hvc|done|done|done|]. intros kc. cbv beta.
  assert ((<[c0:=(kc, 1)]> ps) !! a = Some (ka, c)) as Hp' by (by rewrite lookup_insert_ne).
  awp_step. eapply nd_read_leaf; [apply lookup_insert_eq|exact Hvc|exact Hnc|].
  awp_step. apply awp_mono with (λ _ g, g = (IPool root free ns l (<[c0:=(kc, 1)]> ps) (h - 1), World (keys_after lfc r keys) (n - dcost))).
  { destruct lfc; cbn [keys_after].
    - awp_step. eapply nd_read_row with (i:=i); [exact Hp'|exact Hv|exact Hn|done|exact Hi|]. cbv beta.
      destruct (Hkeys r (list_elem_of_lookup_2 _ _ _ Hi)) as [kr Hkr].
      apply awp_world. eapply drop_key; [exact Hkr|by apply Hsp|done|done].
    - apply (awp_world_spend _ _ _ _ _ (n - dcost)); [lia|]. by awp_step. }
  intros [] ? ->.
  awp_step. eapply nd_read_child with (i:=0%nat); [exact Hp'|exact Hv|exact Hn|done|exact Hc0|]. cbv beta.
  awp_step. apply awp_idx. eapply ip_release; [apply lookup_insert_eq|]. rewrite delete_insert_id by done. cbv beta.
  pose proof (node_is_elim _ _ _ _ Hn) as (nx & crest & rrest & lf & -> & Hlf & Hc & Hr).
  eapply (awp_focus _ _ _ _ _ _ [(a, ka)] _ _ [_]); [by repeat constructor|].
  eapply drop_child_at_spec; [apply NoDup_singleton|by eapply pinned_one|by eapply lookup_lt_Some|done|done|done|done| |done|].
  { apply Forall_forall. intros. by apply Hfits, Hkeys. }
  intros rest crest' Hrest Hcrest. eapply HΦ. rewrite <- Hlf. by apply node_is_intro.
Qed.

(** *** Two brothers below their parent *)

Lemma node_is_with_row v leaf rs cs t r : node_is v leaf rs cs → (t < length rs)%nat →
  node_is (with_row t r v) leaf (<[t:=r]> rs) cs.
Proof using.
  intros (nx & crest & rrest & lf & -> & Hlf & Hc & Hr)%node_is_elim Ht. rewrite <- Hlf. unfold with_row.
  cbn [v_n v_next v_child v_row v_leaf]. rewrite insert_app_l by done.
  apply node_is_intro; [by rewrite length_insert|done|]. rewrite length_app, length_insert in *. done.
Qed.

(** [a] is the node, [b] its brother, [q] their parent, all pinned *)
Section brothers.
Context (a : Z) (ka : Ptr) (b : Z) (kb : Ptr) (q : Z) (kq : Ptr).
Context (Hab : a ≠ b) (Haq : a ≠ q) (Hbq : b ≠ q) (Ha0 : a ≠ 0) (Hb0 : b ≠ 0) (Hq0 : q ≠ 0).
Definition pins3 : gmap Z (nat * Z) := <[b:=(kb, 1)]> (<[q:=(kq, 1)]> (<[a:=(ka, 1)]> ∅)).

Lemma pins3_two : NoDup [(a, ka); (b, kb)].*1 ∧ pinned pins3 [(a, ka); (b, kb)].
Proof using Hab Haq Hbq.
  split; [by apply pages_two|]. eapply pinned_cons; [unfold pins3; map_find|].
  eapply pinned_one. unfold pins3; map_find.
Qed.

Lemma pins3_three : NoDup [(a, ka); (b, kb); (q, kq)].*1 ∧ pinned pins3 [(a, ka); (b, kb); (q, kq)].
Proof using Hab Haq Hbq.
  split; [by apply pages_three|]. eapply pinned_cons; [unfold pins3; map_find|].
  eapply pinned_cons; [unfold pins3; map_find|]. eapply pinned_one. unfold pins3; map_find.
Qed.

(** without the parent *)
Definition pins2 : gmap Z (nat * Z) := <[b:=(kb, 1)]> (<[a:=(ka, 1)]> ∅).
Lemma pins3_release : delete q pins3 = pins2.
Proof using Hab Haq Hbq. unfold pins3, pins2. pins_eq. Qed.
Lemma pins2_two : pinned pins2 [(a, ka); (b, kb)].
Proof using Hab. eapply pinned_cons; [unfold pins2; map_find|]. eapply pinned_one. unfold pins2; map_find. Qed.

Lemma release_three root free ns l h w (r : Z) (Φ : Z → ipool * world K → Prop) :
  Φ r (IPool root free ns l ∅ h, w) →
  awp (idx (release a);; idx (release q);; idx (release b);; mret r) Φ (IPool root free ns l pins3 h, w).
Proof using Hab Haq Hbq.
  intros HΦ. unfold pins3.
  awp_step. apply awp_idx. eapply ip_release; [map_find|]. cbv beta.
  awp_step. apply awp_idx. eapply ip_release; [map_find|]. cbv beta.
  awp_step. apply awp_idx. eapply ip_release; [map_find|]. cbv beta. awp_step.
  assert (delete b (delete q (delete a (<[b:=(kb, 1)]> (<[q:=(kq, 1)]> (<[a:=(ka, 1)]> ∅))))) = (∅ : gmap Z (nat * Z))) as ->
    by pins_eq.
  done.
Qed.

(** what happens to other nodes *)
Definition only_three (ns ns' : gmap Z nview) : Prop := ∀ x, x ≠ a → x ≠ b → x ≠ q → ns' !! x = ns !! x.

(** *** Leaves *)

Section leaves.
Context (root free : Z) (ns : gmap Z nview) (l h : Z) (keys : gmap RID K) (n : Z).
Context (rid : RID) (k : K) (va vb vq : nview) (rs : list RID) (csa csb : list Z) (prs : list RID) (pcs : list Z).
Context (Hk : keys !! rid = Some k) (Hva : ns !! a = Some va) (Hvb : ns !! b = Some vb) (Hvq : ns !! q = Some vq).
Context (Hna : node_is va true rs csa) (Hnq : node_is vq false prs pcs).
Context (Hl2 : length rs = 2%nat) (Hkeys : ∀ r, r ∈ rs → is_Some (keys !! r)).
Context (Hsort : StronglySorted (row_lt kcmp keys) rs) (Hin : rid ∈ rs).
Context (t : nat) (sep : RID) (ks : K) (Ht : prs !! t = Some sep) (Hks : keys !! sep = Some ks) (Hsp : spare sep).
Context (Hp4 : (length prs <= 4)%nat).

Lemma delete_one i : rs !! i = Some rid → ∃ x, delete i rs = [x] ∧ x ∈ rs.
Proof using Hl2.
  intros Hi. pose proof (lookup_lt_Some _ _ _ Hi) as Hlt. clear Hsort Hin Hna Hkeys Hi Hp4.
  destruct rs as [|x0 [|x1 [|x2 rs']]]; simpl in Hl2, Hlt; try lia.
  destruct i as [|[|i]]; [exists x1|exists x0|lia]; (split; [done|]); rewrite !elem_of_cons; tauto.
Qed.

(** the key between the brothers is replaced by a copy of that of [r0], the
    first row of the node [y] *)
Lemma swap_key_spec ns2 y ky vy r0 kr0 rsy csy m z (Φ : Z → ipool * world K → Prop) :
  z = Z.of_nat t → pins3 !! y = Some (ky, 1) → ns2 !! y = Some vy → node_is vy true (r0 :: rsy) csy →
  keys !! r0 = Some kr0 → r0 ≠ sep → ns2 !! q = Some vq → hcost + dcost <= m →
  (∀ sep' vq', delete sep keys !! sep' = None → node_is vq' false (<[t:=sep']> prs) pcs →
    Φ (-1) (IPool root free (<[q:=vq']> ns2) l ∅ h, World (<[sep':=kr0]> (delete sep keys)) (m - (hcost + dcost)))) →
  awp (row ← nd kq (rd_row z);
       ext (delete_handler row);;
       row ← nd ky (rd_row 0);
       key ← ext (insert_handler row);
       nd kq (wr_row z key);;
       idx (release a);; idx (release q);; idx (release b);; mret (-1)) Φ
    (IPool root free ns2 l pins3 h, World keys m).
Proof using Type*.
  intros -> Hpy Hy Hny Hkr Hne Hq2 Hm HΦ.
  awp_step. eapply nd_read_row with (a:=q) (i:=t); [unfold pins3; map_find|exact Hq2|exact Hnq|done|exact Ht|]. cbv beta.
  awp_step. apply awp_world. eapply drop_key; [exact Hks|exact Hsp|lia|]. cbv beta.
  awp_step. eapply nd_read_row with (a:=y) (i:=0%nat); [exact Hpy|exact Hy|exact Hny|done|done|]. cbv beta.
  awp_step. apply awp_world. eapply copy_key; [by rewrite lookup_delete_ne by done|lia|]. intros sep' Hsep'. cbv beta.
  apply awp_fits. intros Hfits'.
  eapply (awp_focus _ _ _ _ _ _ [(q, kq)] _ _ [_]); [constructor; [exact Hq2|constructor]|].
  awp_step. eapply fo_wr_row with (j:=0%nat) (i:=t); [apply NoDup_singleton| |reflexivity|reflexivity|done| | |].
  { eapply pinned_one. unfold pins3; map_find. }
  { apply lookup_lt_Some in Ht. lia. }
  { apply Hfits'. rewrite lookup_insert_eq. by eexists. }
  view_red. apply release_three. replace (m - dcost - hcost) with (m - (hcost + dcost)) by lia.
  apply HΦ; [done|]. apply node_is_with_row; [exact Hnq|by eapply lookup_lt_Some].
Qed.

Lemma rows_fit l' : (∀ r, r ∈ l' → is_Some (keys !! r)) → (∀ r, is_Some (keys !! r) → rid_fits r) → Forall rid_fits l'.
Proof using. intros H Hf. apply Forall_forall. auto. Qed.

Lemma borrow_row_right_spec z bx br bs kbr (Φ : Z → ipool * world K → Prop) :
  z = Z.of_nat t → node_is vb true (bx :: br :: bs) csb → (2 <= length (br :: bs) <= 3)%nat →
  (∀ r, r ∈ bx :: br :: bs → is_Some (keys !! r)) → keys !! br = Some kbr → br ≠ sep →
  4 * cost + hcost + dcost <= n →
  (∀ i sep' ns' va' vb' vq', rs !! i = Some rid → delete sep keys !! sep' = None → only_three ns ns' →
    ns' !! a = Some va' → ns' !! b = Some vb' → ns' !! q = Some vq' →
    node_is va' true (delete i rs ++ [bx]) csa → node_is vb' true (br :: bs) csb → node_is vq' false (<[t:=sep']> prs) pcs →
    Φ (-1) (IPool root free ns' l ∅ h, World (<[sep':=kbr]> (delete sep keys)) (n - (4 * cost + hcost + dcost)))) →
  awp (borrow_row_right cmp insert_handler delete_handler a q b ka kq kb rid z) Φ
    (IPool root free ns l pins3 h, World keys n).
Proof using Type*.
  intros Hz Hnb Hlb Hbk Hkbr Hne Hn HΦ. apply awp_fits. intros Hfits. destruct pins3_two as [Hnd2 Hpin2].
  unfold borrow_row_right. awp_step.
  eapply drop_row_spec with (a:=a) (c:=1); [exact Hk|unfold pins3; map_find|exact Hva|exact Hna|lia|done|done|done|lia|].
  intros i v1 Hi Hn1. cbv beta. destruct (delete_one _ Hi) as (x & Ex & Hx). rewrite Ex in Hn1.
  pose proof (node_is_elim _ _ _ _ Hn1) as (nx & crest & rrest & lf & -> & Hlf & Hc & Hr).
  pose proof (node_is_elim _ _ _ _ Hnb) as (nxb & crestb & rrestb & lfb & Evb & Hlfb & Hcb & Hrb).
  eapply (awp_focus _ _ _ _ _ _ [(a, ka); (b, kb)] _ _ [_; vb]).
  { constructor; [apply lookup_insert_eq|]. constructor; [|constructor]. cbn. by rewrite lookup_insert_ne. }
  rewrite Evb.
  eapply borrow_row_right_at; [exact Hnd2|exact Hpin2|exact Hlb|exact Hr|exact Hrb|by apply Hfits, Hkeys|by apply rows_fit|].
  intros rest' restb' Hr' Hrb'.
  assert (node_is (NV (Z.of_nat (length (br :: bs))) nxb (csb ++ crestb) ((br :: bs) ++ restb') lfb) true (br :: bs) csb) as Hnb'.
  { rewrite <- Hlfb. by apply node_is_intro. }
  eapply swap_key_spec with (y:=b); [done|unfold pins3; map_find|cbn [overlay]; map_find|exact Hnb'|done|done
    |cbn [overlay]; map_find|lia|].
  intros sep' vq' Hsep' Hnq'. replace (n - 4 * cost - (hcost + dcost)) with (n - (4 * cost + hcost + dcost)) by lia.
  eapply (HΦ i sep'); [exact Hi|done| | | |apply lookup_insert_eq| |exact Hnb'|exact Hnq'].
  - intros y Ha Hb Hq. cbn [overlay]. map_find.
  - cbn [overlay]. map_find.
  - cbn [overlay]. map_find.
  - rewrite Ex, <- Hlf. by apply node_is_intro.
Qed.

Lemma borrow_row_left_spec z bx bs kbx (Φ : Z → ipool * world K → Prop) :
  z = Z.of_nat t + 1 → node_is vb true (bs ++ [bx]) csb → (2 <= length bs <= 3)%nat →
  (∀ r, r ∈ bs ++ [bx] → is_Some (keys !! r)) → keys !! bx = Some kbx → bx ≠ sep →
  4 * cost + hcost + dcost <= n →
  (∀ i sep' ns' va' vb' vq', rs !! i = Some rid → delete sep keys !! sep' = None → only_three ns ns' →
    ns' !! a = Some va' → ns' !! b = Some vb' → ns' !! q = Some vq' →
    node_is va' true (bx :: delete i rs) csa → node_is vb' true bs csb → node_is vq' false (<[t:=sep']> prs) pcs →
    Φ (-1) (IPool root free ns' l ∅ h, World (<[sep':=kbx]> (delete sep keys)) (n - (4 * cost + hcost + dcost)))) →
  awp (borrow_row_left cmp insert_handler delete_handler a q b ka kq kb rid z) Φ
    (IPool root free ns l pins3 h, World keys n).
Proof using Type*.
  intros Hz Hnb Hlb Hbk Hkbr Hne Hn HΦ. apply awp_fits. intros Hfits. destruct pins3_two as [Hnd2 Hpin2].
  unfold borrow_row_left. awp_step.
  eapply find_rid_spec with (a:=a) (c:=1); [exact Hk|unfold pins3; map_find|exact Hva|exact Hna|lia|done|done|done|lia|].
  intros i Hi. cbv beta. destruct (delete_one _ Hi) as (x & Ex & Hx).
  pose proof (node_is_elim _ _ _ _ Hna) as (nx & crest & rrest & lf & Eva & Hlf & Hc & Hr). rewrite Hl2 in Eva.
  pose proof (node_is_elim _ _ _ _ Hnb) as (nxb & crestb & rrestb & lfb & Evb & Hlfb & Hcb & Hrb).
  eapply (awp_focus _ _ _ _ _ _ [(a, ka); (b, kb)] _ _ [va; vb]).
  { constructor; [exact Hva|]. constructor; [exact Hvb|constructor]. }
  rewrite Eva, Evb.
  eapply borrow_row_left_at; [exact Hnd2|exact Hpin2|by eapply lookup_lt_Some|done|exact Hlb|exact Hr|exact Hrb|by apply rows_fit..|].
  intros restb' Hrb'.
  assert (node_is (NV 2 nx (csa ++ crest) ((bx :: delete i rs) ++ rrest) lf) true (bx :: delete i rs) csa) as Hna'.
  { rewrite <- Hlf, Ex. apply (node_is_intro 2); [done|done|]. rewrite length_app in *. simpl. lia. }
  replace (z - 1) with (Z.of_nat t) by lia.
  eapply swap_key_spec with (y:=a); [done|unfold pins3; map_find|cbn [overlay]; map_find|exact Hna'|done|done
    |cbn [overlay]; map_find|lia|].
  intros sep' vq' Hsep' Hnq'. replace (n - 4 * cost - (hcost + dcost)) with (n - (4 * cost + hcost + dcost)) by lia.
  eapply (HΦ i sep'); [exact Hi|done| | | |apply lookup_insert_eq|exact Hna'| |exact Hnq'].
  - intros y Ha Hb Hq. cbn [overlay]. map_find.
  - cbn [overlay]. map_find.
  - cbn [overlay]. map_find.
  - rewrite <- Hlfb. by apply node_is_intro.
Qed.

Lemma merge_row_right_spec z bs (Φ : Z → ipool * world K → Prop) :
  node_is vb true bs csb → length bs = 2%nat → (∀ r, r ∈ bs → is_Some (keys !! r)) →
  4 * cost <= n → 0 < h → in_s 64 free → in_s 64 b →
  (∀ i ns' va' vb', rs !! i = Some rid → only_three ns ns' → ns' !! q = Some vq →
    ns' !! a = Some va' → ns' !! b = Some vb' → v_next vb' = free → node_is va' true (delete i rs ++ bs) csa →
    Φ z (IPool root b ns' l ∅ (h - 1), World keys (n - 4 * cost))) →
  awp (merge_row_right cmp a q b ka kb rid z) Φ (IPool root free ns l pins3 h, World keys n).
Proof using Type*.
  intros Hnb Hlb Hbk Hn Hh Hfree Hb64 HΦ. apply awp_fits. intros Hfits. destruct pins3_two as [Hnd2 _].
  unfold merge_row_right. awp_step. apply awp_idx. eapply ip_release; [unfold pins3; map_find|].
  rewrite pins3_release. cbv beta. awp_step.
  eapply drop_row_spec with (a:=a) (c:=1); [exact Hk|unfold pins2; map_find|exact Hva|exact Hna|lia|done|done|done|lia|].
  intros i v1 Hi Hn1. cbv beta. destruct (delete_one _ Hi) as (x & Ex & Hx). rewrite Ex in Hn1.
  pose proof (node_is_elim _ _ _ _ Hn1) as (nx & crest & rrest & lf & -> & Hlf & Hc & Hr).
  pose proof (node_is_elim _ _ _ _ Hnb) as (nxb & crestb & rrestb & lfb & Evb & Hlfb & Hcb & Hrb). rewrite Hlb in Evb.
  eapply (awp_focus _ _ _ _ _ _ [(a, ka); (b, kb)] _ _ [_; vb]).
  { constructor; [apply lookup_insert_eq|]. constructor; [|constructor]. cbn. by rewrite lookup_insert_ne. }
  rewrite Evb.
  eapply merge_row_right_at; [exact Hnd2|apply pins2_two|exact Hlb|exact Hr|exact Hrb|by apply Hfits, Hkeys|by apply rows_fit|].
  intros rest' Hr'.
  awp_step. apply awp_idx. eapply ip_release; [unfold pins2; map_find|]. cbv beta.
  assert (delete a pins2 = <[b:=(kb, 1)]> ∅) as -> by (unfold pins2; pins_eq).
  awp_step. eapply free_node_spec; [map_find|cbn [overlay]; map_find|map_find|pins_size|done|done|done|done|].
  intros vb' Hvb'. rewrite delete_insert_id by apply lookup_empty. cbv beta. awp_step.
  eapply HΦ; [exact Hi| | | |apply lookup_insert_eq|exact Hvb'|].
  - intros y Ha Hb Hq. cbn [overlay]. map_find.
  - cbn [overlay]. map_find.
  - cbn [overlay]. map_find.
  - rewrite Ex, <- Hlf. apply (node_is_intro 3); [|done|done]. simpl. lia.
Qed.

Lemma merge_row_left_spec z bs (Φ : Z → ipool * world K → Prop) :
  z = Z.of_nat t + 1 → node_is vb true bs csb → length bs = 2%nat → (∀ r, r ∈ bs → is_Some (keys !! r)) →
  4 * cost <= n → 0 < h → in_s 64 free → in_s 64 a →
  (∀ i ns' va' vb', rs !! i = Some rid → only_three ns ns' → ns' !! q = Some vq →
    ns' !! a = Some va' → ns' !! b = Some vb' → v_next va' = free → node_is vb' true (bs ++ delete i rs) csb →
    Φ (Z.of_nat t) (IPool root a ns' l ∅ (h - 1), World keys (n - 4 * cost))) →
  awp (merge_row_left cmp a q b ka kb rid z) Φ (IPool root free ns l pins3 h, World keys n).
Proof using Type*.
  intros Hz Hnb Hlb Hbk Hn Hh Hfree Ha64 HΦ. apply awp_fits. intros Hfits. destruct pins3_two as [Hnd2 _].
  unfold merge_row_left. awp_step. apply awp_idx. eapply ip_release; [unfold pins3; map_find|].
  rewrite pins3_release. cbv beta. awp_step.
  eapply drop_row_spec with (a:=a) (c:=1); [exact Hk|unfold pins2; map_find|exact Hva|exact Hna|lia|done|done|done|lia|].
  intros i v1 Hi Hn1. cbv beta. destruct (delete_one _ Hi) as (x & Ex & Hx). rewrite Ex in Hn1.
  pose proof (node_is_elim _ _ _ _ Hn1) as (nx & crest & rrest & lf & -> & Hlf & Hc & Hr).
  pose proof (node_is_elim _ _ _ _ Hnb) as (nxb & crestb & rrestb & lfb & Evb & Hlfb & Hcb & Hrb). rewrite Hlb in Evb.
  eapply (awp_focus _ _ _ _ _ _ [(a, ka); (b, kb)] _ _ [_; vb]).
  { constructor; [apply lookup_insert_eq|]. constructor; [|constructor]. cbn. by rewrite lookup_insert_ne. }
  rewrite Evb.
  eapply merge_row_left_at; [exact Hnd2|apply pins2_two|exact Hlb|exact Hr|exact Hrb|by apply Hfits, Hkeys|by apply rows_fit|].
  intros restb' Hrb'.
  awp_step. apply awp_idx. eapply ip_release; [unfold pins2; map_find|]. cbv beta.
  assert (delete b pins2 = <[a:=(ka, 1)]> ∅) as -> by (unfold pins2; pins_eq).
  awp_step. eapply free_node_spec; [map_find|cbn [overlay]; map_find|map_find|pins_size|done|done|done|done|].
  intros va' Hva'. rewrite delete_insert_id by apply lookup_empty. cbv beta. awp_step.
  replace (z - 1) with (Z.of_nat t) by lia.
  eapply HΦ; [exact Hi| | |apply lookup_insert_eq| |exact Hva'|].
  - intros y Ha Hb Hq. cbn [overlay]. map_find.
  - cbn [overlay]. map_find.
  - cbn [overlay]. map_find.
  - rewrite Ex, <- Hlfb. apply (node_is_intro 3); [rewrite length_app; simpl; lia|done|done].
Qed.
End leaves.

(** *** Internal nodes *)

Section internals.
Context (root free : Z) (ns : gmap Z nview) (l h : Z) (keys : gmap RID K) (n : Z).
Context (va vb vq : nview) (rs : list RID) (cs : list Z) (prs : list RID) (pcs : list Z).
Context (Hva : ns !! a = Some va) (Hvb : ns !! b = Some vb) (Hvq : ns !! q = Some vq).
Context (Hna : node_is va false rs cs) (Hnq : node_is vq false prs pcs).
Context (Hl2 : length rs = 2%nat) (Hc3 : length cs = 3%nat) (Hkeys : ∀ r, r ∈ rs → is_Some (keys !! r)).
Context (Hcs64 : Forall (in_s 64) cs).
Context (t : nat) (sep : RID) (Ht : prs !! t = Some sep) (Hks : is_Some (keys !! sep)) (Hp4 : (length prs <= 4)%nat).
(** the key at [i], with the child after it, is to leave the node *)
Context (i : nat) (r : RID) (Hi : rs !! i = Some r).
Context (c0 : Z) (vc : nview) (lfc : bool) (rsc : list RID) (csc : list Z).
Context (Hc0 : cs !! 0%nat = Some c0) (Hvc : ns !! c0 = Some vc) (Hnc : node_is vc lfc rsc csc).
Context (Hc0a : c0 ≠ a) (Hc0b : c0 ≠ b) (Hc0q : c0 ≠ q) (Hspr : lfc = true → spare r) (Hdn : dcost <= n) (Hh : 1 < h).

Lemma one_left : ∃ x x0 x1, delete i rs = [x] ∧ x ∈ rs ∧ delete (S i) cs = [x0; x1] ∧ in_s 64 x0 ∧ in_s 64 x1.
Proof using Hl2 Hc3 Hi Hcs64.
  pose proof (lookup_lt_Some _ _ _ Hi) as Hlt. clear - Hl2 Hc3 Hlt Hcs64.
  destruct rs as [|r0 [|r1 [|r2 rs']]]; simpl in Hl2, Hlt; try lia.
  destruct cs as [|y0 [|y1 [|y2 [|y3 cs']]]]; simpl in Hc3; try lia. Forall_split.
  destruct i as [|[|j]]; [exists r1, y0, y2|exists r0, y0, y1|lia]; split_and!; try done; rewrite !elem_of_cons; tauto.
Qed.

(** the steps all four operations begin with *)
Lemma drop_child_first {A} (kont : unit → M (BufferPool * W) A) (Φ : A → ipool * world K → Prop) x x0 x1 :
  delete i rs = [x] → delete (S i) cs = [x0; x1] →
  (∀ nx crest rrest lf, negb (lf =? 0) = false → length ([x0; x1] ++ crest) = 5%nat → length ([x] ++ rrest) = 4%nat →
    awp (kont tt) Φ (IPool root free (overlay [(a, ka); (b, kb); (q, kq)] [NV 1 nx ([x0; x1] ++ crest) ([x] ++ rrest) lf; vb; vq] ns)
      l pins3 (h - 1), World (keys_after lfc r keys) (n - dcost))) →
  awp (drop_child delete_handler ka (Z.of_nat i) ≫= kont) Φ (IPool root free ns l pins3 h, World keys n).
Proof using Type*.
  intros Ex Ey Hkont. awp_step. eapply drop_child_spec with (a:=a) (c:=1) (c0:=c0);
    [unfold pins3; map_find|exact Hva|exact Hna|lia|lia|done|done|exact Hi|exact Hc0|exact Hvc|exact Hnc
    |unfold pins3; map_find|unfold pins3; pins_size|lia|done|done|].
  intros v' Hv'. rewrite Ex, Ey in Hv'.
  pose proof (node_is_elim _ _ _ _ Hv') as (nx & crest & rrest & lf & -> & Hlf & Hc & Hr).
  eapply (awp_focus _ _ _ _ _ _ [(a, ka); (b, kb); (q, kq)] _ _ [_; vb; vq]).
  { constructor; [apply lookup_insert_eq|]. constructor; [cbn; map_find|]. constructor; [cbn; map_find|constructor]. }
  cbn [overlay]. rewrite (insert_id (<[a:=_]> ns) q) by map_find. rewrite (insert_id (<[a:=_]> ns) b) by map_find.
  rewrite insert_insert_eq. specialize (Hkont nx crest rrest lf Hlf Hc Hr). cbn [overlay] in Hkont.
  rewrite (insert_id ns q), (insert_id ns b) in Hkont by done. exact Hkont.
Qed.
(** the brother *)
Context (bs : list RID) (ds : list Z) (Hnb : node_is vb false bs ds) (Hbk : ∀ r, r ∈ bs → is_Some (keys !! r)).
Context (Hds64 : Forall (in_s 64) ds) (Hdl : length ds = S (length bs)).

Lemma borrow_child_right_spec z bx bs' d ds' (Φ : Z → ipool * world K → Prop) :
  z = Z.of_nat t → bs = bx :: bs' → ds = d :: ds' → (2 <= length bs' <= 3)%nat →
  (∀ ns' va' vb' vq', only_three ns ns' → ns' !! a = Some va' → ns' !! b = Some vb' → ns' !! q = Some vq' →
    node_is va' false (delete i rs ++ [sep]) (delete (S i) cs ++ [d]) → node_is vb' false bs' ds' →
    node_is vq' false (<[t:=bx]> prs) pcs →
    Φ (-1) (IPool root free ns' l ∅ (h - 1), World (keys_after lfc r keys) (n - dcost))) →
  awp (borrow_child_right delete_handler a q b ka kq kb (Z.of_nat i) z) Φ
    (IPool root free ns l pins3 h, World keys n).
Proof using Type*.
  intros Hz -> -> Hlb HΦ. apply awp_fits. intros Hfits. destruct pins3_three as [Hnd3 Hpin3].
  destruct one_left as (x & x0 & x1 & Ex & Hx & Ey & F0 & F1).
  unfold borrow_child_right. eapply drop_child_first; [exact Ex|exact Ey|]. intros nx crest rrest lf Hlf Hc Hr.
  pose proof (node_is_elim _ _ _ _ Hnb) as (nxb & crestb & rrestb & lfb & Evb & Hlfb & Hcb & Hrb).
  pose proof (node_is_elim _ _ _ _ Hnq) as (nxq & crestq & rrestq & lfq & Evq & Hlfq & Hcq & Hrq). rewrite Evb, Evq.
  eapply borrow_child_right_at with (t:=t) (sep:=sep); [exact Hnd3|exact Hpin3|by apply lookup_app_l_Some| |by apply Hfits|exact Hz
    |done|done|simpl in Hdl; lia|exact Hc|exact Hr|exact Hcb|exact Hrb|by apply Hfits, Hkeys|by apply (rows_fit keys)|by rewrite Forall_cons, Forall_singleton|exact Hds64|].
  { apply lookup_lt_Some in Ht. lia. }
  intros rest' crest' restb' crestb' Hr' Hc' Hrb' Hcb'.
  apply release_three. eapply HΦ; [|cbn [overlay]; map_find|cbn [overlay]; map_find|cbn [overlay]; map_find| | |].
  - intros y Ha Hb Hq. cbn [overlay]. map_find.
  - rewrite Ex, Ey, <- Hlf. by apply (node_is_intro 2).
  - rewrite <- Hlfb. by apply node_is_intro.
  - rewrite <- Evq. apply node_is_with_row; [exact Hnq|by eapply lookup_lt_Some].
Qed.

Lemma borrow_child_left_spec z bx bs' d ds' (Φ : Z → ipool * world K → Prop) :
  z = Z.of_nat t + 1 → bs = bs' ++ [bx] → ds = ds' ++ [d] → (2 <= length bs' <= 3)%nat →
  (∀ ns' va' vb' vq', only_three ns ns' → ns' !! a = Some va' → ns' !! b = Some vb' → ns' !! q = Some vq' →
    node_is va' false (sep :: delete i rs) (d :: delete (S i) cs) → node_is vb' false bs' ds' →
    node_is vq' false (<[t:=bx]> prs) pcs →
    Φ (-1) (IPool root free ns' l ∅ (h - 1), World (keys_after lfc r keys) (n - dcost))) →
  awp (borrow_child_left delete_handler a q b ka kq kb (Z.of_nat i) z) Φ
    (IPool root free ns l pins3 h, World keys n).
Proof using Type*.
  intros Hz -> -> Hlb HΦ. apply awp_fits. intros Hfits. destruct pins3_three as [Hnd3 Hpin3].
  destruct one_left as (x & x0 & x1 & Ex & Hx & Ey & F0 & F1).
  unfold borrow_child_left. eapply drop_child_first; [exact Ex|exact Ey|]. intros nx crest rrest lf Hlf Hc Hr.
  pose proof (node_is_elim _ _ _ _ Hnb) as (nxb & crestb & rrestb & lfb & Evb & Hlfb & Hcb & Hrb).
  pose proof (node_is_elim _ _ _ _ Hnq) as (nxq & crestq & rrestq & lfq & Evq & Hlfq & Hcq & Hrq). rewrite Evb, Evq.
  eapply borrow_child_left_at with (t:=t) (sep:=sep); [exact Hnd3|exact Hpin3|by apply lookup_app_l_Some| |by apply Hfits|lia
    |done| |exact Hc|exact Hr|exact Hcb|exact Hrb|by apply Hfits, Hkeys|done|done|by apply (rows_fit keys)|exact Hds64|].
  { apply lookup_lt_Some in Ht. lia. }
  { rewrite !length_app in Hdl. simpl in Hdl. lia. }
  intros rest' crest' restb' crestb' Hr' Hc' Hrb' Hcb'.
  apply release_three. eapply HΦ; [|cbn [overlay]; map_find|cbn [overlay]; map_find|cbn [overlay]; map_find| | |].
  - intros y Ha Hb Hq. cbn [overlay]. map_find.
  - rewrite Ex, Ey, <- Hlf. by apply (node_is_intro 2).
  - rewrite <- Hlfb. by apply node_is_intro.
  - rewrite <- Evq. apply node_is_with_row; [exact Hnq|by eapply lookup_lt_Some].
Qed.

Lemma merge_child_right_spec z (Φ : Z → ipool * world K → Prop) :
  z = Z.of_nat t → length bs = 2%nat → in_s 64 free → in_s 64 b →
  (∀ ns' va' vb', only_three ns ns' → ns' !! q = Some vq → ns' !! a = Some va' → ns' !! b = Some vb' → v_next vb' = free →
    node_is va' false (delete i rs ++ sep :: bs) (delete (S i) cs ++ ds) →
    Φ z (IPool root b ns' l ∅ (h - 2), World (keys_after lfc r keys) (n - dcost))) →
  awp (merge_child_right delete_handler a q b ka kq kb (Z.of_nat i) z) Φ
    (IPool root free ns l pins3 h, World keys n).
Proof using Type*.
  intros Hz Hlb Hfree Hb64 HΦ. apply awp_fits. intros Hfits. destruct pins3_three as [Hnd3 Hpin3], pins3_two as [Hnd2 _].
  destruct one_left as (x & x0 & x1 & Ex & Hx & Ey & F0 & F1).
  unfold merge_child_right. eapply drop_child_first; [exact Ex|exact Ey|]. intros nx crest rrest lf Hlf Hc Hr.
  pose proof (node_is_elim _ _ _ _ Hnb) as (nxb & crestb & rrestb & lfb & Evb & Hlfb & Hcb & Hrb).
  pose proof (node_is_elim _ _ _ _ Hnq) as (nxq & crestq & rrestq & lfq & Evq & Hlfq & Hcq & Hrq). rewrite Evb, Evq.
  rewrite Hlb in *. destruct ds as [|d ds']; [done|]. injection Hdl as Hdl.
  pose proof Hds64 as [Fd Fds]%Forall_cons.
  eapply take_sep_right_at with (t:=t) (sep:=sep); [exact Hnd3|exact Hpin3|by apply lookup_app_l_Some| |by apply Hfits|exact Hz
    |done|exact Hr|exact Hc|exact Fd|].
  { apply lookup_lt_Some in Ht. lia. }
  intros rest' crest' Hr' Hc'.
  awp_step. apply awp_idx. eapply ip_release; [unfold pins3; map_find|]. rewrite pins3_release. cbv beta.
  match goal with |- awp _ _ (IPool _ _ (overlay _ [?x; ?y; ?z] _) _ _ _, _) =>
    change (overlay _ [x; y; z] ns) with (overlay [(a, ka); (b, kb)] [x; y] (overlay [(q, kq)] [z] ns)) end.
  eapply merge_child_right_at; [exact Hnd2|apply pins2_two|done|done|exact Hlb|exact Hdl|exact Hr'|exact Hc'|exact Hrb|exact Hcb
    |by apply (rows_fit keys)|exact Fds|].
  awp_step. apply awp_idx. eapply ip_release; [unfold pins2; map_find|]. cbv beta.
  assert (delete a pins2 = <[b:=(kb, 1)]> ∅) as -> by (unfold pins2; pins_eq).
  awp_step. eapply free_node_spec; [map_find|cbn [overlay]; map_find|map_find|pins_size|lia|done|done|done|].
  intros vb' Hvb'. rewrite delete_insert_id by apply lookup_empty. cbv beta. awp_step.
  replace (h - 1 - 1) with (h - 2) by lia.
  eapply HΦ; [|cbn [overlay]; rewrite Evq; map_find|cbn [overlay]; map_find|apply lookup_insert_eq|exact Hvb'|].
  - intros y Ha Hb Hq. cbn [overlay]. map_find.
  - rewrite Ex, Ey, <- Hlf. change ([x] ++ sep :: bs) with ([x; sep] ++ bs).
    change ([x0; x1] ++ d :: ds') with (([x0; x1] ++ [d]) ++ ds').
    pose proof (node_is_intro 4 nx (([x0; x1] ++ [d]) ++ ds') [] ([x; sep] ++ bs) [] lf) as Hi'.
    rewrite !app_nil_r in Hi'. apply Hi'; simpl; lia.
Qed.

Lemma merge_child_left_spec z (Φ : Z → ipool * world K → Prop) :
  z = Z.of_nat t + 1 → length bs = 2%nat → in_s 64 free → in_s 64 a →
  (∀ ns' va' vb', only_three ns ns' → ns' !! q = Some vq → ns' !! a = Some va' → ns' !! b = Some vb' → v_next va' = free →
    node_is vb' false (bs ++ sep :: delete i rs) (ds ++ delete (S i) cs) →
    Φ (Z.of_nat t) (IPool root a ns' l ∅ (h - 2), World (keys_after lfc r keys) (n - dcost))) →
  awp (merge_child_left delete_handler a q b ka kq kb (Z.of_nat i) z) Φ
    (IPool root free ns l pins3 h, World keys n).
Proof using Type*.
  intros Hz Hlb Hfree Ha64 HΦ. apply awp_fits. intros Hfits. destruct pins3_three as [Hnd3 Hpin3], pins3_two as [Hnd2 _].
  destruct one_left as (x & x0 & x1 & Ex & Hx & Ey & F0 & F1).
  unfold merge_child_left. eapply drop_child_first; [exact Ex|exact Ey|]. intros nx crest rrest lf Hlf Hc Hr.
  pose proof (node_is_elim _ _ _ _ Hnb) as (nxb & crestb & rrestb & lfb & Evb & Hlfb & Hcb & Hrb).
  pose proof (node_is_elim _ _ _ _ Hnq) as (nxq & crestq & rrestq & lfq & Evq & Hlfq & Hcq & Hrq). rewrite Evb, Evq.
  rewrite Hlb in *.
  eapply take_sep_left_at with (t:=t) (sep:=sep); [exact Hnd3|exact Hpin3|by apply lookup_app_l_Some| |by apply Hfits|lia
    |exact Hlb|exact Hdl|exact Hrb|exact Hcb|exact F0|].
  { apply lookup_lt_Some in Ht. lia. }
  intros restb' crestb' Hrb' Hcb'.
  awp_step. apply awp_idx. eapply ip_release; [unfold pins3; map_find|]. rewrite pins3_release. cbv beta.
  match goal with |- awp _ _ (IPool _ _ (overlay _ [?x; ?y; ?z] _) _ _ _, _) =>
    change (overlay _ [x; y; z] ns) with (overlay [(a, ka); (b, kb)] [x; y] (overlay [(q, kq)] [z] ns)) end.
  pose proof pins2_two as Hpin2. fo_step. unfold inc_n. do 2 fo_step.
  eapply fo_wr_n with (j:=1%nat); [exact Hnd2|exact Hpin2|reflexivity|reflexivity|by vm_compute|]. view_red.
  eapply merge_child_left_at; [exact Hnd2|exact Hpin2| | |exact Hr|exact Hc|exact Hrb'|exact Hcb'|by apply Hfits, Hkeys|exact F1|].
  { rewrite length_app. simpl. lia. } { rewrite length_app. simpl. lia. }
  awp_step. apply awp_idx. eapply ip_release; [unfold pins2; map_find|]. cbv beta.
  assert (delete b pins2 = <[a:=(ka, 1)]> ∅) as -> by (unfold pins2; pins_eq).
  awp_step. eapply free_node_spec; [map_find|cbn [overlay]; map_find|map_find|pins_size|lia|done|done|done|].
  intros va' Hva'. rewrite delete_insert_id by apply lookup_empty. cbv beta. awp_step.
  replace (h - 1 - 1) with (h - 2) by lia. replace (z - 1) with (Z.of_nat t) by lia.
  eapply HΦ; [|cbn [overlay]; rewrite Evq; map_find|apply lookup_insert_eq|cbn [overlay]; map_find|exact Hva'|].
  - intros y Ha Hb Hq. cbn [overlay]. map_find.
  - rewrite Ex, Ey, <- Hlfb. view_red. rewrite ?app_nil_r.
    change [sep; x] with ([sep] ++ [x]). change [x0; x1] with ([x0] ++ [x1]). rewrite !app_assoc.
    pose proof (node_is_intro 4 nxb ((ds ++ [x0]) ++ [x1]) [] ((bs ++ [sep]) ++ [x]) [] lfb) as Hi'.
    rewrite !app_nil_r in Hi'. apply Hi'; rewrite !length_app; simpl; lia.
Qed.
End internals.
End brothers.
End delete.
