(* ===== verification/BTreeInsertSpec.v ===== *)
(** [insert_entry] and [b_tree_insert]: an insertion adds its row to the rows
    of the tree, and leaves a well-formed tree. *)
From stdpp Require Import base gmap list fin_maps sorting.
From Stdlib Require Import ZArith Lia Strings.Byte.
From S2P Require Import Prelude FileIO BufferPool PoolLogic PoolClient Table HeapStore BTree NodeSpec NodeFocus TreeSpec NodeOps.
From S2P Require Import TreeFrame BTreeSearch TreeInsert TreeDelete TreeBrothers BTreeInsert.
#[local] Open Scope Z_scope.

(** ** Pieces of a tree *)

(** five keys: two, the middle one, two *)
Lemma kids_middle (kids : list (RID * tree)) : length kids = 5%nat →
  ∃ k1 r c k2, kids = k1 ++ (r, c) :: k2 ∧ length k1 = 2%nat ∧ length k2 = 2%nat.
Proof.
  intros H. do 5 (destruct kids as [|[? ?] kids]; [simpl in H; lia|]).
  destruct kids; [|simpl in H; lia]. eexists [_; _], _, _, [_; _]. done.
Qed.

Lemma stored_kids ns a c0 kids :
  stored ns (Node a c0 kids) ↔
  stored_node ns a false kids.*1 (kid_addrs c0 kids) ∧ stored ns c0 ∧ Forall (λ rc, stored ns rc.2) kids.
Proof.
  pose proof (plug_stored ns [] c0 kids) as H. simpl in *. rewrite Forall_nil in H. unfold kid_addrs. tauto.
Qed.

(** two nodes over the children of one, cut at a key *)
Lemma stored_cut ns a b va vb c0 k1 r c k2 :
  length k1 = 2%nat → ns !! a = Some va → ns !! b = Some vb →
  node_is va false (take 2 (k1 ++ (r, c) :: k2).*1) (take 3 (kid_addrs c0 (k1 ++ (r, c) :: k2))) →
  node_is vb false (drop 3 (k1 ++ (r, c) :: k2).*1) (drop 3 (kid_addrs c0 (k1 ++ (r, c) :: k2))) →
  stored ns c0 → Forall (λ rc, stored ns rc.2) (k1 ++ (r, c) :: k2) →
  stored ns (Node a c0 k1) ∧ stored ns (Node b c k2).
Proof.
  intros Hl Ha Hb Hva Hvb H0 Hk. rewrite !stored_kids. do 2 (destruct k1 as [|[? ?] k1]; [simpl in Hl; lia|]).
  destruct k1; [|simpl in Hl; lia]. cbn in *.
  rewrite !Forall_cons in Hk. cbn in Hk. destruct Hk as (H1 & H2 & H3 & H4).
  split; (split; [eexists; split; [eassumption|done]|split; [done|]]); [|done].
  by repeat constructor.
Qed.

Lemma plug_forall (P : tree → Prop) p c s :
  P (plug p c s).1 ∧ Forall (λ rc, P rc.2) (plug p c s).2 ↔
  Forall (λ tr, P tr.1) p ∧ P c ∧ Forall (λ rc, P rc.2) s.
Proof.
  induction p as [|[t r] p IH]; simpl; [rewrite Forall_nil; tauto|].
  rewrite Forall_cons. destruct (plug p c s) as [c' s']. simpl in *. rewrite Forall_cons. simpl. tauto.
Qed.

Lemma first_leaf_in t : first_leaf t ∈ pages_of t.
Proof.
  induction t as [a rows|a c0 kids IH _] using tree_ind'; [by left|].
  right. apply elem_of_app. by left.
Qed.

Lemma first_leaf_plug p c s : first_leaf (plug p c s).1 = match p with [] => first_leaf c | (t, _) :: _ => first_leaf t end.
Proof. destruct p as [|[t r] p]; [done|]. simpl. by destruct (plug p c s). Qed.

(** ** What an insertion leaves *)

Section insert.
Context {K W : Type} {kcmp : K → K → Z} {KO : KeyOrder kcmp}.
Context {RW : Rep W (world K)} {KW : KeyWorld K W}.
Context (cmp : RID → RID → M W Z) (insert_handler : RID → M W RID) (cost hcost : Z).
Context {HC : RowComparer kcmp cmp cost} {HI : KeyCopier insert_handler hcost}.
Context (Hcost : 0 <= cost) (Hhcost : 0 <= hcost).
(** the identifiers that may separate children *)
Context (spare : RID → Prop).

(** The tree at [a] has room; or it is now two trees, the entry that returns
    has the key between them and the page of the second; or it was the root,
    and has a root above it.  [T] is the pages, [es] the rows. *)
Inductive outcome (keys : gmap RID K) (es : list RID) (f a rt root : Z) (m h : nat) (lo hi : option K)
    (ns : gmap Z nview) : NewChildEntry → Z → list Z → Prop :=
  | has_room t :
      addr t = a → first_leaf t = f → wf kcmp keys (Nat.max m 1) h lo hi t → stored ns t → elems t ≡ₚ es → Forall spare (seps t) →
      outcome keys es f a rt root m h lo hi ns result_empty root (pages_of t)
  | has_split t1 t2 sep km :
      a ≠ rt → addr t1 = a → first_leaf t1 = f → addr t2 ≠ -1 → keys !! sep = Some km → within kcmp keys lo hi sep →
      wf kcmp keys 2 h lo (Some km) t1 → wf kcmp keys 2 h (Some km) hi t2 →
      stored ns t1 → stored ns t2 → elems t1 ++ elems t2 ≡ₚ es → Forall spare (sep :: seps t1 ++ seps t2) →
      outcome keys es f a rt root m h lo hi ns (mkNCE sep (addr t2)) root (pages_of t1 ++ pages_of t2)
  | has_root t res :
      a = rt → first_leaf t = f → wf kcmp keys 1 (S h) lo hi t → stored ns t → elems t ≡ₚ es → Forall spare (seps t) →
      outcome keys es f a rt root m h lo hi ns res (addr t) (pages_of t).

Lemma outcome_perm keys es es' f a rt root m h lo hi ns res root' T :
  es ≡ₚ es' → outcome keys es f a rt root m h lo hi ns res root' T →
  outcome keys es' f a rt root m h lo hi ns res root' T.
Proof using.
  intros E [t ? ? ? ? Et|t1 t2 sep km ? ? ? ? ? ? ? ? ? ? Et|t r ? ? ? ? Et];
    [apply has_room|eapply has_split|apply has_root]; try done; by rewrite <- E.
Qed.

(** the state after an insertion that started in territory [T] with free list
    [fl], and may use [nb] operations, [hb] pages and [lb] bytes of the file *)
Definition after_insert (keys : gmap RID K) (n nb hh hb l lb : Z) (es : list RID) (f a rt root : Z)
    (m h : nat) (lo hi : option K) (T fl : list Z) (ns : gmap Z nview)
    (Φ : NewChildEntry → ipool * world K → Prop) : Prop :=
  ∀ keys' n' res root' free' fl' ns' l' h' T',
    keys ⊆ keys' → n - nb <= n' → hh - hb <= h' → l' <= l + lb →
    frame_step (T ++ fl) (T' ++ fl') ns l ns' l' → free_list ns' free' fl' →
    outcome keys' es f a rt root m h lo hi ns' res root' T' →
    Φ res (IPool root' free' ns' l' ∅ h', World keys' n').

(** *** Leaves *)

Lemma with_new_perm {A} i (x : A) rs : with_new i x rs ≡ₚ x :: rs.
Proof using. unfold with_new. rewrite <- Permutation_middle. by rewrite take_drop. Qed.

(** the rows of a leaf with a new one in its place *)
Lemma leaf_rows keys m lo hi a rs rid k i :
  wf kcmp keys m 0 lo hi (Leaf a rs) → keys !! rid = Some k → above kcmp lo k → below kcmp hi k →
  (∀ r, r ∈ rs → keys !! r ≠ Some k) → (i <= length rs)%nat → scan_at (kcmp := kcmp) keys k rs i →
  Forall (within kcmp keys lo hi) (with_new i rid rs) ∧ StronglySorted (row_lt kcmp keys) (with_new i rid rs).
Proof using KO.
  intros (_ & Hw & Hs) Hk Hlo Hhi Hno Hi Hscan. rewrite <- (take_drop i rs) in Hw, Hs, Hno, Hscan.
  unfold with_new. eapply rows_insert; [exact Hw|exact Hs|exact Hk|done|done|exact Hno|].
  by rewrite length_take, Nat.min_l.
Qed.

(** ... cut before the third one, whose key [sep] copies *)
Lemma leaf_cut keys lo hi L r km sep :
  Forall (within kcmp keys lo hi) L → StronglySorted (row_lt kcmp keys) L → length L = 5%nat →
  L !! 2%nat = Some r → keys !! r = Some km → keys !! sep = None →
  let keys' := <[sep:=km]> keys in
  (∀ a, wf kcmp keys' 2 0 lo (Some km) (Leaf a (take 2 L))) ∧
  (∀ b, wf kcmp keys' 2 0 (Some km) hi (Leaf b (drop 2 L))) ∧ within kcmp keys' lo hi sep.
Proof using KO.
  intros Hw Hs HL Hr Hkm Hsep keys'. assert (keys ⊆ keys') as Hsub by (by apply insert_subseteq).
  rewrite <- (take_drop 2 L) in Hw, Hs. rewrite (drop_S L r 2 Hr) in *.
  destruct (rows_split keys' lo hi (take 2 L) r (drop 3 L) sep km) as ((H1 & H2) & (H3 & H4) & H5).
  - eapply Forall_impl; [exact Hw|]. intros. by eapply within_mono.
  - by eapply sorted_mono.
  - by eapply lookup_weaken.
  - apply lookup_insert_eq.
  - assert (length (take 2 L) = 2%nat) as E1 by (rewrite length_take; lia).
    assert (length (r :: drop 3 L) = 3%nat) as E2 by (cbn [length]; rewrite length_drop; lia).
    split; [|split; [|done]]; intros p; cbn [wf]; rewrite ?E1, ?E2; (split; [lia|done]).
Qed.

Lemma insert_leaf_spec rid k keys m lo hi a rs rt root free ns l ka h n fl
    (Φ : NewChildEntry → ipool * world K → Prop) :
  wf kcmp keys m 0 lo hi (Leaf a rs) → stored ns (Leaf a rs) → keys !! rid = Some k →
  above kcmp lo k → below kcmp hi k → (∀ r, r ∈ rs → keys !! r ≠ Some k) →
  nodes_in ns l → free_list ns free fl → NoDup (a :: fl) → (∀ r, keys !! r = None → spare r) →
  4 * cost + hcost <= n → 3 < h → l + 2 * PAGE_SIZE <= MAX_LEN →
  after_insert keys n (4 * cost + hcost) h 4 l (2 * PAGE_SIZE) (rid :: rs) a a rt root m 0 lo hi [a] fl ns Φ →
  awp (n ← nd ka rd_n;
       if n <? 2 * DEGREE then insert_row cmp a ka rid
       else if a =? rt then split_leaf_root cmp insert_handler a ka rid
       else split_leaf cmp insert_handler a ka rid)
    Φ (IPool root free ns l (<[a:=(ka, 1)]> ∅) h, World keys n).
Proof using HC HI Hcost Hhcost KO KW.
  intros Hwf (v & Hv & Hnode) Hk Hlo Hhi Hno Hin Hfl Hnd Hspare Hn Hh HM HΦ.
  pose proof Hwf as ((Hm & Hlen) & Hw & _). pose proof (eq_refl : PAGE_SIZE = 128) as HP.
  assert (∀ r, r ∈ rs → is_Some (keys !! r)) as Hkeys.
  { intros r Hr. rewrite Forall_forall in Hw. destruct (Hw r Hr) as (kr & E & _). by exists kr. }
  assert (∀ i, (i <= length rs)%nat → length (with_new i rid rs) = S (length rs)) as HL.
  { intros. by apply with_new_length. }
  awp_step. eapply nd_read_n; [map_find|exact Hv|exact Hnode|]. cbv beta. change (2 * DEGREE) with 4.
  destruct (Z.ltb_spec (Z.of_nat (length rs)) 4) as [Hlt|Hge].
  - eapply (insert_row_spec cmp cost Hcost); [exact Hk|map_find|exact Hv|exact Hnode|lia|done|lia|].
    intros i v' Hi Hscan Hv'. rewrite delete_insert_id by apply lookup_empty.
    destruct (leaf_rows _ _ _ _ _ _ _ _ _ Hwf Hk Hlo Hhi Hno Hi Hscan) as [Hw' Hs'].
    eapply (HΦ _ _ _ _ _ _ _ _ _ [a]); [done|lia|lia|lia| |exact (free_list_overlay _ _ _ [(a, ka)] [v'] ltac:(intros y Hy; apply list_elem_of_singleton in Hy as ->; by apply NoDup_cons in Hnd as [? _]) Hfl)|].
    + apply (frame_write (a :: fl)); [done|by left].
    + apply (has_room _ _ _ _ _ _ _ _ _ _ _ (Leaf a (with_new i rid rs))); [done|done| | |apply with_new_perm|constructor].
      * split; [|done]. rewrite HL; lia.
      * exists v'. split; [apply lookup_insert_eq|done].
  - assert (length rs = 4%nat) as Hlen4 by lia. destruct (Z.eqb_spec a rt) as [->|Hne].
    + eapply (split_leaf_root_spec cmp insert_handler cost hcost Hcost Hhcost); [exact Hk|exact Hin|exact Hv|exact Hnode|done|done|lia|exact Hfl|done|lia|done|].
      intros i b c sep r km va' vb' vc' free' fl' ns' l' Hi Hscan Hr Hkm Hsep Hf Hl' Hc0 Ha Hb Hc Hfl' Hna Hnb Hnc.
      assert (i <= length rs)%nat as Hi' by lia. pose proof (HL i Hi') as HL'. rewrite Hlen4 in HL'.
      destruct (leaf_rows _ _ _ _ _ _ _ _ _ Hwf Hk Hlo Hhi Hno Hi' Hscan) as [Hw' Hs'].
      destruct (leaf_cut _ _ _ _ _ _ _ Hw' Hs' HL' Hr Hkm Hsep) as (W1 & W2 & Wsep).
      eapply (HΦ _ _ _ _ _ _ _ _ _ [c; rt; b]); [by apply insert_subseteq|lia|lia|lia| |exact Hfl'|].
      { eapply frame_perm; [reflexivity| |exact Hf]. perm. }
      apply (has_root _ _ _ _ _ _ _ _ _ _ _ (Node c (Leaf rt (take 2 (with_new i rid rs))) [(sep, Leaf b (drop 2 (with_new i rid rs)))]));
        [done|done| | | |constructor; [by apply Hspare|constructor]].
      * split; [cbn [length]; lia|]. cbn [kids_ok]. rewrite lookup_insert_eq. split; [done|]. split; [apply W1|apply W2].
      * apply stored_kids. split; [by exists vc'|]. split; [by exists va'|]. constructor; [by exists vb'|constructor].
      * cbn. rewrite app_nil_r, take_drop. apply with_new_perm.
    + eapply (split_leaf_spec cmp insert_handler cost hcost Hcost Hhcost); [exact Hk|exact Hin|exact Hv|exact Hnode|done|done|lia|exact Hfl|done|lia|lia|].
      intros i b sep r km v' vb' free' fl' ns' l' Hi Hscan Hr Hkm Hsep Hf Hl' Hb0 Ha Hb Hfl' Hna Hnb.
      assert (i <= length rs)%nat as Hi' by lia. pose proof (HL i Hi') as HL'. rewrite Hlen4 in HL'.
      destruct (leaf_rows _ _ _ _ _ _ _ _ _ Hwf Hk Hlo Hhi Hno Hi' Hscan) as [Hw' Hs'].
      destruct (leaf_cut _ _ _ _ _ _ _ Hw' Hs' HL' Hr Hkm Hsep) as (W1 & W2 & Wsep).
      eapply (HΦ _ _ _ _ _ _ _ _ _ [a; b]); [by apply insert_subseteq|lia|lia|lia|exact Hf|exact Hfl'|].
      apply (has_split _ _ _ _ _ _ _ _ _ _ _ (Leaf a (take 2 (with_new i rid rs))) (Leaf b (drop 2 (with_new i rid rs))) sep km);
        [done|done|done|cbn; lia|apply lookup_insert_eq|exact Wsep|apply W1|apply W2|by exists v'|by exists vb'| |constructor; [by apply Hspare|constructor]].
      cbn. rewrite take_drop. apply with_new_perm.
Qed.

(** *** An internal node that gets a child *)

#[local] Ltac perm_kids E :=
  rewrite E; unfold kid_pages, kid_elems; rewrite flat_map_app; cbn [pages_of elems flat_map snd]; perm.


Section child.
Context (keys : gmap RID K) (m h : nat) (lo hi : option K) (a : Z).
Context (p : list (tree * RID)) (t1 : tree) (sep : RID) (km : K) (t2 : tree) (s : list (RID * tree)).
Local Abbreviation c0 := (plug p t1 ((sep, t2) :: s)).1.
Local Abbreviation kids := (plug p t1 ((sep, t2) :: s)).2.
Local Abbreviation rows := (p.*2 ++ s.*1).
Local Abbreviation addrs := (((λ tr, addr tr.1) <$> p) ++ addr t1 :: ((λ rc, addr rc.2) <$> s)).
Local Abbreviation X := (pages_of c0 ++ kid_pages kids).
Context (Hok : kids_ok kcmp keys (wf kcmp keys 2 h) lo hi c0 kids).
Context (Hsep : keys !! sep = Some km).
Context (Hplace : ∀ i, (i <= length rows)%nat → scan_at (kcmp := kcmp) keys km rows i → i = length p).
Context (root free : Z) (ns : gmap Z nview) (l : Z) (fl : list Z) (v : nview).
Context (Hv : ns !! a = Some v) (Hnode : node_is v false rows addrs).
Context (H0 : stored ns c0) (Hks : Forall (λ rc, stored ns rc.2) kids).
Context (Hin : nodes_in ns l) (Hfl : free_list ns free fl) (Hnd : NoDup (X ++ a :: fl)).
Context (HM : l + 2 * PAGE_SIZE <= MAX_LEN) (Hspk : Forall spare (seps c0 ++ kid_seps kids)).

Lemma new_rows : with_new (length p) sep rows = kids.*1.
Proof using.
  rewrite plug_seps. unfold with_new. rewrite take_app_length', drop_app_length' by (by rewrite length_fmap). done.
Qed.

Lemma new_addrs : with_new (S (length p)) (addr t2) addrs = kid_addrs c0 kids.
Proof using.
  unfold kid_addrs. rewrite (plug_children addr p t1). unfold with_new.
  rewrite (cons_middle (addr t1)), app_assoc.
  rewrite take_app_length', drop_app_length' by (rewrite length_app, length_fmap; simpl; clear; lia).
  by rewrite <- app_assoc.
Qed.

Lemma kids_length : length kids = S (length rows).
Proof using.
  rewrite <- (length_fmap fst), <- new_rows. apply with_new_length. rewrite length_app, length_fmap. clear; lia.
Qed.

Lemma rows_known r : r ∈ rows → is_Some (keys !! r).
Proof using Hok.
  intros Hr. eapply kids_keys; [exact Hok|]. rewrite plug_seps. simpl.
  apply elem_of_app in Hr as [Hr|Hr]; apply elem_of_app; [by left|right; by right].
Qed.

Lemma kid_in x : x ∈ X → is_Some (ns !! x).
Proof using H0 Hks.
  intros [Hx|Hx]%elem_of_app; [by eapply stored_dom|].
  apply list_elem_of_In, in_flat_map in Hx as (rc & Hrc & Hx). apply list_elem_of_In in Hrc, Hx.
  rewrite Forall_forall in Hks. by eapply stored_dom; [apply Hks|].
Qed.

Lemma addrs_fit : Forall (in_s 64) (kid_addrs c0 kids).
Proof using H0 Hks Hin HM.
  assert (∀ t, stored ns t → in_s 64 (addr t)) as Hfit.
  { intros t Ht. pose proof (Hin _ (stored_addr _ _ Ht)).
    unfold in_s, MAX_LEN, PAGE_SIZE in *. change (2 ^ (64 - 1)) with (2 ^ 63). lia. }
  constructor; [by apply Hfit|]. apply Forall_fmap. eapply Forall_impl; [exact Hks|]. intros rc. apply Hfit.
Qed.

Lemma addrs_split : Forall (in_s 64) addrs ∧ in_s 64 (addr t2).
Proof using H0 Hks Hin HM.
  pose proof addrs_fit as H. rewrite <- new_addrs in H. unfold with_new in H.
  rewrite Forall_app, Forall_cons in H. destruct H as (H1 & H2 & H3). split; [|done].
  rewrite <- (take_drop (S (length p)) addrs). apply Forall_app. done.
Qed.

(** what happens to the node and the free list leaves the children alone *)
Lemma kids_frame ns' l' T : frame_step (a :: fl) T ns l ns' l' →
  stored ns' c0 ∧ Forall (λ rc, stored ns' rc.2) kids ∧
  frame_step ((a :: X) ++ fl) (X ++ T) ns l ns' l'.
Proof using H0 Hks Hin Hnd.
  intros Hf. assert (∀ x, x ∈ X → x < l) as Hlt by (intros x Hx; apply Hin; by apply kid_in).
  assert (∀ x, x ∈ X → ns' !! x = ns !! x) as Hkeep.
  { intros x Hx. exact (frame_keep _ _ _ _ _ _ _ _ Hnd Hlt Hf Hx). }
  split; [|split].
  - eapply stored_frame; [|exact H0]. intros x Hx. apply Hkeep, elem_of_app. by left.
  - rewrite Forall_forall in *. intros rc Hrc. eapply stored_frame; [|by apply Hks].
    intros x Hx. apply Hkeep, elem_of_app. right. apply list_elem_of_In, in_flat_map.
    exists rc. by rewrite <- !list_elem_of_In.
  - eapply frame_perm; [|reflexivity|by apply (frame_add X)]. perm.
Qed.
(** the children of the two halves, and the bounds between them *)
Lemma kids_halves va' vb' b mid ns' :
  length rows = 4%nat → with_new (length p) sep rows !! 2%nat = Some mid →
  ns' !! a = Some va' → ns' !! b = Some vb' →
  node_is va' false (take 2 (with_new (length p) sep rows)) (take 3 (with_new (S (length p)) (addr t2) addrs)) →
  node_is vb' false (drop 3 (with_new (length p) sep rows)) (drop 3 (with_new (S (length p)) (addr t2) addrs)) →
  stored ns' c0 → Forall (λ rc, stored ns' rc.2) kids →
  ∃ k1 c k2 kmid, keys !! mid = Some kmid ∧ within kcmp keys lo hi mid ∧
    (length k1 = 2%nat ∧ wf kcmp keys 2 (S h) lo (Some kmid) (Node a c0 k1)) ∧
    wf kcmp keys 2 (S h) (Some kmid) hi (Node b c k2) ∧
    stored ns' (Node a c0 k1) ∧ stored ns' (Node b c k2) ∧ kids = k1 ++ (mid, c) :: k2.
Proof using Hok KO.
  intros Hl4 Hmid Ha Hb Hva Hvb S0 Sk. rewrite new_rows in Hmid, Hva, Hvb. rewrite new_addrs in Hva, Hvb.
  destruct (kids_middle kids ltac:(rewrite kids_length; lia)) as (k1 & r & c & k2 & E & L1 & L2).
  pose proof Hok as Hok'. rewrite E in Hok', Hmid, Hva, Hvb, Sk. apply kids_ok_cut in Hok' as (K1 & K2 & (kmid & Hkm & Hw)).
  assert (r = mid) as ->.
  { rewrite fmap_app, lookup_app_r in Hmid by (rewrite length_fmap; lia).
    rewrite length_fmap, L1 in Hmid. by injection Hmid. }
  rewrite Hkm in K1, K2. destruct (stored_cut _ _ _ _ _ _ _ _ _ _ L1 Ha Hb Hva Hvb S0 Sk) as [S1 S2].
  exists k1, c, k2, kmid. split; [done|]. split; [by exists kmid|].
  split; [split; [done|]; split; [lia|done]|]. split; [split; [lia|done]|]. done.
Qed.

Lemma halves_spare k1 mid c k2 b : kids = k1 ++ (mid, c) :: k2 →
  Forall spare (mid :: seps (Node a c0 k1) ++ seps (Node b c k2)).
Proof using Hspk.
  intros E. rewrite E in Hspk. eapply Forall_Permutation; [done| |exact Hspk].
  unfold kid_seps. rewrite flat_map_app. cbn [seps flat_map fst snd]. clear. perm.
Qed.

Context (Hm : (m <= length rows)%nat) (Hlen : (1 <= length rows <= 4)%nat).

Section run.
Context (rt : Z) (ka : nat) (hh n : Z) (es : list RID) (Φ : NewChildEntry → ipool * world K → Prop).
Context (Hn : 4 * cost <= n) (Hhh : 3 < hh) (Hes : elems c0 ++ kid_elems kids ≡ₚ es).
Context (HΦ : after_insert keys n (4 * cost) hh 4 l (2 * PAGE_SIZE) es (first_leaf c0) a rt root m (S h) lo hi (a :: X) fl ns Φ).
Local Abbreviation start := (IPool root free ns l (<[a:=(ka, 1)]> ∅) hh, World keys n).

Lemma child_room : (length rows < 4)%nat → awp (insert_child cmp a ka (mkNCE sep (addr t2))) Φ start.
Proof using Type*.
  intros Hlt. destruct addrs_split as [Ha1 Ha2].
  eapply (insert_child_spec cmp cost Hcost); [exact Hsep|done|exact Ha1|map_find|exact Hv|exact Hnode|lia| |apply rows_known|done|].
  { rewrite !length_app. simpl. rewrite !length_fmap. clear; lia. }
  intros i v' Hi Hscan Hv'. rewrite delete_insert_id by apply lookup_empty.
  apply Hplace in Hscan as ->; [|done]. rewrite new_rows, new_addrs in Hv'.
  destruct (kids_frame (<[a:=v']> ns) l (a :: fl)) as (S0 & Sk & Hf).
  { apply frame_write; [by apply NoDup_app in Hnd as (_ & _ & ?)|by left]. }
  eapply (HΦ _ _ _ _ _ fl _ _ _ (a :: X)); [done|lia|lia|unfold PAGE_SIZE; lia| | |].
  - eapply frame_perm; [reflexivity| |exact Hf]. perm.
  - eapply free_list_frame; [|exact Hfl]. intros x Hx. apply lookup_insert_ne. intros <-.
    apply NoDup_app in Hnd as (_ & _ & Hnd'). by apply NoDup_cons in Hnd' as [? _].
  - apply (has_room _ _ _ _ _ _ _ _ _ _ _ (Node a c0 kids)); [done|done| | |exact Hes|exact Hspk].
    + split; [rewrite kids_length; lia|done].
    + apply stored_kids. split; [|done]. exists v'. split; [apply lookup_insert_eq|done].
Qed.

Lemma child_split : length rows = 4%nat → a ≠ rt →
  awp (split_internal cmp a ka (mkNCE sep (addr t2))) Φ start.
Proof using Type*.
  intros Hl4 Hne. destruct addrs_split as [Ha1 Ha2].
  assert (free_list ns free fl ∧ NoDup (a :: fl)) as [_ Hnd'] by (by apply NoDup_app in Hnd as (_ & _ & ?)).
  eapply (split_internal_spec cmp cost Hcost);
    [exact Hsep|done|exact Ha1|exact Hin|exact Hv|exact Hnode|done| |apply rows_known|done|exact Hfl|done|lia|unfold PAGE_SIZE in *; lia|].
  { rewrite length_app in *. simpl. rewrite !length_fmap in *. lia. }
  intros i b mid va' vb' free' fl' ns' l' Hi Hscan Hmid Hf Hl' Hb0 Hva Hvb Hfl' Hna Hnb.
  apply Hplace in Hscan as ->; [|lia]. destruct (kids_frame _ _ _ Hf) as (S0 & Sk & Hf').
  destruct (kids_halves _ _ _ _ _ Hl4 Hmid Hva Hvb Hna Hnb S0 Sk)
    as (k1 & c & k2 & kmid & Hkm & Hw & [_ W1] & W2 & S1 & S2 & E).
  eapply (HΦ _ _ _ _ _ fl' _ _ _ (pages_of (Node a c0 k1) ++ pages_of (Node b c k2)));
    [done|lia|lia|unfold PAGE_SIZE in *; lia| |exact Hfl'|].
  - eapply frame_perm; [reflexivity| |exact Hf']. perm_kids E.
  - apply (has_split _ _ _ _ _ _ _ _ _ _ _ (Node a c0 k1) (Node b c k2) mid kmid); try done; [simpl; lia| |by apply halves_spare].
    rewrite <- Hes. perm_kids E.
Qed.

Lemma child_root : length rows = 4%nat → a = rt →
  awp (split_internal_root cmp a ka (mkNCE sep (addr t2))) Φ start.
Proof using Type*.
  intros Hl4 Hrt. destruct addrs_split as [Ha1 Ha2].
  assert (free_list ns free fl ∧ NoDup (a :: fl)) as [_ Hnd'] by (by apply NoDup_app in Hnd as (_ & _ & ?)).
  eapply (split_internal_root_spec cmp cost Hcost);
    [exact Hsep|done|exact Ha1|exact Hin|exact Hv|exact Hnode|done| |apply rows_known|done|exact Hfl|done|lia|done|].
  { rewrite length_app in *. simpl. rewrite !length_fmap in *. lia. }
  intros i b c mid va' vb' vc' free' fl' ns' l' Hi Hscan Hmid Hf Hl' Hc0 Hva Hvb Hvc Hfl' Hna Hnb Hnc.
  apply Hplace in Hscan as ->; [|lia]. destruct (kids_frame _ _ _ Hf) as (S0 & Sk & Hf').
  destruct (kids_halves _ _ _ _ _ Hl4 Hmid Hva Hvb Hna Hnb S0 Sk)
    as (k1 & c' & k2 & kmid & Hkm & Hw & [_ W1] & W2 & S1 & S2 & E).
  eapply (HΦ _ _ _ _ _ fl' _ _ _ (pages_of (Node c (Node a c0 k1) [(mid, Node b c' k2)])));
    [done|lia|lia|lia| |exact Hfl'|].
  - eapply frame_perm; [reflexivity| |exact Hf']. perm_kids E.
  - apply (has_root _ _ _ _ _ _ _ _ _ _ _ (Node c (Node a c0 k1) [(mid, Node b c' k2)])); [done|done| | | |].
    + split; [simpl; lia|]. cbn [kids_ok]. rewrite Hkm. done.
    + apply stored_kids. split; [by exists vc'|]. split; [done|]. constructor; [exact S2|constructor].
    + rewrite <- Hes. perm_kids E.
    + eapply Forall_Permutation; [done| |exact (halves_spare _ _ _ _ b E)]. cbn [seps flat_map fst snd]. perm.
Qed.

Lemma insert_child_run :
  awp (n ← nd ka rd_n;
       if n <? 2 * DEGREE then insert_child cmp a ka (mkNCE sep (addr t2))
       else if a =? rt then split_internal_root cmp a ka (mkNCE sep (addr t2))
       else split_internal cmp a ka (mkNCE sep (addr t2))) Φ start.
Proof using Type*.
  awp_step. eapply nd_read_n; [map_find|exact Hv|exact Hnode|]. cbv beta. change (2 * DEGREE) with 4.
  destruct (Z.ltb_spec (Z.of_nat (length rows)) 4); [apply child_room; lia|].
  destruct (Z.eqb_spec a rt); [apply child_root; [lia|done]|apply child_split; [lia|done]].
Qed.
End run.
End child.

(** *** The way down *)

Lemma lower_mono keys keys' P lo hi p :
  keys ⊆ keys' → before_ok kcmp keys P lo hi p → lower keys' lo p = lower keys lo p.
Proof using.
  intros Hs. revert lo. induction p as [|[t r] p IH]; intros lo; [done|]. simpl.
  intros ((k & Hk & _) & _ & Hp). change (lower keys' (keys' !! r) p = lower keys (keys !! r) p).
  rewrite Hk in *. rewrite (lookup_weaken _ _ _ _ Hk Hs). by apply IH.
Qed.

Lemma upper_mono keys keys' P lo hi c s :
  keys ⊆ keys' → kids_ok kcmp keys P lo hi c s → upper keys' hi s = upper keys hi s.
Proof using.
  intros Hs. destruct s as [|[r c'] s]; [done|]. simpl. intros ((k & Hk & _) & _ & _).
  by rewrite Hk, (lookup_weaken _ _ _ _ Hk Hs).
Qed.

Lemma awp_nodes {A} (m : M (BufferPool * W) A) (Φ : A → ipool * world K → Prop) root free ns l ps h w :
  (nodes_in ns l → awp m Φ (IPool root free ns l ps h, w)) → awp m Φ (IPool root free ns l ps h, w).
Proof using.
  intros Hm. apply awp_rep. intros s [Hr _]. apply Hm. intros a Ha.
  pose proof (ipool_rep_ok _ _ Hr) as [Hd _]. by destruct (proj1 (Hd a) Ha).
Qed.

Section down.
Context (keys : gmap RID K) (h : nat) (lo hi : option K) (a : Z).
Context (p : list (tree * RID)) (c : tree) (s : list (RID * tree)).
Local Abbreviation kids := (plug p c s).2.
Local Abbreviation node := (Node a (plug p c s).1 kids).
Local Abbreviation others := (flat_map (λ tr, pages_of tr.1) p ++ kid_pages s).
Context (Hok : kids_ok kcmp keys (wf kcmp keys 2 h) lo hi (plug p c s).1 kids).
Context (ns : gmap Z nview) (l : Z) (fl : list Z).
Context (Hst : stored ns node) (Hin : nodes_in ns l) (Hnd : NoDup (pages_of node ++ fl)).

Lemma node_pages : pages_of node ≡ₚ (a :: others) ++ pages_of c.
Proof using. cbn [pages_of]. rewrite (plug_flat pages_of). unfold kid_pages. perm. Qed.

Lemma others_nodup : NoDup ((a :: others) ++ pages_of c ++ fl).
Proof using Hnd.
  assert (pages_of node ++ fl ≡ₚ (a :: others) ++ pages_of c ++ fl) as <-; [|done].
  rewrite node_pages. by rewrite app_assoc.
Qed.

Lemma others_in x : x ∈ a :: others → x < l.
Proof using Hst Hin.
  intros Hx. apply Hin. eapply stored_dom; [exact Hst|]. rewrite node_pages. apply elem_of_app. by left.
Qed.

Lemma child_nodup : NoDup (pages_of c ++ fl).
Proof using Hnd. pose proof others_nodup as H. by apply NoDup_app in H as (_ & _ & ?). Qed.

(** the siblings and the node itself stay *)
Lemma others_kept T' ns' l' : frame_step (pages_of c ++ fl) T' ns l ns' l' →
  ns' !! a = ns !! a ∧ Forall (λ tr, stored ns' tr.1) p ∧ Forall (λ rc, stored ns' rc.2) s ∧
  frame_step (pages_of node ++ fl) ((a :: others) ++ T') ns l ns' l'.
Proof using Hst Hin Hnd.
  intros Hf. assert (∀ x, x ∈ a :: others → ns' !! x = ns !! x) as Hkeep.
  { intros x Hx. exact (frame_keep _ _ _ _ _ _ _ _ others_nodup others_in Hf Hx). }
  destruct Hst as (_ & Hst'). apply plug_stored in Hst' as (Sp & _ & Ss). split; [|split; [|split]].
  - apply Hkeep. by left.
  - rewrite Forall_forall in *. intros tr Htr. eapply stored_frame; [|by apply Sp].
    intros x Hx. apply Hkeep. right. apply elem_of_app. left. apply list_elem_of_In, in_flat_map.
    exists tr. by rewrite <- !list_elem_of_In.
  - rewrite Forall_forall in *. intros rc Hrc. eapply stored_frame; [|by apply Ss].
    intros x Hx. apply Hkeep. right. apply elem_of_app. right. apply list_elem_of_In, in_flat_map.
    exists rc. by rewrite <- !list_elem_of_In.
  - eapply frame_perm; [|reflexivity|by apply (frame_add (a :: others)); [apply others_nodup|apply others_in|]].
    rewrite node_pages. by rewrite app_assoc.
Qed.

Lemma bounds_mono keys' : keys ⊆ keys' →
  kids_ok kcmp keys' (wf kcmp keys' 2 h) lo hi (plug p c s).1 kids ∧
  lower keys' lo p = lower keys lo p ∧ upper keys' hi s = upper keys hi s.
Proof using Hok.
  intros Hs. split; [eapply kids_mono; [done| |exact Hok]; intros; by eapply wf_mono|].
  apply kids_ok_plug in Hok as [Hp Hk]. split; [by eapply lower_mono|by eapply upper_mono].
Qed.

(** *** The way up *)

Lemma plug_elems c' kids' : elems (plug p c' kids').1 ++ kid_elems (plug p c' kids').2 =
  flat_map (λ tr, elems tr.1) p ++ elems c' ++ kid_elems kids'.
Proof using. apply (plug_flat elems). Qed.

Lemma after_insert_perm keys1 n nb hh hb hh1 hb1 l1 lb es f rt root m h1 T T1 fl1 ns1 Φ :
  T ≡ₚ T1 → hh - hb <= hh1 - hb1 →
  after_insert keys1 n nb hh hb l1 lb es f a rt root m h1 lo hi T fl1 ns1 Φ →
  after_insert keys1 n nb hh1 hb1 l1 lb es f a rt root m h1 lo hi T1 fl1 ns1 Φ.
Proof using.
  intros E Hh HΦ keys' n' res root' free' fl' ns' l' h' T' H1 H2 H3 H4 Hf Hfl' Ho.
  eapply HΦ; [done|done|lia|done| |done|done]. eapply frame_perm; [|reflexivity|exact Hf]. by rewrite E.
Qed.

Lemma climb_spec keys' es rt root m res root' free' fl' ns' l' hh n T'
    (Φ : NewChildEntry → ipool * world K → Prop) :
  (m <= length p + length s)%nat → (1 <= length p + length s <= 4)%nat → keys ⊆ keys' →
  frame_step (pages_of c ++ fl) (T' ++ fl') ns l ns' l' → free_list ns' free' fl' → addr c ≠ rt →
  outcome keys' es (first_leaf c) (addr c) rt root 2 h (lower keys lo p) (upper keys hi s) ns' res root' T' →
  4 * cost <= n → 4 < hh → l' + 2 * PAGE_SIZE <= MAX_LEN → Forall spare (seps node) →
  after_insert keys' n (4 * cost) hh 5 l' (2 * PAGE_SIZE)
    (flat_map (λ tr, elems tr.1) p ++ es ++ kid_elems s) (first_leaf (plug p c s).1) a rt root m (S h) lo hi
    ((a :: others) ++ T') fl' ns' Φ →
  awp (node ← idx (get_page a);
       if child_ptr res =? -1 then idx (release a);; mret res
       else
         n ← nd node rd_n;
         if n <? 2 * DEGREE then insert_child cmp a node res
         else if a =? rt then split_internal_root cmp a node res
         else split_internal cmp a node res)
    Φ (IPool root' free' ns' l' ∅ hh, World keys' n).
Proof using HC HI Hcost Hhcost Hin Hnd Hok Hst KO KW.
  intros Hm Hlen Hs Hf Hfl' Hne Hout Hn Hhh HM Hspn HΦ. apply awp_nodes. intros Hin'.
  destruct (others_kept _ _ _ Hf) as (Hkeep & Sp & Ss & Hf').
  destruct (bounds_mono keys' Hs) as (Hok' & Elo & Ehi). rewrite <- Elo, <- Ehi in Hout.
  destruct Hst as ((v & Hv & Hnode) & _). rewrite <- Hkeep in Hv.
  pose proof (fs_nodup _ _ _ _ _ _ Hf') as Hnd'. rewrite app_assoc in Hnd'.
  awp_step. apply awp_idx. eapply ip_get_node; [exact Hv|map_find|pins_size|lia|]. intros ka. cbv beta.
  destruct Hout as [t Ea Ef Wt St Et Spt|t1 t2 sep km _ Ea Ef Hb Hsep Hw W1 W2 S1 S2 Et Spt|t res Ert]; [| |done].
  all: cbn [seps] in Hspn; change (flat_map (λ rc, rc.1 :: seps rc.2)) with kid_seps in Hspn;
    rewrite plug_seps_all, !Forall_app in Hspn; destruct Hspn as (Spp & _ & Sps).
  - cbn [child_ptr result_empty Z.eqb Pos.eqb].
    awp_step. apply awp_idx. eapply ip_release; [map_find|]. cbv beta.
    rewrite delete_insert_id by apply lookup_empty. awp_step.
    pose proof (proj2 (plug_forall (stored ns') p t s) (conj Sp (conj St Ss))) as [S0 Sk].
    eapply (HΦ _ _ _ _ _ fl' _ _ _ (pages_of (Node a (plug p t s).1 (plug p t s).2)));
      [done|lia|lia|unfold PAGE_SIZE; lia| |exact Hfl'|].
    + eapply frame_perm; [reflexivity| |by apply frame_refl].
      cbn [pages_of]. rewrite (plug_flat pages_of). unfold kid_pages. perm.
    + apply (has_room _ _ _ _ _ _ _ _ _ _ _ (Node a (plug p t s).1 (plug p t s).2)); [done| | | | |].
      * cbn [first_leaf]. rewrite !first_leaf_plug. by destruct p as [|[? ?] ?].
      * split; [rewrite plug_length; lia|]. by eapply kids_ok_replace.
      * apply stored_kids. split; [|done]. exists v. split; [done|].
        rewrite plug_seps in *. unfold kid_addrs. rewrite (plug_children addr) in *. by rewrite Ea.
      * change (elems (plug p t s).1 ++ kid_elems (plug p t s).2 ≡ₚ flat_map (λ tr, elems tr.1) p ++ es ++ kid_elems s).
        rewrite plug_elems. by rewrite Et.
      * cbn [seps]. change (flat_map (λ rc, rc.1 :: seps rc.2)) with kid_seps. by rewrite plug_seps_all, !Forall_app.
  - cbn [child_ptr]. rewrite (proj2 (Z.eqb_neq _ (-1)) Hb).
    assert (length (p.*2 ++ s.*1) = length p + length s)%nat as Hl by (by rewrite length_app, !length_fmap).
    pose proof (proj2 (plug_forall (stored ns') p t1 ((sep, t2) :: s)) (conj Sp (conj S1 (Forall_cons_2 _ (sep, t2) _ S2 Ss)))) as [S0 Sk].
    eapply (insert_child_run keys' m h lo hi a p t1 sep km t2 s) with (es := flat_map (λ tr, elems tr.1) p ++ es ++ kid_elems s);
      [|exact Hsep| |exact Hv| |exact S0|exact Sk|exact Hin'|exact Hfl'| |exact HM| |rewrite Hl; lia|rewrite Hl; lia|lia|lia| |].
    + by eapply kids_ok_grow.
    + intros i Hi Hscan. destruct Hw as (k' & Hk' & Hlo' & Hhi'). simplify_eq.
      eapply (scan_plug keys' _ lo hi p c s); [exact Hok'|exact Hlo'|exact Hhi'|rewrite plug_length; lia|].
      by rewrite plug_seps.
    + rewrite plug_seps, (plug_children addr) in Hnode. by rewrite Ea.
    + eapply nodup_perm; [|exact Hnd']. rewrite (plug_flat pages_of). unfold kid_pages. cbn [flat_map snd]. perm.
    + rewrite plug_seps_all, !Forall_app. apply Forall_cons in Spt as [? [? ?]%Forall_app]. split; [done|]. split; [done|].
      cbn [kid_seps flat_map fst snd]. constructor; [done|]. by apply Forall_app.
    + rewrite plug_elems. cbn [kid_elems flat_map snd]. unfold kid_elems. perm.
    + eapply (after_insert_perm _ _ _ hh 5); [|lia|]. 2: { rewrite !first_leaf_plug in *. destruct p as [|[? ?] ?]; [by rewrite Ef|exact HΦ]. } rewrite (plug_flat pages_of). unfold kid_pages. cbn [flat_map snd]. perm.
Qed.
End down.

(** *** The whole insertion *)

(** the root is not a page below a child *)
Lemma root_not_below rt a p c s fl : NoDup (pages_of (Node a (plug p c s).1 (plug p c s).2) ++ fl) →
  rt = a ∨ rt ∉ pages_of (Node a (plug p c s).1 (plug p c s).2) → rt ∉ pages_of c.
Proof using.
  clear. intros Hnd Hrt Hx. assert (rt ∈ pages_of (plug p c s).1 ++ kid_pages (plug p c s).2) as Hx'.
  { unfold kid_pages. rewrite (plug_flat pages_of). rewrite !elem_of_app. auto. }
  destruct Hrt as [->|Hrt]; [|by apply Hrt; right].
  apply NoDup_app in Hnd as (Hnd & _). by apply NoDup_cons in Hnd as [? _].
Qed.

Lemma insert_entry_spec rid k keys rt root fuel : ∀ m h lo hi t free ns l hh n fl
    (Φ : NewChildEntry → ipool * world K → Prop),
  keys !! rid = Some k → wf kcmp keys m h lo hi t → (h = 0 ∨ 1 <= m)%nat → stored ns t →
  above kcmp lo k → below kcmp hi k → (∀ r, r ∈ elems t → keys !! r ≠ Some k) →
  rt = addr t ∨ rt ∉ pages_of t → (h < fuel)%nat →
  free_list ns free fl → NoDup (pages_of t ++ fl) → (∀ r, keys !! r = None → spare r) → Forall spare (seps t) →
  (8 * cost) * Z.of_nat (S h) + hcost <= n → 6 * Z.of_nat (S h) <= hh →
  l + 2 * PAGE_SIZE * Z.of_nat (S h) <= MAX_LEN →
  after_insert keys n ((8 * cost) * Z.of_nat (S h) + hcost) hh (6 * Z.of_nat (S h))
    l (2 * PAGE_SIZE * Z.of_nat (S h)) (rid :: elems t) (first_leaf t) (addr t) rt root m h lo hi (pages_of t) fl ns Φ →
  awp (insert_entry cmp insert_handler fuel (addr t) rid rt) Φ (IPool root free ns l ∅ hh, World keys n).
Proof using HC HI Hcost Hhcost KO KW.
  induction fuel as [|fuel IH];
    intros m h lo hi t free ns l hh n fl Φ Hk Hwf Hm Hst Hlo Hhi Hno Hrt Hf Hfl Hnd Hspare Hspt Hn Hhh HM HΦ; [lia|].
  apply awp_nodes. intros Hin. cbn [insert_entry].
  destruct h as [|h], t as [a rows|a c0 kids]; try done.
  - pose proof Hst as (v & Hv & Hnode). cbn [addr].
    awp_step. apply awp_idx. eapply ip_get_node; [exact Hv|map_find|pins_size|lia|]. intros kp. cbv beta.
    awp_step. eapply nd_read_leaf; [map_find|exact Hv|exact Hnode|]. cbn [negb].
    eapply insert_leaf_spec; [exact Hwf|exact Hst|exact Hk|done|done|exact Hno|done|exact Hfl|done|exact Hspare|lia|lia|lia|].
    intros keys' n' res root' free' fl' ns' l' h' T' H1 H2 H3 H4. eapply HΦ; [done|lia|lia|lia].
  - pose proof Hst as ((v & Hv & Hnode) & _). pose proof Hwf as [Hlen Hok]. cbn [addr] in *.
    assert (length kids.*1 = length kids) as Hlk by apply length_fmap.
    awp_step. apply awp_idx. eapply ip_get_node; [exact Hv|map_find|pins_size|lia|]. intros kp. cbv beta.
    awp_step. eapply nd_read_leaf; [map_find|exact Hv|exact Hnode|]. cbn [negb].
    awp_step. eapply (find_subtree_spec cmp cost Hcost); [exact Hk|map_find|exact Hv|exact Hnode|lia| |lia|].
    { intros r Hr. by eapply kids_keys. }
    intros i Hi [Hbefore Hat]. cbv beta. rewrite Hlk in Hi.
    destruct (plug_exists c0 kids i Hi) as (p & c & s & -> & -> & Hp). subst i.
    destruct (kids_choose _ _ _ _ _ _ _ _ Hok Hlo Hhi Hbefore Hat) as [Hlo' Hhi'].
    awp_step. eapply nd_read_child; [map_find|exact Hv|exact Hnode|done| |].
    { rewrite plug_children. rewrite lookup_app_r by (by rewrite length_fmap).
      by rewrite length_fmap, Nat.sub_diag. }
    cbv beta. awp_step. apply awp_idx. eapply ip_release; [map_find|].
    rewrite delete_insert_id by done. cbv beta.
    pose proof (proj2 (proj1 (kids_ok_plug _ _ _ _ _ _ _ _) Hok)) as Hs.
    pose proof (kids_ok_first _ _ _ _ _ _ _ Hs) as Hwc.
    pose proof (proj1 (plug_stored _ _ _ _) (proj2 Hst)) as (_ & Hsc & _).
    pose proof (root_not_below rt a p c s fl Hnd Hrt) as Hrt'.
    rewrite plug_length in Hlen.
    awp_step. eapply (IH 2%nat h);
      [exact Hk|exact Hwc|by right; lia|exact Hsc|exact Hlo'|exact Hhi'| |by right|lia|exact Hfl|by eapply child_nodup|exact Hspare| |lia|lia|unfold PAGE_SIZE in *; lia|].
    { intros r Hr. apply Hno. cbn [elems]. rewrite (plug_flat elems). rewrite !elem_of_app. auto. }
    { cbn [seps] in Hspt. change (flat_map (λ rc, rc.1 :: seps rc.2)) with kid_seps in Hspt.
      rewrite plug_seps_all, !Forall_app in Hspt. apply Hspt. }
    intros keys' n' res root' free' fl' ns' l' h' T' Hsub Hn' Hh' Hl' Hf' Hfl' Hout. cbv beta.
    eapply (climb_spec keys h lo hi a p c s Hok ns l fl Hst Hin Hnd) with (m := m);
      [lia|lia|exact Hsub|exact Hf'|exact Hfl'| |exact Hout|lia|lia|unfold PAGE_SIZE in *; lia|exact Hspt|].
    { intros E. apply Hrt'. rewrite <- E. by destruct c; left. }
    destruct (others_kept a p c s ns l fl Hst Hin Hnd _ _ _ Hf') as (_ & _ & _ & Hf2).
    intros keys2 n2 res2 root2 free2 fl2 ns2 l2 h2 T2 Hsub2 Hn2 Hh2 Hl2 Hf3 Hfl2 Hout2.
    eapply HΦ; [by etrans|lia|lia|unfold PAGE_SIZE in *; lia| |exact Hfl2|].
    + eapply frame_trans; [exact Hf2|]. rewrite app_assoc. exact Hf3.
    + eapply outcome_perm; [|exact Hout2]. cbn [elems]. rewrite (plug_flat elems). unfold kid_elems. perm.
Qed.

(** *** The first row *)

(** an index without rows: the first node of the free list, or of the file,
    is the page behind the control block *)
Definition first_free (fl : list Z) (l : Z) : Prop :=
  (fl = [] ∧ l = PAGE_SIZE) ∨ ∃ fl', fl = PAGE_SIZE :: fl'.

Lemma new_root_spec root free ns l kc h fl w (Φ : unit → ipool * world K → Prop) :
  free_list ns free fl → NoDup fl → first_free fl l → 0 < h → l + PAGE_SIZE <= MAX_LEN →
  (∀ k free' ns' l' fl', stored ns' (Leaf PAGE_SIZE []) → free_list ns' free' fl' →
    NoDup (PAGE_SIZE :: fl') → l' <= l + PAGE_SIZE →
    Φ tt (IPool PAGE_SIZE free' ns' l' (<[PAGE_SIZE:=(k, 1)]> (<[0:=(kc, 1)]> ∅)) (h - 1), w)) →
  awp (new_root kc) Φ (IPool root free ns l (<[0:=(kc, 1)]> ∅) h, w).
Proof using.
  intros Hfl Hnd Hfirst Hh HM HΦ. apply awp_rep. intros s [Hr _].
  assert (nodes_in ns l ∧ l <= MAX_LEN) as [Hin Hl].
  { pose proof (ipool_rep_ok _ _ Hr) as [Hdom [_ Hl]]. split; [|apply Hl].
    intros b Hb. by destruct (proj1 (Hdom b) Hb). }
  unfold new_root. awp_step. apply awp_idx. eapply ip_rd_free; [map_find|]. cbv beta.
  awp_step. apply awp_mono with (λ k g, ∃ free' ns' l' fl' v, ns' !! PAGE_SIZE = Some v ∧ node_shape v ∧
    free_list ns' free' fl' ∧ NoDup (PAGE_SIZE :: fl') ∧ l' <= l + PAGE_SIZE ∧
    g = (IPool root free' ns' l' (<[PAGE_SIZE:=(k, 1)]> (<[0:=(kc, 1)]> ∅)) (h - 1), w)).
  - destruct Hfirst as [[-> ->]|[fl' ->]]; simpl in Hfl.
    + subst free. cbn [Z.eqb Pos.eqb]. apply awp_idx. eapply ip_get_past; [done|done|map_find|pins_size|done|done|].
      intros k. exists (-1), (<[PAGE_SIZE:=view EMPTY_PAGE]> ns), (PAGE_SIZE + PAGE_SIZE), [], (view EMPTY_PAGE).
      split; [apply lookup_insert_eq|]. split; [apply view_shape|]. split; [done|]. split; [apply NoDup_singleton|done].
    + destruct Hfl as (-> & v & Hv & Hfl). cbn [Z.eqb Pos.eqb PAGE_SIZE].
      awp_step. apply awp_idx. eapply ip_get_node; [exact Hv|map_find|pins_size|lia|]. intros k. cbv beta.
      awp_step. apply awp_idx. eapply ip_read; [apply lookup_insert_eq|exact Hv|]. intros pg Hpg Hview.
      apply (wp_rd_next _ Hpg). rewrite Hview. split; [done|]. cbv beta.
      assert (in_s 64 (v_next v)) as Hnext by (eapply (free_list_fits ns l); [done|lia|exact Hfl]).
      awp_step. apply awp_idx. eapply ip_wr_free; [map_find|exact Hnext|]. cbv beta.
      awp_step. exists (v_next v), ns, l, fl', v. split; [done|]. split; [by eapply (ipool_rep_shape _ _ _ _ Hr)|].
      split; [done|]. split; [done|]. split; [unfold PAGE_SIZE; lia|done].
  - intros k g (free' & ns' & l' & fl' & v & Hv & Sv & Hfl' & Hnd' & Hl' & ->).
    destruct (shape_elim _ Sv) as (n & nx & cs & rs & lf & -> & Hcs & Hrs).
    set (pgs := [(PAGE_SIZE, k)]). pose proof (NoDup_singleton PAGE_SIZE : NoDup pgs.*1) as Hndp.
    assert (pinned (<[PAGE_SIZE:=(k, 1)]> (<[0:=(kc, 1)]> ∅)) pgs) as Hpin by (eapply pinned_one; map_find).
    eapply (awp_focus _ _ _ _ _ _ pgs _ _ [_]); [constructor; [exact Hv|constructor]|].
    do 3 (fo_step; fo_step). apply awp_idx. eapply ip_wr_root; [map_find|done|].
    apply (HΦ k free' _ l' fl'); [|by apply free_list_overlay; [intros y Hy; apply list_elem_of_singleton in Hy as ->; by apply NoDup_cons in Hnd' as [? _]|]|done|done].
    eexists. split; [by eapply (overlay_lookup pgs _ _ 0)|]. by apply (node_is_intro 0 (-1) [] cs [] rs 1).
Qed.

(** *** The index *)

Definition index_pages (o : option tree) : list Z := match o with None => [] | Some t => pages_of t end.

(** the keys of its internal nodes *)
Definition index_seps (o : option tree) : list RID := match o with None => [] | Some t => seps t end.

(** an index with the tree [o] and the free nodes [fl], no page of it pinned *)
Record index_holds (g : ipool) (keys : gmap RID K) (o : option tree) (fl : list Z) : Prop := {
  ih_root : rooted kcmp keys g o;
  ih_pins : i_pins g = ∅;
  ih_free : free_list (i_nodes g) (i_free g) fl;
  ih_pages : NoDup (index_pages o ++ fl);
  ih_empty : o = None → first_free fl (i_len g);
  ih_first : ∀ t, o = Some t → first_leaf t = PAGE_SIZE;
}.

Lemma insert_at_root_spec rid k keys m h t free ns l hh n fl fuel (Φ : RID → ipool * world K → Prop) :
  keys !! rid = Some k → wf kcmp keys m h None None t → (h = 0 ∨ 1 <= m)%nat → stored ns t →
  (∀ r, r ∈ elems t → keys !! r ≠ Some k) → (h < fuel)%nat →
  free_list ns free fl → NoDup (pages_of t ++ fl) → (∀ r, keys !! r = None → spare r) → Forall spare (seps t) →
  8 * cost * Z.of_nat (S h) + hcost <= n → 6 * Z.of_nat (S h) <= hh →
  l + 2 * PAGE_SIZE * Z.of_nat (S h) <= MAX_LEN →
  (∀ t' free' fl' ns' l' h' keys' n', rooted kcmp keys' (IPool (addr t') free' ns' l' ∅ h') (Some t') →
    free_list ns' free' fl' → NoDup (pages_of t' ++ fl') → first_leaf t' = first_leaf t → Forall spare (seps t') →
    keys ⊆ keys' → elems t' ≡ₚ rid :: elems t →
    (height t' <= S h)%nat → n - (8 * cost * Z.of_nat (S h) + hcost) <= n' → hh - 6 * Z.of_nat (S h) <= h' →
    l' <= l + 2 * PAGE_SIZE * Z.of_nat (S h) →
    Φ rid (IPool (addr t') free' ns' l' ∅ h', World keys' n')) →
  awp (insert_entry cmp insert_handler fuel (addr t) rid (addr t);; mret rid) Φ
    (IPool (addr t) free ns l ∅ hh, World keys n).
Proof using HC HI Hcost Hhcost KO KW.
  intros Hk Hwf Hm Hst Hno Hf Hfl Hnd Hspare Hspt Hn Hh HM HΦ. awp_step.
  eapply insert_entry_spec; [exact Hk|exact Hwf|exact Hm|exact Hst|done|done|exact Hno|by left|done|exact Hfl|done|exact Hspare|exact Hspt|done|done|done|].
  intros keys' n' res root' free' fl' ns' l' h' T' Hsub Hn' Hh' Hl' Hfr Hfl' Hout.
  pose proof (fs_nodup _ _ _ _ _ _ Hfr) as Hnd'. awp_step.
  destruct Hout as [t' Ea Ef Wt St Et Spt|t1 t2 sep km Hne|t' res _ Ef Wt St Et Spt]; [|done|].
  - rewrite <- Ea. pose proof (wf_height _ _ _ _ _ _ _ Wt) as Eh.
    eapply HΦ; try done; [|lia]. split; [done|]. rewrite Eh. split; [|done]. eapply wf_weaken; [|exact Wt]. lia.
  - pose proof (wf_height _ _ _ _ _ _ _ Wt) as Eh.
    eapply HΦ; try done; [|lia]. split; [done|]. by rewrite Eh.
Qed.

(** a root with children has more than one row *)
Lemma wf_two keys h lo hi t : wf kcmp keys 1 (S h) lo hi t → (2 <= length (elems t))%nat.
Proof using.
  destruct t as [|a c0 kids]; [done|]. intros [Hl Hk]. destruct kids as [|[r c] kids]; [simpl in Hl; lia|].
  cbn [kids_ok] in Hk. destruct Hk as (_ & H0 & Hk).
  assert (∃ lo' hi', wf kcmp keys 2 h lo' hi' c) as (lo' & hi' & Hc).
  { destruct kids as [|[r2 c2] kids]; cbn [kids_ok] in Hk; [eauto|]. destruct Hk as (_ & Hc & _). eauto. }
  destruct (wf_row _ _ _ _ _ _ H0) as [r0 Hr0], (wf_row _ _ _ _ _ _ Hc) as [r1 Hr1].
  cbn [elems flat_map snd]. rewrite !length_app.
  destruct (elems c0); [by apply not_elem_of_nil in Hr0|]. destruct (elems c); [by apply not_elem_of_nil in Hr1|].
  simpl. lia.
Qed.

End insert.

(** *** The whole index *)

Section index.
Context {K W : Type} {kcmp : K → K → Z} {KO : KeyOrder kcmp}.
Context {RW : Rep W (world K)} {KW : KeyWorld K W}.
Context (cmp : RID → RID → M W Z) (insert_handler : RID → M W RID) (cost hcost : Z).
Context {HC : RowComparer kcmp cmp cost} {HI : KeyCopier insert_handler hcost}.
Context (Hcost : 0 <= cost) (Hhcost : 0 <= hcost).
Local Abbreviation index_holds := (index_holds (kcmp := kcmp)).

(** what an insertion into [g] may leave *)
Record index_grown (g : ipool) (keys : gmap RID K) (o : option tree) (n : Z) (rid : RID)
    (g' : ipool) (keys' : gmap RID K) (o' : option tree) (n' : Z) : Prop := {
  ig_holds : ∃ fl', index_holds g' keys' o' fl';
  ig_keys : keys ⊆ keys';
  ig_rows : index_rows o' ≡ₚ rid :: index_rows o;
  ig_sorted : StronglySorted (row_lt kcmp keys') (index_rows o');
  ig_depth : index_depth o' <= index_depth o + 1;
  ig_ops : n - (8 * cost * index_depth o + hcost) <= n';
  ig_hits : i_hits g - 8 * index_depth o <= i_hits g';
  ig_seps : ∀ r, r ∈ index_seps o' → r ∈ index_seps o ∨ keys !! r = None;
  ig_len : i_len g' <= i_len g + 3 * PAGE_SIZE * index_depth o;
}.

Lemma b_tree_insert_spec rid k g keys o fl fuel n (Φ : RID → ipool * world K → Prop) :
  index_holds g keys o fl → keys !! rid = Some k → (∀ r, r ∈ index_rows o → keys !! r ≠ Some k) →
  index_depth o <= Z.of_nat fuel →
  8 * cost * index_depth o + hcost <= n → 8 * index_depth o <= i_hits g →
  i_len g + 3 * PAGE_SIZE * index_depth o <= MAX_LEN →
  (∀ g' keys' o' n', index_grown g keys o n rid g' keys' o' n' → Φ rid (g', World keys' n')) →
  awp (b_tree_insert cmp insert_handler fuel rid) Φ (g, World keys n).
Proof using HC HI Hcost Hhcost KO KW.
  intros [Hroot Hpins Hfl Hnd Hempty Hfirst] Hk Hno Hf Hn Hh HM HΦ.
  destruct g as [root free ns l ps hh]. cbn [i_root i_free i_nodes i_len i_pins i_hits] in *. subst ps.
  pose proof (eq_refl : PAGE_SIZE = 128) as HP. unfold b_tree_insert.
  assert (1 <= index_depth o) by (destruct o; simpl; lia).
  set (spare := λ r, r ∈ index_seps o ∨ keys !! r = None).
  assert (∀ r, keys !! r = None → spare r) as Hspare by (intros r Hr; by right).
  assert (Forall spare (index_seps o)) as Hspo by (apply Forall_forall; intros r Hr; by left).
  awp_step. apply awp_idx. eapply ip_get_ctrl; [map_find|pins_size|lia|]. intros kc.
  awp_step. apply awp_idx. eapply ip_rd_root; [map_find|]. cbv beta.
  destruct o as [t|]; cbn [index_depth index_rows index_pages rooted i_root i_nodes] in *.
  - destruct Hroot as (-> & Hwf & Hst). apply awp_nodes. intros Hin.
    destruct (stored_addr _ _ Hst) as [v Hv]. pose proof (Hin (addr t) ltac:(by eexists)) as Ha.
    rewrite (proj2 (Z.eqb_neq (addr t) (-1))) by lia. cbn [negb].
    awp_step. awp_step. apply awp_idx. eapply ip_get_node; [exact Hv|map_find|pins_size|lia|]. intros ka. awp_step.
    awp_step. apply awp_idx. eapply ip_rd_root; [map_find|]. cbv beta.
    awp_step. apply awp_idx. eapply ip_release; [map_find|]. cbv beta.
    awp_step. apply awp_idx. eapply ip_release; [map_find|]. cbv beta.
    assert (delete (addr t) (delete 0 (<[addr t:=(ka, 1)]> (<[0:=(kc, 1)]> ∅))) = (∅ : gmap Z (nat * Z))) as -> by pins_eq.
    eapply (insert_at_root_spec cmp insert_handler cost hcost Hcost Hhcost spare rid k keys 1 (height t) t); try done; [by right|lia|lia|lia|lia|].
    intros t' free' fl' ns' l' h' keys' n' Hr' Hfl' Hnd' Hft Hspt Hsub Et Hht Hn' Hh' Hl'. apply (HΦ _ _ (Some t')).
    constructor; cbn [index_rows index_depth i_hits i_len]; try done; try lia.
    + exists fl'. constructor; [done..|]. intros ? [= <-]. rewrite Hft. by apply Hfirst.
    + destruct Hr' as (_ & Wt & _). by eapply elems_sorted.
    + intros r Hr. rewrite Forall_forall in Hspt. by apply Hspt.
  - subst root. cbn [Z.eqb Pos.eqb negb].
    awp_step. eapply new_root_spec; [exact Hfl|done|by apply Hempty|lia|lia|].
    intros k0 free' ns' l' fl' St Hfl' Hnd' Hl'. cbv beta.
    awp_step. apply awp_idx. eapply ip_rd_root; [map_find|]. cbv beta.
    awp_step. apply awp_idx. eapply ip_release; [map_find|]. cbv beta.
    awp_step. apply awp_idx. eapply ip_release; [map_find|]. cbv beta.
    assert (delete PAGE_SIZE (delete 0 (<[PAGE_SIZE:=(k0, 1)]> (<[0:=(kc, 1)]> ∅))) = (∅ : gmap Z (nat * Z))) as -> by pins_eq.
    eapply (insert_at_root_spec cmp insert_handler cost hcost Hcost Hhcost spare rid k keys 0 0 (Leaf PAGE_SIZE []));
      [exact Hk|split; [simpl; lia|by repeat constructor]|by left|exact St| |lia|exact Hfl'|done|exact Hspare|constructor|lia|lia|lia|].
    { intros r []%not_elem_of_nil. }
    intros t' free2 fl2 ns2 l2 h2 keys2 n2 Hr2 Hfl2 Hnd2 Hft Hspt Hsub Et Hht Hn2 Hh2 Hl2. apply (HΦ _ _ (Some t')).
    constructor; cbn [index_rows index_depth i_hits i_len]; try done; try lia.
    + exists fl2. constructor; [done..|]. by intros ? [= <-].
    + destruct Hr2 as (_ & Wt & _). by eapply elems_sorted.
    + destruct Hr2 as (_ & Wt & _). destruct (height t') as [|h']; [lia|].
      apply wf_two in Wt. rewrite Et in Wt. simpl in Wt. lia.
    + intros r Hr. rewrite Forall_forall in Hspt. by apply Hspt.
Qed.
End index.
