(* ===== verification/BTreeDeleteSpec.v ===== *)
(** What a deletion leaves of a node and its children, and [delete_row]: a row
    leaves a leaf, whose brother may give it a row or be merged with it. *)
From stdpp Require Import base gmap list fin_maps sorting.
From Stdlib Require Import ZArith Lia Strings.Byte.
From S2P Require Import Prelude FileIO BufferPool PoolLogic PoolClient Table HeapStore BTree NodeSpec NodeFocus TreeSpec NodeOps.
From S2P Require Import TreeFrame BTreeSearch TreeInsert TreeDelete TreeBrothers NodeDelete BTreeInsert BTreeDelete BTreeInsertSpec.
#[local] Open Scope Z_scope.

(** a node of children that are given as a pair *)
Abbreviation node_of q t := (Node q t.1 t.2).

(** the node [q] around its child [x], whose own page is left out *)
Definition hole_stored (ns : gmap Z nview) (q : Z) (p : list (tree * RID)) (x : tree) (s : list (RID * tree)) : Prop :=
  stored_node ns q false (p.*2 ++ s.*1) (((λ tr, addr tr.1) <$> p) ++ addr x :: ((λ rc, addr rc.2) <$> s)) ∧
  below_stored ns x ∧ Forall (λ tr, stored ns tr.1) p ∧ Forall (λ rc, stored ns rc.2) s.

Lemma hole_intro ns q p x s : stored ns (node_of q (plug p x s)) → hole_stored ns q p x s ∧ stored ns x.
Proof.
  intros (Hq & H0 & Hk)%stored_kids. unfold kid_addrs in Hq. rewrite plug_seps, (plug_children addr) in Hq.
  destruct (proj1 (plug_forall (stored ns) p x s) (conj H0 Hk)) as (Hp & Hx & Hs).
  split; [|done]. split; [done|]. split; [by apply stored_page|done].
Qed.

(** ** Two brothers and their parent on their pages *)

Section pair.
Context (q : Z) (p : list (tree * RID)) (s : list (RID * tree)).
Local Abbreviation row_addrs x y := (((λ tr, addr tr.1) <$> p) ++ addr x :: y :: ((λ rc, addr rc.2) <$> s)).

Lemma pair_page_rows x r y : (plug p x ((r, y) :: s)).2.*1 = p.*2 ++ r :: s.*1.
Proof using. by rewrite plug_seps. Qed.
Lemma pair_page_addrs x r y :
  kid_addrs (plug p x ((r, y) :: s)).1 (plug p x ((r, y) :: s)).2 = row_addrs x (addr y).
Proof using. unfold kid_addrs. by rewrite (plug_children addr). Qed.

Lemma pair_pages x r y : pages_of (Node q (plug p x ((r, y) :: s)).1 (plug p x ((r, y) :: s)).2) ≡ₚ
  (q :: addr x :: addr y :: below_pages x ++ below_pages y) ++ flat_map (λ tr, pages_of tr.1) p ++ kid_pages s.
Proof using.
  cbn [pages_of]. rewrite (plug_flat pages_of). unfold kid_pages. cbn [flat_map snd]. rewrite !pages_below. perm.
Qed.

Context (x : tree) (r : RID) (y : tree) (ns ns' : gmap Z nview).
Definition pair_stored : Prop :=
  stored_node ns q false (p.*2 ++ r :: s.*1) (row_addrs x (addr y)) ∧
  below_stored ns x ∧ below_stored ns y ∧ Forall (λ tr, stored ns tr.1) p ∧ Forall (λ rc, stored ns rc.2) s.

Context (Hst : pair_stored).
Context (Hnd : NoDup (pages_of (Node q (plug p x ((r, y) :: s)).1 (plug p x ((r, y) :: s)).2))).
Context (Hother : ∀ b, b ≠ q → b ≠ addr x → b ≠ addr y → ns' !! b = ns !! b).

Lemma pair_nodup : NoDup ((q :: addr x :: addr y :: below_pages x ++ below_pages y) ++ flat_map (λ tr, pages_of tr.1) p ++ kid_pages s).
Proof using Hnd. by rewrite <- pair_pages. Qed.

Lemma pair_ne : addr x ≠ addr y ∧ addr x ≠ q ∧ addr y ≠ q.
Proof using Hnd.
  pose proof pair_nodup as H. cbn [app] in H. rewrite !NoDup_cons, !elem_of_cons in H. clear -H. naive_solver.
Qed.

(** the pages of all other nodes *)
Lemma pair_same b : b ∈ (below_pages x ++ below_pages y) ++ flat_map (λ tr, pages_of tr.1) p ++ kid_pages s →
  ns' !! b = ns !! b.
Proof using Hnd Hother.
  intros Hb. pose proof pair_nodup as H. rewrite <- !app_comm_cons, !NoDup_cons, !elem_of_cons in H.
  apply Hother; intros ->; clear -H Hb; tauto.
Qed.

Lemma pair_frame : below_stored ns' x ∧ below_stored ns' y ∧
  Forall (λ tr, stored ns' tr.1) p ∧ Forall (λ rc, stored ns' rc.2) s.
Proof using Hst Hnd Hother.
  destruct Hst as (_ & Hx & Hy & Hp & Hs). split; [|split; [|split]].
  - eapply below_frame; [|exact Hx]. intros b Hb. apply pair_same. rewrite !elem_of_app. auto.
  - eapply below_frame; [|exact Hy]. intros b Hb. apply pair_same. rewrite !elem_of_app. auto.
  - rewrite Forall_forall in *. intros tr Htr. eapply stored_frame; [|by apply Hp]. intros b Hb. apply pair_same.
    rewrite !elem_of_app. right. left. apply list_elem_of_In, in_flat_map. exists tr. by rewrite <- !list_elem_of_In.
  - rewrite Forall_forall in *. intros rc Hrc. eapply stored_frame; [|by apply Hs]. intros b Hb. apply pair_same.
    rewrite !elem_of_app. right. right. apply list_elem_of_In, in_flat_map. exists rc. by rewrite <- !list_elem_of_In.
Qed.

(** two brothers at the same pages, with a key between them *)
Lemma pair_moved x' r' y' vq : addr x' = addr x → addr y' = addr y → stored ns' x' → stored ns' y' →
  ns' !! q = Some vq → node_is vq false (<[length p := r']> (p.*2 ++ r :: s.*1)) (row_addrs x (addr y)) →
  stored ns' (Node q (plug p x' ((r', y') :: s)).1 (plug p x' ((r', y') :: s)).2).
Proof using Hst Hnd Hother.
  intros Ex Ey Sx Sy Hq Hvq. destruct pair_frame as (_ & _ & Sp & Ss).
  rewrite insert_app_r_alt in Hvq by (by rewrite length_fmap). rewrite length_fmap, Nat.sub_diag in Hvq.
  apply stored_kids. rewrite pair_page_rows, pair_page_addrs, Ex, Ey.
  destruct (proj2 (plug_forall (stored ns') p x' ((r', y') :: s))) as [S0 Sk].
  { split; [done|]. split; [done|]. by constructor. }
  split; [by exists vq|done].
Qed.

(** one brother at the page of the left one, with the parent still unchanged *)
Lemma pair_merged m vq : addr m = addr x → stored ns' m → ns !! q = Some vq → ns' !! q = Some vq →
  stored_node ns' q false (p.*2 ++ r :: s.*1) (row_addrs m (addr y)) ∧
  below_stored ns' (Node q (plug p m s).1 (plug p m s).2).
Proof using Hst Hnd Hother.
  intros Em Sm Hq Hq'. destruct pair_frame as (_ & _ & Sp & Ss). destruct Hst as ((v & Hv & Hn) & _).
  simplify_eq. split; [exists vq; by rewrite Em|]. by apply (plug_forall (stored ns')).
Qed.
End pair.

(** the brother on the right of [x], or on the left of [y] *)
Lemma pair_right ns q p x r y s : hole_stored ns q p x ((r, y) :: s) → pair_stored q p s x r y ns ∧ stored ns y.
Proof. intros (Hq & Hx & Hp & [Hy Hs]%Forall_cons). split; [|done]. split; [done|]. split; [done|]. split; [by apply stored_page|done]. Qed.

Lemma pair_left ns q p x r y s : hole_stored ns q (p ++ [(x, r)]) y s → pair_stored q p s x r y ns ∧ stored ns x.
Proof.
  intros (Hq & Hy & [Hp [Hx _]%Forall_cons]%Forall_app & Hs). rewrite !fmap_app, <- !app_assoc in Hq.
  split; [|done]. split; [exact Hq|]. split; [by apply stored_page|done].
Qed.

(** a child whose pages changed, in its place *)
Section hole.
Context (ns ns' : gmap Z nview) (q : Z) (p : list (tree * RID)) (x : tree) (s : list (RID * tree)).
Context (Hst : hole_stored ns q p x s) (Hnd : NoDup (pages_of (node_of q (plug p x s)))).
Context (Hother : ∀ b, b ∈ pages_of (node_of q (plug p x s)) → b ∉ pages_of x → ns' !! b = ns !! b).

Lemma hole_frame x' : addr x' = addr x → below_stored ns' x' → hole_stored ns' q p x' s.
Proof using All.
  intros Ex Hx'. destruct Hst as ((v & Hv & Hn) & _ & Hp & Hs).
  assert (pages_of (node_of q (plug p x s)) ≡ₚ pages_of x ++ q :: flat_map (λ tr, pages_of tr.1) p ++ kid_pages s) as E.
  { cbn [pages_of]. rewrite (plug_flat pages_of). unfold kid_pages. perm. }
  assert (∀ b, b ∈ q :: flat_map (λ tr, pages_of tr.1) p ++ kid_pages s → ns' !! b = ns !! b) as Hsame.
  { intros b Hb. rewrite E in Hnd. apply NoDup_app in Hnd as (_ & Hd & _). apply Hother.
    - rewrite E. apply elem_of_app. by right.
    - intros Hbx. by apply (Hd b). }
  split; [exists v; split; [rewrite Hsame by (by left); done|by rewrite Ex]|]. split; [done|].
  rewrite Forall_forall in *. split; [intros tr Htr|rewrite Forall_forall in *; intros rc Hrc].
  - eapply stored_frame; [|by apply Hp]. intros b Hb. apply Hsame. right. apply elem_of_app. left.
    apply list_elem_of_In, in_flat_map. exists tr. by rewrite <- !list_elem_of_In.
  - eapply stored_frame; [|by apply Hs]. intros b Hb. apply Hsame. right. apply elem_of_app. right.
    apply list_elem_of_In, in_flat_map. exists rc. by rewrite <- !list_elem_of_In.
Qed.
End hole.

Lemma hole_elim ns q p x s : hole_stored ns q p x s → stored ns x → stored ns (node_of q (plug p x s)).
Proof.
  intros (Hq & _ & Hp & Hs) Hx. apply stored_kids. unfold kid_addrs. rewrite plug_seps, (plug_children addr).
  split; [done|]. by apply (plug_forall (stored ns)).
Qed.

(** ** What a deletion leaves *)

Section delete.
Context {K W : Type} {kcmp : K → K → Z} {KO : KeyOrder kcmp}.
Context {RW : Rep W (world K)} {KW : KeyWorld K W}.
Context (cmp : RID → RID → M W Z) (insert_handler : RID → M W RID) (delete_handler : RID → M W unit).
Context (cost hcost dcost : Z) (spare : RID → Prop).
Context {HC : RowComparer kcmp cmp cost} {HI : KeyCopier insert_handler hcost}.
Context {HD : KeyDropper spare delete_handler dcost}.
Context (Hcost : 0 <= cost) (Hhcost : 0 <= hcost) (Hdcost : 0 <= dcost).

(** The node [q] has as many children as before; or two of them, of height
    [h], were merged, and its page still has the key and the page of the
    second.  [es] are its rows, [old] the keys below it before. *)
Inductive shrunk (keys : gmap RID K) (es : list RID) (f q : Z) (h : nat) (lo hi : option K) (nk : nat)
    (old : list RID) (ns : gmap Z nview) : Z → list Z → Prop :=
  | same_kids t :
      kids_ok kcmp keys (wf kcmp keys 2 h) lo hi t.1 t.2 → length t.2 = nk → stored ns (node_of q t) →
      elems (node_of q t) ≡ₚ es → first_leaf t.1 = f → Forall spare (seps (node_of q t)) →
      shrunk keys es f q h lo hi nk old ns (-1) (pages_of (node_of q t))
  | merged_kids p m s r y :
      kids_ok kcmp keys (wf kcmp keys 2 h) lo hi (plug p m s).1 (plug p m s).2 → S (length p + length s) = nk →
      stored_node ns q false (p.*2 ++ r :: s.*1) (((λ tr, addr tr.1) <$> p) ++ addr m :: y :: ((λ rc, addr rc.2) <$> s)) →
      below_stored ns (node_of q (plug p m s)) →
      elems (node_of q (plug p m s)) ≡ₚ es → first_leaf (plug p m s).1 = f →
      Forall spare (seps (node_of q (plug p m s))) → is_Some (keys !! r) → in_s 64 y →
      (h = 0%nat → spare r ∧ r ∈ old ∧ r ∉ seps (node_of q (plug p m s))) →
      shrunk keys es f q h lo hi nk old ns (Z.of_nat (length p)) (pages_of (node_of q (plug p m s))).

(** the state after a deletion that started with the pages [T] and the free
    list [fl], and may use [nb] operations and [hb] pages *)
Definition after_delete (keys : gmap RID K) (n nb hh hb : Z) (es : list RID) (f q : Z) (h : nat)
    (lo hi : option K) (nk : nat) (old : list RID) (T fl : list Z) (ns : gmap Z nview) (l root : Z)
    (Φ : Z → ipool * world K → Prop) : Prop :=
  ∀ keys' n' res free' fl' ns' h' T',
    n - nb <= n' → hh - hb <= h' →
    (∀ r, r ∉ old → is_Some (keys !! r) → keys' !! r = keys !! r) →
    T' ++ fl' ≡ₚ T ++ fl → (∀ x, x ∉ T ++ fl → ns' !! x = ns !! x) → free_list ns' free' fl' →
    shrunk keys' es f q h lo hi nk old ns' res T' →
    Φ res (IPool root free' ns' l ∅ h', World keys' n').

Lemma awp_room {A} (m : M (BufferPool * W) A) (Φ : A → ipool * world K → Prop) root free ns l ps h w :
  (nodes_in ns l → l <= MAX_LEN → awp m Φ (IPool root free ns l ps h, w)) → awp m Φ (IPool root free ns l ps h, w).
Proof using.
  intros Hm. apply awp_rep. intros s [Hr _]. pose proof (ipool_rep_ok _ _ Hr) as [Hd [_ Hl]]. apply Hm; [|apply Hl].
  intros a Ha. by destruct (proj1 (Hd a) Ha).
Qed.

(** *** The end of a move between brothers, and of their merge *)

Section finish.
Context (keys : gmap RID K) (n nb hh hb : Z) (es : list RID) (q : Z) (h : nat) (lo hi : option K) (old : list RID).
Context (fl : list Z) (ns : gmap Z nview) (l root free : Z) (Φ : Z → ipool * world K → Prop).
Context (p : list (tree * RID)) (x : tree) (r : RID) (y : tree) (s : list (RID * tree)).
Local Abbreviation P := (plug p x ((r, y) :: s)).
Context (Hst : pair_stored q p s x r y ns) (Hnd : NoDup (pages_of (node_of q P) ++ fl)) (Hfl : free_list ns free fl).
Context (HΦ : after_delete keys n nb hh hb es (first_leaf P.1) q h lo hi (length P.2) old (pages_of (node_of q P)) fl ns l root Φ).
Context (keys' : gmap RID K) (n' h' : Z) (ns' : gmap Z nview) (Hn : n - nb <= n') (Hh : hh - hb <= h').
Context (Hkeys : ∀ r, r ∉ old → is_Some (keys !! r) → keys' !! r = keys !! r).
Context (Hother : ∀ b, b ≠ q → b ≠ addr x → b ≠ addr y → ns' !! b = ns !! b).

Lemma pair_addrs : q ∈ pages_of (node_of q P) ∧ addr x ∈ pages_of (node_of q P) ∧ addr y ∈ pages_of (node_of q P).
Proof using.
  rewrite !(elem_of_Permutation_proper _ _ _ (pair_pages q p s x r y)). cbn [app]. rewrite !elem_of_cons. tauto.
Qed.

Lemma pair_outside b : b ∉ pages_of (node_of q P) → ns' !! b = ns !! b.
Proof using Hother. intros Hb. destruct pair_addrs as (H1 & H2 & H3). apply Hother; by intros ->. Qed.

Lemma pair_fl b : b ∈ fl → ns' !! b = ns !! b.
Proof using Hother Hnd. intros Hb. apply pair_outside. intros H. apply NoDup_app in Hnd as (_ & H1 & _). by eapply H1. Qed.

Lemma finish_moved x' r' y' vq :
  addr x' = addr x → addr y' = addr y → stored ns' x' → stored ns' y' → ns' !! q = Some vq →
  node_is vq false (<[length p := r']> (p.*2 ++ r :: s.*1))
    (((λ tr, addr tr.1) <$> p) ++ addr x :: addr y :: ((λ rc, addr rc.2) <$> s)) →
  kids_ok kcmp keys' (wf kcmp keys' 2 h) lo hi (plug p x' ((r', y') :: s)).1 (plug p x' ((r', y') :: s)).2 →
  below_pages x' ++ below_pages y' ≡ₚ below_pages x ++ below_pages y →
  elems (node_of q (plug p x' ((r', y') :: s))) ≡ₚ es → first_leaf x' = first_leaf x →
  Forall spare (seps (node_of q (plug p x' ((r', y') :: s)))) →
  Φ (-1) (IPool root free ns' l ∅ h', World keys' n').
Proof using Hst Hnd Hfl HΦ Hn Hh Hkeys Hother.
  intros Ex Ey Sx Sy Hq Hvq Hok Hp He Hf Hs. pose proof Hnd as Hnd'. apply NoDup_app in Hnd' as (Hnd' & _ & _).
  eapply HΦ; [done|done|done| | |eapply free_list_frame; [exact pair_fl|exact Hfl]|apply same_kids; [exact Hok| | |exact He| |exact Hs]].
  - rewrite !pair_pages, Ex, Ey. apply Permutation_app_tail. cbn [app]. do 3 constructor. by rewrite Hp.
  - intros b Hb. apply pair_outside. intros H. apply Hb, elem_of_app. by left.
  - by rewrite !plug_length.
  - eapply pair_moved; [exact Hst|exact Hnd'|exact Hother|done..|exact Hvq].
  - rewrite !first_leaf_plug. by destruct p as [|[? ?] ?].
Qed.

Lemma finish_merged m vq vy :
  addr m = addr x → stored ns' m → ns !! q = Some vq → ns' !! q = Some vq → ns' !! addr y = Some vy → v_next vy = free →
  kids_ok kcmp keys' (wf kcmp keys' 2 h) lo hi (plug p m s).1 (plug p m s).2 →
  below_pages m ≡ₚ below_pages x ++ below_pages y →
  elems (node_of q (plug p m s)) ≡ₚ es → first_leaf m = first_leaf x →
  Forall spare (seps (node_of q (plug p m s))) → is_Some (keys' !! r) → in_s 64 (addr y) →
  (h = 0%nat → spare r ∧ r ∈ old ∧ r ∉ seps (node_of q (plug p m s))) →
  Φ (Z.of_nat (length p)) (IPool root (addr y) ns' l ∅ h', World keys' n').
Proof using Hst Hnd Hfl HΦ Hn Hh Hkeys Hother.
  intros Em Sm Hq Hq' Hy Hvy Hok Hp He Hf Hs Hr Hy64 Hr0. pose proof Hnd as Hnd'. apply NoDup_app in Hnd' as (Hnd' & _ & _).
  destruct (pair_merged q p s x r y ns ns' Hst Hnd' Hother m vq Em Sm Hq Hq') as [Hpage Hbelow].
  eapply (HΦ _ _ _ _ (addr y :: fl)); [done|done|done| | | |eapply merged_kids; [exact Hok| |exact Hpage|exact Hbelow|exact He| |exact Hs|exact Hr|exact Hy64|exact Hr0]].
  - rewrite pair_pages. cbn [pages_of]. rewrite (plug_flat pages_of), (pages_below m), Em.
    unfold kid_pages. perm.
  - intros b Hb. apply pair_outside. intros H. apply Hb, elem_of_app. by left.
  - split; [done|]. exists vy. split; [done|]. rewrite Hvy. eapply free_list_frame; [exact pair_fl|exact Hfl].
  - rewrite !plug_length. simpl. lia.
  - rewrite !first_leaf_plug. by destruct p as [|[? ?] ?].
Qed.
End finish.

(** *** The brother *)

Lemma find_child_spec root free ns l ps h a ka c v rs cs w (i : nat) y (Φ : Z → ipool * world K → Prop) :
  ps !! a = Some (ka, c) → ns !! a = Some v → node_is v false rs cs → length cs = S (length rs) → NoDup cs →
  cs !! i = Some y → Φ (Z.of_nat i) (IPool root free ns l ps h, w) →
  awp (find_child ka y) Φ (IPool root free ns l ps h, w).
Proof using.
  intros Hp Hns Hv Hl Hnd Hi HΦ. pose proof (lookup_lt_Some _ _ _ Hi) as Hlt. unfold find_child.
  awp_step. eapply nd_read_n; [exact Hp|exact Hns|exact Hv|]. cbv beta. unfold find_ne.
  rewrite (proj2 (Z.ltb_ge _ 0)) by lia.
  apply (awp_iter_find _ _ _ (λ z, z =? Z.of_nat i) (λ _ g, g = (IPool root free ns l ps h, w))); [done| |].
  - intros z g Hz ->. destruct (lookup_lt_is_Some_2 cs (Z.to_nat z)) as [b Hb]; [lia|].
    awp_step. eapply nd_read_child with (i:=Z.to_nat z); [exact Hp|exact Hns|exact Hv|lia|exact Hb|]. cbv beta.
    awp_step. split; [|done]. destruct (Z.eqb_spec z (Z.of_nat i)) as [->|Hne].
    + rewrite Nat2Z.id in Hb. simplify_eq. by rewrite Z.eqb_refl.
    + apply Z.eqb_neq. intros ->. apply Hne. pose proof (NoDup_lookup _ _ _ _ Hnd Hb Hi). lia.
  - intros z j g Hz Hbefore Hat _ ->. assert (z = Z.of_nat i) as ->; [|exact HΦ].
    destruct (Z.lt_trichotomy z (Z.of_nat i)) as [Hlt'|[?|Hgt]]; [|done|].
    + specialize (Hat ltac:(lia)). lia.
    + specialize (Hbefore (Z.of_nat i) ltac:(lia)). lia.
Qed.

Section brother.
Context (root free : Z) (ns : gmap Z nview) (l hh : Z) (w : world K) (q : Z) (p : list (tree * RID)) (x : tree) (s : list (RID * tree)).
Context (Hst : hole_stored ns q p x s) (Hnd : NoDup (pages_of (node_of q (plug p x s)))) (Hin : nodes_in ns l).
Context (Hlen : (1 <= length p + length s)%nat) (Hhh : 2 < hh) (ka : Ptr) (Hxs : is_Some (ns !! addr x)).
Local Abbreviation start := (IPool root free ns l (<[addr x:=(ka, 1)]> ∅) hh, w).

Lemma child_not_parent t : t ∈ p.*1 ++ x :: s.*2 → addr t ≠ q.
Proof using Hnd.
  clear -Hnd. apply NoDup_cons in Hnd as [Hq _]. intros Ht E. apply Hq. rewrite <- E. unfold kid_pages. rewrite (plug_flat pages_of).
  assert (∀ t, addr t ∈ pages_of t) as Hat by (intros u; rewrite pages_below; by left).
  apply elem_of_app in Ht as [(tr & -> & Htr)%list_elem_of_fmap|[->|(rc & -> & Hrc)%list_elem_of_fmap]%elem_of_cons];
    rewrite !elem_of_app; [left|auto|right; right]; apply list_elem_of_In, in_flat_map; eexists;
    (split; [by apply list_elem_of_In|]); apply list_elem_of_In, Hat.
Qed.

Lemma pick_brother_spec (on_right on_left : Ptr → Z → Z → Ptr → Z → M (BufferPool * W) Z) (Φ : Z → ipool * world K → Prop) :
  (∀ r y s' kq kb, s = (r, y) :: s' →
    awp (on_right kq (Z.of_nat (length p)) (addr y) kb (Z.of_nat (length (page_rows y)))) Φ
      (IPool root free ns l (pins3 (addr x) ka (addr y) kb q kq) (hh - 2), w)) →
  (∀ r y p' kq kb, p = p' ++ [(y, r)] → s = [] →
    awp (on_left kq (Z.of_nat (length p)) (addr y) kb (Z.of_nat (length (page_rows y)))) Φ
      (IPool root free ns l (pins3 (addr x) ka (addr y) kb q kq) (hh - 2), w)) →
  awp (node_par ← idx (get_page q);
       ttmp ← find_child node_par (addr x);
       pn ← nd node_par rd_n;
       if negb (ttmp =? pn) then
         addr_bro ← nd node_par (rd_child (ttmp + 1));
         brother ← idx (get_page addr_bro);
         bn ← nd brother rd_n;
         on_right node_par ttmp addr_bro brother bn
       else
         addr_bro ← nd node_par (rd_child (ttmp - 1));
         brother ← idx (get_page addr_bro);
         bn ← nd brother rd_n;
         on_left node_par ttmp addr_bro brother bn) Φ start.
Proof using Hst Hnd Hin Hlen Hhh Hxs.
  intros Hright Hleft. destruct Hst as ((vq & Hvq & Hnq) & _ & Hp & Hs).
  assert (NoDup (pages_of (plug p x s).1 ++ kid_pages (plug p x s).2)) as Hnd' by (by apply NoDup_cons in Hnd as [_ ?]).
  pose proof child_not_parent as Hne.
  apply kid_addrs_nodup in Hnd' as Hca. unfold kid_addrs in Hca. rewrite (plug_children addr) in Hca.
  assert (addr x ≠ q) as Hxq by (apply Hne; rewrite elem_of_app, elem_of_cons; auto).
  assert (length (p.*2 ++ s.*1) = length p + length s)%nat as Hlr by (by rewrite length_app, !length_fmap).
  awp_step. apply awp_idx. eapply ip_get_node; [exact Hvq|map_find|pins_size|lia|]. intros kq. cbv beta.
  awp_step. eapply find_child_spec with (a:=q) (i:=length p); [map_find|exact Hvq|exact Hnq| |exact Hca| |].
  { rewrite length_app. simpl. rewrite !length_fmap. lia. }
  { rewrite lookup_app_r by (by rewrite length_fmap). by rewrite length_fmap, Nat.sub_diag. }
  cbv beta. awp_step. eapply nd_read_n with (a:=q); [map_find|exact Hvq|exact Hnq|]. cbv beta. rewrite Hlr.
  destruct s as [|[r y] s'].
  - simpl. rewrite Nat.add_0_r, Z.eqb_refl. cbn [negb].
    destruct (list_snoc p) as (p' & [y r] & Ep); [intros ->; simpl in Hlen; lia|].
    rewrite Ep in Hp. apply Forall_app in Hp as [_ [Hy _]%Forall_cons]. cbn [fst] in Hy.
    assert (addr y ≠ q) as Hyq.
    { apply Hne. rewrite Ep, fmap_app. simpl. rewrite !elem_of_app, elem_of_cons. auto. }
    assert (addr y ≠ addr x) as Hyx.
    { rewrite Ep, fmap_app, <- app_assoc in Hca. apply NoDup_app in Hca as (_ & _ & Hca). simpl in Hca.
      apply NoDup_cons in Hca as [Hca _]. by rewrite list_elem_of_singleton in Hca. }
    apply stored_page in Hy as [(vy & Hvy & Hny) _].
    awp_step. eapply nd_read_child with (a:=q) (i:=length p'); [map_find|exact Hvq|exact Hnq| | |].
    { rewrite Ep, length_app. simpl. lia. }
    { rewrite Ep, fmap_app, <- app_assoc, lookup_app_r by (by rewrite length_fmap). by rewrite length_fmap, Nat.sub_diag. }
    cbv beta. awp_step. apply awp_idx. eapply ip_get_node; [exact Hvy|map_find|pins_size|lia|]. intros kb. cbv beta.
    awp_step. eapply nd_read_n with (a:=addr y); [map_find|exact Hvy|exact Hny|]. cbv beta.
    replace (hh - 1 - 1) with (hh - 2) by lia. by eapply Hleft.
  - rewrite (proj2 (Z.eqb_neq _ _)) by (simpl; lia). cbn [negb].
    apply Forall_cons in Hs as [Hy _]. cbn [snd] in Hy.
    assert (addr y ≠ q) as Hyq by (apply Hne, elem_of_app; right; right; left).
    assert (addr y ≠ addr x) as Hyx.
    { apply NoDup_app in Hca as (_ & _ & Hca). simpl in Hca. apply NoDup_cons in Hca as [Hca _].
      intros E. apply Hca. rewrite E. by left. }
    apply stored_page in Hy as [(vy & Hvy & Hny) _].
    awp_step. eapply nd_read_child with (a:=q) (i:=S (length p)); [map_find|exact Hvq|exact Hnq|lia| |].
    { rewrite lookup_app_r by (rewrite length_fmap; lia). rewrite length_fmap.
      replace (S (length p) - length p)%nat with 1%nat by lia. done. }
    cbv beta. awp_step. apply awp_idx. eapply ip_get_node; [exact Hvy|map_find|pins_size|lia|]. intros kb. cbv beta.
    awp_step. eapply nd_read_n with (a:=addr y); [map_find|exact Hvy|exact Hny|]. cbv beta.
    replace (hh - 1 - 1) with (hh - 2) by lia. by eapply Hright.
Qed.
End brother.

(** *** Two leaves *)

(** the keys of other identifiers, when a key takes the place of another *)
Lemma swap_agree (keys : gmap RID K) r sep' k L :
  delete r keys !! sep' = None → (∀ x, x ∈ L → x ≠ r ∧ is_Some (keys !! x)) →
  agree keys (<[sep':=k]> (delete r keys)) L.
Proof using.
  intros H HL x Hx. destruct (HL x Hx) as [Hne [kx Hkx]].
  assert (delete r keys !! x = Some kx) as Hx' by (by rewrite lookup_delete_ne).
  rewrite lookup_insert_ne; [by rewrite Hx', Hkx|]. intros ->. by rewrite H in Hx'.
Qed.

Lemma pair_seps q p x r y s :
  seps (node_of q (plug p x ((r, y) :: s))) ≡ₚ r :: (seps x ++ seps y) ++ around_seps p s.
Proof using.
  change (seps (plug p x ((r, y) :: s)).1 ++ kid_seps (plug p x ((r, y) :: s)).2 ≡ₚ r :: (seps x ++ seps y) ++ around_seps p s).
  rewrite plug_seps_all. unfold around_seps, kid_seps. cbn [flat_map fst snd]. perm.
Qed.

Lemma pair_elems q p x r y s :
  elems (node_of q (plug p x ((r, y) :: s))) ≡ₚ (elems x ++ elems y) ++ around_elems p s.
Proof using.
  cbn [elems]. rewrite (plug_flat elems). unfold around_elems. cbn [flat_map fst snd]. perm.
Qed.

Lemma hole_seps q p x s : seps (node_of q (plug p x s)) ≡ₚ seps x ++ around_seps p s.
Proof using.
  change (seps (plug p x s).1 ++ kid_seps (plug p x s).2 ≡ₚ seps x ++ around_seps p s).
  rewrite plug_seps_all. unfold around_seps. perm.
Qed.

Lemma hole_elems q p x s : elems (node_of q (plug p x s)) ≡ₚ elems x ++ around_elems p s.
Proof using. cbn [elems]. rewrite (plug_flat elems). unfold around_elems. perm. Qed.

(** what a well-formed node says of its identifiers *)
Lemma node_known keys h lo hi q t : (length t.2 <= 4)%nat → kids_ok kcmp keys (wf kcmp keys 2 h) lo hi t.1 t.2 →
  NoDup (seps (node_of q t)) ∧ (∀ r, r ∈ seps (node_of q t) → is_Some (keys !! r)) ∧
  (∀ r, r ∈ elems (node_of q t) → is_Some (keys !! r)).
Proof using KO.
  intros Hl Hok. assert (wf kcmp keys 0 (S h) lo hi (node_of q t)) as Hwf by (split; [lia|done]).
  split; [by eapply seps_nodup|]. split; intros r Hr; [by eapply seps_known|by eapply elems_known].
Qed.

Section leaf_pair.
Context (keys : gmap RID K) (n nb hh hb : Z) (es : list RID) (q : Z) (lo hi : option K).
Context (fl : list Z) (ns : gmap Z nview) (l root free : Z) (Φ : Z → ipool * world K → Prop).
Context (p : list (tree * RID)) (ax : Z) (xs : list RID) (r : RID) (ay : Z) (ys : list RID) (s : list (RID * tree)).
Local Abbreviation P := (plug p (Leaf ax xs) ((r, Leaf ay ys) :: s)).
Context (Hst : pair_stored q p s (Leaf ax xs) r (Leaf ay ys) ns) (Hnd : NoDup (pages_of (node_of q P) ++ fl)) (Hfl : free_list ns free fl).
Context (Hok : kids_ok kcmp keys (wf kcmp keys 2 0) lo hi P.1 P.2) (Hl4 : (length P.2 <= 4)%nat).
Context (Hsp : Forall spare (seps (node_of q P))) (Hrow : Forall (λ r, ¬ spare r) (elems (node_of q P))).
Context (HΦ : after_delete keys n nb hh hb es (first_leaf P.1) q 0 lo hi (length P.2) (seps (node_of q P)) (pages_of (node_of q P)) fl ns l root Φ).
(** the rows without the one that leaves *)
Context (rid : RID) (kr : K) (xs0 ys0 : list RID) (Hkr : keys !! r = Some kr).
Context (Hx0 : wf kcmp keys 1 0 (lower keys lo p) (Some kr) (Leaf ax xs0)).
Context (Hy0 : wf kcmp keys 1 0 (Some kr) (upper keys hi s) (Leaf ay ys0)).
Context (Hperm : xs ++ ys ≡ₚ rid :: xs0 ++ ys0) (Hes : elems (node_of q P) ≡ₚ rid :: es).
Context (n' h' : Z) (ns' : gmap Z nview) (Hn : n - nb <= n') (Hh : hh - hb <= h').
Context (Hother : ∀ b, b ≠ q → b ≠ ax → b ≠ ay → ns' !! b = ns !! b).

Lemma leaf_pair_facts : within kcmp keys (lower keys lo p) (upper keys hi s) r ∧ around (kcmp := kcmp) keys 0 lo hi p s ∧ spare r ∧
  r ∉ around_seps p s ∧ Forall spare (around_seps p s) ∧
  (∀ x, x ∈ around_seps p s → x ≠ r ∧ is_Some (keys !! x)) ∧
  (∀ x, x ∈ around_elems p s ++ xs0 ++ ys0 → x ≠ r ∧ is_Some (keys !! x)) ∧ es ≡ₚ (xs0 ++ ys0) ++ around_elems p s.
Proof using All.
  destruct (pair_elim _ _ _ _ _ _ _ _ _ Hok) as (kr' & Ekr & Hw & _ & _ & Ha).
  destruct (node_known keys 0 lo hi q P Hl4 Hok) as (HndS & HkS & HkE).
  assert (es ≡ₚ (xs0 ++ ys0) ++ around_elems p s) as E.
  { apply (Permutation_cons_inv (a:=rid)). rewrite <- Hes, pair_elems. cbn [elems]. rewrite Hperm. done. }
  pose proof (pair_seps q p (Leaf ax xs) r (Leaf ay ys) s) as Ep. cbn [seps app] in Ep.
  rewrite Ep in HndS, Hsp. apply NoDup_cons in HndS as [Hnr HndS]. apply Forall_cons in Hsp as [Hspr Hsps].
  split; [done|]. split; [done|]. split; [done|]. split; [done|]. split; [done|]. split; [|split; [|done]].
  - intros x Hx. split; [by intros ->|]. apply HkS. rewrite Ep. by right.
  - intros x Hx. assert (x ∈ elems (node_of q P)) as Hx'.
    { rewrite Hes, E. right. rewrite !elem_of_app in *. tauto. }
    split; [|by apply HkE]. intros ->. rewrite Forall_forall in Hrow. by apply (Hrow _ Hx').
Qed.

Lemma leaf_pair_moved xs' r1 k1 ys' sep' vx vy vq :
  xs0 ++ ys0 = xs' ++ r1 :: ys' → (2 <= length xs' <= 4)%nat → (2 <= length (r1 :: ys') <= 4)%nat →
  keys !! r1 = Some k1 → delete r keys !! sep' = None → spare sep' →
  ns' !! ax = Some vx → ns' !! ay = Some vy → ns' !! q = Some vq →
  node_is vx true xs' [] → node_is vy true (r1 :: ys') [] →
  node_is vq false (<[length p := sep']> (p.*2 ++ r :: s.*1))
    (((λ tr, addr tr.1) <$> p) ++ ax :: ay :: ((λ rc, addr rc.2) <$> s)) →
  Φ (-1) (IPool root free ns' l ∅ h', World (<[sep':=k1]> (delete r keys)) n').
Proof using All.
  intros E L1 L2 Hk1 Hsep' Hsps Hvx Hvy Hvq Hnx Hny Hnq.
  destruct leaf_pair_facts as (Hw & Ha & Hspr & Hnr & Hspo & Hks & Hke & Ees).
  eapply (finish_moved keys n nb hh hb es q 0 lo hi _ fl ns l root free Φ p (Leaf ax xs) r (Leaf ay ys) s Hst Hnd Hfl HΦ)
    with (x' := Leaf ax xs') (r' := sep') (y' := Leaf ay (r1 :: ys')) (vq := vq);
    [exact Hn|exact Hh| |exact Hother|done|done|by exists vx|by exists vy|exact Hvq|exact Hnq| |done| |done|].
  - intros x Hx [kx Hkx]. assert (x ≠ r) as Hne.
    { intros ->. apply Hx. rewrite pair_seps. by left. }
    assert (delete r keys !! x = Some kx) as Hx' by (by rewrite lookup_delete_ne).
    rewrite lookup_insert_ne; [by rewrite Hx', Hkx|]. intros ->. by rewrite Hsep' in Hx'.
  - eapply (leaves_moved keys lo hi p r kr s Hkr Hw _ xs0 ys0 ax ay); [exact Ha|exact E|done|done|exact Hx0|exact Hy0|exact Hk1
      |apply lookup_insert_eq|apply swap_agree; [done|]..].
    + intros x Hx. apply Hke, elem_of_app. by left.
    + exact Hks.
    + intros x Hx. apply Hke, elem_of_app. by right.
  - rewrite pair_elems, Ees. cbn [elems]. by rewrite E.
  - rewrite pair_seps. cbn [seps app]. by constructor.
Qed.

Lemma leaf_pair_merged vx vy vq :
  length (xs0 ++ ys0) = 3%nat → ns' !! ax = Some vx → ns' !! ay = Some vy → v_next vy = free →
  ns !! q = Some vq → ns' !! q = Some vq → in_s 64 ay → node_is vx true (xs0 ++ ys0) [] →
  Φ (Z.of_nat (length p)) (IPool root ay ns' l ∅ h', World keys n').
Proof using All.
  intros L Hvx Hvy Hnext Hvq Hvq' Hay Hnx.
  destruct leaf_pair_facts as (Hw & Ha & Hspr & Hnr & Hspo & Hks & Hke & Ees).
  assert (seps (node_of q (plug p (Leaf ax (xs0 ++ ys0)) s)) ≡ₚ around_seps p s) as Es by (by rewrite hole_seps).
  eapply (finish_merged keys n nb hh hb es q 0 lo hi _ fl ns l root free Φ p (Leaf ax xs) r (Leaf ay ys) s Hst Hnd Hfl HΦ)
    with (m := Leaf ax (xs0 ++ ys0)) (vq := vq) (vy := vy);
    [exact Hn|exact Hh|done|exact Hother|done|by exists vx|exact Hvq|exact Hvq'|exact Hvy|exact Hnext| |done| |done| |by exists kr|exact Hay|].
  - eapply leaves_merged; [exact Hkr|exact Hw|exact Ha|lia|exact Hx0|exact Hy0].
  - by rewrite hole_elems, Ees.
  - by rewrite Es.
  - intros _. split; [done|]. split; [rewrite pair_seps; by left|]. by rewrite Es.
Qed.
End leaf_pair.

(** the end of a deletion that leaves the children of [q] their places *)
Lemma finish_kept keys n nb hh hb es q h lo hi old fl ns l root (Φ : Z → ipool * world K → Prop) p x s x' keys' n' h' free' fl' ns' :
  after_delete keys n nb hh hb es (first_leaf (plug p x s).1) q h lo hi (length (plug p x s).2) old
    (pages_of (node_of q (plug p x s))) fl ns l root Φ →
  n - nb <= n' → hh - hb <= h' → (∀ r, r ∉ old → is_Some (keys !! r) → keys' !! r = keys !! r) →
  (∀ b, b ∉ pages_of (node_of q (plug p x s)) ++ fl → ns' !! b = ns !! b) → free_list ns' free' fl' →
  pages_of x' ++ fl' ≡ₚ pages_of x ++ fl → first_leaf x' = first_leaf x →
  kids_ok kcmp keys' (wf kcmp keys' 2 h) lo hi (plug p x' s).1 (plug p x' s).2 →
  stored ns' (node_of q (plug p x' s)) → elems x' ++ around_elems p s ≡ₚ es →
  Forall spare (seps (node_of q (plug p x' s))) →
  Φ (-1) (IPool root free' ns' l ∅ h', World keys' n').
Proof using.
  intros HΦ Hn Hh Hkeys Hother Hfl Hp Hf Hok Hst He Hs.
  apply (HΦ keys' n' (-1) free' fl' ns' h' (pages_of (node_of q (plug p x' s)))); [done|done|done| |exact Hother|exact Hfl|].
  - cbn [pages_of]. rewrite !(plug_flat pages_of). perm.
  - apply (same_kids _ _ _ _ _ _ _ _ _ _ (plug p x' s)); [exact Hok|by rewrite !plug_length|exact Hst|by rewrite hole_elems| |exact Hs].
    rewrite !first_leaf_plug. by destruct p as [|[? ?] ?].
Qed.

(** *** A row of a leaf *)

Lemma leaf_without keys m lo hi a rs i rid :
  wf kcmp keys m 0 lo hi (Leaf a rs) → rs !! i = Some rid → ∀ m' a', (m' < length rs)%nat →
  wf kcmp keys m' 0 lo hi (Leaf a' (delete i rs)) ∧ rs ≡ₚ rid :: delete i rs.
Proof using.
  intros [[_ Hl] [Hw Hs]] Hi m' a' Hm. split; [|by apply delete_Permutation].
  rewrite delete_take_drop. rewrite <- (take_drop_middle rs i rid Hi) in Hw, Hs.
  destruct (rows_without _ _ _ _ _ _ Hw Hs) as [Hw' Hs']. split; [|by split].
  pose proof (lookup_lt_Some _ _ _ Hi). rewrite length_app, length_take, length_drop. lia.
Qed.

Lemma awp_fresh keys n root free ns l ps h {A} (m : M (BufferPool * W) A) (Φ : A → ipool * world K → Prop) :
  ((∀ r, keys !! r = None → spare r) → awp m Φ (IPool root free ns l ps h, World keys n)) →
  awp m Φ (IPool root free ns l ps h, World keys n).
Proof using HD.
  intros Hm. apply awp_rep. intros s [_ Hs]. apply Hm. intros r0. by eapply fresh_spare.
Qed.

(** the operations of [delete_row] on a leaf of two rows and its brother *)
Section leaf_ops.
Context (rid : RID) (k : K) (keys : gmap RID K) (n hh : Z) (es : list RID) (q : Z) (lo hi : option K).
Context (fl : list Z) (ns : gmap Z nview) (l root free : Z) (Φ : Z → ipool * world K → Prop).
Context (p : list (tree * RID)) (ax : Z) (xs : list RID) (r : RID) (ay : Z) (ys : list RID) (s : list (RID * tree)).
Local Abbreviation P := (plug p (Leaf ax xs) ((r, Leaf ay ys) :: s)).
Context (Hst : pair_stored q p s (Leaf ax xs) r (Leaf ay ys) ns) (Hnd : NoDup (pages_of (node_of q P) ++ fl)) (Hfl : free_list ns free fl).
Context (Hok : kids_ok kcmp keys (wf kcmp keys 2 0) lo hi P.1 P.2) (Hl4 : (length P.2 <= 4)%nat).
Context (Hsp : Forall spare (seps (node_of q P))) (Hrow : Forall (λ r, ¬ spare r) (elems (node_of q P))).
Context (HΦ : after_delete keys n (4 * cost + hcost + dcost) hh 5 es (first_leaf P.1) q 0 lo hi (length P.2)
  (seps (node_of q P)) (pages_of (node_of q P)) fl ns l root Φ).
Context (Hk : keys !! rid = Some k) (Hes : elems (node_of q P) ≡ₚ rid :: es) (Hn : 4 * cost + hcost + dcost <= n) (Hh : 4 < hh).
Context (Hin : nodes_in ns l) (Hlm : l <= MAX_LEN) (Hfresh : ∀ r, keys !! r = None → spare r).
Context (vx vy vq : nview) (Hvx : ns !! ax = Some vx) (Hvy : ns !! ay = Some vy) (Hvq : ns !! q = Some vq).
Context (Hnx : node_is vx true xs []) (Hny : node_is vy true ys []).

Lemma leaf_ops_facts : (ax ≠ ay ∧ ax ≠ q ∧ ay ≠ q ∧ 0 < ax ∧ 0 < ay ∧ 0 < q) ∧ in_s 64 free ∧ in_s 64 ax ∧ in_s 64 ay ∧
  (∃ kr, keys !! r = Some kr ∧ wf kcmp keys 2 0 (lower keys lo p) (Some kr) (Leaf ax xs) ∧
     wf kcmp keys 2 0 (Some kr) (upper keys hi s) (Leaf ay ys)) ∧ spare r ∧
  (∀ x, x ∈ xs ++ ys → is_Some (keys !! x) ∧ x ≠ r) ∧
  ((p.*2 ++ r :: s.*1) !! length p = Some r ∧ (length (p.*2 ++ r :: s.*1) <= 4)%nat) ∧
  node_is vq false (p.*2 ++ r :: s.*1) (((λ tr, addr tr.1) <$> p) ++ ax :: ay :: ((λ rc, addr rc.2) <$> s)).
Proof using All.
  apply NoDup_app in Hnd as Hnd'. destruct Hnd' as (Hnd' & _ & _).
  pose proof (Hin ax ltac:(by eexists)) as Hax. pose proof (Hin ay ltac:(by eexists)) as Hay. pose proof (Hin q ltac:(by eexists)) as Hq.
  assert (∀ x, 0 < x < l → in_s 64 x) as Hfit.
  { intros x Hx. unfold in_s, MAX_LEN in *. change (2 ^ (64 - 1)) with (2 ^ 63). lia. }
  destruct (pair_ne q p s (Leaf ax xs) r (Leaf ay ys) Hnd') as (N1 & N2 & N3).
  destruct (node_known keys 0 lo hi q P Hl4 Hok) as (HndS & HkS & HkE).
  destruct (pair_elim _ _ _ _ _ _ _ _ _ Hok) as (kr & Hkr & _ & Hwx & Hwy & _).
  assert (spare r) as Hspr. { rewrite Forall_forall in Hsp. apply Hsp. rewrite pair_seps. by left. }
  split; [split_and!; try done; lia|]. split; [by eapply (free_list_fits ns l)|]. split; [by apply Hfit|]. split; [by apply Hfit|].
  split; [by exists kr|]. split; [done|]. split; [|split; [split|]].
  - intros x Hx. assert (x ∈ elems (node_of q P)) as Hx' by (rewrite pair_elems; apply elem_of_app; by left).
    split; [by apply HkE|]. intros ->. rewrite Forall_forall in Hrow. by apply (Hrow _ Hx').
  - rewrite lookup_app_r by (by rewrite length_fmap). by rewrite length_fmap, Nat.sub_diag.
  - rewrite plug_length in Hl4. rewrite length_app. simpl in *. rewrite !length_fmap. lia.
  - destruct Hst as ((v & Hv & Hn') & _). by simplify_eq.
Qed.

Lemma fresh_sep sep' : delete r keys !! sep' = None → spare sep'.
Proof using All.
  intros Hs. destruct leaf_ops_facts as (_ & _ & _ & _ & _ & Hspr & _).
  destruct (decide (sep' = r)) as [->|Hne]; [done|]. apply Hfresh. by rewrite lookup_delete_ne in Hs.
Qed.

Lemma delete_row_right kx kq ky : length xs = 2%nat → rid ∈ xs →
  awp (if Z.of_nat (length ys) >? DEGREE
       then borrow_row_right cmp insert_handler delete_handler ax q ay kx kq ky rid (Z.of_nat (length p))
       else merge_row_right cmp ax q ay kx ky rid (Z.of_nat (length p))) Φ
    (IPool root free ns l (pins3 ax kx ay ky q kq) (hh - 2), World keys n).
Proof using All.
  intros Hl2 Hrid. assert (DEGREE = 2) as HD2 by done.
  destruct leaf_ops_facts as ((N1 & N2 & N3 & P1 & P2 & P3) & Hfree & Fx & Fy & (kr & Hkr & Hwx & Hwy) & Hspr & Hkn & (Hat & Hp4) & Hnq).
  pose proof Hwx as [_ [_ Hsort]]. pose proof Hwy as [[Hy2 Hy4] _].
  assert (∀ r, r ∈ xs → is_Some (keys !! r)) as Hkx by (intros x Hx; apply Hkn, elem_of_app; by left).
  assert (∀ r, r ∈ ys → is_Some (keys !! r)) as Hky by (intros x Hx; apply Hkn, elem_of_app; by right).
  assert (∀ i, xs !! i = Some rid → wf kcmp keys 1 0 (lower keys lo p) (Some kr) (Leaf ax (delete i xs)) ∧
    length (delete i xs) = 1%nat ∧ xs ++ ys ≡ₚ rid :: delete i xs ++ ys) as Hwithout.
  { intros i Hi. destruct (leaf_without _ _ _ _ _ _ _ _ Hwx Hi 1%nat ax ltac:(lia)) as [Hw' Hp].
    split; [done|]. split; [|by apply (Permutation_app_tail ys) in Hp]. apply Permutation_length in Hp. simpl in Hp. lia. }
  rewrite Z.gtb_ltb. destruct (Z.ltb_spec DEGREE (Z.of_nat (length ys))) as [Hgt|Hle].
  - destruct ys as [|bx [|br bs]] eqn:Eys; [simpl in Hgt; lia..|].
    destruct (Hky br ltac:(right; by left)) as [kbr Hkbr].
    eapply (borrow_row_right_spec cmp insert_handler delete_handler cost hcost dcost spare Hcost Hhcost Hdcost)
      with (t:=length p) (sep:=r) (va:=vx) (vq:=vq) (kbr:=kbr);
      [done..|lia|lia|lia|exact Hk|exact Hvx|exact Hvy|exact Hvq|exact Hnx|exact Hnq|exact Hl2|exact Hkx|exact Hsort|exact Hrid
      |exact Hat|exact Hkr|exact Hspr|exact Hp4|done|exact Hny|simpl in *; lia|exact Hky|exact Hkbr| |lia|].
    { apply Hkn. rewrite elem_of_app. right. right. by left. }
    intros i sep' ns' va' vb' vq' Hi Hsep' Hthree Hva' Hvb' Hvq' Hna' Hnb' Hnq'.
    destruct (Hwithout i Hi) as (Hw' & Hd1 & Hperm).
    eapply (leaf_pair_moved keys n _ hh _ es q lo hi fl ns l root free Φ p ax xs r ay _ s Hst Hnd Hfl Hok Hl4 Hsp Hrow HΦ
        rid kr (delete i xs) (bx :: br :: bs) Hkr Hw') with (xs' := delete i xs ++ [bx]) (r1 := br) (ys' := bs);
        [by eapply wf_weaken; [|exact Hwy]; lia|exact Hperm|exact Hes|lia|lia|intros x H1 H2 H3; by apply Hthree
        |by rewrite <- app_assoc|rewrite length_app, Hd1; simpl; lia|simpl in *; lia|exact Hkbr|exact Hsep'
        | |exact Hva'|exact Hvb'|exact Hvq'|exact Hna'|exact Hnb'|exact Hnq'].
    destruct (decide (sep' = r)) as [->|Hne]; [done|]. apply Hfresh. by rewrite lookup_delete_ne in Hsep'.
  - eapply (merge_row_right_spec cmp insert_handler delete_handler cost hcost dcost spare Hcost Hhcost Hdcost)
      with (t:=length p) (sep:=r) (va:=vx) (vq:=vq);
      [done..|lia|lia|lia|exact Hk|exact Hvx|exact Hvy|exact Hvq|exact Hnx|exact Hnq|exact Hl2|exact Hkx|exact Hsort|exact Hrid
      |exact Hat|exact Hkr|exact Hspr|exact Hp4|exact Hny|lia|exact Hky|lia|lia|exact Hfree|exact Fy|].
    intros i ns' va' vb' Hi Hthree Hvq' Hva' Hvb' Hnext Hna'. destruct (Hwithout i Hi) as (Hw' & Hd1 & Hperm).
    eapply (leaf_pair_merged keys n _ hh _ es q lo hi fl ns l root free Φ p ax xs r ay ys s Hst Hnd Hfl Hok Hl4 Hsp Hrow HΦ
        rid kr (delete i xs) ys Hkr Hw');
        [by eapply wf_weaken; [|exact Hwy]; lia|exact Hperm|exact Hes|lia|lia|intros x H1 H2 H3; by apply Hthree
        |rewrite length_app, Hd1; lia|exact Hva'|exact Hvb'|exact Hnext|exact Hvq|exact Hvq'|exact Fy|exact Hna'].
Qed.

Lemma delete_row_left kx kq ky : length ys = 2%nat → rid ∈ ys →
  awp (if Z.of_nat (length xs) >? DEGREE
       then borrow_row_left cmp insert_handler delete_handler ay q ax ky kq kx rid (Z.of_nat (S (length p)))
       else merge_row_left cmp ay q ax ky kx rid (Z.of_nat (S (length p)))) Φ
    (IPool root free ns l (pins3 ay ky ax kx q kq) (hh - 2), World keys n).
Proof using All.
  intros Hl2 Hrid. assert (DEGREE = 2) as HD2 by done.
  destruct leaf_ops_facts as ((N1 & N2 & N3 & P1 & P2 & P3) & Hfree & Fx & Fy & (kr & Hkr & Hwx & Hwy) & Hspr & Hkn & (Hat & Hp4) & Hnq).
  pose proof Hwy as [_ [_ Hsort]]. pose proof Hwx as [[Hx2 Hx4] _].
  assert (∀ r, r ∈ xs → is_Some (keys !! r)) as Hkx by (intros x Hx; apply Hkn, elem_of_app; by left).
  assert (∀ r, r ∈ ys → is_Some (keys !! r)) as Hky by (intros x Hx; apply Hkn, elem_of_app; by right).
  assert (∀ i, ys !! i = Some rid → wf kcmp keys 1 0 (Some kr) (upper keys hi s) (Leaf ay (delete i ys)) ∧
    length (delete i ys) = 1%nat ∧ xs ++ ys ≡ₚ rid :: xs ++ delete i ys) as Hwithout.
  { intros i Hi. destruct (leaf_without _ _ _ _ _ _ _ _ Hwy Hi 1%nat ay ltac:(lia)) as [Hw' Hp].
    split; [done|]. split; [apply Permutation_length in Hp; simpl in Hp; lia|].
    apply (Permutation_app_head xs) in Hp. rewrite Hp. symmetry. apply Permutation_middle. }
  rewrite Z.gtb_ltb. destruct (Z.ltb_spec DEGREE (Z.of_nat (length xs))) as [Hgt|Hle].
  - destruct (list_snoc xs) as (bs & bx & Exs); [intros E; rewrite E in Hgt; simpl in Hgt; lia|].
    assert (length bs = length xs - 1)%nat as Hlb by (rewrite Exs, length_app; simpl; lia).
    assert (bx ∈ xs) as Hbx by (rewrite Exs; apply elem_of_app; right; by left). destruct (Hkx bx Hbx) as [kbx Hkbx].
    pose proof Hnx as Hnx'. rewrite Exs in Hnx'.
    eapply (borrow_row_left_spec cmp insert_handler delete_handler cost hcost dcost spare Hcost Hhcost Hdcost)
      with (t:=length p) (sep:=r) (va:=vy) (vq:=vq) (kbx:=kbx);
      [done..|lia|lia|lia|exact Hk|exact Hvy|exact Hvx|exact Hvq|exact Hny|exact Hnq|exact Hl2|exact Hky|exact Hsort|exact Hrid
      |exact Hat|exact Hkr|exact Hspr|exact Hp4|lia|exact Hnx'|lia|by rewrite <- Exs|exact Hkbx| |lia|].
    { apply Hkn, elem_of_app. by left. }
    intros i sep' ns' va' vb' vq' Hi Hsep' Hthree Hva' Hvb' Hvq' Hna' Hnb' Hnq'.
    destruct (Hwithout i Hi) as (Hw' & Hd1 & Hperm).
    eapply (leaf_pair_moved keys n _ hh _ es q lo hi fl ns l root free Φ p ax xs r ay ys s Hst Hnd Hfl Hok Hl4 Hsp Hrow HΦ
        rid kr xs (delete i ys) Hkr) with (xs' := bs) (r1 := bx) (ys' := delete i ys);
        [by eapply wf_weaken; [|exact Hwx]; lia|exact Hw'|exact Hperm|exact Hes|lia|lia|intros x H1 H2 H3; by apply Hthree
        |by rewrite Exs at 1; rewrite <- app_assoc|lia|simpl; lia|exact Hkbx|exact Hsep'
        | |exact Hvb'|exact Hva'|exact Hvq'|exact Hnb'|exact Hna'|exact Hnq'].
    destruct (decide (sep' = r)) as [->|Hne]; [done|]. apply Hfresh. by rewrite lookup_delete_ne in Hsep'.
  - eapply (merge_row_left_spec cmp insert_handler delete_handler cost hcost dcost spare Hcost Hhcost Hdcost)
      with (t:=length p) (sep:=r) (va:=vy) (vq:=vq);
      [done..|lia|lia|lia|exact Hk|exact Hvy|exact Hvx|exact Hvq|exact Hny|exact Hnq|exact Hl2|exact Hky|exact Hsort|exact Hrid
      |exact Hat|exact Hkr|exact Hspr|exact Hp4|lia|exact Hnx|lia|exact Hkx|lia|lia|exact Hfree|exact Fy|].
    intros i ns' va' vb' Hi Hthree Hvq' Hva' Hvb' Hnext Hna'. destruct (Hwithout i Hi) as (Hw' & Hd1 & Hperm).
    eapply (leaf_pair_merged keys n _ hh _ es q lo hi fl ns l root free Φ p ax xs r ay ys s Hst Hnd Hfl Hok Hl4 Hsp Hrow HΦ
        rid kr xs (delete i ys) Hkr);
        [by eapply wf_weaken; [|exact Hwx]; lia|exact Hw'|exact Hperm|exact Hes|lia|lia|intros x H1 H2 H3; by apply Hthree
        |rewrite length_app, Hd1; lia|exact Hvb'|exact Hva'|exact Hnext|exact Hvq|exact Hvq'|exact Fy|exact Hna'].
Qed.
End leaf_ops.

Section leaf_level.
Context (rid : RID) (k : K) (keys : gmap RID K) (n hh : Z) (es : list RID) (q : Z) (lo hi : option K).
Context (fl : list Z) (ns : gmap Z nview) (l root free : Z) (ka : Ptr) (Φ : Z → ipool * world K → Prop).
Context (p : list (tree * RID)) (a : Z) (rs : list RID) (s : list (RID * tree)).
Local Abbreviation P := (plug p (Leaf a rs) s).
Context (Hk : keys !! rid = Some k) (Hrid : rid ∈ rs).
Context (Hok : kids_ok kcmp keys (wf kcmp keys 2 0) lo hi P.1 P.2) (Hlen : (1 <= length p + length s <= 4)%nat).
Context (Hst : stored ns (node_of q P)) (Hnd : NoDup (pages_of (node_of q P) ++ fl)) (Hfl : free_list ns free fl).
Context (Hsp : Forall spare (seps (node_of q P))) (Hrow : Forall (λ r, ¬ spare r) (elems (node_of q P))).
Context (Hes : elems (node_of q P) ≡ₚ rid :: es).
Context (Hn : 4 * cost + hcost + dcost <= n) (Hh : 4 < hh).
Context (HΦ : after_delete keys n (4 * cost + hcost + dcost) hh 5 es (first_leaf P.1) q 0 lo hi (length P.2)
  (seps (node_of q P)) (pages_of (node_of q P)) fl ns l root Φ).

Lemma delete_row_spec :
  awp (delete_row cmp insert_handler delete_handler a q ka rid) Φ (IPool root free ns l (<[a:=(ka, 1)]> ∅) hh, World keys n).
Proof using All.
  apply awp_room. intros Hin Hl. apply awp_fresh. intros Hfresh.
  destruct (hole_intro _ _ _ _ _ Hst) as [Hhole (va & Hva & Hna)].
  assert (length P.2 <= 4)%nat as Hl4 by (rewrite plug_length; lia).
  destruct (node_known keys 0 lo hi q P Hl4 Hok) as (HndS & HkS & HkE).
  pose proof (proj1 (around_plug _ _ _ _ _ _ _) Hok) as [Ha Hwa]. pose proof Hwa as [[Hr2 Hr4] [_ Hsort]].
  assert (∀ r, r ∈ rs → is_Some (keys !! r)) as Hkeys.
  { intros r Hr. apply HkE. rewrite hole_elems. apply elem_of_app. by left. }
  apply NoDup_app in Hnd as Hnd'. destruct Hnd' as (Hnd' & Hdis & _).
  assert (∀ x, x ∈ pages_of (node_of q P) → in_s 64 x) as Hfit.
  { intros x Hx. pose proof (Hin x (stored_dom _ _ _ Hst Hx)). unfold in_s, MAX_LEN in *. change (2 ^ (64 - 1)) with (2 ^ 63). lia. }
  assert (in_s 64 free) as Hfree by (by eapply (free_list_fits ns l)).
  assert (DEGREE = 2) as HD2 by done. unfold delete_row. awp_step. eapply nd_read_n; [map_find|exact Hva|exact Hna|]. cbv beta. rewrite Z.gtb_ltb.
  destruct (Z.ltb_spec DEGREE (Z.of_nat (length rs))) as [Hgt|Hle].
  { awp_step. eapply (drop_row_spec cmp cost Hcost) with (a:=a) (c:=1);
      [exact Hk|map_find|exact Hva|exact Hna|lia|exact Hkeys|exact Hsort|exact Hrid|lia|].
    intros i va' Hi Hna'. awp_step. apply awp_idx. eapply ip_release; [map_find|]. cbv beta.
    rewrite delete_insert_id by apply lookup_empty. awp_step.
    destruct (leaf_without _ _ _ _ _ _ _ _ Hwa Hi 2%nat a) as [Hwf' Hperm]; [lia|].
    assert (a ∈ pages_of (node_of q P)) as Hap.
    { cbn [pages_of]. rewrite (plug_flat pages_of). right. rewrite !elem_of_app. right. left. by left. }
    assert (stored (<[a:=va']> ns) (node_of q (plug p (Leaf a (delete i rs)) s))) as Hst'.
    { apply hole_elim; [eapply (hole_frame ns _ q p (Leaf a rs) s Hhole Hnd')|]; [|done|done|].
      - intros b _ Hb. rewrite lookup_insert_ne; [done|]. intros <-. apply Hb. by left.
      - exists va'. split; [apply lookup_insert_eq|done]. }
    eapply (finish_kept _ _ _ _ _ _ _ _ _ _ _ _ _ _ _ _ p (Leaf a rs) s (Leaf a (delete i rs)) _ _ _ _ _ _ HΦ);
      [lia|lia|done| | |done|done|apply around_plug; by split|exact Hst'| |].
    - intros x Hx. apply lookup_insert_ne. intros <-. apply Hx, elem_of_app. by left.
    - eapply free_list_frame; [|exact Hfl]. intros x Hx. apply lookup_insert_ne. intros <-. by apply (Hdis a).
    - apply (Permutation_cons_inv (a:=rid)). rewrite <- Hes, hole_elems. cbn [elems]. by apply (Permutation_app_tail (around_elems p s)) in Hperm.
    - rewrite hole_seps. by rewrite hole_seps in Hsp. }
  assert (length rs = 2%nat) as Hl2 by lia.
  eapply (pick_brother_spec root free ns l hh _ q p (Leaf a rs) s Hhole Hnd' Hin ltac:(lia) ltac:(lia) ka ltac:(by exists va)).
  - intros r y s' kq kb ->. destruct (pair_right _ _ _ _ _ _ _ Hhole) as [Hpair [(vb & Hvb & Hnb) _]%stored_page].
    pose proof Hpair as ((vq & Hvq & _) & _).
    destruct (pair_elim _ _ _ _ _ _ _ _ _ Hok) as (kr & _ & _ & _ & Hwy & _). destruct y as [b ys|]; [|done].
    by eapply (delete_row_right rid k keys n hh es q lo hi fl ns l root free Φ p a rs r b ys s').
  - intros r y p' kq kb -> ->. destruct (pair_left _ _ _ _ _ _ _ Hhole) as [Hpair [(vb & Hvb & Hnb) _]%stored_page].
    pose proof Hpair as ((vq & Hvq & _) & _). rewrite plug_snoc in *.
    destruct (pair_elim _ _ _ _ _ _ _ _ _ Hok) as (kr & _ & _ & Hwy & _). destruct y as [b ys|]; [|done].
    rewrite length_app, Nat.add_1_r.
    by eapply (delete_row_left rid k keys n hh es q lo hi fl ns l root free Φ p' b ys r a rs []).
Qed.
End leaf_level.
End delete.
