(* ===== verification/BTreeLeaf.v ===== *)
(** An index of a single leaf: while there is room in the leaf, an insertion
    compares rows and nothing else, and a deletion never calls its handlers. *)
From stdpp Require Import base gmap list fin_maps sorting.
From Stdlib Require Import ZArith Lia Strings.Byte.
From S2P Require Import Prelude FileIO BufferPool PoolLogic PoolClient Table HeapStore BTree NodeSpec NodeFocus TreeSpec NodeOps.
From S2P Require Import TreeFrame BTreeSearch TreeInsert TreeDelete TreeBrothers NodeDelete BTreeInsert BTreeDelete BTreeInsertSpec BTreeDeleteSpec.
#[local] Open Scope Z_scope.

(** no row, or rows in one leaf *)
Definition leaf_only (o : option tree) : Prop :=
  match o with Some (Node _ _ _) => False | _ => True end.

Section leaf.
Context {K W : Type} {kcmp : K → K → Z} {KO : KeyOrder kcmp}.
Context {RW : Rep W (world K)} {KW : KeyWorld K W}.
Context (cmp : RID → RID → M W Z) (insert_handler : RID → M W RID) (delete_handler : RID → M W unit) (cost : Z).
Context {HC : RowComparer kcmp cmp cost} (Hcost : 0 <= cost).
Local Abbreviation index_holds := (index_holds (kcmp := kcmp)).

(** ** Deletion *)

(** the index when the row [rid] is no longer among [rs] *)
Record leaf_shrunk (keys : gmap RID K) (rid : RID) (rs : list RID) (T : list Z) (l h : Z) (g' : ipool) (o' : option tree) (fl' : list Z) : Prop := {
  ls_holds : index_holds g' keys o' fl';
  ls_leaf : leaf_only o';
  ls_rows : rs ≡ₚ rid :: index_rows o';
  ls_pages : index_pages o' ++ fl' ≡ₚ T;
  ls_len : i_len g' = l;
  ls_hits : h <= i_hits g';
}.

Lemma drop_row_leaf_spec rid k keys a rs fl free ns l n ka h (Φ : Z → ipool * world K → Prop) :
  keys !! rid = Some k → rid ∈ rs → wf kcmp keys 1 0 None None (Leaf a rs) → stored ns (Leaf a rs) →
  free_list ns free fl → NoDup (a :: fl) → a = PAGE_SIZE → nodes_in ns l → 4 * cost <= n → 0 < h →
  (∀ g' o' fl', leaf_shrunk keys rid rs (a :: fl) l (h - 1) g' o' fl' → Φ (-1) (g', World keys (n - 4 * cost))) →
  awp (drop_row_root cmp a ka rid) Φ (IPool a free ns l (<[a:=(ka, 1)]> ∅) h, World keys n).
Proof using HC Hcost KO KW.
  intros Hk Hrid Hwf (v & Hv & Hnode) Hfl Hnd Hfirst Hin Hn Hh HΦ. pose proof Hwf as [[Hl1 Hl4] [Hw Hsort]].
  assert (∀ r, r ∈ rs → is_Some (keys !! r)) as Hkeys.
  { intros r Hr. rewrite Forall_forall in Hw. destruct (Hw r Hr) as (kr & E & _). by exists kr. }
  apply NoDup_cons in Hnd as Hnd'. destruct Hnd' as [Hafl Hndf].
  unfold drop_row_root. awp_step. eapply (drop_row_spec cmp cost Hcost) with (a:=a) (c:=1);
    [exact Hk|map_find|exact Hv|exact Hnode|lia|exact Hkeys|exact Hsort|exact Hrid|lia|].
  intros i v' Hi Hnode'. cbv beta. pose proof (delete_Permutation _ _ _ Hi) as Hp.
  awp_step. eapply nd_read_n; [map_find|apply lookup_insert_eq|exact Hnode'|]. cbv beta.
  destruct (Z.eqb_spec (Z.of_nat (length (delete i rs))) 0) as [E0|Hne].
  - destruct v' as [n0 nx cs0 rs0 lf0].
    assert (a ≠ 0) as Ha0 by (pose proof (Hin a ltac:(by exists v)); lia).
    awp_step. awp_step. apply awp_idx. eapply ip_get_ctrl; [map_find|pins_size|lia|]. intros kc. cbv beta.
    apply awp_room. intros _ Hlm. pose proof (Hin a ltac:(by exists v)) as Ha.
    assert (in_s 64 free) as Hfree by (by eapply (free_list_fits ns l)).
    assert (in_s 64 a) as Ha64 by (unfold in_s, MAX_LEN in *; change (2 ^ (64 - 1)) with (2 ^ 63); lia).
    awp_step. apply awp_idx. eapply ip_rd_free; [map_find|]. cbv beta.
    pose proof (NoDup_singleton a : NoDup [(a, ka)].*1) as Hndp.
    assert (pinned (<[0:=(kc, 1)]> (<[a:=(ka, 1)]> ∅)) [(a, ka)]) as Hpin by (eapply pinned_one; map_find).
    eapply (awp_focus _ _ _ _ _ _ [(a, ka)] _ _ [_]); [constructor; [apply lookup_insert_eq|constructor]|].
    fo_step. fo_step.
    awp_step. apply awp_idx. eapply ip_wr_free; [map_find|exact Ha64|]. cbv beta.
    awp_step. apply awp_idx. eapply ip_wr_root; [map_find|done|]. cbv beta.
    apply awp_idx. eapply ip_release; [map_find|]. cbv beta.
    awp_step. apply awp_idx. eapply ip_release; [map_find|]. cbv beta. awp_step. cbn [overlay]. rewrite insert_insert_eq.
    assert (delete a (delete 0 (<[0:=(kc, 1)]> (<[a:=(ka, 1)]> ∅))) = (∅ : gmap Z (nat * Z))) as -> by pins_eq.
    apply (HΦ _ None (a :: fl)). constructor; cbn [index_rows index_pages i_hits i_len app]; [|done| |done|done|lia].
    + constructor; cbn [i_root i_pins i_nodes i_free i_len index_pages app]; [done|done| |done| |done].
      * split; [done|]. eexists. split; [apply lookup_insert_eq|]. cbn [v_next]. eapply free_list_frame; [|exact Hfl].
        intros b Hb. apply lookup_insert_ne. by intros ->.
      * intros _. right. rewrite Hfirst. eauto.
    + assert (delete i rs = []) as E by (apply nil_length_inv; lia). by rewrite Hp, E.
  - awp_step. awp_step. awp_step. apply awp_idx. eapply ip_release; [map_find|]. cbv beta. rewrite delete_insert_id by apply lookup_empty. awp_step.
    destruct (leaf_without _ _ _ _ _ _ _ _ Hwf Hi 1%nat a) as [Hwf' _].
    { apply Permutation_length in Hp. simpl in Hp. lia. }
    apply (HΦ _ (Some (Leaf a (delete i rs))) fl).
    constructor; cbn [index_rows index_pages i_hits i_len elems pages_of app]; [|done|done|done|done|lia].
    constructor; cbn [i_root i_pins i_nodes i_free i_len index_pages rooted height]; [|done| |done|done|by intros ? [= <-]].
    + split; [done|]. split; [exact Hwf'|]. exists v'. split; [apply lookup_insert_eq|done].
    + eapply free_list_frame; [|exact Hfl]. intros b Hb. apply lookup_insert_ne. by intros ->.
Qed.

Lemma b_tree_delete_leaf_spec rid k g keys o fl fuel n (Φ : unit → ipool * world K → Prop) :
  index_holds g keys o fl → leaf_only o → keys !! rid = Some k → rid ∈ index_rows o →
  (0 < fuel)%nat → 4 * cost <= n → 4 <= i_hits g →
  (∀ g' o' fl', leaf_shrunk keys rid (index_rows o) (index_pages o ++ fl) (i_len g) (i_hits g - 3) g' o' fl' →
    Φ tt (g', World keys (n - 4 * cost))) →
  awp (b_tree_delete cmp insert_handler delete_handler fuel rid) Φ (g, World keys n).
Proof using HC Hcost KO KW.
  intros [Hroot Hpins Hfl Hnd _ Hfirst] Hleaf Hk Hrid Hf Hn Hh HΦ.
  destruct o as [[a rs|]|]; [|done|by apply not_elem_of_nil in Hrid].
  destruct Hroot as (Er & Hwf & Hst). destruct g as [root free ns l ps h].
  cbn [i_root i_free i_nodes i_len i_pins i_hits index_pages index_rows addr pages_of elems height app] in *. subst ps root.
  specialize (Hfirst _ eq_refl). cbn [first_leaf] in Hfirst.
  apply awp_nodes. intros Hin. pose proof Hst as (v & Hv & Hnode). pose proof (Hin a ltac:(by eexists)) as Ha.
  unfold b_tree_delete. awp_step. apply awp_idx. eapply ip_get_ctrl; [map_find|pins_size|lia|]. intros kc. cbv beta.
  awp_step. apply awp_idx. eapply ip_rd_root; [map_find|]. cbv beta. rewrite (proj2 (Z.eqb_neq _ (-1))) by lia.
  awp_step. apply awp_idx. eapply ip_release; [map_find|]. cbv beta. rewrite delete_insert_id by apply lookup_empty.
  awp_step. destruct fuel as [|fuel]; [lia|]. cbn [delete_entry].
  awp_step. apply awp_idx. eapply ip_get_node; [exact Hv|map_find|pins_size|lia|]. intros kp. cbv beta.
  awp_step. eapply nd_read_leaf; [map_find|exact Hv|exact Hnode|]. cbn [negb Z.eqb Pos.eqb].
  eapply (drop_row_leaf_spec rid k keys a rs fl); try done; [lia|].
  intros g' o' fl' Hs. cbv beta. awp_step. apply (HΦ g' o' fl'). by replace (h - 3) with (h - 1 - 1 - 1) by lia.
Qed.

(** ** Insertion *)

(** the index when the row [rid] is among [rs] too *)
Record leaf_grown (keys : gmap RID K) (rid : RID) (rs : list RID) (l h : Z) (g' : ipool) (o' : option tree) : Prop := {
  lg_holds : ∃ fl', index_holds g' keys o' fl';
  lg_leaf : leaf_only o';
  lg_rows : index_rows o' ≡ₚ rid :: rs;
  lg_len : i_len g' <= l;
  lg_hits : h <= i_hits g';
}.

Lemma insert_entry_leaf_spec rid k keys m a rs fl free ns l n h fuel (Φ : RID → ipool * world K → Prop) :
  keys !! rid = Some k → wf kcmp keys m 0 None None (Leaf a rs) → (length rs < 4)%nat → stored ns (Leaf a rs) →
  (∀ r, r ∈ rs → keys !! r ≠ Some k) → free_list ns free fl → NoDup (a :: fl) → a = PAGE_SIZE →
  (0 < fuel)%nat → 4 * cost <= n → 0 < h →
  (∀ g' o', leaf_grown keys rid rs l (h - 1) g' o' → Φ rid (g', World keys (n - 4 * cost))) →
  awp (insert_entry cmp insert_handler fuel a rid a;; mret rid) Φ (IPool a free ns l ∅ h, World keys n).
Proof using HC Hcost KO KW.
  intros Hk Hwf Hlen (v & Hv & Hnode) Hno Hfl Hnd Hfirst Hf Hn Hh HΦ.
  pose proof Hwf as ((Hm & _) & Hw & _). apply NoDup_cons in Hnd as Hnd'. destruct Hnd' as [Hafl _].
  assert (∀ r, r ∈ rs → is_Some (keys !! r)) as Hkeys.
  { intros r Hr. rewrite Forall_forall in Hw. destruct (Hw r Hr) as (kr & E & _). by exists kr. }
  destruct fuel as [|fuel]; [lia|]. cbn [insert_entry].
  awp_step. awp_step. apply awp_idx. eapply ip_get_node; [exact Hv|map_find|pins_size|lia|]. intros ka. cbv beta.
  awp_step. eapply nd_read_leaf; [map_find|exact Hv|exact Hnode|]. cbn [negb].
  awp_step. eapply nd_read_n; [map_find|exact Hv|exact Hnode|]. cbv beta. change (2 * DEGREE) with 4.
  rewrite (proj2 (Z.ltb_lt _ 4)) by lia.
  eapply (insert_row_spec cmp cost Hcost); [exact Hk|map_find|exact Hv|exact Hnode|lia|done|lia|].
  intros i v' Hi Hscan Hv'. rewrite delete_insert_id by apply lookup_empty. awp_step.
  destruct (leaf_rows _ _ _ _ _ _ _ _ _ Hwf Hk I I Hno Hi Hscan) as [Hw' Hs'].
  apply (HΦ _ (Some (Leaf a (with_new i rid rs)))).
  constructor; cbn [index_rows i_len i_hits elems]; [|done|by apply with_new_perm|lia|lia].
  exists fl. constructor; cbn [i_root i_pins i_nodes i_free i_len index_pages rooted height pages_of app];
    [|done| |done|done|by intros ? [= <-]].
  - split; [done|]. split; [|exists v'; split; [apply lookup_insert_eq|done]].
    split; [|done]. rewrite with_new_length by done. lia.
  - eapply free_list_frame; [|exact Hfl]. intros b Hb. apply lookup_insert_ne. by intros ->.
Qed.

Lemma b_tree_insert_leaf_spec rid k g keys o fl fuel n (Φ : RID → ipool * world K → Prop) :
  index_holds g keys o fl → leaf_only o → (length (index_rows o) < 4)%nat → keys !! rid = Some k →
  (∀ r, r ∈ index_rows o → keys !! r ≠ Some k) → (0 < fuel)%nat → 4 * cost <= n → 4 <= i_hits g →
  i_len g + PAGE_SIZE <= MAX_LEN →
  (∀ g' o', leaf_grown keys rid (index_rows o) (i_len g + PAGE_SIZE) (i_hits g - 3) g' o' →
    Φ rid (g', World keys (n - 4 * cost))) →
  awp (b_tree_insert cmp insert_handler fuel rid) Φ (g, World keys n).
Proof using HC Hcost KO KW.
  intros [Hroot Hpins Hfl Hnd Hempty Hfirst] Hleaf Hlen Hk Hno Hf Hn Hh HM HΦ.
  destruct g as [root free ns l ps h]. cbn [i_root i_free i_nodes i_len i_pins i_hits] in *. subst ps.
  pose proof (eq_refl : PAGE_SIZE = 128) as HP. unfold b_tree_insert.
  awp_step. apply awp_idx. eapply ip_get_ctrl; [map_find|pins_size|lia|]. intros kc.
  awp_step. apply awp_idx. eapply ip_rd_root; [map_find|]. cbv beta.
  destruct o as [[a rs|]|]; [|done|]; cbn [index_rows index_pages rooted i_root i_nodes elems pages_of addr height app] in *.
  - destruct Hroot as (-> & Hwf & Hst). apply awp_nodes. intros Hin. pose proof Hst as (v & Hv & _).
    pose proof (Hin a ltac:(by eexists)) as Ha. specialize (Hfirst _ eq_refl). cbn [first_leaf] in Hfirst.
    rewrite (proj2 (Z.eqb_neq a (-1))) by lia. cbn [negb].
    awp_step. awp_step. apply awp_idx. eapply ip_get_node; [exact Hv|map_find|pins_size|lia|]. intros ka. awp_step.
    awp_step. apply awp_idx. eapply ip_rd_root; [map_find|]. cbv beta.
    awp_step. apply awp_idx. eapply ip_release; [map_find|]. cbv beta.
    awp_step. apply awp_idx. eapply ip_release; [map_find|]. cbv beta.
    assert (delete a (delete 0 (<[a:=(ka, 1)]> (<[0:=(kc, 1)]> ∅))) = (∅ : gmap Z (nat * Z))) as -> by pins_eq.
    eapply (insert_entry_leaf_spec rid k keys 1 a rs fl); try done; [lia|].
    intros g' o' [H1 H2 H3 H4 H5]. apply (HΦ g' o'). constructor; [done..|lia|lia].
  - subst root. cbn [Z.eqb Pos.eqb negb].
    awp_step. eapply new_root_spec; [exact Hfl|done|by apply Hempty|lia|lia|].
    intros k0 free' ns' l' fl' St Hfl' Hnd' Hl'. cbv beta.
    awp_step. apply awp_idx. eapply ip_rd_root; [map_find|]. cbv beta.
    awp_step. apply awp_idx. eapply ip_release; [map_find|]. cbv beta.
    awp_step. apply awp_idx. eapply ip_release; [map_find|]. cbv beta.
    assert (delete PAGE_SIZE (delete 0 (<[PAGE_SIZE:=(k0, 1)]> (<[0:=(kc, 1)]> ∅))) = (∅ : gmap Z (nat * Z))) as -> by pins_eq.
    eapply (insert_entry_leaf_spec rid k keys 0 PAGE_SIZE [] fl');
      [exact Hk|split; [simpl; lia|by repeat constructor]|simpl; lia|exact St|by intros r []%not_elem_of_nil|exact Hfl'|done|done|done|lia|lia|].
    intros g' o' [H1 H2 H3 H4 H5]. apply (HΦ g' o'). constructor; [done..|lia|lia].
Qed.
End leaf.
