(* ===== verification/BTreeDeleteTree.v ===== *)
(** [delete_child], [delete_entry] and [b_tree_delete]: a deletion takes its row
    out of the rows of the tree, leaves a well-formed tree, and gives every page
    it takes from the tree to the free list. *)
From stdpp Require Import base gmap list fin_maps sorting.
From Stdlib Require Import ZArith Lia Strings.Byte.
From S2P Require Import Prelude FileIO BufferPool PoolLogic PoolClient Table HeapStore BTree NodeSpec NodeFocus TreeSpec NodeOps.
From S2P Require Import TreeFrame BTreeSearch TreeInsert TreeDelete TreeBrothers NodeDelete BTreeInsert BTreeDelete BTreeInsertSpec BTreeDeleteSpec BTreeLeaf.
#[local] Open Scope Z_scope.

Section delete.
Context {K W : Type} {kcmp : K → K → Z} {KO : KeyOrder kcmp}.
Context {RW : Rep W (world K)} {KW : KeyWorld K W}.
Context (cmp : RID → RID → M W Z) (insert_handler : RID → M W RID) (delete_handler : RID → M W unit).
Context (cost hcost dcost : Z) (spare : RID → Prop).
Context {HC : RowComparer kcmp cmp cost} {HI : KeyCopier insert_handler hcost}.
Context {HD : KeyDropper spare delete_handler dcost}.
Context (Hcost : 0 <= cost) (Hhcost : 0 <= hcost) (Hdcost : 0 <= dcost).
Local Abbreviation after_delete := (after_delete (kcmp := kcmp) spare).

(** *** Two internal nodes *)

Section node_pair.
Context (keys : gmap RID K) (n nb hh hb : Z) (es : list RID) (q : Z) (h : nat) (lo hi : option K) (old : list RID).
Context (fl : list Z) (ns : gmap Z nview) (l root free : Z) (Φ : Z → ipool * world K → Prop).
Context (p : list (tree * RID)) (ax : Z) (x0 : tree) (xk : list (RID * tree)) (r : RID) (ay : Z) (y0 : tree) (yk : list (RID * tree)) (s : list (RID * tree)).
Local Abbreviation x := (Node ax x0 xk).
Local Abbreviation y := (Node ay y0 yk).
Local Abbreviation P := (plug p x ((r, y) :: s)).
Context (Hst : pair_stored q p s x r y ns) (Hnd : NoDup (pages_of (node_of q P) ++ fl)) (Hfl : free_list ns free fl).
Context (Hsp : Forall spare (seps (node_of q P))) (Hes : elems (node_of q P) ≡ₚ es).
Context (HΦ : after_delete keys n nb hh hb es (first_leaf P.1) q (S h) lo hi (length P.2) old (pages_of (node_of q P)) fl ns l root Φ).
Context (keys' : gmap RID K) (n' h' : Z) (ns' : gmap Z nview) (Hn : n - nb <= n') (Hh : hh - hb <= h').
Context (Hkeys : ∀ r, r ∉ old → is_Some (keys !! r) → keys' !! r = keys !! r).
Context (Hother : ∀ b, b ≠ q → b ≠ ax → b ≠ ay → ns' !! b = ns !! b).
Context (kr : K) (Hkr : keys' !! r = Some kr) (Hw : within kcmp keys' (lower keys' lo p) (upper keys' hi s) r).
Context (Ha : around (kcmp := kcmp) keys' (S h) lo hi p s).
Context (Hx : wf kcmp keys' 1 (S h) (lower keys' lo p) (Some kr) x) (Hy : wf kcmp keys' 1 (S h) (Some kr) (upper keys' hi s) y).

Lemma node_pair_below : stored ns' x0 ∧ Forall (λ rc, stored ns' rc.2) (xk ++ (r, y0) :: yk).
Proof using Hst Hnd Hother.
  apply NoDup_app in Hnd as Hnd'. destruct Hnd' as (Hnd' & _ & _).
  destruct (pair_frame q p s x r y ns ns' Hst Hnd' Hother) as ([S0 Sx] & [Sy0 Sy] & _).
  split; [done|]. apply Forall_app. split; [done|]. by constructor.
Qed.

Lemma node_pair_moved k1 r' y1 k2 vx vy vq :
  xk ++ (r, y0) :: yk = k1 ++ (r', y1) :: k2 → (2 <= length k1 <= 4)%nat → (2 <= length k2 <= 4)%nat →
  ns' !! ax = Some vx → ns' !! ay = Some vy → ns' !! q = Some vq →
  node_is vx false k1.*1 (kid_addrs x0 k1) → node_is vy false k2.*1 (kid_addrs y1 k2) →
  node_is vq false (<[length p := r']> (p.*2 ++ r :: s.*1))
    (((λ tr, addr tr.1) <$> p) ++ ax :: ay :: ((λ rc, addr rc.2) <$> s)) →
  Φ (-1) (IPool root free ns' l ∅ h', World keys' n').
Proof using All.
  intros E L1 L2 Hvx Hvy Hvq Hnx Hny Hnq. destruct node_pair_below as [S0 Sk]. rewrite E in Sk.
  apply Forall_app in Sk as [Sk1 [Sy1 Sk2]%Forall_cons]. cbn [snd] in Sy1.
  eapply (finish_moved spare keys n nb hh hb es q (S h) lo hi _ fl ns l root free Φ p x r y s Hst Hnd Hfl HΦ)
    with (x' := Node ax x0 k1) (r' := r') (y' := Node ay y1 k2) (vq := vq);
    [exact Hn|exact Hh|exact Hkeys|exact Hother|done|done|apply stored_kids; split; [by exists vx|done]
    |apply stored_kids; split; [by exists vy|done]|exact Hvq|exact Hnq| | | |done|].
  - eapply (nodes_moved keys' lo hi p r kr s Hkr Hw h x0 xk y0 yk ax ay Ha Hx Hy); [exact E|done|done].
  - pose proof (nodes_cut_pages ax ay x0 xk r y0 yk k1 r' y1 k2 E) as Ep. cbn [pages_of] in Ep.
    cbn [below_pages]. unfold kid_pages. perm.
  - rewrite <- Hes, !pair_elems. by rewrite (nodes_cut_elems ax ay ax ay x0 xk r y0 yk k1 r' y1 k2 E).
  - pose proof (nodes_cut_seps ax ay ax ay x0 xk r y0 yk k1 r' y1 k2 E) as Es.
    rewrite pair_seps in *. rewrite app_comm_cons, Permutation_middle in Hsp. rewrite app_comm_cons, Permutation_middle.
    by rewrite Es.
Qed.

Lemma node_pair_merged vx vy vq :
  (2 <= length (xk ++ (r, y0) :: yk) <= 4)%nat → ns' !! ax = Some vx → ns' !! ay = Some vy → v_next vy = free →
  ns !! q = Some vq → ns' !! q = Some vq → in_s 64 ay →
  node_is vx false (xk ++ (r, y0) :: yk).*1 (kid_addrs x0 (xk ++ (r, y0) :: yk)) →
  Φ (Z.of_nat (length p)) (IPool root ay ns' l ∅ h', World keys' n').
Proof using All.
  intros L Hvx Hvy Hnext Hvq Hvq' Hay Hnx. destruct node_pair_below as [S0 Sk].
  destruct (nodes_join_pages ax ay ax x0 xk r y0 yk) as [Ep _].
  eapply (finish_merged spare keys n nb hh hb es q (S h) lo hi _ fl ns l root free Φ p x r y s Hst Hnd Hfl HΦ)
    with (m := Node ax x0 (xk ++ (r, y0) :: yk)) (vq := vq) (vy := vy);
    [exact Hn|exact Hh|exact Hkeys|exact Hother|done|apply stored_kids; split; [by exists vx|done]|exact Hvq|exact Hvq'|exact Hvy|exact Hnext
    | | | |done| |by exists kr|exact Hay|done].
  - eapply (nodes_merged keys' lo hi p r kr s Hkr Hw h x0 xk y0 yk ax ay Ha Hx Hy). exact L.
  - cbn [pages_of] in Ep. cbn [below_pages]. unfold kid_pages in *. perm.
  - rewrite <- Hes, hole_elems, pair_elems. by rewrite (nodes_join_elems ax ay ax).
  - rewrite hole_seps, (nodes_join_seps ax ay ax). rewrite pair_seps in Hsp.
    by rewrite app_comm_cons, Permutation_middle in Hsp.
Qed.
End node_pair.

(** *** The key a node loses *)

Lemma wf_leaf keys m h lo hi t : wf kcmp keys m h lo hi t → is_leaf t = Nat.eqb h 0.
Proof using. by destruct h, t. Qed.

(** the keys after that at [rr] left a node whose children have height [h] *)
Definition keys_at (h : nat) (rr : RID) (keys : gmap RID K) : gmap RID K := keys_after (Nat.eqb h 0) rr keys.

Lemma keys_at_agree h rr keys L : (h = 0%nat → rr ∉ L) → agree keys (keys_at h rr keys) L.
Proof using.
  intros H x Hx. unfold keys_at, keys_after. destruct h as [|h]; [|done]. cbn [Nat.eqb].
  rewrite lookup_delete_ne; [done|]. intros ->. by apply H.
Qed.

Section node_ops.
Context (rr : RID) (keys : gmap RID K) (n hh : Z) (es : list RID) (q : Z) (h : nat) (lo hi : option K) (old : list RID).
Context (fl : list Z) (ns : gmap Z nview) (l root free : Z) (Φ : Z → ipool * world K → Prop).
Context (p : list (tree * RID)) (ax : Z) (x0 : tree) (xk : list (RID * tree)) (r : RID) (ay : Z) (y0 : tree) (yk : list (RID * tree)) (s : list (RID * tree)).
Local Abbreviation x := (Node ax x0 xk).
Local Abbreviation y := (Node ay y0 yk).
Local Abbreviation P := (plug p x ((r, y) :: s)).
Context (Hst : pair_stored q p s x r y ns) (Hnd : NoDup (pages_of (node_of q P) ++ fl)) (Hfl : free_list ns free fl) (Hl4 : (length P.2 <= 4)%nat).
Context (Hsp : Forall spare (seps (node_of q P))) (Hrow : Forall (λ r, ¬ spare r) (elems (node_of q P))).
Context (Hes : elems (node_of q P) ≡ₚ es).
Context (HΦ : after_delete keys n dcost hh 4 es (first_leaf P.1) q (S h) lo hi (length P.2) old (pages_of (node_of q P)) fl ns l root Φ).
Context (kr : K) (Hkr : keys !! r = Some kr) (Hw : within kcmp keys (lower keys lo p) (upper keys hi s) r).
Context (Ha : around (kcmp := kcmp) keys (S h) lo hi p s).
Context (Hx : wf kcmp keys 1 (S h) (lower keys lo p) (Some kr) x) (Hy : wf kcmp keys 1 (S h) (Some kr) (upper keys hi s) y).
Context (Hrr : is_Some (keys !! rr)) (Hrr0 : h = 0%nat → spare rr ∧ rr ∈ old ∧ rr ∉ seps (node_of q P)).
Context (Hn : dcost <= n) (Hh : 3 < hh) (Hin : nodes_in ns l) (Hlm : l <= MAX_LEN).
Context (vx vy vq : nview) (Hvx : ns !! ax = Some vx) (Hvy : ns !! ay = Some vy) (Hvq : ns !! q = Some vq).
Local Abbreviation keys' := (keys_at h rr keys).

Lemma node_ops_keys : (∀ r, r ∉ old → is_Some (keys !! r) → keys' !! r = keys !! r) ∧
  keys' !! r = Some kr ∧ within kcmp keys' (lower keys' lo p) (upper keys' hi s) r ∧
  around (kcmp := kcmp) keys' (S h) lo hi p s ∧
  wf kcmp keys' 1 (S h) (lower keys' lo p) (Some kr) x ∧ wf kcmp keys' 1 (S h) (Some kr) (upper keys' hi s) y.
Proof using All.
  assert (∀ L, (∀ z, z ∈ L → z ∈ seps (node_of q P) ∨ z ∈ elems (node_of q P)) → agree keys keys' L) as Hagree.
  { intros L HL. apply keys_at_agree. intros H0 Hin'. destruct (Hrr0 H0) as (H1 & _ & H2).
    destruct (HL _ Hin') as [?|H3]; [done|]. rewrite Forall_forall in Hrow. by apply (Hrow _ H3). }
  assert (keys' !! r = keys !! r) as Er.
  { apply (Hagree [r]); [|by left]. intros z ->%list_elem_of_singleton. left. rewrite pair_seps. by left. }
  assert (agree keys keys' (around_elems p s)) as Ge.
  { apply Hagree. intros z Hz. right. rewrite pair_elems. apply elem_of_app. by right. }
  assert (agree keys keys' (around_seps p s)) as Gs.
  { apply Hagree. intros z Hz. left. rewrite pair_seps. right. apply elem_of_app. by right. }
  destruct (around_agree _ _ _ _ _ _ _ Ge Gs Ha) as (Ha' & Elo & Ehi).
  rewrite Elo, Ehi, Er. split; [|split; [done|split; [by eapply within_agree|split; [done|split]]]].
  - intros z Hz _. unfold keys_at, keys_after. destruct h as [|h']; [|done]. cbn [Nat.eqb].
    apply lookup_delete_ne. intros ->. by apply Hz, Hrr0.
  - eapply wf_agree; [apply Hagree..|exact Hx]; intros z Hz.
    + right. rewrite pair_elems, !elem_of_app. auto.
    + left. rewrite pair_seps. right. rewrite !elem_of_app. auto.
  - eapply wf_agree; [apply Hagree..|exact Hy]; intros z Hz.
    + right. rewrite pair_elems, !elem_of_app. auto.
    + left. rewrite pair_seps. right. rewrite !elem_of_app. auto.
Qed.

Lemma node_ops_facts : (ax ≠ ay ∧ ax ≠ q ∧ ay ≠ q ∧ 0 < ax ∧ 0 < ay ∧ 0 < q) ∧ in_s 64 free ∧ in_s 64 ay ∧
  ((p.*2 ++ r :: s.*1) !! length p = Some r ∧ (length (p.*2 ++ r :: s.*1) <= 4)%nat) ∧
  node_is vq false (p.*2 ++ r :: s.*1) (((λ tr, addr tr.1) <$> p) ++ ax :: ay :: ((λ rc, addr rc.2) <$> s)) ∧
  (∀ t, stored ns t → in_s 64 (addr t)) ∧
  (∀ t, t = x0 ∨ t = y0 → addr t ≠ ax ∧ addr t ≠ ay ∧ addr t ≠ q) ∧
  (∀ z, z ∈ xk.*1 → is_Some (keys !! z)) ∧ (∀ z, z ∈ yk.*1 → is_Some (keys !! z)) ∧
  is_leaf x0 = Nat.eqb h 0 ∧ is_leaf y0 = Nat.eqb h 0.
Proof using All.
  apply NoDup_app in Hnd as Hnd'. destruct Hnd' as (Hnd' & _ & _).
  pose proof (Hin ax ltac:(by eexists)) as Hax. pose proof (Hin ay ltac:(by eexists)) as Hay. pose proof (Hin q ltac:(by eexists)) as Hq.
  assert (∀ x, 0 < x < l → in_s 64 x) as Hfit.
  { intros z Hz. unfold in_s, MAX_LEN in *. change (2 ^ (64 - 1)) with (2 ^ 63). lia. }
  destruct (pair_ne q p s x r y Hnd') as (N1 & N2 & N3). pose proof (pair_nodup q p s x r y Hnd') as Hall.
  destruct Hx as [_ Kx], Hy as [_ Ky].
  split; [split_and!; try done; lia|]. split; [by eapply (free_list_fits ns l)|]. split; [by apply Hfit|].
  split; [split; [rewrite lookup_app_r by (by rewrite length_fmap); by rewrite length_fmap, Nat.sub_diag|]|].
  { rewrite plug_length in Hl4. rewrite length_app. simpl in *. rewrite !length_fmap. lia. }
  split; [destruct Hst as ((v & Hv & Hn') & _); by simplify_eq|].
  split; [intros t Ht; by apply Hfit, Hin, stored_addr|].
  split; [|split; [intros z; by eapply kids_keys|split; [intros z; by eapply kids_keys|]]].
  - rewrite <- !app_comm_cons, !NoDup_cons, !elem_of_cons, !elem_of_app in Hall. cbn [addr below_pages] in Hall.
    rewrite !elem_of_app in Hall.
    assert (∀ t, addr t ∈ pages_of t) as Hat by (intros t; rewrite pages_below; by left).
    destruct Hall as (H1 & H2 & H3 & _).
    intros t Ht. split_and!; intros E; (destruct Ht as [-> | ->]; [pose proof (Hat x0) as Ht|pose proof (Hat y0) as Ht]);
      rewrite E in Ht; tauto.
  - split; [destruct xk as [|[? ?] ?]|destruct yk as [|[? ?] ?]]; cbn [kids_ok] in *;
      first [by eapply wf_leaf|destruct Kx as (_ & Kx & _); by eapply wf_leaf|destruct Ky as (_ & Ky & _); by eapply wf_leaf].
Qed.

(** the node with the pending removal, whose page has one more key and child *)
Section pending.
Context (i : nat) (rsp : list RID) (csp : list Z).
Context (Hi : rsp !! i = Some rr) (Hl2 : length rsp = 2%nat) (Hc3 : length csp = 3%nat) (Hc64 : Forall (in_s 64) csp).

Lemma pending_known zk z0 : delete i rsp = zk.*1 → delete (S i) csp = kid_addrs z0 zk →
  (∀ z, z ∈ zk.*1 → is_Some (keys !! z)) →
  (∀ z, z ∈ rsp → is_Some (keys !! z)) ∧ csp !! 0%nat = Some (addr z0) ∧ length zk = 1%nat.
Proof using All.
  intros Er Ec Hz. split; [|split].
  - intros z Hzr. apply delete_Permutation in Hi as E. rewrite E, Er in Hzr. apply elem_of_cons in Hzr as [->|Hzr]; [done|auto].
  - assert (delete (S i) csp !! 0%nat = csp !! 0%nat) as <- by (by destruct csp). by rewrite Ec.
  - rewrite <- (length_fmap fst), <- Er. apply delete_Permutation, Permutation_length in Hi as E. simpl in E. lia.
Qed.

Lemma delete_child_right kx kq ky :
  node_is vx false rsp csp → delete i rsp = xk.*1 → delete (S i) csp = kid_addrs x0 xk →
  node_is vy false yk.*1 (kid_addrs y0 yk) → stored ns x0 → stored ns y0 → Forall (λ rc, stored ns rc.2) yk →
  (2 <= length yk <= 4)%nat →
  awp (if Z.of_nat (length yk.*1) >? DEGREE
       then borrow_child_right delete_handler ax q ay kx kq ky (Z.of_nat i) (Z.of_nat (length p))
       else merge_child_right delete_handler ax q ay kx kq ky (Z.of_nat i) (Z.of_nat (length p))) Φ
    (IPool root free ns l (pins3 ax kx ay ky q kq) (hh - 2), World keys n).
Proof using All.
  intros Hnx Er Ec Hny Sx Sy Syk Hly. assert (DEGREE = 2) as HD2 by done.
  destruct node_ops_facts as ((N1 & N2 & N3 & P1 & P2 & P3) & Hfree & Fy & (Hat & Hp4) & Hnq & Hfit & Hne & Hkx & Hky & Lx & Ly).
  destruct node_ops_keys as (Gk & Gr & Gw & Ga & Gx & Gy).
  destruct (pending_known _ _ Er Ec Hkx) as (Hkp & Hc0 & L1).
  destruct (Hne x0 (or_introl eq_refl)) as (M1 & M2 & M3). pose proof (proj1 (proj1 (stored_page _ _) Sx)) as (vc & Hvc & Hnc).
  rewrite Lx in Hnc. assert (Nat.eqb h 0 = true → spare rr) as Hspr by (intros E%Nat.eqb_eq; by apply Hrr0).
  assert (Forall (in_s 64) (kid_addrs y0 yk)) as Hd64.
  { constructor; [by apply Hfit|]. apply Forall_fmap. eapply Forall_impl; [exact Syk|]. intros rc. apply Hfit. }
  assert (length (kid_addrs y0 yk) = S (length yk.*1)) as Hdl by (unfold kid_addrs; cbn [length]; by rewrite !length_fmap).
  rewrite length_fmap. rewrite Z.gtb_ltb. destruct (Z.ltb_spec DEGREE (Z.of_nat (length yk))) as [Hgt|Hle].
  - destruct yk as [|[bx y1] yk'] eqn:Eyk; [simpl in Hgt; lia|].
    eapply (borrow_child_right_spec cmp insert_handler delete_handler cost hcost dcost spare Hcost Hhcost Hdcost)
      with (t:=length p) (sep:=r) (va:=vx) (vq:=vq) (rs:=rsp) (cs:=csp) (c0:=addr x0) (bx:=bx) (bs':=yk'.*1) (d:=addr y0) (ds':=kid_addrs y1 yk');
      [done..|lia|lia|lia|exact Hvx|exact Hvy|exact Hvq|exact Hnx|exact Hnq|exact Hl2|exact Hc3|exact Hkp|exact Hc64|exact Hat|by exists kr|exact Hp4
      |exact Hi|exact Hc0|exact Hvc|exact Hnc|exact M1|exact M2|exact M3|exact Hspr|exact Hn|lia|exact Hny|exact Hky|exact Hd64|exact Hdl
      |done|done|done|rewrite length_fmap; simpl in *; lia|].
    intros ns' va' vb' vq' Hthree Hva' Hvb' Hvq' Hna' Hnb' Hnq'.
    eapply (node_pair_moved keys n dcost hh 4 es q h lo hi old fl ns l root free Φ p ax x0 xk r ay y0 _ s Hst Hnd Hfl Hsp Hes HΦ
      keys' (n - dcost) (hh - 2 - 1) ns' ltac:(lia) ltac:(lia) Gk (λ b H1 H2 H3, Hthree b H2 H3 H1) kr Gr Gw Ga Gx Gy)
      with (k1 := xk ++ [(r, y0)]) (r' := bx) (y1 := y1) (k2 := yk');
      [by rewrite <- app_assoc|rewrite length_app; simpl; lia|simpl in *; lia|exact Hva'|exact Hvb'|exact Hvq'| |exact Hnb'|exact Hnq'].
    rewrite Er, Ec in Hna'. unfold kid_addrs in *. by rewrite !fmap_app.
  - eapply (merge_child_right_spec cmp insert_handler delete_handler cost hcost dcost spare Hcost Hhcost Hdcost)
      with (t:=length p) (sep:=r) (va:=vx) (vq:=vq) (rs:=rsp) (cs:=csp) (c0:=addr x0) (ds:=kid_addrs y0 yk);
      [done..|lia|lia|lia|exact Hvx|exact Hvy|exact Hvq|exact Hnx|exact Hnq|exact Hl2|exact Hc3|exact Hkp|exact Hc64|exact Hat|by exists kr|exact Hp4
      |exact Hi|exact Hc0|exact Hvc|exact Hnc|exact M1|exact M2|exact M3|exact Hspr|exact Hn|lia|exact Hny|exact Hky|exact Hd64|exact Hdl
      |done|rewrite length_fmap; lia|exact Hfree|exact Fy|].
    intros ns' va' vb' Hthree Hvq' Hva' Hvb' Hnext Hna'.
    eapply (node_pair_merged keys n dcost hh 4 es q h lo hi old fl ns l root free Φ p ax x0 xk r ay y0 yk s Hst Hnd Hfl Hsp Hes HΦ
      keys' (n - dcost) (hh - 2 - 2) ns' ltac:(lia) ltac:(lia) Gk (λ b H1 H2 H3, Hthree b H2 H3 H1) kr Gr Gw Ga Gx Gy);
      [rewrite length_app; simpl; lia|exact Hva'|exact Hvb'|exact Hnext|exact Hvq|exact Hvq'|exact Fy|].
    rewrite Er, Ec in Hna'. unfold kid_addrs in *. by rewrite !fmap_app.
Qed.

Lemma delete_child_left kx kq ky :
  node_is vy false rsp csp → delete i rsp = yk.*1 → delete (S i) csp = kid_addrs y0 yk →
  node_is vx false xk.*1 (kid_addrs x0 xk) → stored ns x0 → stored ns y0 → Forall (λ rc, stored ns rc.2) xk →
  (2 <= length xk <= 4)%nat →
  awp (if Z.of_nat (length xk.*1) >? DEGREE
       then borrow_child_left delete_handler ay q ax ky kq kx (Z.of_nat i) (Z.of_nat (S (length p)))
       else merge_child_left delete_handler ay q ax ky kq kx (Z.of_nat i) (Z.of_nat (S (length p)))) Φ
    (IPool root free ns l (pins3 ay ky ax kx q kq) (hh - 2), World keys n).
Proof using All.
  intros Hny Er Ec Hnx Sx Sy Sxk Hlx. assert (DEGREE = 2) as HD2 by done.
  destruct node_ops_facts as ((N1 & N2 & N3 & P1 & P2 & P3) & Hfree & Fy & (Hat & Hp4) & Hnq & Hfit & Hne & Hkx & Hky & Lx & Ly).
  destruct node_ops_keys as (Gk & Gr & Gw & Ga & Gx & Gy).
  destruct (pending_known _ _ Er Ec Hky) as (Hkp & Hc0 & L1).
  destruct (Hne y0 (or_intror eq_refl)) as (M1 & M2 & M3). pose proof (proj1 (proj1 (stored_page _ _) Sy)) as (vc & Hvc & Hnc).
  rewrite Ly in Hnc. assert (Nat.eqb h 0 = true → spare rr) as Hspr by (intros E%Nat.eqb_eq; by apply Hrr0).
  assert (Forall (in_s 64) (kid_addrs x0 xk)) as Hd64.
  { constructor; [by apply Hfit|]. apply Forall_fmap. eapply Forall_impl; [exact Sxk|]. intros rc. apply Hfit. }
  assert (length (kid_addrs x0 xk) = S (length xk.*1)) as Hdl by (unfold kid_addrs; cbn [length]; by rewrite !length_fmap).
  rewrite length_fmap. rewrite Z.gtb_ltb. destruct (Z.ltb_spec DEGREE (Z.of_nat (length xk))) as [Hgt|Hle].
  - destruct (list_snoc xk) as (xk' & [bx d] & Exk); [intros E; rewrite E in Hgt; simpl in Hgt; lia|].
    assert (length xk' = length xk - 1)%nat as Hlk by (rewrite Exk, length_app; simpl; lia).
    eapply (borrow_child_left_spec cmp insert_handler delete_handler cost hcost dcost spare Hcost Hhcost Hdcost)
      with (t:=length p) (sep:=r) (va:=vy) (vq:=vq) (rs:=rsp) (cs:=csp) (c0:=addr y0) (bx:=bx) (bs':=xk'.*1) (d:=addr d) (ds':=kid_addrs x0 xk');
      [done..|lia|lia|lia|exact Hvy|exact Hvx|exact Hvq|exact Hny|exact Hnq|exact Hl2|exact Hc3|exact Hkp|exact Hc64|exact Hat|by exists kr|exact Hp4
      |exact Hi|exact Hc0|exact Hvc|exact Hnc|exact M2|exact M1|exact M3|exact Hspr|exact Hn|lia|exact Hnx|exact Hkx|exact Hd64|exact Hdl
      |lia|by rewrite Exk, fmap_app|by rewrite Exk; unfold kid_addrs; rewrite fmap_app|rewrite length_fmap; lia|].
    intros ns' va' vb' vq' Hthree Hva' Hvb' Hvq' Hna' Hnb' Hnq'.
    eapply (node_pair_moved keys n dcost hh 4 es q h lo hi old fl ns l root free Φ p ax x0 xk r ay y0 yk s Hst Hnd Hfl Hsp Hes HΦ
      keys' (n - dcost) (hh - 2 - 1) ns' ltac:(lia) ltac:(lia) Gk (λ b H1 H2 H3, Hthree b H3 H2 H1) kr Gr Gw Ga Gx Gy)
      with (k1 := xk') (r' := bx) (y1 := d) (k2 := (r, y0) :: yk);
      [by rewrite Exk, <- app_assoc|lia|simpl; lia|exact Hvb'|exact Hva'|exact Hvq'|exact Hnb'| |exact Hnq'].
    by rewrite Er, Ec in Hna'.
  - eapply (merge_child_left_spec cmp insert_handler delete_handler cost hcost dcost spare Hcost Hhcost Hdcost)
      with (t:=length p) (sep:=r) (va:=vy) (vq:=vq) (rs:=rsp) (cs:=csp) (c0:=addr y0) (ds:=kid_addrs x0 xk);
      [done..|lia|lia|lia|exact Hvy|exact Hvx|exact Hvq|exact Hny|exact Hnq|exact Hl2|exact Hc3|exact Hkp|exact Hc64|exact Hat|by exists kr|exact Hp4
      |exact Hi|exact Hc0|exact Hvc|exact Hnc|exact M2|exact M1|exact M3|exact Hspr|exact Hn|lia|exact Hnx|exact Hkx|exact Hd64|exact Hdl
      |lia|rewrite length_fmap; lia|exact Hfree|exact Fy|].
    intros ns' va' vb' Hthree Hvq' Hva' Hvb' Hnext Hnb'.
    eapply (node_pair_merged keys n dcost hh 4 es q h lo hi old fl ns l root free Φ p ax x0 xk r ay y0 yk s Hst Hnd Hfl Hsp Hes HΦ
      keys' (n - dcost) (hh - 2 - 2) ns' ltac:(lia) ltac:(lia) Gk (λ b H1 H2 H3, Hthree b H3 H2 H1) kr Gr Gw Ga Gx Gy);
      [rewrite length_app; simpl; lia|exact Hvb'|exact Hva'|exact Hnext|exact Hvq|exact Hvq'|exact Fy|].
    rewrite Er, Ec in Hnb'. unfold kid_addrs in *. by rewrite !fmap_app.
Qed.
End pending.
End node_ops.

(** *** An internal node two of whose children were merged *)

Lemma hole_keys h rr keys lo hi q p x s :
  (h = 0%nat → spare rr ∧ rr ∉ seps (node_of q (plug p x s))) →
  Forall (λ r, ¬ spare r) (elems (node_of q (plug p x s))) →
  around (kcmp := kcmp) keys (S h) lo hi p s → wf kcmp keys 1 (S h) (lower keys lo p) (upper keys hi s) x →
  around (kcmp := kcmp) (keys_at h rr keys) (S h) lo hi p s ∧
  wf kcmp (keys_at h rr keys) 1 (S h) (lower (keys_at h rr keys) lo p) (upper (keys_at h rr keys) hi s) x.
Proof using.
  intros Hrr Hrow Ha Hx.
  assert (∀ L, (∀ z, z ∈ L → z ∈ seps (node_of q (plug p x s)) ∨ z ∈ elems (node_of q (plug p x s))) →
    agree keys (keys_at h rr keys) L) as Hagree.
  { intros L HL. apply keys_at_agree. intros H0 Hin'. destruct (Hrr H0) as (H1 & H2).
    destruct (HL _ Hin') as [?|H3]; [done|]. rewrite Forall_forall in Hrow. by apply (Hrow _ H3). }
  assert (agree keys (keys_at h rr keys) (around_elems p s)) as Ge.
  { apply Hagree. intros z Hz. right. rewrite hole_elems. apply elem_of_app. by right. }
  assert (agree keys (keys_at h rr keys) (around_seps p s)) as Gs.
  { apply Hagree. intros z Hz. left. rewrite hole_seps. apply elem_of_app. by right. }
  destruct (around_agree _ _ _ _ _ _ _ Ge Gs Ha) as (Ha' & Elo & Ehi). split; [done|]. rewrite Elo, Ehi.
  eapply wf_agree; [apply Hagree..|exact Hx]; intros z Hz.
  - right. rewrite hole_elems, elem_of_app. auto.
  - left. rewrite hole_seps, elem_of_app. auto.
Qed.

Section node_level.
Context (rr : RID) (keys : gmap RID K) (n hh : Z) (es : list RID) (q : Z) (h : nat) (lo hi : option K) (old : list RID).
Context (fl : list Z) (ns : gmap Z nview) (l root free : Z) (ka : Ptr) (Φ : Z → ipool * world K → Prop).
Context (p : list (tree * RID)) (a : Z) (x0 : tree) (xk : list (RID * tree)) (s : list (RID * tree)).
Local Abbreviation x := (Node a x0 xk).
Local Abbreviation P := (plug p x s).
Context (Hst : hole_stored ns q p x s) (Hnd : NoDup (pages_of (node_of q P) ++ fl)) (Hfl : free_list ns free fl).
Context (Hlen : (1 <= length p + length s <= 4)%nat).
Context (Hsp : Forall spare (seps (node_of q P))) (Hrow : Forall (λ r, ¬ spare r) (elems (node_of q P))).
Context (Hes : elems (node_of q P) ≡ₚ es).
Context (HΦ : after_delete keys n dcost hh 4 es (first_leaf P.1) q (S h) lo hi (length P.2) old (pages_of (node_of q P)) fl ns l root Φ).
Context (Ha : around (kcmp := kcmp) keys (S h) lo hi p s).
Context (Hx : wf kcmp keys 1 (S h) (lower keys lo p) (upper keys hi s) x).
Context (Hrr : is_Some (keys !! rr)) (Hrr0 : h = 0%nat → spare rr ∧ rr ∈ old ∧ rr ∉ seps (node_of q P)).
Context (Hn : dcost <= n) (Hh : 3 < hh).
(** its page *)
Context (va : nview) (i : nat) (rsp : list RID) (csp : list Z) (Hva : ns !! a = Some va) (Hna : node_is va false rsp csp).
Context (Hi : rsp !! i = Some rr) (Er : delete i rsp = xk.*1) (Ec : delete (S i) csp = kid_addrs x0 xk).
Context (Hr24 : (2 <= length rsp <= 4)%nat) (Hcsp : length csp = S (length rsp)) (Hc64 : Forall (in_s 64) csp).

Lemma drop_child_run : DEGREE < Z.of_nat (length rsp) →
  awp (drop_child delete_handler ka (Z.of_nat i);; idx (release a);; mret (-1)) Φ
    (IPool root free ns l (<[a:=(ka, 1)]> ∅) hh, World keys n).
Proof using All.
  intros Hgt. apply awp_room. intros Hin _. assert (DEGREE = 2) as HD2 by done.
  apply NoDup_app in Hnd as Hnd'. destruct Hnd' as (Hnd' & Hdis & _).
  assert (length rsp = S (length xk)) as Hlr.
  { rewrite <- (length_fmap fst), <- Er. apply delete_Permutation, Permutation_length in Hi as E. simpl in E. lia. }
  pose proof Hx as [_ Kx]. assert (∀ z, z ∈ rsp → is_Some (keys !! z)) as Hkp.
  { intros z Hz. apply delete_Permutation in Hi as E. rewrite E, Er in Hz. apply elem_of_cons in Hz as [->|Hz]; [done|].
    by eapply kids_keys. }
  assert (csp !! 0%nat = Some (addr x0)) as Hc0.
  { assert (delete (S i) csp !! 0%nat = csp !! 0%nat) as <- by (by destruct csp). by rewrite Ec. }
  assert (is_leaf x0 = Nat.eqb h 0) as Lx.
  { destruct xk as [|[? ?] ?]; cbn [kids_ok] in Kx; [by eapply wf_leaf|]. destruct Kx as (_ & Kx & _). by eapply wf_leaf. }
  pose proof Hst as (_ & [Sx Sxk] & _). pose proof (proj1 (proj1 (stored_page _ _) Sx)) as (vc & Hvc & Hnc). rewrite Lx in Hnc.
  assert (addr x0 ∈ below_pages x) as Hb.
  { cbn [below_pages]. apply elem_of_app. left. rewrite pages_below. by left. }
  assert (pages_of (node_of q P) ≡ₚ a :: below_pages x ++ q :: flat_map (λ tr, pages_of tr.1) p ++ kid_pages s) as Ep.
  { cbn [pages_of]. rewrite (plug_flat pages_of), (pages_below x). unfold kid_pages. cbn [addr]. perm. }
  assert (addr x0 ≠ a) as Hne.
  { intros E. rewrite Ep in Hnd'. apply NoDup_cons in Hnd' as [Hn' _]. apply Hn', elem_of_app. left. by rewrite <- E. }
  assert (a ∈ pages_of (node_of q P)) as Hap by (rewrite Ep; by left).
  awp_step. eapply (drop_child_spec delete_handler dcost spare Hdcost) with (a:=a) (c:=1) (c0:=addr x0);
    [map_find|exact Hva|exact Hna|lia|exact Hcsp|exact Hkp|exact Hc64|exact Hi|exact Hc0|exact Hvc|exact Hnc|map_find|pins_size|lia
    |intros E%Nat.eqb_eq; by apply Hrr0|exact Hn|].
  intros va' Hna'. rewrite Er, Ec in Hna'. cbv beta.
  awp_step. apply awp_idx. eapply ip_release; [map_find|]. cbv beta. rewrite delete_insert_id by apply lookup_empty. awp_step.
  destruct (hole_keys h rr keys lo hi q p x s) as [Ha' Hx']; [intros H0; by destruct (Hrr0 H0) as (? & _ & ?)|done..|].
  eapply (finish_kept spare keys n dcost hh 4 es q (S h) lo hi old fl ns l root Φ p x s x _ _ _ _ _ _ HΦ);
    [lia|lia| | | |done|done| | |by rewrite <- hole_elems|exact Hsp].
  - intros z Hz _. apply keys_at_agree with (L := [z]); [|by left]. intros H0 ->%list_elem_of_singleton. by apply Hz, Hrr0.
  - intros b Hb'. apply lookup_insert_ne. intros <-. apply Hb', elem_of_app. by left.
  - eapply free_list_frame; [|exact Hfl]. intros b Hb'. apply lookup_insert_ne. intros <-. by apply (Hdis a).
  - apply around_plug. split; [exact Ha'|]. destruct Hx' as [_ Kx']. split; [lia|exact Kx'].
  - assert (below_stored (<[a:=va']> ns) x) as Hbel.
    { eapply below_frame; [|exact (conj Sx Sxk)]. intros b Hb'. apply lookup_insert_ne. intros <-.
      rewrite Ep in Hnd'. apply NoDup_cons in Hnd' as [Hn' _]. by apply Hn', elem_of_app; left. }
    apply hole_elim; [eapply (hole_frame ns _ q p x s Hst Hnd'); [|done|exact Hbel]|].
    + intros b _ Hb'. apply lookup_insert_ne. intros <-. apply Hb'. by left.
    + apply stored_page. split; [|exact Hbel]. exists va'. split; [apply lookup_insert_eq|exact Hna'].
Qed.

Lemma delete_child_spec : awp (delete_child delete_handler a q ka (Z.of_nat i)) Φ
    (IPool root free ns l (<[a:=(ka, 1)]> ∅) hh, World keys n).
Proof using All.
  apply awp_room. intros Hin Hlm. apply NoDup_app in Hnd as Hnd'. destruct Hnd' as (Hnd' & _ & _).
  assert (length P.2 <= 4)%nat as Hl4 by (rewrite plug_length; lia). assert (DEGREE = 2) as HD2 by done.
  unfold delete_child. awp_step. eapply nd_read_n; [map_find|exact Hva|exact Hna|]. cbv beta. rewrite Z.gtb_ltb.
  destruct (Z.ltb_spec DEGREE (Z.of_nat (length rsp))) as [Hgt|Hle]; [by apply drop_child_run|].
  assert (length rsp = 2%nat) as Hl2 by lia. assert (length csp = 3%nat) as Hc3 by lia.
  pose proof Hst as (_ & [Sx Sxk] & _).
  eapply (pick_brother_spec root free ns l hh _ q p x s Hst Hnd' Hin ltac:(lia) ltac:(lia) ka ltac:(by exists va)).
  - intros r y s' kq kb ->. destruct (pair_right _ _ _ _ _ _ _ Hst) as [Hpair Hsty].
    pose proof Hpair as ((vq & Hvq & _) & _). destruct (around_right _ _ _ _ _ _ _ _ Ha) as (kr & Hkr & Hw & Hwy & Ha').
    destruct y as [|b y0 yk]; [done|]. apply stored_page in Hsty as [(vb & Hvb & Hnb) [Sy Syk]]. cbn [upper] in Hx. rewrite Hkr in Hx.
    pose proof Hwy as [Hly _].
    eapply (delete_child_right rr keys n hh es q h lo hi old fl ns l root free Φ p a x0 xk r b y0 yk s' Hpair Hnd Hfl Hl4 Hsp Hrow Hes HΦ
      kr Hkr Hw Ha' Hx); [by eapply wf_weaken; [|exact Hwy]; lia|eassumption..].
  - intros r y p' kq kb -> ->. destruct (pair_left _ _ _ _ _ _ _ Hst) as [Hpair Hsty].
    pose proof Hpair as ((vq & Hvq & _) & _). rewrite lower_snoc in Hx.
    destruct (around_left _ _ _ _ _ _ _ _ _ Ha Hx) as (kr & Hkr & Hw & Hwy & Ha').
    destruct y as [|b y0 yk]; [done|]. apply stored_page in Hsty as [(vb & Hvb & Hnb) [Sy Syk]]. rewrite Hkr in Hx.
    pose proof Hwy as [Hly _]. rewrite plug_snoc in *. rewrite length_app, Nat.add_1_r.
    eapply (delete_child_left rr keys n hh es q h lo hi old fl ns l root free Φ p' b y0 yk r a x0 xk [] Hpair Hnd Hfl Hl4 Hsp Hrow Hes HΦ
      kr Hkr Hw Ha'); [by eapply wf_weaken; [|exact Hwy]; lia|exact Hx|eassumption..].
Qed.
End node_level.

(** *** The way up *)

Local Abbreviation level := (4 * cost + hcost + dcost).

(** the child [c] of [q], below which the deletion has been *)
Section climb.
Context (keys : gmap RID K) (n hh : Z) (rid : RID) (es : list RID) (q : Z) (h : nat) (lo hi : option K).
Context (fl : list Z) (ns : gmap Z nview) (l root : Z) (Φ : Z → ipool * world K → Prop).
Context (p : list (tree * RID)) (a : Z) (t0 : tree * list (RID * tree)) (s : list (RID * tree)).
Local Abbreviation c := (node_of a t0).
Local Abbreviation P := (plug p c s).
Local Abbreviation N := (Z.of_nat (S h)).
Context (Hok : kids_ok kcmp keys (wf kcmp keys 2 (S h)) lo hi P.1 P.2) (Hlen : (1 <= length p + length s <= 4)%nat).
Context (Hst : stored ns (node_of q P)) (Hnd : NoDup (pages_of (node_of q P) ++ fl)) (Hin : nodes_in ns l).
Context (Hsp : Forall spare (seps (node_of q P))) (Hrow : Forall (λ r, ¬ spare r) (elems (node_of q P))).
Context (Hes : elems (node_of q P) ≡ₚ rid :: es).
Context (HΦ : after_delete keys n (level * (N + 1)) hh (6 * (N + 1)) es (first_leaf P.1) q (S h) lo hi (length P.2)
  (seps (node_of q P)) (pages_of (node_of q P)) fl ns l root Φ).
(** what the deletion below left *)
Context (es2 : list RID) (Hes2 : elems c ≡ₚ rid :: es2) (keys1 : gmap RID K) (n1 : Z) (res : Z) (free1 : Z) (fl1 : list Z) (ns1 : gmap Z nview) (h1 : Z) (T1 : list Z).
Context (Hn1 : n - level * N - 4 * cost <= n1) (Hh1 : hh - 6 * N - 1 <= h1) (Hn : level * (N + 1) <= n) (Hhh : 6 * (N + 1) <= hh).
Context (Hk1 : ∀ r, r ∉ seps c → is_Some (keys !! r) → keys1 !! r = keys !! r).
Context (Hp1 : T1 ++ fl1 ≡ₚ pages_of c ++ fl) (Ho1 : ∀ x, x ∉ pages_of c ++ fl → ns1 !! x = ns !! x) (Hfl1 : free_list ns1 free1 fl1).
Context (Hs1 : shrunk (kcmp := kcmp) spare keys1 es2 (first_leaf t0.1) a h (lower keys lo p) (upper keys hi s) (length t0.2) (seps c) ns1 res T1).

Lemma climb_facts : around (kcmp := kcmp) keys1 (S h) lo hi p s ∧ lower keys1 lo p = lower keys lo p ∧ upper keys1 hi s = upper keys hi s ∧
  es ≡ₚ es2 ++ around_elems p s ∧ Forall spare (around_seps p s) ∧ Forall (λ r, ¬ spare r) (es2 ++ around_elems p s) ∧
  (∀ r, r ∉ seps (node_of q P) → is_Some (keys !! r) → keys1 !! r = keys !! r) ∧ (∀ r, r ∈ seps c → r ∉ around_seps p s) ∧
  0 < q ∧ NoDup (pages_of (node_of q P)).
Proof using All.
  apply NoDup_app in Hnd as Hnd'. destruct Hnd' as (Hnd' & _ & _).
  assert (length P.2 <= 4)%nat as Hl4 by (rewrite plug_length; lia).
  destruct (node_known keys (S h) lo hi q P Hl4 Hok) as (HndS & HkS & HkE).
  destruct (proj1 (around_plug _ _ _ _ _ _ _) Hok) as [Ha _].
  assert (es ≡ₚ es2 ++ around_elems p s) as E.
  { apply (Permutation_cons_inv (a:=rid)). rewrite <- Hes, hole_elems. by rewrite Hes2. }
  assert (Forall (λ r, ¬ spare r) (es2 ++ around_elems p s)) as Hrow'.
  { rewrite Hes, E in Hrow. by apply Forall_cons in Hrow as [_ ?]. }
  rewrite hole_seps in HndS. apply NoDup_app in HndS as (_ & Hdis & _).
  assert (∀ r, r ∈ seps c → spare r) as Hspc.
  { intros r Hr. rewrite Forall_forall in Hsp. apply Hsp. rewrite hole_seps. apply elem_of_app. by left. }
  assert (agree keys keys1 (around_elems p s)) as Ge.
  { intros r Hr. apply Hk1; [|apply HkE; rewrite hole_elems; apply elem_of_app; by right].
    intros Hr'. rewrite Forall_forall in Hrow'. apply (Hrow' r); [apply elem_of_app; by right|by apply Hspc]. }
  assert (agree keys keys1 (around_seps p s)) as Gs.
  { intros r Hr. apply Hk1; [|apply HkS; rewrite hole_seps; apply elem_of_app; by right]. intros Hr'. by apply (Hdis r). }
  destruct (around_agree _ _ _ _ _ _ _ Ge Gs Ha) as (Ha' & Elo & Ehi).
  pose proof Hst as ((vq & Hvq & _) & _). pose proof (Hin q ltac:(by exists vq)).
  split; [done|]. split; [done|]. split; [done|]. split; [done|]. split; [|split; [done|split; [|split; [done|split; [lia|done]]]]].
  - rewrite hole_seps in Hsp. by apply Forall_app in Hsp as [_ ?].
  - intros r Hr. apply Hk1. intros Hr'. apply Hr. rewrite hole_seps. apply elem_of_app. by left.
Qed.

(** the nodes around [c] *)
Lemma climb_hole c' : addr c' = a → below_stored ns1 c' → hole_stored ns1 q p c' s.
Proof using Hst Hnd Ho1.
  intros Ea Hc'. destruct (hole_intro _ _ _ _ _ Hst) as [Hhole _].
  apply NoDup_app in Hnd as Hnd'. destruct Hnd' as (Hnd' & Hdis & _).
  eapply (hole_frame ns ns1 q p c s Hhole Hnd'); [|done|done].
  intros b Hb Hbc. apply Ho1. intros [?|Hf]%elem_of_app; [done|]. by apply (Hdis b).
Qed.

Lemma climb_outside b : b ∉ pages_of (node_of q P) ++ fl → ns1 !! b = ns !! b.
Proof using Ho1.
  intros Hb. apply Ho1. intros H. apply Hb. cbn [pages_of]. rewrite (plug_flat pages_of).
  apply elem_of_app in H as [H|H]; [|apply elem_of_app; by right]. apply elem_of_app. left. right. rewrite !elem_of_app. auto.
Qed.

Lemma climb_pages c' fl' : pages_of c' ++ fl' ≡ₚ pages_of c ++ fl →
  pages_of (node_of q (plug p c' s)) ++ fl' ≡ₚ pages_of (node_of q P) ++ fl.
Proof using. clear. intros E. cbn [pages_of] in *. rewrite !(plug_flat pages_of). cbn [pages_of] in *. perm. Qed.

(** the addresses in a node fit their fields *)
Lemma pending_fits ns' l' p2 m s2 y : nodes_in ns' l' → l' <= MAX_LEN → below_stored ns' (node_of a (plug p2 m s2)) → in_s 64 y →
  Forall (in_s 64) (((λ tr : tree * RID, addr tr.1) <$> p2) ++ addr m :: y :: ((λ rc : RID * tree, addr rc.2) <$> s2)).
Proof using.
  clear. intros Hin Hl Bt Hy. destruct (proj1 (plug_forall (stored ns') p2 m s2) Bt) as (Sp2 & Sm & Ss2).
  assert (∀ t, stored ns' t → in_s 64 (addr t)) as Hfit.
  { intros t Ht. pose proof (Hin _ (stored_addr _ _ Ht)). unfold in_s, MAX_LEN in *. change (2 ^ (64 - 1)) with (2 ^ 63). lia. }
  apply Forall_app. split; [apply Forall_fmap; eapply Forall_impl; [exact Sp2|]; intros tr; apply Hfit|].
  constructor; [by apply Hfit|]. constructor; [done|]. apply Forall_fmap. eapply Forall_impl; [exact Ss2|]. intros tr. apply Hfit.
Qed.

Lemma climb_up_spec :
  awp (node ← idx (get_page a);
       if res =? -1 then idx (release a);; mret (-1)
       else if negb (q =? -1) then delete_child delete_handler a q node res
       else drop_child_root delete_handler a node res)
    Φ (IPool root free1 ns1 l ∅ h1, World keys1 n1).
Proof using All.
  assert (hcost + dcost <= n1) as Hbudget.
  { clear -Hn1 Hn. lia. }
  destruct climb_facts as (Ha1 & Elo & Ehi & Ees & Hspa & Hrow1 & Hkn & Hdis & Hq & Hndp).
  destruct Hs1 as [t Kt Lt St Et Ft Spt|p2 m s2 r y Kt Lt Qt Bt Et Ft Spt Hr Hy64 Hr0].
  - pose proof (proj1 (stored_page _ _) St) as [(v & Hv & _) Bt]. cbn [addr] in Hv.
    awp_step. apply awp_idx. eapply ip_get_node; [exact Hv|map_find|pins_size|lia|]. intros ka. cbv beta. cbn [Z.eqb Pos.eqb].
    awp_step. apply awp_idx. eapply ip_release; [map_find|]. cbv beta. rewrite delete_insert_id by apply lookup_empty. awp_step.
    eapply (finish_kept spare keys n _ hh _ es q (S h) lo hi _ fl ns l root Φ p c s (node_of a t) _ _ _ _ _ _ HΦ);
      [lia|lia|exact Hkn|exact climb_outside|exact Hfl1|exact Hp1|exact Ft| | |by rewrite Et|].
    + apply around_plug. split; [done|]. rewrite Elo, Ehi. destruct (proj1 (around_plug _ _ _ _ _ _ _) Hok) as [_ [Hl _]].
      split; [lia|exact Kt].
    + apply hole_elim; [by apply climb_hole|exact St].
    + rewrite hole_seps. by apply Forall_app.
  - destruct Qt as (va & Hva & Hna). pose proof (climb_hole (node_of a (plug p2 m s2)) eq_refl Bt) as Hhole.
    awp_step. apply awp_idx. eapply ip_get_node; [exact Hva|map_find|pins_size|lia|]. intros ka. cbv beta.
    rewrite (proj2 (Z.eqb_neq _ (-1))) by lia. rewrite (proj2 (Z.eqb_neq q (-1))) by lia. cbn [negb].
    pose proof (climb_pages (node_of a (plug p2 m s2)) fl1 Hp1) as Ep.
    destruct (proj1 (around_plug _ _ _ _ _ _ _) Hok) as [_ [Hl _]].
    assert (length (p2.*2 ++ r :: s2.*1) = S (length p2 + length s2)) as Hlr.
    { rewrite length_app. simpl. rewrite !length_fmap. lia. }
    assert (first_leaf (plug p (node_of a (plug p2 m s2)) s).1 = first_leaf P.1) as Ef.
    { rewrite !(first_leaf_plug p). by destruct p as [|[? ?] ?]. }
    apply awp_room. intros Hin1 Hlm.
    eapply (delete_child_spec r keys1 n1 (h1 - 1) es q h lo hi (seps (node_of q P)) fl1 ns1 l root free1 ka Φ p a
      (plug p2 m s2).1 (plug p2 m s2).2 s Hhole) with (rsp := p2.*2 ++ r :: s2.*1);
      [by rewrite Ep|exact Hfl1|done| | | | |exact Ha1| |exact Hr| |clear -Hbudget Hhcost; lia|lia|exact Hva|exact Hna| |by apply pending_rows|by apply pending_addrs|lia
      | |].
    + rewrite hole_seps. by apply Forall_app.
    + by rewrite hole_elems, Et.
    + by rewrite hole_elems, Et, Ees.
    + intros keys' n' res' free' fl' ns' h' T' H1 H2 H3 H4 H5 H6 H7.
      eapply HΦ; [lia|lia| |by rewrite H4| |exact H6|].
      * intros z Hz Hkz. rewrite H3; [by apply Hkn|done|]. by rewrite Hkn.
      * intros b Hb. rewrite H5; [by apply climb_outside|]. by rewrite Ep.
      * rewrite Ef in H7. by rewrite !plug_length in *.
    + rewrite Elo, Ehi. split; [rewrite plug_length; lia|exact Kt].
    + intros H0. destruct (Hr0 H0) as (R1 & R2 & R3). split; [done|]. split; [rewrite hole_seps; apply elem_of_app; by left|].
      rewrite hole_seps, elem_of_app. intros [?|?]; [done|]. by apply (Hdis r).
    + rewrite lookup_app_r by (by rewrite length_fmap). by rewrite length_fmap, Nat.sub_diag.
    + rewrite Hlr, length_app. simpl. rewrite !length_fmap. lia.
    + by apply (pending_fits ns1 l).
Qed.
End climb.

(** *** The way down *)

(** the child whose bounds have the key of [rid] has the row [rid] *)
Lemma pick_child rid k keys h lo hi c0 kids i :
  keys !! rid = Some k → kids_ok kcmp keys (wf kcmp keys 2 h) lo hi c0 kids → above kcmp lo k → below kcmp hi k →
  rid ∈ elems c0 ++ kid_elems kids → (i <= length kids)%nat → scan_at (kcmp := kcmp) keys k kids.*1 i →
  ∃ p c s, c0 = (plug p c s).1 ∧ kids = (plug p c s).2 ∧ length p = i ∧ rid ∈ elems c.
Proof using KO.
  intros Hk Hok Hlo Hhi Hr Hi [Hbefore Hat]. destruct (plug_exists c0 kids i Hi) as (p & c & s & -> & -> & Hp). subst i.
  destruct (kids_choose _ _ _ _ _ _ _ _ Hok Hlo Hhi Hbefore Hat) as [Hlo' Hhi'].
  exists p, c, s. split; [done|]. split; [done|]. split; [done|]. by eapply kids_elems.
Qed.

Lemma delete_entry_spec rid k root l fuel : ∀ h lo hi keys q p c s free ns hh n es fl (Φ : Z → ipool * world K → Prop),
  let t := plug p c s in
  keys !! rid = Some k → rid ∈ elems c → kids_ok kcmp keys (wf kcmp keys 2 h) lo hi t.1 t.2 →
  (1 <= length p + length s <= 4)%nat → stored ns (node_of q t) → Forall spare (seps (node_of q t)) →
  Forall (λ r, ¬ spare r) (elems (node_of q t)) → elems (node_of q t) ≡ₚ rid :: es → (h < fuel)%nat →
  free_list ns free fl → NoDup (pages_of (node_of q t) ++ fl) →
  level * Z.of_nat (S h) <= n → 6 * Z.of_nat (S h) <= hh →
  after_delete keys n (level * Z.of_nat (S h)) hh (6 * Z.of_nat (S h)) es (first_leaf t.1) q h lo hi (length t.2)
    (seps (node_of q t)) (pages_of (node_of q t)) fl ns l root Φ →
  awp (delete_entry cmp insert_handler delete_handler fuel (addr c) q rid) Φ (IPool root free ns l ∅ hh, World keys n).
Proof using HC HD HI Hcost Hdcost Hhcost KO KW.
  induction fuel as [|fuel IH];
    intros h lo hi keys q p c s free ns hh n es fl Φ t Hk Hrid Hok Hlen Hst Hsp Hrow Hes Hf Hfl Hnd Hn Hhh HΦ; [lia|].
  apply awp_nodes. intros Hin. cbn [delete_entry]. unfold t in *.
  destruct (hole_intro _ _ _ _ _ Hst) as [Hhole Hc]. pose proof Hst as ((vq & Hvq & _) & _).
  pose proof (Hin q ltac:(by exists vq)) as Hq0. destruct (proj1 (around_plug _ _ _ _ _ _ _) Hok) as [Ha Hwc].
  pose proof (proj1 (stored_page _ _) Hc) as [(v & Hv & Hnode) Hbelow].
  awp_step. apply awp_idx. eapply ip_get_node; [exact Hv|map_find|pins_size|lia|]. intros kp. cbv beta.
  awp_step. eapply nd_read_leaf; [map_find|exact Hv|exact Hnode|]. cbv beta.
  destruct h as [|h], c as [a rs|a c0 kids]; try done; cbn [addr is_leaf negb page_rows page_kids elems] in *.
  - rewrite (proj2 (Z.eqb_neq q (-1))) by lia. cbn [negb].
    eapply (delete_row_spec cmp insert_handler delete_handler cost hcost dcost spare Hcost Hhcost Hdcost rid k keys n (hh - 1) es q lo hi fl ns l root free kp Φ p a rs s);
      try done; [lia|lia|].
    intros keys' n' res free' fl' ns' h' T' H1 H2. eapply HΦ; lia.
  - pose proof Hwc as [Hl Hk2]. destruct (wf_within _ _ _ _ _ _ Hwc rid Hrid) as (k' & Ek' & Hlo & Hhi).
    assert (k' = k) as -> by congruence. awp_step. eapply (find_subtree_spec cmp cost Hcost); [exact Hk|map_find|exact Hv|exact Hnode|rewrite length_fmap; lia| |nia|].
    { intros r Hr. by eapply kids_keys. }
    intros i Hi Hscan. cbv beta. rewrite length_fmap in Hi.
    destruct (pick_child rid k keys h _ _ c0 kids i Hk Hk2 Hlo Hhi Hrid Hi Hscan) as (p2 & c2 & s2 & -> & -> & <- & Hrid2).
    awp_step. eapply nd_read_child; [map_find|exact Hv|exact Hnode|done| |].
    { unfold kid_addrs. rewrite (plug_children addr). rewrite lookup_app_r by (by rewrite length_fmap).
      by rewrite length_fmap, Nat.sub_diag. }
    cbv beta. awp_step. apply awp_idx. eapply ip_release; [map_find|]. rewrite delete_insert_id by done. cbv beta.
    rewrite plug_length in Hl. set (c := node_of a (plug p2 c2 s2)) in *.
    assert (seps (node_of q (plug p c s)) ≡ₚ seps c ++ around_seps p s) as Es by apply hole_seps.
    assert (elems (node_of q (plug p c s)) ≡ₚ elems c ++ around_elems p s) as Ee by apply hole_elems.
    apply elem_of_Permutation in Hrid as [es2 Hes2].
    apply NoDup_app in Hnd as Hnd'. destruct Hnd' as (Hndt & Hdis & Hndf).
    assert (NoDup (pages_of c ++ fl)) as Hndc.
    { assert (pages_of (node_of q (plug p c s)) ≡ₚ pages_of c ++ q :: flat_map (λ tr, pages_of tr.1) p ++ kid_pages s) as E.
      { cbn [pages_of]. rewrite (plug_flat pages_of). unfold kid_pages. perm. }
      rewrite E, NoDup_app in Hndt. apply NoDup_app. split; [apply Hndt|]. split; [|done].
      intros b Hb. apply Hdis. rewrite E. apply elem_of_app. by left. }
    awp_step. eapply (IH h (lower keys lo p) (upper keys hi s) keys a p2 c2 s2 free ns (hh - 1) (n - 4 * cost) es2 fl);
      [exact Hk|exact Hrid2|exact Hk2|lia|exact Hc| | |exact Hes2|lia|exact Hfl|exact Hndc|nia|lia|].
    { rewrite Es in Hsp. by apply Forall_app in Hsp as [? _]. }
    { rewrite Ee in Hrow. by apply Forall_app in Hrow as [? _]. }
    intros keys1 n1 res free1 fl1 ns1 h1 T1 Hn1 Hh1 Hk1 Hp1 Ho1 Hfl1 Hs1. cbv beta.
    eapply (climb_up_spec keys n hh rid es q h lo hi fl ns l root Φ p a (plug p2 c2 s2) s Hok Hlen Hst Hnd Hin Hsp Hrow Hes) with (es2 := es2);
      [|exact Hes2|nia|lia|nia|lia|exact Hk1|exact Hp1|exact Ho1|exact Hfl1|exact Hs1].
    intros keys' n' res' free' fl' ns' h' T' H1 H2. eapply HΦ; [nia|lia].
Qed.

(** *** The root *)

(** what a deletion in the tree [t] may leave *)
Record index_shrunk (keys : gmap RID K) (t : tree) (fl : list Z) (l n hh : Z) (rid : RID)
    (g' : ipool) (keys' : gmap RID K) (o' : option tree) (n' : Z) : Prop := {
  is_holds : ∃ fl', index_holds (kcmp := kcmp) g' keys' o' fl' ∧ index_pages o' ++ fl' ≡ₚ pages_of t ++ fl;
  is_keys : ∀ r, r ∉ seps t → is_Some (keys !! r) → keys' !! r = keys !! r;
  is_rows : elems t ≡ₚ rid :: index_rows o';
  is_depth : index_depth o' <= index_depth (Some t);
  is_seps : ∀ t', o' = Some t' → Forall spare (seps t');
  is_ops : n - level * (Z.of_nat (height t) + 1) <= n';
  is_hits : hh - (6 * (Z.of_nat (height t) + 1) + 1) <= i_hits g';
  is_len : i_len g' = l;
}.

Section root.
Context (rid : RID) (k : K) (keys : gmap RID K) (t : tree) (fl : list Z) (free : Z) (ns : gmap Z nview) (l n hh : Z).
Context (Φ : Z → ipool * world K → Prop).
Context (Hk : keys !! rid = Some k) (Hrid : rid ∈ elems t) (Hwf : wf kcmp keys 1 (height t) None None t) (Hst : stored ns t).
Context (Hfl : free_list ns free fl) (Hnd : NoDup (pages_of t ++ fl)) (Hfirst : first_leaf t = PAGE_SIZE).
Context (Hsp : Forall spare (seps t)) (Hrow : Forall (λ r, ¬ spare r) (elems t)).
Context (Hn : level * (Z.of_nat (height t) + 1) <= n) (Hhh : 6 * (Z.of_nat (height t) + 1) + 1 <= hh).
Context (HΦ : ∀ z g' keys' o' n', index_shrunk keys t fl l n hh rid g' keys' o' n' → Φ z (g', World keys' n')).

Lemma drop_row_root_spec a rs ka h1 : t = Leaf a rs → hh - 2 <= h1 → nodes_in ns l →
  awp (drop_row_root cmp a ka rid) Φ (IPool a free ns l (<[a:=(ka, 1)]> ∅) h1, World keys n).
Proof using All.
  intros Et Hh1 Hin. rewrite Et in *. cbn [height elems seps pages_of first_leaf] in *.
  eapply (drop_row_leaf_spec cmp cost Hcost rid k keys a rs fl); try done; [lia|lia|].
  intros g' o' fl' [Hh' Hl' Hr' Hp' Hlen' Hhits']. apply (HΦ _ _ _ o').
  assert (∀ t', o' = Some t' → seps t' = [] ∧ height t' = 0%nat) as Hleaf by (intros ? ->; by destruct t').
  constructor; cbn [index_depth height elems pages_of]; [by exists fl'|done|done| | |lia|lia|done].
  - destruct o' as [t'|]; [|done]. cbn [index_depth]. destruct (Hleaf t' eq_refl) as [_ ->]. done.
  - intros t' E. by rewrite (proj1 (Hleaf t' E)).
Qed.

(** the node at the root after the deletion below it *)
Section root_climb.
Context (a : Z) (t0 : tree * list (RID * tree)) (h : nat) (Et : t = node_of a t0) (Eh : height t = S h) (Hin : nodes_in ns l).
Context (es : list RID) (Hes : elems t ≡ₚ rid :: es) (keys1 : gmap RID K) (n1 free1 : Z) (fl1 : list Z) (ns1 : gmap Z nview) (h1 : Z).
Context (Hn1 : n - level * Z.of_nat (S h) - 4 * cost <= n1) (Hh1 : hh - 6 * Z.of_nat (S h) - 2 <= h1).
Context (Hk1 : ∀ r, r ∉ seps t → is_Some (keys !! r) → keys1 !! r = keys !! r) (Hfl1 : free_list ns1 free1 fl1).

Lemma root_budget : hcost + dcost <= n1.
Proof using Eh Hn Hn1 Hcost Hdcost Hhcost. rewrite Eh in Hn. clear -Hn1 Hn Hcost Hdcost Hhcost. lia. Qed.

(** what is left of the budget when the deletion ends *)
Lemma root_left n2 h2 o' fl2 keys2 ns2 root2 free2 z : n1 - dcost <= n2 → h1 - 4 <= h2 →
  index_holds (kcmp := kcmp) (IPool root2 free2 ns2 l ∅ h2) keys2 o' fl2 → index_pages o' ++ fl2 ≡ₚ pages_of t ++ fl →
  (∀ r, r ∉ seps t → is_Some (keys !! r) → keys2 !! r = keys !! r) → elems t ≡ₚ rid :: index_rows o' →
  index_depth o' <= index_depth (Some t) → (∀ t', o' = Some t' → Forall spare (seps t')) →
  Φ z (IPool root2 free2 ns2 l ∅ h2, World keys2 n2).
Proof using All.
  intros Hn2 Hh2 Hix Hp Hk2 He Hd Hs. apply (HΦ _ _ _ o'). rewrite Eh in Hn.
  constructor; cbn [i_hits i_len]; rewrite ?Eh; [by exists fl2|done|done|done|done| | |done].
  - clear -Hn2 Hn1 Hn Hcost Hdcost Hhcost. lia.
  - clear -Hh2 Hh1. lia.
Qed.

(** no children were merged *)
Lemma root_kept_spec t1 ka : kids_ok kcmp keys1 (wf kcmp keys1 2 h) None None t1.1 t1.2 → length t1.2 = length t0.2 →
  stored ns1 (node_of a t1) → elems (node_of a t1) ≡ₚ es → first_leaf t1.1 = first_leaf t0.1 →
  Forall spare (seps (node_of a t1)) → pages_of (node_of a t1) ++ fl1 ≡ₚ pages_of t ++ fl →
  awp (idx (release a);; mret (-1)) Φ (IPool a free1 ns1 l (<[a:=(ka, 1)]> ∅) (h1 - 1), World keys1 n1).
Proof using All.
  intros Kt Lt St Es Ft Spt Hp.
  assert (1 <= length t0.2)%nat as Hl1 by (rewrite Eh, Et in Hwf; by destruct Hwf as [[? _] _]).
  assert (wf kcmp keys1 1 (S h) None None (node_of a t1)) as Hwf1.
  { rewrite Eh, Et in Hwf. destruct Hwf as [[_ ?] _]. split; [lia|exact Kt]. }
  pose proof (wf_height _ _ _ _ _ _ _ Hwf1) as Eh1.
  awp_step. apply awp_idx. eapply ip_release; [map_find|]. cbv beta. rewrite delete_insert_id by apply lookup_empty. awp_step.
  eapply (root_left _ _ (Some (node_of a t1))); [lia|lia| |exact Hp|exact Hk1| | |].
  - constructor; cbn [i_root i_pins i_nodes i_free i_len index_pages rooted]; [|done|done|by rewrite Hp|done|].
    + rewrite Eh1. by split.
    + intros ? [= <-]. cbn [first_leaf]. rewrite Ft. by rewrite Et in Hfirst.
  - cbn [index_rows]. by rewrite Es.
  - cbn [index_depth]. by rewrite Eh, Eh1.
  - by intros ? [= <-].
Qed.

(** two of them were, and the key and the page of the second have left the
    root: [t1] is what is below it, [va] its page *)
Section merged.
Context (t1 : tree * list (RID * tree)) (va : nview) (ka : nat) (keys2 : gmap RID K) (n2 h2 : Z).
Context (Hn2 : n1 - dcost <= n2) (Hh2 : h1 - 2 <= h2).
Context (Hk2 : ∀ r, r ∉ seps t → is_Some (keys !! r) → keys2 !! r = keys !! r).
Context (Kt : kids_ok kcmp keys2 (wf kcmp keys2 2 h) None None t1.1 t1.2) (Lt : (length t1.2 <= 4)%nat).
Context (Bt : below_stored ns1 (node_of a t1)) (Es : elems (node_of a t1) ≡ₚ es) (Ft : first_leaf t1.1 = first_leaf t0.1).
Context (Spt : Forall spare (seps (node_of a t1))) (Hp : pages_of (node_of a t1) ++ fl1 ≡ₚ pages_of t ++ fl).
Context (Hva : is_Some (ns1 !! a)) (Hna : node_is va false t1.2.*1 (kid_addrs t1.1 t1.2)).

Lemma merged_apart : a ∉ pages_of t1.1 ++ kid_pages t1.2 ++ fl1 ∧ NoDup (pages_of t1.1 ++ kid_pages t1.2 ++ fl1).
Proof using Hp Hnd.
  clear -Hp Hnd. assert (NoDup (a :: pages_of t1.1 ++ kid_pages t1.2 ++ fl1)) as Hnda; [|by apply NoDup_cons in Hnda].
  eapply nodup_perm; [|rewrite <- Hp in Hnd; exact Hnd]. cbn [pages_of]. unfold kid_pages. perm.
Qed.

Lemma merged_frame v : below_stored (<[a:=v]> ns1) (node_of a t1) ∧ free_list (<[a:=v]> ns1) free1 fl1.
Proof using Hp Hnd Bt Hfl1.
  destruct merged_apart as [Hna1 _]. clear -Hna1 Bt Hfl1. split.
  - eapply below_frame; [|exact Bt]. intros b Hb. apply lookup_insert_ne. intros ->. apply Hna1. rewrite app_assoc. by apply elem_of_app; left.
  - eapply free_list_frame; [|exact Hfl1]. intros b Hb. apply lookup_insert_ne. intros ->. apply Hna1. rewrite !elem_of_app. auto.
Qed.

(** the root still has a key *)
Lemma root_stays_spec : t1.2 ≠ [] →
  awp (idx (release a);; mret (-1)) Φ (IPool a free1 (<[a:=va]> ns1) l (<[a:=(ka, 1)]> ∅) h2, World keys2 n2).
Proof using All.
  intros Hne. destruct (merged_frame va) as [Hb Hf].
  assert (wf kcmp keys2 1 (S h) None None (node_of a t1)) as Hwf3.
  { split; [destruct t1.2; [done|simpl in *; lia]|exact Kt]. }
  pose proof (wf_height _ _ _ _ _ _ _ Hwf3) as Eh1.
  awp_step. apply awp_idx. eapply ip_release; [map_find|]. cbv beta. rewrite delete_insert_id by apply lookup_empty. awp_step.
  eapply (root_left _ _ (Some (node_of a t1))); [lia|lia| |exact Hp|exact Hk2| | |].
  - constructor; cbn [i_root i_pins i_nodes i_free i_len index_pages rooted]; [|done|exact Hf|by rewrite Hp|done|].
    + rewrite Eh1. split; [done|]. split; [exact Hwf3|]. apply stored_page. split; [|exact Hb].
      exists va. split; [apply lookup_insert_eq|done].
    + intros ? [= <-]. cbn [first_leaf]. rewrite Ft. by rewrite Et in Hfirst.
  - cbn [index_rows]. by rewrite Es.
  - cbn [index_depth]. by rewrite Eh, Eh1.
  - by intros ? [= <-].
Qed.

(** the root has one child, which becomes the root *)
Lemma root_goes_spec : t1.2 = [] → l <= MAX_LEN → nodes_in ns1 l →
  awp (ctrl ← idx (get_page 0);
       head ← nd ctrl (rd_i64 off_free_node_head);
       nd ka (wr_node_next head);;
       nd ctrl (wr_64 off_free_node_head a);;
       child ← nd ka (rd_child 0);
       nd ctrl (wr_64 off_root_node child);;
       idx (release 0)) (λ _ g, awp (idx (release a);; mret (-1)) Φ g)
    (IPool a free1 (<[a:=va]> ns1) l (<[a:=(ka, 1)]> ∅) h2, World keys2 n2).
Proof using All.
  intros Ek Hlm Hin1. destruct merged_apart as [Hna1 Hnda], (merged_frame (with_next free1 va)) as [[Sx _] Hf].
  assert (∀ b, 0 < b < l → in_s 64 b) as Hfit.
  { intros b Hb. unfold in_s, MAX_LEN in *. change (2 ^ (64 - 1)) with (2 ^ 63). lia. }
  pose proof (Hin1 a Hva) as Ha0. pose proof (Hfit a Ha0) as Ha.
  assert (in_s 64 (addr t1.1)) as Ham by (apply Hfit, Hin1, stored_addr, Bt).
  assert (in_s 64 free1) as Hfree by (by eapply (free_list_fits ns1 l)).
  pose proof (node_is_elim _ _ _ _ Hna) as (nx & crest & rrest & lf & Eva & Hlf & Hcl & Hrl). subst va.
  awp_step. apply awp_idx. eapply ip_get_ctrl; [map_find|pins_size|lia|]. intros kc. cbv beta.
  awp_step. apply awp_idx. eapply ip_rd_free; [map_find|]. cbv beta.
  pose proof (NoDup_singleton a : NoDup [(a, ka)].*1) as Hndp.
  assert (pinned (<[0:=(kc, 1)]> (<[a:=(ka, 1)]> ∅)) [(a, ka)]) as Hpin by (eapply pinned_one; map_find).
  eapply (awp_focus _ _ _ _ _ _ [(a, ka)] _ _ [_]); [constructor; [apply lookup_insert_eq|constructor]|].
  fo_step. fo_step.
  awp_step. apply awp_idx. eapply ip_wr_free; [map_find|exact Ha|]. cbv beta.
  awp_step. eapply fo_rd_child with (j:=0%nat) (i:=0%nat); [exact Hndp|exact Hpin|reflexivity|reflexivity|done|reflexivity|]. cbv beta.
  awp_step. apply awp_idx. eapply ip_wr_root; [map_find|exact Ham|]. cbv beta.
  apply awp_idx. eapply ip_release; [map_find|]. cbv beta.
  awp_step. apply awp_idx. eapply ip_release; [map_find|]. cbv beta. awp_step. cbn [overlay]. rewrite insert_insert_eq.
  assert (delete a (delete 0 (<[0:=(kc, 1)]> (<[a:=(ka, 1)]> ∅))) = (∅ : gmap Z (nat * Z))) as -> by pins_eq.
  destruct t1 as [m kids]. cbn [fst snd] in *. subst kids. cbn [kids_ok] in Kt. pose proof (wf_height _ _ _ _ _ _ _ Kt) as Eh1.
  eapply (root_left _ _ (Some m) (a :: fl1)); [lia|lia| | |exact Hk2| | |].
  - constructor; cbn [i_root i_pins i_nodes i_free i_len index_pages rooted]; [|done| | |done|].
    + rewrite Eh1. split; [done|]. split; [eapply wf_weaken; [|exact Kt]; lia|exact Sx].
    + split; [done|]. eexists. split; [apply lookup_insert_eq|exact Hf].
    + eapply nodup_perm; [|apply NoDup_cons; split; [exact Hna1|exact Hnda]]. cbn. perm.
    + intros ? [= <-]. rewrite Ft. by rewrite Et in Hfirst.
  - rewrite <- Hp. cbn [pages_of index_pages flat_map]. perm.
  - rewrite Hes, <- Es. cbn [elems index_rows]. by rewrite app_nil_r.
  - cbn [index_depth]. rewrite Eh, Eh1. lia.
  - intros ? [= <-]. cbn [seps] in Spt. cbn in Spt. by rewrite app_nil_r in Spt.
Qed.
End merged.

(** two children were merged, and the page of the root still has the key and
    the page of the second *)
Lemma root_merged_spec p2 m s2 r y ka : let t1 := plug p2 m s2 in
  kids_ok kcmp keys1 (wf kcmp keys1 2 h) None None t1.1 t1.2 → S (length p2 + length s2) = length t0.2 →
  stored_node ns1 a false (p2.*2 ++ r :: s2.*1) (((λ tr, addr tr.1) <$> p2) ++ addr m :: y :: ((λ rc, addr rc.2) <$> s2)) →
  below_stored ns1 (node_of a t1) → elems (node_of a t1) ≡ₚ es → first_leaf t1.1 = first_leaf t0.1 →
  Forall spare (seps (node_of a t1)) → is_Some (keys1 !! r) → in_s 64 y →
  (h = 0%nat → spare r ∧ r ∈ seps t ∧ r ∉ seps (node_of a t1)) → pages_of (node_of a t1) ++ fl1 ≡ₚ pages_of t ++ fl →
  awp (drop_child_root delete_handler a ka (Z.of_nat (length p2))) Φ
    (IPool a free1 ns1 l (<[a:=(ka, 1)]> ∅) (h1 - 1), World keys1 n1).
Proof using All.
  intros t1 Kt Lt Qt Bt Es Ft Spt Hr Hy64 Hr0 Hp1. pose proof root_budget as Hbudget.
  assert (1 <= length t0.2 <= 4)%nat as Hl0 by (rewrite Eh, Et in Hwf; by destruct Hwf as [? _]).
  destruct Qt as (va & Hva & Hna).
  assert (length (p2.*2 ++ r :: s2.*1) = S (length p2 + length s2)) as Hlr.
  { rewrite length_app. simpl. rewrite !length_fmap. lia. }
  assert (length t1.2 = length p2 + length s2)%nat as Hlt by apply plug_length.
  apply awp_room. intros Hin1 Hlm.
  assert (∀ b, stored ns1 b → in_s 64 (addr b)) as Hfita.
  { intros b Hb. pose proof (Hin1 (addr b) (stored_addr _ _ Hb)). unfold in_s, MAX_LEN in *. change (2 ^ (64 - 1)) with (2 ^ 63). lia. }
  destruct (proj1 (plug_forall (stored ns1) p2 m s2) Bt) as (Sp2 & Sm & Ss2).
  destruct (merged_apart t1 Hp1) as [Hna1 _].
  pose proof (proj1 (proj1 (stored_page _ _) (proj1 Bt))) as (vc & Hvc & Hnc).
  assert (addr t1.1 ≠ a) as Hne.
  { intros E. apply Hna1, elem_of_app. left. rewrite <- E, pages_below. by left. }
  assert (is_leaf t1.1 = Nat.eqb h 0) as Lx.
  { destruct t1 as [x0 [|[? ?] ?]]; cbn [fst snd kids_ok] in Kt; [by eapply wf_leaf|]. destruct Kt as (_ & Kt & _). by eapply wf_leaf. }
  rewrite Lx in Hnc.
  unfold drop_child_root. awp_step.
  eapply (drop_child_spec delete_handler dcost spare Hdcost) with (a:=a) (c:=1) (c0:=addr t1.1);
    [map_find|exact Hva|exact Hna|lia| | | | | |exact Hvc|exact Hnc|map_find|pins_size|lia|intros E%Nat.eqb_eq; by apply Hr0|lia|].
  { rewrite Hlr, length_app. simpl. rewrite !length_fmap. lia. }
  { intros z [Hz|[->|Hz]%elem_of_cons]%elem_of_app; [|done|]; eapply kids_keys; [exact Kt| |exact Kt|]; unfold t1;
      rewrite plug_seps; apply elem_of_app; auto. }
  { apply Forall_app. split; [apply Forall_fmap; eapply Forall_impl; [exact Sp2|]; intros tr; apply Hfita|].
    constructor; [by apply Hfita|]. constructor; [done|]. apply Forall_fmap. eapply Forall_impl; [exact Ss2|]. intros tr. apply Hfita. }
  { rewrite lookup_app_r by (by rewrite length_fmap). by rewrite length_fmap, Nat.sub_diag. }
  { unfold t1. destruct p2 as [|[? ?] p2']; [done|]. cbn. by destruct (plug p2' m s2). }
  intros va' Hna'. rewrite (pending_rows p2 m s2 r), (pending_addrs p2 m s2 y) in Hna'. fold t1 in Hna'. cbv beta.
  change (keys_after (Nat.eqb h 0) r keys1) with (keys_at h r keys1). set (keys2 := keys_at h r keys1).
  assert (∀ z, z ∉ seps t → is_Some (keys !! z) → keys2 !! z = keys !! z) as Hk2.
  { intros z Hz Hkz. rewrite <- (Hk1 z Hz Hkz). apply (keys_at_agree h r keys1 [z]); [|by left].
    intros H0 ->%list_elem_of_singleton. by apply Hz, Hr0. }
  assert (wf kcmp keys2 0 (S h) None None (node_of a t1)) as [_ Hwf2].
  { eapply (wf_agree keys1); [| |split; [lia|exact Kt]]; apply keys_at_agree; intros H0 Hz; destruct (Hr0 H0) as (R1 & _ & R3).
    - rewrite Es in Hz. rewrite Hes in Hrow. apply Forall_cons in Hrow as [_ Hrow']. rewrite Forall_forall in Hrow'. by apply (Hrow' r).
    - done. }
  awp_step. eapply nd_read_n; [map_find|apply lookup_insert_eq|exact Hna'|]. cbv beta. rewrite length_fmap. awp_step.
  destruct (Z.eqb_spec (Z.of_nat (length t1.2)) 0) as [E0|Hne0].
  + eapply (root_goes_spec t1 va' ka keys2); try assumption; try lia; [by exists va|apply nil_length_inv; lia].
  + awp_step. eapply (root_stays_spec t1 va' ka keys2); try assumption; try lia; [by exists va|by intros E; rewrite E in Hne0].
Qed.

Lemma root_climb_spec res T1 : T1 ++ fl1 ≡ₚ pages_of t ++ fl →
  shrunk (kcmp := kcmp) spare keys1 es (first_leaf t0.1) a h None None (length t0.2) (seps t) ns1 res T1 →
  awp (node ← idx (get_page a);
       if res =? -1 then idx (release a);; mret (-1)
       else if negb (-1 =? -1) then delete_child delete_handler a (-1) node res
       else drop_child_root delete_handler a node res)
    Φ (IPool a free1 ns1 l ∅ h1, World keys1 n1).
Proof using All.
  intros Hp1 Hs1. destruct Hs1 as [t1 Kt Lt St Es Ft Spt|p2 m s2 r y Kt Lt Qt Bt Es Ft Spt Hr Hy64 Hr0].
  - pose proof (proj1 (stored_page _ _) St) as [(v & Hv & _) _]. cbn [addr] in Hv.
    awp_step. apply awp_idx. eapply ip_get_node; [exact Hv|map_find|pins_size|lia|]. intros ka. cbv beta. cbn [Z.eqb Pos.eqb].
    by apply (root_kept_spec t1).
  - destruct (Qt) as (va & Hva & _).
    awp_step. apply awp_idx. eapply ip_get_node; [exact Hva|map_find|pins_size|lia|]. intros ka. cbv beta.
    rewrite (proj2 (Z.eqb_neq _ (-1))) by lia. cbn [Z.eqb Pos.eqb negb]. by apply (root_merged_spec p2 m s2 r y).
Qed.
End root_climb.
End root.

Lemma delete_root_spec rid k keys t fl free ns l n hh fuel (Φ : Z → ipool * world K → Prop) :
  keys !! rid = Some k → rid ∈ elems t → wf kcmp keys 1 (height t) None None t → stored ns t →
  free_list ns free fl → NoDup (pages_of t ++ fl) → first_leaf t = PAGE_SIZE →
  Forall spare (seps t) → Forall (λ r, ¬ spare r) (elems t) →
  level * (Z.of_nat (height t) + 1) <= n → 6 * (Z.of_nat (height t) + 1) + 1 <= hh →
  (∀ z g' keys' o' n', index_shrunk keys t fl l n hh rid g' keys' o' n' → Φ z (g', World keys' n')) →
  nodes_in ns l → (height t < fuel)%nat →
  awp (delete_entry cmp insert_handler delete_handler fuel (addr t) (-1) rid) Φ
    (IPool (addr t) free ns l ∅ (hh - 1), World keys n).
Proof using HC HD HI Hcost Hdcost Hhcost KO KW.
  intros Hk Hrid Hwf Hst Hfl Hnd Hfirst Hsp Hrow Hn Hhh HΦ Hin Hf. destruct fuel as [|fuel]; [lia|]. cbn [delete_entry].
  pose proof (proj1 (stored_page _ _) Hst) as [(v & Hv & Hnode) Hbelow].
  awp_step. apply awp_idx. eapply ip_get_node; [exact Hv|map_find|pins_size|lia|]. intros kp. cbv beta.
  awp_step. eapply nd_read_leaf; [map_find|exact Hv|exact Hnode|]. cbv beta.
  destruct t as [a rs|a c0 kids]; cbn [addr is_leaf negb page_rows page_kids] in *.
  - cbn [Z.eqb Pos.eqb negb].
    eapply (drop_row_root_spec rid k keys (Leaf a rs) fl free ns l n hh Φ); try done; lia.
  - remember (height c0) as h eqn:Eh0. assert (height (Node a c0 kids) = S h) as Eh by (by rewrite Eh0). rewrite Eh in Hwf, Hn, Hhh, Hf.
    pose proof Hwf as [Hl Hk2]. destruct (wf_within _ _ _ _ _ _ Hwf rid Hrid) as (k' & Ek' & Hlo & Hhi).
    assert (k' = k) as -> by congruence. awp_step.
    eapply (find_subtree_spec cmp cost Hcost); [exact Hk|map_find|exact Hv|exact Hnode|rewrite length_fmap; lia| |nia|].
    { intros r Hr. by eapply kids_keys. }
    intros i Hi Hscan. cbv beta. rewrite length_fmap in Hi.
    destruct (pick_child rid k keys h _ _ c0 kids i Hk Hk2 Hlo Hhi Hrid Hi Hscan) as (p2 & c2 & s2 & -> & -> & <- & Hrid2).
    awp_step. eapply nd_read_child; [map_find|exact Hv|exact Hnode|done| |].
    { unfold kid_addrs. rewrite (plug_children addr). rewrite lookup_app_r by (by rewrite length_fmap).
      by rewrite length_fmap, Nat.sub_diag. }
    cbv beta. awp_step. apply awp_idx. eapply ip_release; [map_find|]. rewrite delete_insert_id by done. cbv beta.
    rewrite plug_length in Hl. pose proof Hrid as [es Hes]%elem_of_Permutation.
    awp_step. eapply (delete_entry_spec rid k a l fuel h None None keys a p2 c2 s2 free ns (hh - 1 - 1) (n - 4 * cost) es fl);
      [exact Hk|exact Hrid2|exact Hk2|lia|exact Hst|exact Hsp|exact Hrow|exact Hes|lia|exact Hfl|exact Hnd|nia|lia|].
    intros keys1 n1 res free1 fl1 ns1 h1 T1 Hn1 Hh1 Hk1 Hp1 Ho1 Hfl1 Hs1. cbv beta.
    eapply (root_climb_spec rid k keys (node_of a (plug p2 c2 s2)) fl free ns l n hh Φ) with (es := es) (T1 := T1); try done; rewrite ?Eh; try done; lia.
Qed.

Lemma b_tree_delete_spec rid k g keys t fl fuel n (Φ : unit → ipool * world K → Prop) :
  index_holds (kcmp := kcmp) g keys (Some t) fl → keys !! rid = Some k → rid ∈ elems t →
  Forall spare (seps t) → Forall (λ r, ¬ spare r) (elems t) → (height t < fuel)%nat →
  level * (Z.of_nat (height t) + 1) <= n → 6 * (Z.of_nat (height t) + 1) + 1 <= i_hits g →
  (∀ g' keys' o' n', index_shrunk keys t fl (i_len g) n (i_hits g) rid g' keys' o' n' → Φ tt (g', World keys' n')) →
  awp (b_tree_delete cmp insert_handler delete_handler fuel rid) Φ (g, World keys n).
Proof using HC HD HI Hcost Hdcost Hhcost KO KW.
  intros [(Er & Hwf & Hst) Hpins Hfl Hnd _ Hfirst] Hk Hrid Hsp Hrow Hf Hn Hhh HΦ.
  destruct g as [root free ns l ps hh]. cbn [i_root i_free i_nodes i_len i_pins i_hits index_pages] in *. subst ps root.
  apply awp_nodes. intros Hin. destruct (stored_addr _ _ Hst) as [v Hv]. pose proof (Hin (addr t) ltac:(by eexists)) as Ha.
  unfold b_tree_delete. awp_step. apply awp_idx. eapply ip_get_ctrl; [map_find|pins_size|lia|]. intros kc. cbv beta.
  awp_step. apply awp_idx. eapply ip_rd_root; [map_find|]. cbv beta. rewrite (proj2 (Z.eqb_neq _ (-1))) by lia.
  awp_step. apply awp_idx. eapply ip_release; [map_find|]. cbv beta. rewrite delete_insert_id by apply lookup_empty.
  awp_step. eapply (delete_root_spec rid k keys t fl free ns l n hh); try done; [by apply Hfirst|].
  intros z g' keys' o' n' Hs. cbv beta. awp_step. by eapply HΦ.
Qed.
End delete.
