(* ===== verification/Myjql.v ===== *)
(** The key-value store ([include/myjql.h], [src/myjql.c]): keys and values
    are strings of a string table, a record pairs them, and the index orders
    the records by key. *)
From stdpp Require Import base gmap list.
From Stdlib Require Import ZArith Lia Strings.Byte.
From S2P Require Import Prelude FileIO BufferPool Block HashMap Table Str BTree.
#[local] Open Scope Z_scope.

(** ** Records *)

Record Record := mkRecord { key : RID; value : RID }.
Definition RECORD_SIZE : Z := 2 * RID_SIZE.
Definition record_enc (r : Record) : list byte := rid_enc (key r) ++ rid_enc (value r).
Definition record_dec (bs : list byte) : Record :=
  mkRecord (rid_dec (slice 0 10 bs)) (rid_dec (slice 10 10 bs)).

(** ** The state *)

Record Tables := mkTables { tbl_rec : Table; tbl_str : Table }.
Definition in_rec {A} (m : M Table A) : M Tables A :=
  zoom tbl_rec (λ t s, mkTables t (tbl_str s)) m.
Definition in_str {A} (m : M Table A) : M Tables A :=
  zoom tbl_str (λ t s, mkTables (tbl_rec s) t) m.

(** [bp_idx] and the two tables *)
Abbreviation Jql := (BufferPool * Tables)%type.

(** The files: [rec.idx], [rec.data], [rec.fsm], [str.data], [str.fsm]. *)
Record Files := mkFiles {
  rec_idx : PathState; rec_data : PathState; rec_fsm : PathState;
  str_data : PathState; str_fsm : PathState;
}.

Definition myjql_init (files : Files) : M Jql unit :=
  idx (b_tree_init (rec_idx files));;
  ext (in_rec (table_init (rec_data files) (rec_fsm files)));;
  ext (in_str (table_init (str_data files) (str_fsm files))).

Definition myjql_close : M Jql unit :=
  idx b_tree_close;;
  ext (in_rec table_close);;
  ext (in_str table_close).

Section jql.
(** [fuel] bounds every unbounded loop; [junk_rec] and [junk] are what the
    uninitialised local [Record]s and [StringChunk]s hold. *)
Context (fuel : nat) (junk_rec junk : list byte).

Definition read_record (rid : RID) : M Table Record :=
  bs ← table_read rid junk_rec; mret (record_dec bs).
Definition write_record (record : Record) : M Table RID :=
  table_insert fuel (record_enc record) RECORD_SIZE.
Definition delete_record (rid : RID) : M Table unit := table_delete fuel rid.

(** *** Comparison of keys *)

(** the loops are those of [compare_string_record] *)
Definition row_row_cmp (rid1 rid2 : RID) : M Tables Z :=
  record1 ← in_rec (read_record rid1);
  str_record1 ← in_str (read_string (key record1) (mkSR junk 0));
  record2 ← in_rec (read_record rid2);
  str_record2 ← in_str (read_string (key record2) (mkSR junk 0));
  in_str (compare_string_record fuel str_record1 str_record2).

(** the loop of [ptr_row_cmp]: a verdict, or the position in the key and the
    record where one of them ended *)
Fixpoint ptr_loop (n : nat) (k : list byte) (key_len i : Z) (str_record : StringRecord)
    : M Table (Z + Z * StringRecord) :=
  match n with
  | O => no_fuel
  | S n' =>
      h ← has_next_char str_record;
      if h && negb (i =? key_len) then
        a ← data_at k i;
        '(b, str_record) ← next_char str_record;
        if negb (char_val a =? char_val b) then
          mret (inl (if char_val a >? char_val b then 1 else -1))
        else ptr_loop n' k key_len (i + 1) str_record
      else mret (inr (i, str_record))
  end.

Definition ptr_row_cmp (k : list byte) (key_len : Z) (rid : RID) : M Tables Z :=
  record ← in_rec (read_record rid);
  str_record ← in_str (read_string (key record) (mkSR junk 0));
  size ← get_str_chunk_size (sr_chunk str_record);
  if size =? 0 then mret 1
  else
    r ← in_str (ptr_loop fuel k key_len 0 str_record);
    match r with
    | inl v => mret v
    | inr (i, str_record) =>
        h ← has_next_char str_record;
        mret (if (i =? key_len) && h then -1
              else if negb (i =? key_len) && negb h then 1 else 0)
    end.

(** *** The handlers of the index *)

(** the identifiers of the chunks of a string, the last one first *)
Fixpoint push_chunks (n : nat) (chunk_rid : RID) (front : list RID) : M Tables (list RID) :=
  match n with
  | O => no_fuel
  | S n' =>
      if rid_block_addr chunk_rid =? -1 then mret front
      else
        tmp ← in_str (table_read chunk_rid junk);
        next ← get_str_chunk_rid tmp;
        if rid_block_addr next =? -1 then mret (chunk_rid :: front)
        else push_chunks n' next (chunk_rid :: front)
  end.

(** each chunk is written again, linked to the copy of the one after it *)
Fixpoint copy_chunks (ptr_chunk : list RID) (new_chunk : StringChunk) (size : Z) (nxt_chunk : RID)
    : M Tables RID :=
  match ptr_chunk with
  | [] => mret nxt_chunk
  | _ :: front =>
      nxt_chunk ← in_str (table_insert fuel new_chunk size);
      match front with
      | [] => mret nxt_chunk
      | chunk :: _ =>
          new_chunk ← in_str (table_read chunk new_chunk);
          new_chunk ← edit_obj new_chunk (wr_rid 0 nxt_chunk);
          copy_chunks front new_chunk STR_CHUNK_MAX_SIZE nxt_chunk
      end
  end.

(** a copy of the key, with no value, for an internal node *)
Definition insert_handler (rid : RID) : M Tables RID :=
  record ← in_rec (read_record rid);
  front ← push_chunks fuel (key record) [];
  chunk ← of_opt (head front);
  new_chunk ← in_str (table_read chunk junk);
  len ← get_str_chunk_size new_chunk;
  nxt_chunk ← copy_chunks front new_chunk (calc_str_chunk_size len) (key record);
  in_rec (write_record (mkRecord nxt_chunk (mkRID (-1) (-1)))).

Definition delete_handler (rid : RID) : M Tables unit :=
  record ← in_rec (read_record rid);
  in_str (delete_string fuel junk (key record));;
  in_str (delete_string fuel junk (value record));;
  in_rec (delete_record rid).

(** *** The interface *)

(** [get_rid_block_addr(rid) == -1 && get_rid_idx(rid) == 0] *)
Definition not_found (rid : RID) : bool := (rid_block_addr rid =? -1) && (rid_idx rid =? 0).

(** the result, and the contents of the caller's buffer [dest] *)
Definition myjql_get (k : list byte) (key_len : Z) (dest : list byte) (max_size : Z)
    : M Jql (Z * list byte) :=
  bp_result ← b_tree_search (ptr_row_cmp k key_len) fuel;
  if not_found bp_result then mret (SIZE_MAX, dest)
  else
    table_record ← ext (in_rec (read_record bp_result));
    string_record ← ext (in_str (read_string (value table_record) (mkSR junk 0)));
    ext (in_str (load_string fuel string_record dest max_size)).

(** a key that is not there yet *)
Definition set_new (k : list byte) (key_len : Z) (v : list byte) (value_len : Z) : M Jql unit :=
  key_rid ← ext (in_str (write_string fuel junk k key_len));
  value_rid ← ext (in_str (write_string fuel junk v value_len));
  record_rid ← ext (in_rec (write_record (mkRecord key_rid value_rid)));
  b_tree_insert row_row_cmp insert_handler fuel record_rid;;
  mret tt.

(** ... and one that is *)
Definition set_old (bp_result : RID) (v : list byte) (value_len : Z) : M Jql unit :=
  record ← ext (in_rec (read_record bp_result));
  ext (in_str (delete_string fuel junk (value record)));;
  new_value_rid ← ext (in_str (write_string fuel junk v value_len));
  b_tree_delete row_row_cmp insert_handler delete_handler fuel bp_result;;
  ext (in_rec (delete_record bp_result));;
  new_bp_result ← ext (in_rec (write_record (mkRecord (key record) new_value_rid)));
  b_tree_insert row_row_cmp insert_handler fuel new_bp_result;;
  mret tt.

Definition myjql_set (k : list byte) (key_len : Z) (v : list byte) (value_len : Z) : M Jql unit :=
  bp_result ← b_tree_search (ptr_row_cmp k key_len) fuel;
  if not_found bp_result then set_new k key_len v value_len
  else set_old bp_result v value_len.

(** the removal of the record that was found *)
Definition del_found (bp_result : RID) : M Jql unit :=
  b_tree_delete row_row_cmp insert_handler delete_handler fuel bp_result;;
  table_record ← ext (in_rec (read_record bp_result));
  ext (in_str (delete_string fuel junk (key table_record)));;
  ext (in_str (delete_string fuel junk (value table_record)));;
  ext (in_rec (delete_record bp_result)).

Definition myjql_del (k : list byte) (key_len : Z) : M Jql unit :=
  bp_result ← b_tree_search (ptr_row_cmp k key_len) fuel;
  if not_found bp_result then mret tt else del_found bp_result.
End jql.
