(* ===== verification/MyjqlGet.v ===== *)
(** Reading the store: [myjql_get] refines the lookup of a finite map from
    keys to values. *)
From stdpp Require Import base gmap list fin_maps.
From Stdlib Require Import ZArith Lia Strings.Byte.
From S2P Require Import Prelude FileIO BufferPool PoolLogic PoolClient Table HeapStore TableHeap Str StrSpec.
From S2P Require Import BTree NodeSpec TreeSpec BTreeSearch Myjql.
#[local] Open Scope Z_scope.

(** ** The order of keys *)

Lemma char_val_inj a b : char_val a = char_val b → a = b.
Proof.
  unfold char_val, swrap. intros H. apply byte_to_Z_inj.
  pose proof (byte_to_Z_range a). pose proof (byte_to_Z_range b).
  change (2 ^ 8) with 256 in H. change (2 ^ (8 - 1)) with 128 in H.
  pose proof (Z.div_mod (byte_to_Z a + 128) 256). pose proof (Z.div_mod (byte_to_Z b + 128) 256).
  pose proof (Z.mod_pos_bound (byte_to_Z a + 128) 256). pose proof (Z.mod_pos_bound (byte_to_Z b + 128) 256).
  lia.
Qed.

#[export] Instance str_order : KeyOrder str_cmp.
Proof.
  constructor.
  - induction a as [|a s IH]; intros [|b t]; simpl; try done.
    destruct (Z.eqb_spec (char_val a) (char_val b)) as [E|E].
    + apply char_val_inj in E as ->. rewrite IH. naive_solver.
    + split; [by destruct (_ >? _)|]. intros [= -> ->]. done.
  - induction a as [|a s IH]; intros [|b t]; simpl; try done.
    rewrite (Z.eqb_sym (char_val b)). destruct (Z.eqb_spec (char_val a) (char_val b)); [apply IH|].
    destruct (Z.gtb_spec (char_val b) (char_val a)), (Z.gtb_spec (char_val a) (char_val b)); lia.
  - induction a as [|a s IH]; intros [|b t] [|c u]; simpl; try done; try lia.
    destruct (Z.eqb_spec (char_val a) (char_val b)), (Z.eqb_spec (char_val b) (char_val c)),
      (Z.eqb_spec (char_val a) (char_val c)); try lia;
      try destruct (Z.gtb_spec (char_val a) (char_val b)); try destruct (Z.gtb_spec (char_val b) (char_val c));
      try destruct (Z.gtb_spec (char_val a) (char_val c)); try lia; eauto.
Qed.

(** ** Records *)

Lemma record_enc_length r : length (record_enc r) = 20%nat.
Proof. unfold record_enc. by rewrite length_app, !rid_enc_length. Qed.

Lemma record_dec_enc r : rid_fits (key r) → rid_fits (value r) → record_dec (record_enc r) = r.
Proof.
  intros Hk Hv. destruct r as [kr vr]. unfold record_dec, record_enc, slice. cbn [key value] in *.
  rewrite drop_0, take_app_length' by (by rewrite rid_enc_length).
  rewrite drop_app_length' by (by rewrite rid_enc_length).
  rewrite take_ge by (by rewrite rid_enc_length). by rewrite Hk, Hv.
Qed.

Abbreviation rheap := (gmap RID (list byte)).

(** the record of a row, the string of its key and that of its value *)
Definition has_record (Hr : rheap) (r : RID) (rc : Record) : Prop :=
  Hr !! r = Some (record_enc rc) ∧ rid_fits (key rc) ∧ rid_fits (value rc).
Definition has_key (Hr Hs : rheap) (r : RID) (k : list byte) : Prop :=
  ∃ rc, has_record Hr r rc ∧ chain Hs (key rc) k.
Definition has_value (Hr Hs : rheap) (r : RID) (v : list byte) : Prop :=
  ∃ rc, has_record Hr r rc ∧ chain Hs (value rc) v.

(** ** The two tables *)

Section tables.
Context {HRr HRs : Rep Table tview}.

#[export] Instance tables_Rep : Rep Tables (tview * tview) := λ w g,
  @rep _ _ HRr (tbl_rec w) g.1 ∧ @rep _ _ HRs (tbl_str w) g.2.

Lemma awp_in_rec {A} (m : M Table A) (Φ : A → tview * tview → Prop) gr gs :
  @awp _ _ HRr _ m (λ a g, Φ a (g, gs)) gr → awp (in_rec m) Φ (gr, gs).
Proof.
  intros Hm w [Hr Hs]. apply wp_zoom. eapply wp_mono; [by apply Hm|].
  intros a t (g & Ht & HΦ). exists (g, gs). by split.
Qed.

Lemma awp_in_str {A} (m : M Table A) (Φ : A → tview * tview → Prop) gr gs :
  @awp _ _ HRs _ m (λ a g, Φ a (gr, g)) gs → awp (in_str m) Φ (gr, gs).
Proof.
  intros Hm w [Hr Hs]. apply wp_zoom. eapply wp_mono; [by apply Hm|].
  intros a t (g & Ht & HΦ). exists (gr, g). by split.
Qed.

End tables.

Section compare.
Context {HR : Rep Table tview} {HH : HeapReader}.
Context (fuel : nat) (junk_rec junk : list byte).
Context (Hjr : length junk_rec = 20%nat) (Hj : length junk = 32%nat).

Lemma read_record_spec H n r rc (Φ : Record → tview → Prop) :
  has_record H r rc → 0 < n → Φ rc (TView H (n - 1)) →
  awp (read_record junk_rec r) Φ (TView H n).
Proof using HH Hjr.
  clear junk Hj. intros (Hr & Hk & Hv) Hn HΦ. unfold read_record. awp_step.
  eapply heap_read; [exact Hr| | |done|]; rewrite ?record_enc_length; [lia|lia|].
  rewrite drop_ge, app_nil_r by lia. awp_step. by rewrite record_dec_enc.
Qed.

(** the comparison of a key in memory, at the start of its block, with a
    string of the table *)
Lemma ptr_loop_spec H pad n : ∀ m k k1 k2 rc s (Φ : Z + Z * StringRecord → tview → Prop),
  k = k1 ++ k2 → cursor H rc s → (length k2 < n)%nat → Z.of_nat (length k2) <= m →
  Φ (inl (str_cmp k2 s)) (TView H (m - Z.of_nat (length k2))) →
  (∀ k1' k2' rc' t, k = k1' ++ k2' → cursor H rc' t → k2' = [] ∨ t = [] →
    str_cmp k2' t = str_cmp k2 s →
    Φ (inr (Z.of_nat (length k1'), rc')) (TView H (m - Z.of_nat (length k2)))) →
  awp (ptr_loop n (k ++ pad) (Z.of_nat (length k)) (Z.of_nat (length k1)) rc) Φ (TView H m).
Proof using HH.
  clear junk Hj junk_rec Hjr. induction n as [|n IH]; intros m k k1 k2 rc s Φ -> Hc Hn Hm Hl Hr; [lia|]. cbn [ptr_loop].
  awp_step. eapply has_next_char_spec; [exact Hc|]. cbv beta.
  rewrite length_app. destruct k2 as [|a k2].
  { rewrite (proj2 (Z.eqb_eq _ _)) by (simpl; lia). cbn [negb]. rewrite andb_false_r.
    awp_step. cbn [length] in *. eapply (eq_ind _ (λ z, Φ _ (TView H z))); [|apply Z.sub_0_r].
    eapply Hr; [done|exact Hc|by left|done]. }
  rewrite (proj2 (Z.eqb_neq _ _)) by (simpl; lia). cbn [negb]. rewrite andb_true_r.
  destruct s as [|b s].
  { rewrite bool_decide_eq_true_2 by done. cbn [negb].
    eapply awp_spend with (m - Z.of_nat (length (a :: k2))); [simpl in *; lia|]. awp_step.
    eapply Hr; [done|exact Hc|by right|done]. }
  rewrite bool_decide_eq_false_2 by done. cbn [negb length] in *.
  awp_step. intros t Ht. unfold data_at. apply wp_bind, wp_need; [apply Z.leb_le; lia|].
  apply wp_of_opt with a. { rewrite Nat2Z.id, <- app_assoc. by apply list_lookup_middle. }
  exists (TView H m). split; [done|]. clear t Ht.
  awp_step. eapply next_char_spec; [exact Hc|lia|]. intros rc' Hc'. cbv beta. cbn [str_cmp] in *.
  destruct (char_val a =? char_val b) eqn:E; cbn [negb].
  - replace (Z.of_nat (length k1) + 1) with (Z.of_nat (length (k1 ++ [a])))
      by (rewrite length_app; simpl; lia).
    replace (Z.of_nat (length k1 + S (length k2))) with
      (Z.of_nat (length ((k1 ++ [a]) ++ k2))) by (rewrite !length_app; simpl; lia).
    rewrite cons_middle, (app_assoc k1).
    eapply IH; [done|exact Hc'|lia|lia|..].
    + eapply (eq_ind _ (λ z, Φ _ (TView H z))); [exact Hl|lia].
    + intros k1' k2' rc2 t Hk Hc2 Hend Hcmp. eapply (eq_ind _ (λ z, Φ _ (TView H z))); [|].
      * eapply Hr; [by rewrite <- Hk, <- app_assoc|exact Hc2|done|done].
      * lia.
  - eapply awp_spend with (m - Z.of_nat (S (length k2))); [lia|]. by awp_step.
Qed.

End compare.

(** the two tables, each with a reader of its own *)
Section ptr.
Context {HRr HRs : Rep Table tview} {HHr : @HeapReader HRr} {HHs : @HeapReader HRs}.
Context (fuel : nat) (junk_rec junk : list byte).
Context (Hjr : length junk_rec = 20%nat) (Hj : length junk = 32%nat).

Lemma ptr_row_cmp_spec Hr Hs n k pad r kr (Φ : Z → tview * tview → Prop) :
  has_key Hr Hs r kr → (length k < fuel)%nat → Z.of_nat (length k) + 1 <= n →
  (∀ nr, n - (Z.of_nat (length k) + 1) <= nr →
    Φ (str_cmp k kr) (TView Hr nr, TView Hs (n - (Z.of_nat (length k) + 1)))) →
  @awp _ _ (@tables_Rep HRr HRs) _ (ptr_row_cmp fuel junk_rec junk (k ++ pad) (Z.of_nat (length k)) r) Φ (TView Hr n, TView Hs n).
Proof using HHr HHs Hjr Hj.
  intros (rc & Hrc & Hch) Hf Hn HΦ. unfold ptr_row_cmp.
  awp_step. apply awp_in_rec. eapply (read_record_spec junk_rec Hjr); [exact Hrc|lia|].
  awp_step. apply awp_in_str. eapply read_string_spec; [exact Hch|done|lia|]. intros sr Hsr.
  awp_step. pose proof Hsr as (nx & d & s' & Hc & _).
  eapply str_chunk_size_spec; [exact Hc|]. destruct Hc as (_ & _ & Hd & _).
  rewrite (proj2 (Z.eqb_neq _ _)) by lia.
  awp_step. apply awp_in_str.
  eapply (ptr_loop_spec _ _ _ _ _ [] k); [done|exact Hsr|done|lia|..].
  - awp_step. eapply (eq_ind _ (λ z, Φ _ (_, TView Hs z))); [apply HΦ; lia|lia].
  - intros k1 k2 rc' t Hk Hc' Hend Hcmp. cbv beta iota.
    awp_step. eapply has_next_char_spec; [exact Hc'|]. awp_step.
    rewrite Hk, length_app. eapply (eq_ind _ (λ z, Φ _ (_, TView Hs z))).
    2: { instantiate (1 := n - (Z.of_nat (length k) + 1)). rewrite Hk, length_app. lia. }
    eapply (eq_ind _ (λ z, Φ z _)); [apply HΦ; lia|]. rewrite <- Hcmp.
    destruct k2 as [|a k2].
    + rewrite (proj2 (Z.eqb_eq _ _)) by (simpl; lia). by destruct t.
    + rewrite (proj2 (Z.eqb_neq _ _)) by (simpl; lia). destruct Hend as [?| ->]; [done|]. done.
Qed.
End ptr.

(** ** The world of a search: the two heaps do not change *)

Section get.
Context {HRr HRs : Rep Table tview} {HHr : @HeapReader HRr} {HHs : @HeapReader HRs}.
Context (Hr Hs : rheap).

#[local] Instance reading : Rep Tables (world (list byte)) := λ w g,
  @rep _ _ (@tables_Rep HRr HRs) w (TView Hr (w_ops g), TView Hs (w_ops g)) ∧
  ∀ r k, w_keys g !! r = Some k → has_key Hr Hs r k.

#[local] Instance reading_world : KeyWorld (list byte) Tables.
Proof.
  constructor.
  - intros w keys n n' ([H1 H2] & Hk) Hn. split; [|exact Hk].
    split; (eapply heap_spend; [eassumption|done]).
  - intros w keys n r k ([H1 H2] & Hk) Hr'. destruct (Hk _ _ Hr') as (rc & (Hrc & _) & _).
    cbn in H1. eapply (@heap_rids HRr HHr); [exact H1|exact Hrc].
Qed.

(** a program that reads the two heaps is one that reads the world *)
Lemma reading_awp {A} (m : M Tables A) (Φ : A → world (list byte) → Prop) keys n n' :
  @awp _ _ (@tables_Rep HRr HRs) _ m (λ a g, Φ a (World keys n') ∧ (t_heap g.1 = Hr ∧ n' <= t_ops g.1) ∧
                t_heap g.2 = Hs ∧ n' <= t_ops g.2) (TView Hr n, TView Hs n) →
  awp m Φ (World keys n).
Proof.
  intros Hm w [[H1 H2] Hkeys]. cbn [w_keys w_ops] in *.
  eapply wp_mono; [apply Hm; by split|].
  intros a w' ([[gh gn] [gh' gn']] & [Hw1 Hw2] & HΦ & [E1 ?] & E2 & ?). cbn in *. subst gh gh'.
  exists (World keys n'). split; [|done].
  split; [|done]. split; (eapply heap_spend; [eassumption|done]).
Qed.

Context (fuel : nat) (junk_rec junk : list byte).
Context (Hjr : length junk_rec = 20%nat) (Hj : length junk = 32%nat).
Context (k pad : list byte) (Hk : (length k < fuel)%nat).

#[local] Instance ptr_row_comparer :
  Comparer str_cmp (ptr_row_cmp fuel junk_rec junk (k ++ pad) (Z.of_nat (length k))) k (Z.of_nat (length k) + 1).
Proof using HHr HHs Hjr Hj Hk.
  intros keys r kr n Φ Hkr Hn HΦ. apply awp_rep. intros w [_ Hkeys].
  apply (reading_awp _ _ _ _ (n - (Z.of_nat (length k) + 1))).
  eapply (ptr_row_cmp_spec fuel junk_rec junk Hjr Hj Hr Hs n k pad r kr); [by apply Hkeys|done|done|].
  intros nr Hnr. cbn [fst snd t_heap t_ops]. split_and!; (done || lia).
Qed.

(** [myjql_get] on an index over the two heaps *)
Lemma myjql_get_spec g keys o n n0 dest max (Φ : Z * list byte → Prop) (s : BufferPool * Tables) :
  rep s.1 g → rep s.2 (World keys n) →
  rooted str_cmp keys g o → i_pins g = ∅ →
  index_depth o <= Z.of_nat fuel + 1 → index_depth o <= i_hits g →
  (∀ r, r ∈ index_rows o → keys !! r = Some k → ∃ v, has_value Hr Hs r v) →
  0 <= max <= Z.of_nat (length dest) →
  (∀ r v, r ∈ index_rows o → keys !! r = Some k → has_value Hr Hs r v →
    (length v < fuel)%nat ∧
    n0 + 4 * (Z.of_nat (length k) + 1) * index_depth o + 2 + Z.of_nat (length v) <= n ∧
    let n' := Nat.min (length v) (Z.to_nat max) in
    let out := take n' v ++ (if Z.of_nat n' <? max then [x00] else []) in
    Φ (Z.of_nat n', out ++ drop (length out) dest)) →
  0 <= n0 → n0 + 4 * (Z.of_nat (length k) + 1) * index_depth o <= n →
  ((∀ r, r ∈ index_rows o → keys !! r ≠ Some k) → Φ (SIZE_MAX, dest)) →
  wp (myjql_get fuel junk_rec junk (k ++ pad) (Z.of_nat (length k)) dest max)
    (λ a s', Φ a ∧ rep s' (IPool (i_root g) (i_free g) (i_nodes g) (i_len g) ∅
       (i_hits g - index_depth o), World keys n0)) s.
Proof using HHr HHs Hjr Hj Hk.
  intros Hg Hw Hroot Hpins Hfuel Hhits Hval Hmax HΦ Hn0 Hn Hno.
  assert (awp (myjql_get fuel junk_rec junk (k ++ pad) (Z.of_nat (length k)) dest max)
    (λ a g', Φ a ∧ g' = (IPool (i_root g) (i_free g) (i_nodes g) (i_len g) ∅
       (i_hits g - index_depth o), World keys n0)) (g, World keys n)) as Hawp.
  2:{ eapply wp_mono; [apply Hawp; by split|]. intros a s' (g' & Hg' & Ha & ->). eauto. }
  apply awp_post_spend with keys n0.
  unfold myjql_get. awp_step.
  eapply (b_tree_search_spec _ k (Z.of_nat (length k) + 1)); try done; [lia|lia|]. cbv zeta. split.
  - intros r Hr' Hkr.
    destruct (Hval r Hr' Hkr) as (v & rc & Hrc & Hv).
    destruct (HΦ r v Hr' Hkr (ex_intro _ rc (conj Hrc Hv))) as (Hlv & Hn' & Hfin).
    assert (not_found r = false ∨ not_found r = true) as [E|E] by (destruct (not_found r); auto).
    2:{ apply awp_rep. intros s' [_ Hw']. exfalso.
        pose proof (world_rids _ _ _ _ _ Hw' Hkr) as (_ & ? & _).
        unfold not_found in E. apply andb_true_iff in E as [E%Z.eqb_eq _]. lia. }
    rewrite E.
    set (m := 4 * (Z.of_nat (length k) + 1) * index_depth o) in *.
    awp_step. apply awp_world, (reading_awp _ _ _ _ (n - m - 1)). apply awp_in_rec.
    eapply (read_record_spec junk_rec Hjr); [exact Hrc|lia|].
    split; [|cbn; split_and!; (done || lia)].
    awp_step. apply awp_world, (reading_awp _ _ _ _ (n - m - 2)). apply awp_in_str.
    eapply read_string_spec; [exact Hv|done|lia|]. intros sr Hsr.
    split; [|cbn; split_and!; (done || lia)].
    apply awp_world, (reading_awp _ _ _ _ (n - m - 2 - Z.of_nat (length v))). apply awp_in_str.
    eapply load_string_spec; [exact Hsr|done|lia|done|]. cbv zeta.
    split; [|cbn; split_and!; (done || lia)]. eexists _, _. split; [|split; [done|]]; [lia|]. by split.
  - intros Hno'. change (not_found failed_rid) with true. cbv iota.
    awp_step. eexists _, _. split; [|split; [done|]]; [lia|]. split; [by apply Hno|done].
Qed.
End get.

(** ** The store as a finite map *)

(** [d] bounds the depth of the index; [n] operations are left before a
    counter of the buffer pools could overflow *)
Definition database (s : BufferPool * Tables) (D : gmap (list byte) (list byte)) (d n : Z) : Prop :=
  ∃ g o keys Hr Hs,
    rep s.1 g ∧ rep s.2 (TView Hr n, TView Hs n) ∧ i_pins g = ∅ ∧ n <= i_hits g ∧
    rooted str_cmp keys g o ∧ index_depth o <= d ∧
    (∀ r k, keys !! r = Some k → has_key Hr Hs r k) ∧
    (∀ r, r ∈ index_rows o → ∃ v, has_value Hr Hs r v) ∧
    (∀ k v, D !! k = Some v ↔
       ∃ r, r ∈ index_rows o ∧ keys !! r = Some k ∧ has_value Hr Hs r v).

(** what [myjql_get] returns, and leaves in the buffer of its caller *)
Definition get_result (o : option (list byte)) (dest : list byte) (max : Z) : Z * list byte :=
  match o with
  | None => (SIZE_MAX, dest)
  | Some v =>
      let n := Nat.min (length v) (Z.to_nat max) in
      let out := take n v ++ (if Z.of_nat n <? max then [x00] else []) in
      (Z.of_nat n, out ++ drop (length out) dest)
  end.

(** the operations a search of a key of [lk] characters for a value of [lv]
    characters needs *)
Definition get_cost (lk lv : nat) (d : Z) : Z := 4 * (Z.of_nat lk + 1) * d + 2 + Z.of_nat lv.

Lemma myjql_get_run s D d n k pad dest max fuel junk_rec junk :
  database s D d n → length junk_rec = 20%nat → length junk = 32%nat →
  (length k < fuel)%nat → d <= Z.of_nat fuel + 1 →
  (length (default [] (D !! k)) < fuel)%nat →
  0 <= max <= Z.of_nat (length dest) →
  get_cost (length k) (length (default [] (D !! k))) d <= n →
  ∃ s', myjql_get fuel junk_rec junk (k ++ pad) (Z.of_nat (length k)) dest max s =
      Ok (get_result (D !! k) dest max, s') ∧
    database s' D d (n - get_cost (length k) (length (default [] (D !! k))) d).
Proof.
  intros (g & o & keys & Hr & Hs & Hg & Hw & Hpins & Hn & Hroot & Hd & Hkeys & Hvals & HD) Hjr Hj
    Hk Hfd Hfv Hmax Hcost. set (c := get_cost _ _ _) in *.
  assert (0 <= Z.of_nat (length k) + 1) by lia.
  assert (1 <= index_depth o) by (destruct o; simpl; lia).
  assert (4 * (Z.of_nat (length k) + 1) * index_depth o <= 4 * (Z.of_nat (length k) + 1) * d) by nia.
  unshelve epose proof (wp_elim _ _ _ (myjql_get_spec Hr Hs fuel junk_rec junk Hjr Hj k pad Hk g keys o n
    (n - c) dest max (λ r, r = get_result (D !! k) dest max) s Hg (conj Hw Hkeys) Hroot Hpins
    _ _ _ _ _ _ _ _)) as (a & s' & Hrun & -> & [Hg' [Hw' _]]).
  - lia.
  - unfold c, get_cost in *. nia.
  - intros r Hr' _. by apply Hvals.
  - done.
  - intros r v Hr' Hkr Hv. assert (D !! k = Some v) as E by (apply HD; eauto).
    unfold c, get_cost in *. rewrite E in *. simpl in *. split; [done|]. split; [lia|done].
  - lia.
  - unfold c, get_cost. lia.
  - intros Hno. destruct (D !! k) as [v|] eqn:E; [|done].
    apply HD in E as (r & Hr' & Hkr & _). by destruct (Hno r Hr').
  - exists s'. split; [done|]. eexists _, o, keys, Hr, Hs.
    split; [exact Hg'|]. split; [exact Hw'|]. cbn. split; [done|]. split.
    { unfold c, get_cost in *. nia. }
    destruct o; split_and!; try done; apply Hroot.
Qed.

(** C12: reading the store is looking up a finite map: whatever is in the index
    and the two tables, [myjql_get] of a key returns the length of the value
    stored under it, at most the size of the caller's buffer, copies that many
    of its characters into the buffer and ends a value that fits with a zero
    byte; for a key that is not there it returns -1 and leaves the buffer
    alone.  The database is the same afterwards. *)
Theorem myjql_get_looks_up s D d n k pad dest max fuel junk_rec junk :
  database s D d n → length junk_rec = 20%nat → length junk = 32%nat →
  (length k < fuel)%nat → d <= Z.of_nat fuel + 1 →
  (length (default [] (D !! k)) < fuel)%nat →
  0 <= max <= Z.of_nat (length dest) →
  get_cost (length k) (length (default [] (D !! k))) d <= n →
  ∃ s', myjql_get fuel junk_rec junk (k ++ pad) (Z.of_nat (length k)) dest max s =
      Ok (get_result (D !! k) dest max, s') ∧
    database s' D d (n - get_cost (length k) (length (default [] (D !! k))) d).
Proof. apply myjql_get_run. Qed.
