(* ===== verification/MyjqlOwners.v ===== *)
(** Which chunks of the string table are whose.  Every chunk in use belongs to
    at most one string, the key or the value of a record: freeing a string
    leaves the others as they were, although the table does not know where one
    ends and the next begins. *)
From stdpp Require Import base gmap list fin_maps.
From Stdlib Require Import ZArith Lia Strings.Byte.
From S2P Require Import Prelude Table HeapStore Str StrSpec StrWrite StrDelete Myjql MyjqlGet.
#[local] Open Scope Z_scope.

(** ** Owners *)

(** the owner of a chunk: the key or the value of a record *)
Inductive owner := KeyOf (r : RID) | ValueOf (r : RID).

#[export] Instance owner_eq_dec : EqDecision owner.
Proof. solve_decision. Defined.

Abbreviation owners := (gmap RID owner).

(** the chunks of one owner *)
Definition piece (O : owners) (o : owner) (H : rheap) : rheap := filter (λ p, O !! p.1 = Some o) H.

(** the chunks of [F] get the owner [o] *)
Definition own (o : owner) (F : rheap) (O : owners) : owners := ((λ _, o) <$> F) ∪ O.

Section pieces.
Implicit Types (O : owners) (H F : rheap).

Lemma piece_lookup O o H x b : piece O o H !! x = Some b ↔ H !! x = Some b ∧ O !! x = Some o.
Proof. unfold piece. by rewrite map_lookup_filter_Some. Qed.

Lemma piece_sub O o H : piece O o H ⊆ H.
Proof. apply map_subseteq_spec. by intros x b [? _]%piece_lookup. Qed.

Lemma piece_mono O o H H' : H ⊆ H' → piece O o H ⊆ piece O o H'.
Proof.
  intros Hs. apply map_subseteq_spec. intros x b [Hx Ho]%piece_lookup. apply piece_lookup.
  split; [by eapply lookup_weaken|done].
Qed.

Lemma own_in o F O x b : F !! x = Some b → own o F O !! x = Some o.
Proof. intros Hx. apply lookup_union_Some_l. by rewrite lookup_fmap, Hx. Qed.

Lemma own_out o F O x : F !! x = None → own o F O !! x = O !! x.
Proof. intros Hx. apply lookup_union_r. by rewrite lookup_fmap, Hx. Qed.

Lemma piece_own_in o F O H : F ⊆ H → F ⊆ piece (own o F O) o H.
Proof.
  intros Hs. apply map_subseteq_spec. intros x b Hx. apply piece_lookup.
  split; [by eapply lookup_weaken|by eapply own_in].
Qed.

(** the pieces without a chunk of [F] stay *)
Lemma piece_own_out o F O H o' : F ##ₘ piece O o' H → piece O o' H ⊆ piece (own o F O) o' H.
Proof.
  intros Hd. apply map_subseteq_spec. intros x b Hx. apply piece_lookup.
  pose proof (map_disjoint_Some_r _ _ _ _ Hd Hx) as HF. rewrite own_out by done. by apply piece_lookup.
Qed.

(** two owners share no chunk *)
Lemma piece_disjoint O o o' H H' : o ≠ o' → piece O o H ##ₘ piece O o' H'.
Proof.
  intros Hne. apply map_disjoint_spec. intros x b b' [_ H1]%piece_lookup [_ H2]%piece_lookup. congruence.
Qed.

(** a new string *)
Lemma piece_new o F O H : F ##ₘ H → F ⊆ piece (own o F O) o (F ∪ H).
Proof. intros _. apply piece_own_in, map_union_subseteq_l. Qed.

Lemma piece_beside o o' F O H : F ##ₘ H → piece O o' H ⊆ piece (own o F O) o' (F ∪ H).
Proof.
  intros Hd. etrans; [|by apply piece_mono, map_union_subseteq_r]. apply piece_own_out.
  apply map_disjoint_spec. intros x b b' HF Hx. apply piece_lookup in Hx as [Hx _].
  by eapply (proj1 (map_disjoint_spec _ _) Hd).
Qed.

(** a string that was freed *)
Lemma piece_freed O o o' H H' : shrunk_by (piece O o H) H H' → o' ≠ o → piece O o' H ⊆ piece O o' H'.
Proof.
  intros [_ Hout] Hne. apply map_subseteq_spec. intros x b Hx. pose proof Hx as [Hb Ho]%piece_lookup.
  apply piece_lookup. split; [|done]. rewrite Hout; [done|].
  eapply map_disjoint_Some_r; [apply (piece_disjoint O o o' H H); congruence|exact Hx].
Qed.
(** the chunks of all but one row *)
Definition others (O : owners) (r : RID) (H : rheap) : rheap :=
  filter (λ p, O !! p.1 ≠ Some (KeyOf r) ∧ O !! p.1 ≠ Some (ValueOf r)) H.

Lemma others_sub O r H : others O r H ⊆ H.
Proof. apply map_filter_subseteq. Qed.

Lemma piece_others O r o H : o ≠ KeyOf r → o ≠ ValueOf r → piece O o H ⊆ piece O o (others O r H).
Proof.
  intros Hk Hv. apply map_subseteq_spec. intros x b [Hx Ho]%piece_lookup. apply piece_lookup. split; [|done].
  apply map_lookup_filter_Some. split; [done|]. simpl. split; congruence.
Qed.

Lemma others_disjoint O r o o' H : o = KeyOf r ∨ o = ValueOf r → piece O o H ##ₘ piece O o' (others O r H).
Proof.
  intros Ho. apply map_disjoint_spec. intros x b b' [_ H1]%piece_lookup [H2 _]%piece_lookup.
  apply map_lookup_filter_Some in H2 as [_ [H2 H3]]. cbn [fst] in *. destruct Ho as [-> | ->]; congruence.
Qed.
End pieces.

(** ** The records of a table *)

(** the record of a row and the string of its key *)
Definition key_at (O : owners) (Hr Hs : rheap) (r : RID) (k : list byte) (rc : Record) : Prop :=
  has_record Hr r rc ∧ chain (piece O (KeyOf r) Hs) (key rc) k.
Definition value_at (O : owners) (Hr Hs : rheap) (r : RID) (v : list byte) : Prop :=
  ∃ rc, has_record Hr r rc ∧ chain (piece O (ValueOf r) Hs) (value rc) v.

(** every row with a key has a record that owns the string of the key, of at
    most [L] characters; those that are not among [rows] are copies for the
    internal nodes of the index, without a value *)
Definition records_hold (rows : list RID) (L : nat) (O : owners) (Hr Hs : rheap) (keys : gmap RID (list byte)) : Prop :=
  ∀ r k, keys !! r = Some k → (length k <= L)%nat ∧
    ∃ rc, key_at O Hr Hs r k rc ∧ (r ∉ rows → value rc = no_rid).

(** what work on the copies leaves alone: the records of the rows, and the
    chunks that no copy owns *)
Record kept (rows : list RID) (O0 : owners) (Hr0 Hs0 : rheap) (O : owners) (Hr Hs : rheap) : Prop := {
  kp_rec : ∀ r bs, Hr0 !! r = Some bs → r ∈ rows → Hr !! r = Some bs;
  kp_str : ∀ x bs, Hs0 !! x = Some bs → (∀ r, r ∉ rows → O0 !! x ≠ Some (KeyOf r)) →
    Hs !! x = Some bs ∧ O !! x = O0 !! x;
}.

Lemma key_at_has O Hr Hs r k rc : key_at O Hr Hs r k rc → has_key Hr Hs r k.
Proof. intros [H1 H2]. exists rc. split; [done|]. eapply chain_mono; [apply piece_sub|exact H2]. Qed.

Lemma value_at_has O Hr Hs r v : value_at O Hr Hs r v → has_value Hr Hs r v.
Proof. intros (rc & H1 & H2). exists rc. split; [done|]. eapply chain_mono; [apply piece_sub|exact H2]. Qed.

Lemma has_record_det Hr r rc1 rc2 : has_record Hr r rc1 → has_record Hr r rc2 → rc1 = rc2.
Proof.
  intros (H1 & K1 & V1) (H2 & K2 & V2). rewrite H1 in H2. apply (inj Some) in H2 as E.
  apply (f_equal record_dec) in E. by rewrite !record_dec_enc in E.
Qed.

Lemma has_value_det Hr Hs r v1 v2 : has_value Hr Hs r v1 → has_value Hr Hs r v2 → v1 = v2.
Proof.
  intros (rc1 & R1 & C1) (rc2 & R2 & C2). rewrite (has_record_det _ _ _ _ R1 R2) in C1. by eapply chain_det.
Qed.

Lemma has_record_eq Hr Hr' r rc : Hr' !! r = Hr !! r → has_record Hr r rc → has_record Hr' r rc.
Proof. intros E (H & F). split; [by rewrite E|done]. Qed.

Lemma records_has rows L O Hr Hs keys r k : records_hold rows L O Hr Hs keys → keys !! r = Some k →
  has_key Hr Hs r k ∧ (length k <= L)%nat.
Proof. intros H Hk. destruct (H _ _ Hk) as (Hl & rc & Hrc & _). split; [by eapply key_at_has|done]. Qed.

Lemma value_at_mono O Hr Hs O' Hr' Hs' r v : Hr' !! r = Hr !! r →
  piece O (ValueOf r) Hs ⊆ piece O' (ValueOf r) Hs' → value_at O Hr Hs r v → value_at O' Hr' Hs' r v.
Proof.
  intros E Hp (rc & Hrc & Hc). exists rc. split; [by eapply has_record_eq|by eapply chain_mono].
Qed.

(** a row with a key has a record *)
Lemma records_fresh rows L O Hr Hs keys r : records_hold rows L O Hr Hs keys → Hr !! r = None → keys !! r = None.
Proof.
  intros H Hn. destruct (keys !! r) as [k|] eqn:E; [|done].
  destruct (H _ _ E) as (_ & rc & [[Hat _] _] & _). by rewrite Hn in Hat.
Qed.

(** ** Steps *)

Section steps.
Context (rows : list RID) (L : nat) (O : owners) (Hr Hs : rheap) (keys : gmap RID (list byte)).
Context (H : records_hold rows L O Hr Hs keys).

(** a record more, whose key is the piece [F] of the strings *)
Lemma records_insert rows' r rc k F O' Hs' :
  Hr !! r = None → rid_fits (key rc) → rid_fits (value rc) → (length k <= L)%nat →
  chain F (key rc) k → F ⊆ piece O' (KeyOf r) Hs' →
  (∀ q, q ≠ r → piece O (KeyOf q) Hs ⊆ piece O' (KeyOf q) Hs') →
  (∀ q, q ∉ rows' → q ∉ rows) → (r ∉ rows' → value rc = no_rid) →
  records_hold rows' L O' (<[r := record_enc rc]> Hr) Hs' (<[r := k]> keys).
Proof using H.
  intros Hnew Hk Hv HL Hc HF Hother Hrows Hval q kq [[<- <-]|[Hne Hq]]%lookup_insert_Some.
  - split; [done|]. exists rc. split; [|done]. split; [|by eapply chain_mono].
    split; [apply lookup_insert_eq|done].
  - destruct (H _ _ Hq) as (HLq & rcq & [Hrc Hcq] & Hcopy). split; [done|]. exists rcq. split; [|auto].
    split; [|eapply chain_mono; [by apply Hother|done]]. eapply has_record_eq; [|exact Hrc]. by apply lookup_insert_ne.
Qed.

(** a record less *)
Lemma records_delete rows' r Hs' :
  (∀ q, q ≠ r → piece O (KeyOf q) Hs ⊆ piece O (KeyOf q) Hs') →
  (∀ q, q ≠ r → q ∉ rows' → q ∉ rows) →
  records_hold rows' L O (delete r Hr) Hs' (delete r keys).
Proof using H.
  intros Hother Hrows q kq [Hne Hq]%lookup_delete_Some.
  destruct (H _ _ Hq) as (HLq & rcq & [Hrc Hcq] & Hcopy). split; [done|]. exists rcq. split; [|auto].
  split; [|eapply chain_mono; [by apply Hother|done]]. eapply has_record_eq; [|exact Hrc]. by apply lookup_delete_ne.
Qed.

(** other chunks *)
Lemma records_strings O' Hs' : (∀ q, piece O (KeyOf q) Hs ⊆ piece O' (KeyOf q) Hs') →
  records_hold rows L O' Hr Hs' keys.
Proof using H.
  intros Hall q kq Hq. destruct (H _ _ Hq) as (HLq & rcq & [Hrc Hcq] & Hcopy). split; [done|]. exists rcq.
  split; [|done]. split; [done|]. eapply chain_mono; [apply Hall|done].
Qed.
End steps.

Lemma kept_refl rows O Hr Hs : kept rows O Hr Hs O Hr Hs.
Proof. by constructor. Qed.

Section kept.
Context (rows : list RID) (O0 : owners) (Hr0 Hs0 : rheap) (O : owners) (Hr Hs : rheap).
Context (HK : kept rows O0 Hr0 Hs0 O Hr Hs).

(** a copy more *)
Lemma kept_insert r bs o F : Hr !! r = None → F ##ₘ Hs →
  kept rows O0 Hr0 Hs0 (own o F O) (<[r := bs]> Hr) (F ∪ Hs).
Proof using HK.
  intros Hnew Hd. destruct HK as [K1 K2]. constructor.
  - intros q bq Hq Hin. specialize (K1 q bq Hq Hin). rewrite lookup_insert_ne; [done|]. intros ->. congruence.
  - intros x bx Hx Hown. destruct (K2 x bx Hx Hown) as [Hsx HOx].
    pose proof (map_disjoint_Some_r _ _ _ _ Hd Hsx) as HF.
    split; [by rewrite lookup_union_r|by rewrite own_out].
Qed.

(** a copy less *)
Lemma kept_delete r Hs' : r ∉ rows → shrunk_by (piece O (KeyOf r) Hs) Hs Hs' →
  kept rows O0 Hr0 Hs0 O (delete r Hr) Hs'.
Proof using HK.
  intros Hr' [_ Hout]. destruct HK as [K1 K2]. constructor.
  - intros q bq Hq Hin. rewrite lookup_delete_ne by (by intros ->). by apply K1.
  - intros x bx Hx Hown. destruct (K2 x bx Hx Hown) as [Hsx HOx]. split; [|done].
    rewrite Hout; [done|]. destruct (piece _ _ _ !! x) as [b|] eqn:E; [|done].
    apply piece_lookup in E as [_ E]. destruct (Hown r Hr'). by rewrite <- HOx.
Qed.

Lemma kept_value r v : r ∈ rows → value_at O0 Hr0 Hs0 r v → value_at O Hr Hs r v.
Proof using HK.
  destruct HK as [K1 K2]. intros Hin (rc & (Hat & Hf) & Hc). exists rc.
  split; [split; [by apply K1|done]|]. eapply chain_mono; [|exact Hc].
  apply map_subseteq_spec. intros x b [Hx HO]%piece_lookup.
  destruct (K2 x b Hx) as [Hsx HOx]; [intros q _ E; congruence|]. apply piece_lookup. split; [done|congruence].
Qed.
End kept.
