(* ===== verification/MyjqlWrite.v ===== *)
(** The callbacks of the index over the two tables: [row_row_cmp] orders the
    records by key, [insert_handler] stores a copy of a key, and
    [delete_handler] frees one. *)
From stdpp Require Import base gmap list fin_maps.
From Stdlib Require Import ZArith Lia Strings.Byte.
From S2P Require Import Prelude FileIO BufferPool PoolLogic PoolClient Table HeapStore HeapWrite Str StrSpec StrWrite StrDelete.
From S2P Require Import BTree NodeSpec TreeSpec BTreeSearch BTreeInsert Myjql MyjqlGet.
#[local] Open Scope Z_scope.

(** ** Two tables with room *)

(** the heaps of records and of strings; [n] operations are left in each
    table, and as many bytes as its room says *)
Record jview := JView { j_rec : rheap; j_str : rheap; j_left : Z; j_rroom : Z; j_sroom : Z }.

Section tables.
Context {RV : Rep Table wview} (fuel : nat) (wcost : Z) {HW : HeapWriter fuel wcost}.

#[export] Instance jview_Rep : Rep Tables jview := λ w v,
  rep (tbl_rec w) (WView (j_rec v) (j_left v) (j_rroom v)) ∧
  rep (tbl_str w) (WView (j_str v) (j_left v) (j_sroom v)).

Lemma jview_weaken w Hr Hs n Rr Rs n' Rr' Rs' :
  rep w (JView Hr Hs n Rr Rs) → n' <= n → Rr' <= Rr → Rs' <= Rs → rep w (JView Hr Hs n' Rr' Rs').
Proof using HW. intros [H1 H2] Hn HR HS. split; eapply heap_weaken; [exact H1|done|done|exact H2|done|done]. Qed.

Lemma awp_jview_weaken {A} (m : M Tables A) (Φ : A → jview → Prop) Hr Hs n Rr Rs n' Rr' Rs' :
  n' <= n → Rr' <= Rr → Rs' <= Rs → awp m Φ (JView Hr Hs n' Rr' Rs') → awp m Φ (JView Hr Hs n Rr Rs).
Proof using HW. intros Hn HR HS Hm w Hw. apply Hm. by eapply jview_weaken. Qed.

(** the room may be what the tables have regained *)
Lemma jview_refresh regain {HG : HeapRegains regain} w Hr Hs n Rr Rs : rep w (JView Hr Hs n Rr Rs) →
  rep w (JView Hr Hs n (regain (weight Hr) Rr) (regain (weight Hs) Rs)).
Proof using. intros [H1 H2]. split; by apply heap_regain. Qed.

Lemma awp_jview_refresh regain {HG : HeapRegains regain} {A} (m : M Tables A) (Φ : A → jview → Prop) Hr Hs n Rr Rs :
  awp m Φ (JView Hr Hs n Rr (regain (weight Hs) Rs)) → awp m Φ (JView Hr Hs n Rr Rs).
Proof using. intros Hm w [H1 H2]. apply Hm. split; [done|by apply heap_regain]. Qed.

(** reading leaves the heaps and the room *)
Lemma awp_read_rec {A} (m : M Table A) (Φ : A → jview → Prop) Hr Hs n n' Rr Rs :
  n' <= n →
  @awp _ _ (reading_at Rr) _ m (λ a v, (t_heap v = Hr ∧ n' <= t_ops v) ∧ Φ a (JView Hr Hs n' Rr Rs)) (TView Hr n) →
  awp (in_rec m) Φ (JView Hr Hs n Rr Rs).
Proof using HW.
  intros Hn Hm w [H1 H2]. apply wp_zoom. eapply wp_mono; [by apply Hm|].
  intros a t ([H' k] & Ht & [E Hk] & HΦ). simpl in *. subst H'. exists (JView Hr Hs n' Rr Rs). split; [|done].
  split; simpl; eapply heap_weaken; [exact Ht|done|done|exact H2|done|done].
Qed.

Lemma awp_read_str {A} (m : M Table A) (Φ : A → jview → Prop) Hr Hs n n' Rr Rs :
  n' <= n →
  @awp _ _ (reading_at Rs) _ m (λ a v, (t_heap v = Hs ∧ n' <= t_ops v) ∧ Φ a (JView Hr Hs n' Rr Rs)) (TView Hs n) →
  awp (in_str m) Φ (JView Hr Hs n Rr Rs).
Proof using HW.
  intros Hn Hm w [H1 H2]. apply wp_zoom. eapply wp_mono; [by apply Hm|].
  intros a t ([H' k] & Ht & [E Hk] & HΦ). simpl in *. subst H'. exists (JView Hr Hs n' Rr Rs). split; [|done].
  split; simpl; eapply heap_weaken; [exact H1|done|done|exact Ht|done|done].
Qed.

(** writing changes one heap *)
Lemma awp_write_rec {A} (m : M Table A) (Φ : A → jview → Prop) Hr Hs n n' Rr Rr' Rs :
  n' <= n →
  awp m (λ a v, (n' <= w_left v ∧ Rr' <= w_room v) ∧ Φ a (JView (w_heap v) Hs n' Rr' Rs)) (WView Hr n Rr) →
  awp (in_rec m) Φ (JView Hr Hs n Rr Rs).
Proof using HW.
  intros Hn Hm w [H1 H2]. apply wp_zoom. eapply wp_mono; [by apply Hm|].
  intros a t ([H' k r] & Ht & [Hk Hr'] & HΦ). simpl in *. eexists. split; [|exact HΦ].
  split; simpl; eapply heap_weaken; [exact Ht|done|done|exact H2|done|done].
Qed.

Lemma awp_write_str {A} (m : M Table A) (Φ : A → jview → Prop) Hr Hs n n' Rr Rs Rs' :
  n' <= n →
  awp m (λ a v, (n' <= w_left v ∧ Rs' <= w_room v) ∧ Φ a (JView Hr (w_heap v) n' Rr Rs')) (WView Hs n Rs) →
  awp (in_str m) Φ (JView Hr Hs n Rr Rs).
Proof using HW.
  intros Hn Hm w [H1 H2]. apply wp_zoom. eapply wp_mono; [by apply Hm|].
  intros a t ([H' k r] & Ht & [Hk Hr'] & HΦ). simpl in *. eexists. split; [|exact HΦ].
  split; simpl; eapply heap_weaken; [exact H1|done|done|exact Ht|done|done].
Qed.

(** identifiers in use *)
Lemma awp_rec_rids {A} (m : M Tables A) (Φ : A → jview → Prop) Hr Hs n Rr Rs :
  ((∀ r bs, Hr !! r = Some bs → rid_ok r) → (∀ r bs, Hs !! r = Some bs → rid_ok r) →
   awp m Φ (JView Hr Hs n Rr Rs)) → awp m Φ (JView Hr Hs n Rr Rs).
Proof using HW.
  intros Hm w [H1 H2]. apply Hm; [| |by split]; intros r bs Hat.
  - exact (@heap_rids _ (write_reader Rr) _ Hr n _ _ H1 Hat).
  - exact (@heap_rids _ (write_reader Rs) _ Hs n _ _ H2 Hat).
Qed.

(** ** Comparing two records *)

Section compare.
Context (junk_rec junk : list byte).
Context (Hjr : length junk_rec = 20%nat) (Hj : length junk = 32%nat).

Lemma row_row_cmp_spec Hr Hs n Rr Rs r1 k1 r2 k2 (Φ : Z → jview → Prop) :
  has_key Hr Hs r1 k1 → has_key Hr Hs r2 k2 → (length k1 < fuel)%nat →
  2 * Z.of_nat (length k1) + 4 <= n →
  Φ (str_cmp k1 k2) (JView Hr Hs (n - (2 * Z.of_nat (length k1) + 4)) Rr Rs) →
  awp (row_row_cmp fuel junk_rec junk r1 r2) Φ (JView Hr Hs n Rr Rs).
Proof using HW Hjr Hj.
  intros (rc1 & Hrc1 & Hch1) (rc2 & Hrc2 & Hch2) Hf Hn HΦ. unfold row_row_cmp.
  set (L := Z.of_nat (length k1)) in *.
  awp_step. apply awp_read_rec with (n - 1); [lia|]. eapply (read_record_spec junk_rec Hjr); [exact Hrc1|lia|].
  split; [simpl; split; [done|lia]|].
  awp_step. apply awp_read_str with (n - 2); [lia|]. eapply read_string_spec; [exact Hch1|done|lia|]. intros sr1 Hsr1.
  split; [simpl; split; [done|lia]|].
  awp_step. apply awp_read_rec with (n - 3); [lia|]. eapply (read_record_spec junk_rec Hjr); [exact Hrc2|lia|].
  split; [simpl; split; [done|lia]|].
  awp_step. apply awp_read_str with (n - 4); [lia|]. eapply read_string_spec; [exact Hch2|done|lia|]. intros sr2 Hsr2.
  split; [simpl; split; [done|lia]|].
  apply awp_read_str with (n - (2 * L + 4)); [lia|].
  eapply compare_string_record_spec; [exact Hsr1|exact Hsr2|done|lia|].
  split; [simpl; split; [done|lia]|]. exact HΦ.
Qed.
End compare.

(** ** Copying a key *)

Section copy.
Context (junk : list byte) (Hj : length junk = 32%nat).

Lemma push_chunks_spec Hr Hs Rr Rs n : ∀ rid rids ds front ops (Φ : list RID → jview → Prop),
  links Hs (rid :: rids) ds → (length ds <= n)%nat → Z.of_nat (length ds) <= ops →
  Φ (rev (rid :: rids) ++ front) (JView Hr Hs (ops - Z.of_nat (length ds)) Rr Rs) →
  awp (push_chunks junk n rid front) Φ (JView Hr Hs ops Rr Rs).
Proof using HW Hj.
  induction n as [|n IH]; intros rid rids ds front ops Φ Hl Hn Hops HΦ.
  { destruct Hl; simpl in Hn; lia. }
  cbn [push_chunks]. apply awp_rec_rids. intros _ Hids.
  assert (∀ next d, Hs !! rid = Some (chunk_enc next d) → (0 < length d <= 20)%nat → rid_dec (rid_enc next) = next →
    ∀ (k : RID → M Tables (list RID)) Ψ, awp (k next) Ψ (JView Hr Hs (ops - 1) Rr Rs) → 1 <= ops →
    awp (tmp ← in_str (table_read rid junk); next ← get_str_chunk_rid tmp; k next) Ψ (JView Hr Hs ops Rr Rs)) as Hread.
  { intros next d Hat Hd Hfit k Ψ Hk Hop. awp_step. apply awp_read_str with (ops - 1); [lia|].
    eapply heap_read; [exact Hat|rewrite chunk_enc_length; lia|rewrite chunk_enc_length; lia|lia|].
    split; [simpl; split; [done|lia]|]. awp_step.
    eapply str_chunk_rid_spec; [by apply chunk_is_read|]. exact Hk. }
  inversion Hl as [? d Hat Hd|? next rids' d ds' Hat Hd Hok Hl']; subst; cbn [length] in *.
  - rewrite (proj2 (Z.eqb_neq _ (-1))) by (destruct (Hids _ _ Hat) as (_ & ? & _); lia).
    eapply Hread; [exact Hat|done|apply rid_dec_enc_no_rid| |lia]. cbn. awp_step. exact HΦ.
  - rewrite (proj2 (Z.eqb_neq _ (-1))) by (destruct (Hids _ _ Hat) as (_ & ? & _); lia).
    eapply Hread; [exact Hat|lia|by apply rid_dec_enc| |lia].
    rewrite (proj2 (Z.eqb_neq (rid_block_addr next) (-1))) by (destruct Hok as (_ & ? & _); lia).
    eapply IH; [exact Hl'|lia|lia|]. cbn [rev] in *. rewrite <- !app_assoc in *.
    replace (ops - 1 - Z.of_nat (length ds')) with (ops - Z.of_nat (S (length ds'))) by lia. exact HΦ.
Qed.

End copy.

(** a chunk before the last one *)
Definition full_chunk (H : rheap) (r : RID) (d : list byte) : Prop :=
  ∃ next, H !! r = Some (chunk_enc next d) ∧ length d = 20%nat.

(** what follows a chunk with the link [nx] *)
Definition tail_at (H : rheap) (nx : RID) (d s2 : list byte) : Prop :=
  (nx = no_rid ∧ s2 = []) ∨ (length d = 20%nat ∧ rid_ok nx ∧ chain H nx s2).

Lemma tail_chain H rid nx d s2 : H !! rid = Some (chunk_enc nx d) → (0 < length d <= 20)%nat →
  tail_at H nx d s2 → chain H rid (d ++ s2).
Proof using.
  intros Hat Hd [[-> ->]|(H20 & Hok & Hc)]; [rewrite app_nil_r; by apply chain_last|by eapply chain_more].
Qed.

Lemma tail_mono H H' nx d s2 : H ⊆ H' → tail_at H nx d s2 → tail_at H' nx d s2.
Proof using. intros Hs [?|(? & ? & ?)]; [by left|right; split; [done|split; [done|by eapply chain_mono]]]. Qed.

Lemma relink next nxt d rest : splice 0 (rid_enc nxt) (chunk_enc next d ++ rest) = chunk_enc nxt d ++ rest.
Proof using.
  unfold chunk_enc. rewrite <- !app_assoc. unfold splice. rewrite take_0, rid_enc_length, Nat.add_0_l.
  by rewrite drop_app_length' by (by rewrite rid_enc_length).
Qed.

(** the string from the chunk [nx d] on is the heap [F]; the chunks to be
    copied are in [B] *)
Lemma copy_chunks_spec Hr B front rds : Forall2 (full_chunk B) front rds →
  ∀ x nx d rest nxt0 F s2 ops Rr Rs (Φ : RID → jview → Prop),
  F ##ₘ B → length (chunk_enc nx d ++ rest) = 32%nat → (0 < length d <= 20)%nat → tail_at F nx d s2 →
  Z.of_nat (length d) + 16 + 36 * Z.of_nat (length front) <= Rs →
  (wcost + 1) * (1 + Z.of_nat (length front)) <= ops → 0 <= wcost →
  (∀ rid F', F' ##ₘ B → chain F' rid (concat (rev rds) ++ d ++ s2) → rid_ok rid →
    Φ rid (JView Hr (F' ∪ B) (ops - (wcost + 1) * (1 + Z.of_nat (length front))) Rr
      (Rs - (Z.of_nat (length d) + 16 + 36 * Z.of_nat (length front))))) →
  awp (copy_chunks fuel (x :: front) (chunk_enc nx d ++ rest) (12 + Z.of_nat (length d)) nxt0) Φ (JView Hr (F ∪ B) ops Rr Rs).
Proof using HW.
  induction 1 as [|y dy front rds (ny & Hy & Hdy) Hfull IH];
    intros x nx d rest nxt0 F s2 ops Rr Rs Φ HFB Hlen Hd Htail HR Hops Hw HΦ; cbn [copy_chunks length] in *.
  - awp_step. apply awp_write_str with (ops - (wcost + 1)) (Rs - (Z.of_nat (length d) + 16)); [lia|].
    eapply (insert_chunk fuel wcost); [done|done|lia|lia|]. intros rid Hnew Hok.
    destruct (piece_insert F B rid (chunk_enc nx d) HFB Hnew) as (HFB' & Hsub & -> & _).
    split; [cbn [w_left w_room]; lia|]. awp_step. cbn [w_heap].
    replace (ops - (wcost + 1)) with (ops - (wcost + 1) * (1 + Z.of_nat 0)) by lia.
    replace (Rs - (Z.of_nat (length d) + 16)) with (Rs - (Z.of_nat (length d) + 16 + 36 * Z.of_nat 0)) by lia.
    apply HΦ; [done| |done]. cbn [rev concat app].
    eapply tail_chain; [apply lookup_insert_eq|done|by eapply tail_mono].
  - awp_step. apply awp_write_str with (ops - wcost) (Rs - (Z.of_nat (length d) + 16)); [lia|].
    eapply (insert_chunk fuel wcost); [done|done|lia|lia|]. intros rid Hnew Hok.
    destruct (piece_insert F B rid (chunk_enc nx d) HFB Hnew) as (HFB' & Hsub & -> & _).
    split; [cbn [w_left w_room]; lia|]. cbn [w_heap]. set (F1 := <[rid:=chunk_enc nx d]> F) in *.
    assert ((F1 ∪ B) !! y = Some (chunk_enc ny dy)) as Hy1 by (by apply lookup_union_Some_r).
    awp_step. apply awp_read_str with (ops - (wcost + 1)); [lia|].
    eapply heap_read; [exact Hy1|rewrite chunk_enc_length; lia|rewrite chunk_enc_length; lia|lia|].
    split; [simpl; split; [done|lia]|].
    rewrite drop_ge, app_nil_r by (rewrite chunk_enc_length, Hdy; lia).
    awp_step. eapply edit_obj_spec; [done|rewrite rid_enc_length, chunk_enc_length; lia|].
    change (Z.to_nat 0) with 0%nat. pose proof (relink ny rid dy []) as E. rewrite !app_nil_r in E. rewrite E.
    pose proof (IH y rid dy [] rid F1 (d ++ s2) (ops - (wcost + 1)) Rr (Rs - (Z.of_nat (length d) + 16)) Φ) as IH'.
    rewrite app_nil_r, Hdy in IH'. eapply IH'; [done|by rewrite chunk_enc_length, Hdy|lia| |lia|lia|done|].
    + right. split; [done|]. split; [done|]. eapply tail_chain; [apply lookup_insert_eq|done|by eapply tail_mono].
    + intros rid' F' HFB2 Hc Hok'. cbn [rev] in HΦ. rewrite concat_app in HΦ. cbn [concat] in HΦ.
      rewrite app_nil_r, <- app_assoc in HΦ.
      replace (ops - (wcost + 1) - (wcost + 1) * (1 + Z.of_nat (length front)))
        with (ops - (wcost + 1) * (1 + Z.of_nat (S (length front)))) by lia.
      replace (Rs - (Z.of_nat (length d) + 16) - (Z.of_nat 20 + 16 + 36 * Z.of_nat (length front)))
        with (Rs - (Z.of_nat (length d) + 16 + 36 * Z.of_nat (S (length front)))) by lia.
      by apply HΦ.
Qed.

Lemma links_split H rids ds : links H rids ds →
  ∃ pre last dpre d, rids = pre ++ [last] ∧ ds = dpre ++ [d] ∧ Forall2 (full_chunk H) pre dpre ∧
    H !! last = Some (chunk_enc no_rid d) ∧ (0 < length d <= 20)%nat.
Proof using.
  induction 1 as [rid d Hr Hd|rid next rids d ds Hr Hd Hok _ (pre & last & dpre & d' & -> & -> & Hf & Hat & Hd')].
  - exists [], rid, [], d. split_and!; [done|done|constructor|done|lia|lia].
  - exists (rid :: pre), last, (d :: dpre), d'. split; [done|]. split; [done|].
    split; [|done]. constructor; [by exists next|done].
Qed.

Lemma Forall2_rev {A B} (P : A → B → Prop) l1 l2 : Forall2 P l1 l2 → Forall2 P (rev l1) (rev l2).
Proof using. induction 1; simpl; [constructor|]. by apply Forall2_app; [|constructor]. Qed.

(** a new record *)
Lemma write_record_spec Hr Hs n Rr Rs rc (Φ : RID → jview → Prop) :
  24 <= Rr → wcost <= n → 0 <= wcost →
  (∀ rid, Hr !! rid = None → rid_ok rid →
    Φ rid (JView (<[rid := record_enc rc]> Hr) Hs (n - wcost) (Rr - 24) Rs)) →
  awp (in_rec (write_record fuel rc)) Φ (JView Hr Hs n Rr Rs).
Proof using HW.
  intros HR Hn Hw HΦ. unfold write_record.
  apply awp_write_rec with (n - wcost) (Rr - 24); [lia|].
  change RECORD_SIZE with 20. eapply heap_insert; [lia|rewrite record_enc_length; lia|lia|done|].
  intros rid Hnew Hok. rewrite take_ge by (rewrite record_enc_length; lia).
  split; [cbn [w_left w_room]; lia|]. cbn [w_heap]. by apply HΦ.
Qed.

Lemma delete_record_spec Hr Hs n Rr Rs rid rc (Φ : unit → jview → Prop) :
  has_record Hr rid rc → wcost <= n → 0 <= wcost →
  Φ tt (JView (delete rid Hr) Hs (n - wcost) Rr Rs) →
  awp (in_rec (delete_record fuel rid)) Φ (JView Hr Hs n Rr Rs).
Proof using HW.
  intros [Hat _] Hn Hw HΦ. unfold delete_record. apply awp_write_rec with (n - wcost) Rr; [lia|].
  eapply heap_delete; [exact Hat|done|]. split; [cbn [w_left w_room]; lia|]. exact HΦ.
Qed.

Section handler.
Context (junk_rec junk : list byte).
Context (Hjr : length junk_rec = 20%nat) (Hj : length junk = 32%nat).

Lemma get_record_spec Hr Hs n Rr Rs r rc (Φ : Record → jview → Prop) :
  has_record Hr r rc → 0 < n → Φ rc (JView Hr Hs (n - 1) Rr Rs) →
  awp (in_rec (read_record junk_rec r)) Φ (JView Hr Hs n Rr Rs).
Proof using HW Hjr.
  clear junk Hj. intros Hrc Hn HΦ. apply awp_read_rec with (n - 1); [lia|].
  eapply (read_record_spec junk_rec Hjr); [exact Hrc|lia|]. split; [simpl; split; [done|lia]|done].
Qed.

(** the operations and the bytes a copy of a key of [n] characters takes *)
Definition copy_cost (n : nat) : Z := (wcost + 2) * chunks n + wcost + 2.

Lemma insert_handler_spec Hr Hs n Rr Rs rid k (Φ : RID → jview → Prop) :
  has_key Hr Hs rid k → (length k < fuel)%nat → 0 <= wcost →
  copy_cost (length k) <= n → 24 <= Rr → string_room (length k) <= Rs →
  (∀ r' c F, Hr !! r' = None → rid_ok c → chain F c k → F ##ₘ Hs →
    Φ r' (JView (<[r' := record_enc (mkRecord c no_rid)]> Hr) (F ∪ Hs)
      (n - copy_cost (length k)) (Rr - 24) (Rs - string_room (length k)))) →
  awp (insert_handler fuel junk_rec junk rid) Φ (JView Hr Hs n Rr Rs).
Proof using HW Hjr Hj.
  intros (rc & Hrc & Hch) Hf Hw Hn HRr HRs HΦ.
  destruct (chain_links _ _ _ Hch) as (rids & ds & Hl & Hds).
  destruct (links_length _ _ _ Hl) as (Hlen & Hc & H0). rewrite Hds in Hc, H0.
  unfold copy_cost, string_room in *. set (c := chunks (length k)) in *.
  assert (length ds <= fuel)%nat as Hfuel.
  { unfold c, chunks in *. pose proof (Z.div_mod (Z.of_nat (length k) + 19) 20).
    pose proof (Z.mod_pos_bound (Z.of_nat (length k) + 19) 20). lia. }
  assert (1 <= c) as Hc1. { destruct ds; [inversion Hl|]. simpl in Hc. lia. }
  unfold insert_handler. awp_step. eapply get_record_spec; [exact Hrc|nia|].
  awp_step. eapply (push_chunks_spec junk Hj _ _ _ _ _ _ rids ds); [exact Hl|done|nia|]. rewrite app_nil_r.
  destruct (links_split _ _ _ Hl) as (pre & last & dpre & d & Er & Ed & Hfull & Hat & Hd).
  rewrite Er, rev_app_distr. cbn [rev app head].
  awp_step. intros w Hw'. apply wp_of_opt with last; [done|]. eexists. split; [exact Hw'|]. clear w Hw'.
  awp_step. apply awp_read_str with (n - c - 2); [nia|].
  eapply heap_read; [exact Hat|rewrite chunk_enc_length; lia|rewrite chunk_enc_length; lia|nia|].
  split; [simpl; split; [done|lia]|].
  awp_step. eapply str_chunk_size_spec; [apply chunk_is_read; [done|done|apply rid_dec_enc_no_rid]|]. cbv beta.
  assert (calc_str_chunk_size (Z.of_nat (length d)) = 12 + Z.of_nat (length d)) as -> by (by apply calc_chunk_size).
  assert (length (rev pre) = length dpre) as Hpre by (rewrite length_rev; by eapply Forall2_length).
  assert (c = 1 + Z.of_nat (length dpre)) as Ec by (rewrite Hc, Ed, length_app; simpl; lia).
  assert (Z.of_nat (length k) = 20 * Z.of_nat (length dpre) + Z.of_nat (length d)) as Ek.
  { rewrite <- Hds, Ed, concat_app, length_app. simpl. rewrite app_nil_r.
    assert (length (concat dpre) = 20 * length dpre)%nat as ->; [|lia].
    clear -Hfull. induction Hfull as [|? ? ? ? (? & _ & Hx)]; [done|]. simpl. rewrite length_app, Hx. lia. }
  awp_step. rewrite <- (map_empty_union Hs) at 1.
  eapply (copy_chunks_spec Hr Hs (rev pre) (rev dpre)) with (s2 := []) (nx := no_rid);
    [by apply Forall2_rev|apply map_disjoint_empty_l|rewrite length_app, length_drop, chunk_enc_length; lia|done|by left|rewrite Hpre; lia|rewrite Hpre; nia|done|].
  intros nxt F HF Hc' Hok'. rewrite rev_involutive, app_nil_r in Hc'. rewrite Hpre.
  assert (concat dpre ++ d = k) as Ek2 by (rewrite <- Hds, Ed, concat_app; simpl; by rewrite app_nil_r).
  rewrite Ek2 in Hc'. cbv beta.
  eapply write_record_spec; [lia|nia|done|].
  intros r' Hnew Hok2.
  replace (n - 1 - Z.of_nat (length ds) - 1 - (wcost + 1) * (1 + Z.of_nat (length dpre)) - wcost)
    with (n - ((wcost + 2) * c + wcost + 2)) by lia.
  replace (n - c - 2 - (wcost + 1) * (1 + Z.of_nat (length dpre)) - wcost)
    with (n - ((wcost + 2) * c + wcost + 2)) by lia.
  replace (Rs - (Z.of_nat (length d) + 16 + 36 * Z.of_nat (length dpre)))
    with (Rs - (Z.of_nat (length k) + 16 * c)) by lia.
  by apply HΦ.
Qed.

(** the operations freeing a string of [n] characters takes *)
Definition free_cost (n : nat) : Z := (wcost + 1) * chunks n.

Lemma free_string_spec P Hr Hs n Rr Rs rid s (Φ : unit → jview → Prop) :
  chain P rid s → P ⊆ Hs → (length s < fuel)%nat → 0 <= wcost → free_cost (length s) <= n →
  (∀ Hs', shrunk_by P Hs Hs' → weight Hs' = weight Hs - string_bytes (length s) →
    Φ tt (JView Hr Hs' (n - free_cost (length s)) Rr Rs)) →
  awp (in_str (delete_string fuel junk rid)) Φ (JView Hr Hs n Rr Rs).
Proof using HW Hj.
  clear junk_rec Hjr. intros Hc HP Hf Hw Hn HΦ. assert (0 <= chunks (length s)) by (unfold chunks; apply Z.div_pos; lia).
  unfold free_cost in *. apply awp_write_str with (n - (wcost + 1) * chunks (length s)) Rs; [nia|].
  eapply (delete_string_spec fuel wcost); [done|exact Hj|exact Hc|exact HP|done|done|]. intros Hs' Hsh Hwt.
  split; [cbn [w_left w_room]; lia|]. by apply HΦ.
Qed.

(** the copy of a key is removed: its chunks and its record *)
Lemma delete_handler_spec P Hr Hs n Rr Rs rid c k (Φ : unit → jview → Prop) :
  has_record Hr rid (mkRecord c no_rid) → chain P c k → P ⊆ Hs → (length k < fuel)%nat → 0 <= wcost →
  free_cost (length k) + wcost + 1 <= n →
  (∀ Hs', shrunk_by P Hs Hs' → Φ tt (JView (delete rid Hr) Hs' (n - (free_cost (length k) + wcost + 1)) Rr Rs)) →
  awp (delete_handler fuel junk_rec junk rid) Φ (JView Hr Hs n Rr Rs).
Proof using HW Hjr Hj.
  intros Hrc Hc HP Hf Hw Hn HΦ.
  assert (0 <= chunks (length k)) by (unfold chunks; apply Z.div_pos; lia). assert (0 <= free_cost (length k)) by (unfold free_cost; nia).
  unfold delete_handler. awp_step. eapply get_record_spec; [exact Hrc|lia|]. cbn [key value].
  awp_step. eapply free_string_spec; [exact Hc|exact HP|done|done|lia|]. intros Hs' Hsh _. cbv beta.
  awp_step. apply awp_write_str with (n - 1 - free_cost (length k)) Rs; [lia|].
  eapply delete_no_string; [lia|]. split; [cbn [w_left w_room]; lia|]. cbn [w_heap].
  eapply delete_record_spec; [exact Hrc|lia|done|].
  replace (n - 1 - free_cost (length k) - wcost) with (n - (free_cost (length k) + wcost + 1)) by lia. by apply HΦ.
Qed.
End handler.
End tables.
