(* ===== verification/MyjqlWorld.v ===== *)
(** The callbacks of [MyjqlWrite] as the index sees them: the two tables are a
    world of rows and keys, in which [row_row_cmp] compares rows,
    [insert_handler] makes copies and [delete_handler] frees copies. *)
From stdpp Require Import base gmap list fin_maps.
From Stdlib Require Import ZArith Lia Strings.Byte.
From S2P Require Import Prelude FileIO BufferPool PoolLogic PoolClient Table HeapStore HeapWrite Str StrSpec StrWrite StrDelete.
From S2P Require Import BTree NodeSpec TreeSpec BTreeSearch BTreeInsert BTreeDelete Myjql MyjqlGet MyjqlOwners MyjqlWrite.
#[local] Open Scope Z_scope.

Lemma chunks_mono n m : (n <= m)%nat → chunks n <= chunks m.
Proof. intros H. unfold chunks. apply Z.div_le_mono; lia. Qed.

Lemma chunks_nonneg n : 0 <= chunks n.
Proof. unfold chunks. apply Z.div_pos; lia. Qed.

Lemma string_room_mono n m : (n <= m)%nat → string_room n <= string_room m.
Proof. intros H. pose proof (chunks_mono _ _ H). unfold string_room. lia. Qed.

Lemma string_room_nonneg n : 0 <= string_room n.
Proof. pose proof (chunks_nonneg n). unfold string_room. lia. Qed.

(** the operations of a comparison of keys of at most [L] characters *)
Definition cmp_cost (L : nat) : Z := 2 * Z.of_nat L + 4.
(** ... and those of freeing a copy *)
Definition drop_cost (wcost : Z) (L : nat) : Z := free_cost wcost L + wcost + 1.

Section world.
Context {RV : Rep Table wview} (fuel : nat) (wcost : Z) {HW : HeapWriter fuel wcost}.
Context (Hwcost : 0 <= wcost).
(** no key is longer than [L]; the tables held [O0], [Hr0] and [Hs0] at first,
    with the records [rows] and copies for the index; [hc] is the price of a
    copy, so that [n] operations pay for [n / hc] copies, each with its room;
    [n0], [Rr0] and [Rs0] are left afterwards *)
Context (L : nat) (rows : list RID) (O0 : owners) (Hr0 Hs0 : rheap) (hc n0 Rr0 Rs0 : Z).
Context (Hhc : copy_cost wcost L <= hc).

#[local] Instance writing : Rep Tables (world (list byte)) := λ w g,
  ∃ O Hr Hs Rr Rs, rep w (JView Hr Hs (n0 + w_ops g) Rr Rs) ∧
    records_hold rows L O Hr Hs (w_keys g) ∧ kept rows O0 Hr0 Hs0 O Hr Hs ∧
    (∀ r, r ∈ rows → is_Some (w_keys g !! r)) ∧
    Rr0 + w_ops g / hc * 24 <= Rr ∧ Rs0 + w_ops g / hc * string_room L <= Rs.

Lemma hc_pos : 0 < hc.
Proof using Hhc Hwcost. clear -Hhc Hwcost. pose proof (chunks_nonneg L). unfold copy_cost in Hhc. nia. Qed.

(** fewer operations pay for less room *)
Lemma room_less n n' c R0 R : n' <= n → 0 <= c → R0 + n / hc * c <= R → R0 + n' / hc * c <= R.
Proof using Hhc Hwcost.
  pose proof hc_pos as Hp. clear -Hp. intros Hn Hc HR. assert (n' / hc <= n / hc) by (apply Z.div_le_mono; lia). nia.
Qed.

#[export] Instance writing_world : KeyWorld (list byte) Tables.
Proof using HW Hhc Hwcost.
  pose proof (string_room_nonneg L) as Hc. constructor.
  - intros w keys n n' (O & Hr & Hs & Rr & Rs & Hw & H1 & H2 & H3 & HR & HS) Hn. cbn [w_ops w_keys] in *.
    exists O, Hr, Hs, Rr, Rs. cbn [w_ops w_keys]. split; [eapply (jview_weaken fuel wcost); [exact Hw|lia|done|done]|].
    split; [done|]. split; [done|]. split; [done|]. split; by eapply room_less.
  - intros w keys n r k (O & Hr & Hs & Rr & Rs & [Hw _] & H1 & _) Hr'. cbn [w_ops w_keys] in *.
    destruct (H1 _ _ Hr') as (_ & rc & [[Hat _] _] & _).
    exact (@heap_rids _ (write_reader Rr) _ Hr _ _ _ Hw Hat).
Qed.

(** a program on the two tables is one on the world *)
Lemma writing_awp {A} (m : M Tables A) (Φ : A → world (list byte) → Prop) keys n :
  (∀ O Hr Hs Rr Rs, records_hold rows L O Hr Hs keys → kept rows O0 Hr0 Hs0 O Hr Hs →
    (∀ r, r ∈ rows → is_Some (keys !! r)) →
    Rr0 + n / hc * 24 <= Rr → Rs0 + n / hc * string_room L <= Rs →
    awp m (λ a v, ∃ O' keys' n', Φ a (World keys' n') ∧ n0 + n' <= j_left v ∧
      records_hold rows L O' (j_rec v) (j_str v) keys' ∧ kept rows O0 Hr0 Hs0 O' (j_rec v) (j_str v) ∧
      (∀ r, r ∈ rows → is_Some (keys' !! r)) ∧
      Rr0 + n' / hc * 24 <= j_rroom v ∧ Rs0 + n' / hc * string_room L <= j_sroom v) (JView Hr Hs (n0 + n) Rr Rs)) →
  awp m Φ (World keys n).
Proof using HW.
  clear Hhc. intros Hm w (O & Hr & Hs & Rr & Rs & Hw & H1 & H2 & H3 & HR & HS). cbn [w_ops w_keys] in *.
  eapply wp_mono; [by eapply Hm|]. intros a w' ([Hr' Hs' m' Rr' Rs'] & Hw' & O' & keys' & n' & HΦ & Hn' & H1' & H2' & H3' & HR' & HS').
  cbn [j_left j_rec j_str j_rroom j_sroom] in *. exists (World keys' n'). split; [|done].
  exists O', Hr', Hs', Rr', Rs'. cbn [w_ops w_keys]. split; [|done]. eapply (jview_weaken fuel wcost); [exact Hw'|lia|done|done].
Qed.

Context (junk_rec junk : list byte) (Hjr : length junk_rec = 20%nat) (Hj : length junk = 32%nat).
Context (HL : (L < fuel)%nat) (Hn0 : 0 <= n0) (HRr0 : 0 <= Rr0) (HRs0 : 0 <= Rs0).

#[export] Instance row_row_comparer : RowComparer str_cmp (row_row_cmp fuel junk_rec junk) (cmp_cost L).
Proof using All.
  intros keys r1 k1 r2 k2 n Φ H1 H2 Hn HΦ. unfold cmp_cost in *. apply writing_awp. intros O Hr Hs Rr Rs HO HK Hin HR HS.
  destruct (records_has _ _ _ _ _ _ _ _ HO H1) as [K1 L1], (records_has _ _ _ _ _ _ _ _ HO H2) as [K2 _].
  eapply (row_row_cmp_spec fuel wcost junk_rec junk Hjr Hj); [exact K1|exact K2|lia|lia|].
  exists O, keys, (n - (2 * Z.of_nat L + 4)). cbn [j_left j_rec j_str j_rroom j_sroom].
  split; [done|]. split; [lia|]. split; [done|]. split; [done|]. split; [done|].
  pose proof (string_room_nonneg L). split; (eapply room_less; [|done|done]; lia).
Qed.

#[export] Instance handler_copier : KeyCopier (insert_handler fuel junk_rec junk) hc.
Proof using All.
  intros keys r k n Φ Hr' Hn HΦ. apply writing_awp. intros O Hr Hs Rr Rs HO HK Hin HR HS.
  destruct (records_has _ _ _ _ _ _ _ _ HO Hr') as [K1 L1]. pose proof (chunks_mono _ _ L1) as Hch. pose proof hc_pos as Hp.
  assert (copy_cost wcost (length k) <= copy_cost wcost L) as Hcc by (unfold copy_cost; nia).
  pose proof (string_room_mono _ _ L1) as Hcr. pose proof (string_room_nonneg L) as Hc0.
  assert (n / hc = (n - hc) / hc + 1) as Ediv.
  { replace n with (n - hc + 1 * hc) at 1 by lia. by rewrite Z.div_add by lia. }
  assert (0 <= (n - hc) / hc) by (apply Z.div_pos; lia).
  eapply (insert_handler_spec fuel wcost junk_rec junk Hjr Hj); [exact K1|lia|done|lia|nia|nia|].
  intros r' c F Hnew Hok Hc HF. pose proof (records_fresh _ _ _ _ _ _ _ HO Hnew) as Hfresh.
  exists (own (KeyOf r') F O), (<[r':=k]> keys), (n - hc).
  cbn [j_left j_rec j_str j_rroom j_sroom]. split; [by apply HΦ|]. split; [lia|]. split.
  { eapply records_insert; [exact HO|done|by apply rid_dec_enc|apply rid_dec_enc_no_rid|done|exact Hc| | |done|done].
    - by apply piece_new.
    - intros q Hq. by apply piece_beside. }
  split; [by apply kept_insert|]. split; [|split; nia].
  intros q Hq. destruct (Hin q Hq) as [kq Ekq]. exists kq. rewrite lookup_insert_ne; [done|]. intros ->. congruence.
Qed.

(** only a copy may be freed *)
Definition a_copy (r : RID) : Prop := r ∉ rows.

#[export] Instance handler_dropper : KeyDropper a_copy (delete_handler fuel junk_rec junk) (drop_cost wcost L).
Proof using All.
  constructor.
  - intros keys r k n Φ Hk Hcopy Hn HΦ. unfold drop_cost in *. apply writing_awp. intros O Hr Hs Rr Rs HO HK Hin HR HS.
    destruct (HO _ _ Hk) as (HLk & [c v] & [Hrc Hc] & Hval). specialize (Hval Hcopy). cbn [value key] in *. subst v.
    pose proof (chunks_mono _ _ HLk) as Hch. pose proof (string_room_nonneg L).
    assert (free_cost wcost (length k) <= free_cost wcost L) as Hfc by (unfold free_cost; nia).
    assert (0 <= free_cost wcost (length k)) as Hf0 by (unfold free_cost; pose proof (chunks_nonneg (length k)); nia).
    eapply (delete_handler_spec fuel wcost junk_rec junk Hjr Hj); [exact Hrc|exact Hc|apply piece_sub|lia|done|lia|].
    intros Hs' Hsh. exists O, (delete r keys), (n - (free_cost wcost L + wcost + 1)).
    cbn [j_left j_rec j_str j_rroom j_sroom]. split; [done|]. split; [lia|]. split.
    { eapply records_delete; [exact HO| |done]. intros q Hq. eapply piece_freed; [exact Hsh|congruence]. }
    split; [by eapply kept_delete|]. split; [|split; (eapply room_less; [|done|done]; lia)].
    intros q Hq. rewrite lookup_delete_ne by (by intros ->). by apply Hin.
  - intros w keys n r (O & Hr & Hs & Rr & Rs & _ & _ & _ & Hin & _) Hk Hr'. cbn [w_keys] in Hin.
    destruct (Hin r Hr') as [k E]. congruence.
Qed.
End world.
