(* ===== verification/MyjqlMap.v ===== *)
(** The finite map that the index and the two tables stand for: each row of
    the index pairs a key with a value. *)
From stdpp Require Import base gmap list fin_maps.
From Stdlib Require Import ZArith Lia Strings.Byte.
From S2P Require Import Prelude Table HeapStore StrSpec BTree NodeSpec TreeSpec BTreeSearch TreeInsert TreeDelete BTreeInsertSpec.
From S2P Require Import Myjql MyjqlGet MyjqlOwners.
#[local] Open Scope Z_scope.

Abbreviation contents_map := (gmap (list byte) (list byte)).

(** ** Rows and pairs *)

Section rows.
Context (keys : gmap RID (list byte)) (O : owners) (Hr Hs : rheap).

(** a row stands for a pair *)
Definition row_pair (r : RID) (kv : list byte * list byte) : Prop :=
  keys !! r = Some kv.1 ∧ value_at O Hr Hs r kv.2.

(** the rows stand for the pairs of [D] *)
Definition stands_for (rows : list RID) (D : contents_map) : Prop :=
  ∃ kvs, D = list_to_map kvs ∧ NoDup kvs.*1 ∧ Forall2 row_pair rows kvs.

Lemma stands_nil : stands_for [] ∅.
Proof. exists []. split; [done|]. split; [constructor|constructor]. Qed.

Lemma stands_perm rows rows' D : rows ≡ₚ rows' → stands_for rows D → stands_for rows' D.
Proof.
  intros Hp (kvs & -> & Hnd & Hf). destruct (Permutation_Forall2 Hp Hf) as (kvs' & Hp' & Hf').
  exists kvs'. split; [by apply list_to_map_proper|]. split; [by rewrite <- Hp'|done].
Qed.

Lemma stands_cons rows D r k v : keys !! r = Some k → value_at O Hr Hs r v → D !! k = None →
  stands_for rows D → stands_for (r :: rows) (<[k:=v]> D).
Proof.
  intros Hk Hv HD (kvs & -> & Hnd & Hf). exists ((k, v) :: kvs). split; [done|]. split.
  - apply NoDup_cons. split; [by apply not_elem_of_list_to_map|done].
  - by constructor.
Qed.

Lemma stands_uncons rows D r k : keys !! r = Some k → stands_for (r :: rows) D →
  ∃ v, value_at O Hr Hs r v ∧ D !! k = Some v ∧ stands_for rows (delete k D).
Proof.
  intros Hk (kvs & -> & Hnd & Hf). inversion Hf as [|? [k' v] ? kvs' [Hk' Hv] Hf']; subst.
  cbn [fst snd fmap list_fmap] in *. simplify_eq. apply NoDup_cons in Hnd as [Hni Hnd].
  exists v. split; [done|]. cbn [list_to_map foldr uncurry]. split; [by rewrite lookup_insert_eq|].
  exists kvs'. split; [|done]. rewrite delete_insert_id; [done|]. by apply not_elem_of_list_to_map.
Qed.

(** the value of a key is that of its row *)
Lemma stands_lookup rows D k v : stands_for rows D →
  D !! k = Some v ↔ ∃ r, r ∈ rows ∧ keys !! r = Some k ∧ value_at O Hr Hs r v.
Proof.
  intros (kvs & -> & Hnd & Hf). rewrite <- elem_of_list_to_map by done. split.
  - intros (i & Hi)%list_elem_of_lookup. destruct (Forall2_lookup_r _ _ _ _ _ Hf Hi) as (r & Hri & Hk & Hv).
    exists r. split; [by eapply list_elem_of_lookup_2|done].
  - intros (r & (i & Hi)%list_elem_of_lookup & Hk & Hv).
    destruct (Forall2_lookup_l _ _ _ _ _ Hf Hi) as ([k' v'] & Hkv & Hk' & Hv'). cbn [fst snd] in *.
    assert (k' = k) as -> by congruence.
    rewrite (has_value_det _ _ _ _ _ (value_at_has _ _ _ _ _ Hv) (value_at_has _ _ _ _ _ Hv')).
    by eapply list_elem_of_lookup_2.
Qed.

Lemma stands_value rows D r : stands_for rows D → r ∈ rows → ∃ k v, keys !! r = Some k ∧ value_at O Hr Hs r v ∧ D !! k = Some v.
Proof.
  intros Hst Hr'. pose proof Hst as (kvs & E & Hnd & Hf). apply list_elem_of_lookup in Hr' as [i Hi].
  destruct (Forall2_lookup_l _ _ _ _ _ Hf Hi) as ([k v] & Hkv & Hk & Hv). exists k, v. split; [done|]. split; [done|].
  apply (stands_lookup rows); [done|]. exists r. split; [by eapply list_elem_of_lookup_2|done].
Qed.

Lemma stands_absent rows D k r : stands_for rows D → D !! k = None → r ∈ rows → keys !! r ≠ Some k.
Proof.
  intros Hst HD Hr' Hk. destruct (stands_value _ _ _ Hst Hr') as (k' & v & Hk' & _ & HD'). congruence.
Qed.

(** no two rows have the same key *)
Lemma stands_unique rows D r k q : keys !! r = Some k → stands_for (r :: rows) D → q ∈ rows → keys !! q ≠ Some k.
Proof.
  intros Hk Hst Hq. destruct (stands_uncons _ _ _ _ Hk Hst) as (v & _ & _ & Hst').
  eapply stands_absent; [exact Hst'|apply lookup_delete_eq|done].
Qed.
End rows.

(** rows whose keys and values do not change stand for the same map *)
Lemma stands_mono keys O Hr Hs keys' O' Hr' Hs' rows D :
  (∀ r, r ∈ rows → keys' !! r = keys !! r) →
  (∀ r v, r ∈ rows → value_at O Hr Hs r v → value_at O' Hr' Hs' r v) →
  stands_for keys O Hr Hs rows D → stands_for keys' O' Hr' Hs' rows D.
Proof.
  intros Hk Hv (kvs & -> & Hnd & Hf). exists kvs. split; [done|]. split; [done|].
  induction Hf as [|r [k v] rows kvs [Hkr Hvr] Hf IH]; constructor.
  - cbn [fst snd] in *. split; [by rewrite Hk by left|]. apply Hv; [by left|done].
  - apply IH; [intros; apply Hk; by right|intros; apply Hv; [by right|done]|]. by apply NoDup_cons in Hnd as [_ ?].
Qed.

(** ** The index over the tables *)

(** the index of [g], with the tree [o], is over the records of the tables *)
Record holding (L : nat) (g : ipool) (o : option tree) (fl : list Z) (keys : gmap RID (list byte))
    (O : owners) (Hr Hs : rheap) : Prop := {
  hd_index : index_holds (kcmp := str_cmp) g keys o fl;
  hd_records : records_hold (index_rows o) L O Hr Hs keys;
  hd_copies : ∀ r, r ∈ index_seps o → r ∉ index_rows o;
}.

(** the index and the tables hold the map [D] *)
Definition contents (L : nat) (g : ipool) (Hr Hs : rheap) (D : contents_map) (o : option tree) : Prop :=
  ∃ fl keys O, holding L g o fl keys O Hr Hs ∧ stands_for keys O Hr Hs (index_rows o) D.

Lemma index_rows_known g keys o fl r :
  index_holds (kcmp := str_cmp) g keys o fl → r ∈ index_rows o → is_Some (keys !! r).
Proof.
  intros [Hroot _ _ _ _] Hr. destruct o as [t|]; [|by apply not_elem_of_nil in Hr].
  destruct Hroot as (_ & Hwf & _). destruct (wf_within _ _ _ _ _ _ Hwf _ Hr) as (kr & Hk & _). by exists kr.
Qed.

(** an index with a row has a root *)
Lemma row_depth r o : r ∈ index_rows o → 2 <= index_depth o.
Proof. destruct o; [simpl; lia|by intros []%not_elem_of_nil]. Qed.

(** the index depends only on the keys of its rows and its copies *)
Lemma index_holds_agree g keys keys' o fl : agree keys keys' (index_rows o) → agree keys keys' (index_seps o) →
  index_holds (kcmp := str_cmp) g keys o fl → index_holds (kcmp := str_cmp) g keys' o fl.
Proof.
  intros He Hs [Hroot ? ? ? ? ?]. constructor; try done. destruct o as [t|]; [|done].
  destruct Hroot as (? & Hwf & ?). split; [done|]. split; [by eapply wf_agree|done].
Qed.

Lemma index_holds_mono g keys keys' o fl : keys ⊆ keys' →
  index_holds (kcmp := str_cmp) g keys o fl → index_holds (kcmp := str_cmp) g keys' o fl.
Proof.
  intros Hs [Hroot ? ? ? ? ?]. constructor; try done. destruct o as [t|]; [|done].
  destruct Hroot as (? & Hwf & ?). split; [done|]. split; [by eapply wf_mono|done].
Qed.

(** fewer accesses to the index *)
Lemma index_holds_hits g keys o fl h : index_holds (kcmp := str_cmp) g keys o fl →
  index_holds (kcmp := str_cmp) (IPool (i_root g) (i_free g) (i_nodes g) (i_len g) ∅ h) keys o fl.
Proof. intros [Hroot Hpins Hfree Hpages Hempty Hfirst]. by constructor; [destruct o|..]. Qed.

(** no value is empty *)
Lemma contents_nonempty L g Hr Hs D o k : contents L g Hr Hs D o → D !! k ≠ Some [].
Proof.
  intros (fl & keys & O & _ & Hst) HD.
  apply (stands_lookup _ _ _ _ _ _ _ _ Hst) in HD as (r & _ & _ & rc & _ & Hc). by apply chain_nonempty in Hc.
Qed.
