(* ===== verification/MyjqlSet.v ===== *)
(** Storing a new key: its strings, its record, and the record in the index.
    What the index does is behind an interface, [RowInserter], with two
    implementations: here for an index of any depth, whose insertion may copy
    keys, and in [MyjqlLeaf] for an index of a single leaf. *)
From stdpp Require Import base gmap list fin_maps.
From Stdlib Require Import ZArith Lia Strings.Byte.
From S2P Require Import Prelude FileIO BufferPool PoolLogic PoolClient Table HeapStore HeapWrite Str StrSpec StrWrite StrDelete.
From S2P Require Import BTree NodeSpec TreeSpec TreeFrame BTreeSearch TreeInsert TreeDelete BTreeInsert BTreeInsertSpec.
From S2P Require Import Myjql MyjqlGet MyjqlOwners MyjqlWrite MyjqlWorld MyjqlMap.
#[local] Open Scope Z_scope.

(** ** Costs *)

(** the operations of the insertion of a record into an index of depth [d],
    and those of storing a key of [lk] characters with a value of [lv] *)
Definition insert_ops (wcost : Z) (L : nat) (d : Z) : Z := 16 * cmp_cost L * d + copy_cost wcost L + 1.
Definition set_ops (wcost : Z) (L : nat) (d : Z) (lk lv : nat) : Z :=
  wcost * (chunks lk + chunks lv + 1) + insert_ops wcost L d.
(** the bytes of the table of strings that takes; in the table of records it is
    48, those of the record and of a copy *)
Definition set_room (L lk lv : nat) : Z := string_room lk + string_room lv + string_room L.

Lemma copy_cost_nonneg wcost L : 0 <= wcost → 0 <= copy_cost wcost L.
Proof. intros H. pose proof (chunks_nonneg L). unfold copy_cost. nia. Qed.

Lemma insert_ops_nonneg wcost L d : 0 <= wcost → 1 <= d → 0 <= insert_ops wcost L d.
Proof. intros H Hd. pose proof (copy_cost_nonneg wcost L H). unfold insert_ops, cmp_cost. nia. Qed.

(** they pay for one copy *)
Definition compare_ops (L : nat) (d : Z) : Z := 8 * cmp_cost L * d.
Definition insert_copy (wcost : Z) (L : nat) (d : Z) : Z := compare_ops L d + copy_cost wcost L + 1.
Lemma insert_ops_split wcost L d : 0 <= wcost → 1 <= d → let I := compare_ops L d in let hc := insert_copy wcost L d in
  insert_ops wcost L d = I + hc ∧ 0 <= I ∧ copy_cost wcost L <= hc ∧ 0 < hc ∧ (I + hc) / hc = 1.
Proof.
  intros Hw Hd I hc. pose proof (copy_cost_nonneg wcost L Hw). assert (0 <= I) by (unfold I, compare_ops, cmp_cost; nia).
  assert (hc = I + copy_cost wcost L + 1) as E by done. split; [unfold insert_ops; rewrite E; unfold I, compare_ops; lia|].
  split; [done|]. split; [lia|]. split; [lia|]. symmetry. apply (Z.div_unique _ _ _ I); lia.
Qed.

(** ** What the index promises

    The terms on which an operation on the index is done: when it is certain to
    succeed, the operations and the bytes of the two tables it takes, and how
    the index and the two heaps are afterwards. *)
Record index_terms := Terms {
  it_ready : ipool → option tree → Prop;
  it_ops : option tree → Z;
  it_rec : option tree → Z;
  it_str : option tree → Z;
  it_after : ipool → option tree → rheap → rheap → ipool → option tree → rheap → rheap → Prop;
}.

Section set.
Context {RV : Rep Table wview} (fuel : nat) (wcost : Z) {HW : HeapWriter fuel wcost}.
Context (Hwcost : 0 <= wcost).
Context (junk_rec junk : list byte) (Hjr : length junk_rec = 20%nat) (Hj : length junk = 32%nat).
Context (L : nat) (HL : (L < fuel)%nat).

(** the record [rid] of a new key is put into the index *)
Class RowInserter (T : index_terms) : Prop := {
  inserter_ops : ∀ o, 0 <= it_ops T o;
  inserter_rec : ∀ o, 0 <= it_rec T o;
  inserter_str : ∀ o, 0 <= it_str T o;
  inserter_less : ∀ o o', index_depth o' <= index_depth o →
    it_ops T o' <= it_ops T o ∧ it_rec T o' <= it_rec T o ∧ it_str T o' <= it_str T o;
  inserter_runs : ∀ g keys o fl O Hr Hs D n Rr Rs rid k (Φ : RID → ipool * jview → Prop),
    index_holds (kcmp := str_cmp) g keys o fl → keys !! rid = Some k →
    records_hold (rid :: index_rows o) L O Hr Hs keys → (∀ r, r ∈ index_seps o → r ∉ rid :: index_rows o) →
    stands_for keys O Hr Hs (rid :: index_rows o) D → it_ready T g o →
    it_ops T o <= n → it_rec T o <= Rr → it_str T o <= Rs →
    (∀ g' o' Hr' Hs', contents L g' Hr' Hs' D o' → it_after T g o Hr Hs g' o' Hr' Hs' →
      Φ rid (g', JView Hr' Hs' (n - it_ops T o) (Rr - it_rec T o) (Rs - it_str T o))) →
    awp (b_tree_insert (row_row_cmp fuel junk_rec junk) (insert_handler fuel junk_rec junk) fuel rid) Φ
      (g, JView Hr Hs n Rr Rs);
}.

(** *** [set_new] *)

Section rules.
Context (T : index_terms) {HI : RowInserter T}.

(** a record of a key and a value whose strings are the pieces [Fk] and [Fv] of
    the table of strings is written and put into the index *)
Lemma add_row_spec g keys o fl O Hr Hs D n Rr Rs k v rc Fk Fv Hs2 (Φ : unit → ipool * jview → Prop) :
  index_holds (kcmp := str_cmp) g keys o fl → records_hold (index_rows o) L O Hr Hs keys →
  (∀ r, r ∈ index_seps o → r ∉ index_rows o) → stands_for keys O Hr Hs (index_rows o) D → D !! k = None →
  rid_fits (key rc) → rid_fits (value rc) → (length k <= L)%nat →
  chain Fk (key rc) k → chain Fv (value rc) v → Fk ⊆ Hs2 → Fv ⊆ Hs2 → Fk ##ₘ Fv → Hs ⊆ Hs2 →
  (∀ o, Fk ##ₘ piece O o Hs) → (∀ o, Fv ##ₘ piece O o Hs) →
  it_ready T g o → wcost + it_ops T o <= n → 24 + it_rec T o <= Rr → it_str T o <= Rs →
  (∀ Hr1 g' o' Hr' Hs', weight Hr1 = weight Hr + 20 → it_after T g o Hr1 Hs2 g' o' Hr' Hs' →
    contents L g' Hr' Hs' (<[k:=v]> D) o' →
    Φ tt (g', JView Hr' Hs' (n - (wcost + it_ops T o)) (Rr - (24 + it_rec T o)) (Rs - it_str T o))) →
  awp (rid ← ext (in_rec (write_record fuel rc));
       b_tree_insert (row_row_cmp fuel junk_rec junk) (insert_handler fuel junk_rec junk) fuel rid;;
       mret tt) Φ (g, JView Hr Hs2 n Rr Rs).
Proof using HW Hwcost Hjr Hj HL HI.
  intros Hidx Hrecs Hcopies Hst HDk Hfk Hfv Hlk Hck Hcv HFk HFv Hkv Hsub Hdk Hdv Hready Hn HRr HRs HΦ.
  pose proof (inserter_ops o) as I1. pose proof (inserter_rec o) as I2. pose proof (inserter_str o) as I3.
  awp_step. apply awp_world. eapply (write_record_spec fuel wcost); [lia|lia|done|]. intros rid Hnew Hokr. cbv beta.
  pose proof (records_fresh _ _ _ _ _ _ _ Hrecs Hnew) as Hfresh.
  set (O2 := own (ValueOf rid) Fv (own (KeyOf rid) Fk O)).
  assert (∀ o', piece O o' Hs ⊆ piece O2 o' Hs2) as Hpieces.
  { intros o'. unfold O2. etrans; [|apply piece_mono; exact Hsub].
    etrans; [apply piece_own_out; apply Hdk|]. apply piece_own_out.
    apply map_disjoint_spec. intros x b b' Hb Hb'. apply piece_lookup in Hb' as [Hb' E].
    destruct (Fk !! x) as [c|] eqn:Ec.
    - by eapply (proj1 (map_disjoint_spec _ _) Hkv).
    - rewrite own_out in E by done. eapply (proj1 (map_disjoint_spec _ _) (Hdv o')); [exact Hb|]. by apply piece_lookup. }
  assert (Fk ⊆ piece O2 (KeyOf rid) Hs2) as HpK.
  { apply map_subseteq_spec. intros x b Hx. apply piece_lookup. split; [by eapply lookup_weaken|].
    unfold O2. rewrite own_out; [by eapply own_in|]. by eapply map_disjoint_Some_l. }
  assert (Fv ⊆ piece O2 (ValueOf rid) Hs2) as HpV by (by apply piece_own_in).
  assert (∀ q, q ∈ index_rows o → q ≠ rid) as Hne.
  { intros q Hq ->. destruct (index_rows_known _ _ _ _ _ Hidx Hq). congruence. }
  assert (keys ⊆ <[rid:=k]> keys) as Hsubk by (by apply insert_subseteq).
  awp_step. eapply (inserter_runs _ (<[rid:=k]> keys) o fl O2 _ _ (<[k:=v]> D));
    [by eapply index_holds_mono|apply lookup_insert_eq| | | |done|lia|lia|done|].
  - eapply records_insert; [exact Hrecs|done|done|done|done|exact Hck|done|intros; apply Hpieces| |].
    + intros q Hq Hq'. apply Hq. by right.
    + intros []. by left.
  - intros q Hq [->|Hq']%elem_of_cons; [|by eapply Hcopies].
    assert (is_Some (keys !! rid)) as [? ?]; [|congruence].
    destruct Hidx as [Hroot _ _ _ _]. destruct o as [t|]; [|by apply not_elem_of_nil in Hq].
    destruct Hroot as (_ & Hwf & _). by eapply seps_known.
  - apply stands_cons; [apply lookup_insert_eq| |done|].
    + exists rc. split; [split; [apply lookup_insert_eq|done]|]. by eapply chain_mono.
    + eapply stands_mono; [| |exact Hst].
      * intros q Hq. rewrite lookup_insert_ne; [done|]. intros E. by destruct (Hne q Hq).
      * intros q w Hq (rcq & Hrc & Hc). exists rcq. split; [|eapply chain_mono; [apply Hpieces|exact Hc]].
        eapply has_record_eq; [|exact Hrc]. apply lookup_insert_ne. intros E. by destruct (Hne q Hq).
  - intros g' o' Hr' Hs' Hcont Hafter. cbv beta. awp_step.
    replace (n - wcost - it_ops T o) with (n - (wcost + it_ops T o)) by lia.
    replace (Rr - 24 - it_rec T o) with (Rr - (24 + it_rec T o)) by lia. eapply HΦ; [|exact Hafter|done].
    rewrite weight_insert, record_enc_length by done. lia.
Qed.

(** the operations and the bytes of the table of strings that a new key takes *)
Definition new_key_ops (o : option tree) (lk lv : nat) : Z := wcost * (chunks lk + chunks lv + 1) + it_ops T o.
Definition new_key_room (o : option tree) (lk lv : nat) : Z := string_room lk + string_room lv + it_str T o.

(** a key that is not in the map *)
Lemma set_new_rule g o Hr Hs D n Rr Rs k pad v padv (Φ : unit → ipool * jview → Prop) :
  contents L g Hr Hs D o → D !! k = None →
  string_fits (length k) → (length k <= L)%nat → string_fits (length v) →
  it_ready T g o → new_key_ops o (length k) (length v) <= n → 24 + it_rec T o <= Rr →
  new_key_room o (length k) (length v) <= Rs →
  (∀ Hr1 Hs1 g' o' Hr' Hs', weight Hr1 = weight Hr + 20 →
    weight Hs1 = weight Hs + string_bytes (length k) + string_bytes (length v) →
    it_after T g o Hr1 Hs1 g' o' Hr' Hs' → contents L g' Hr' Hs' (<[k:=v]> D) o' →
    Φ tt (g', JView Hr' Hs' (n - new_key_ops o (length k) (length v)) (Rr - (24 + it_rec T o))
      (Rs - new_key_room o (length k) (length v)))) →
  awp (set_new fuel junk_rec junk (k ++ pad) (Z.of_nat (length k)) (v ++ padv) (Z.of_nat (length v))) Φ
    (g, JView Hr Hs n Rr Rs).
Proof using HW Hwcost Hjr Hj HL HI.
  intros (fl & keys & O & [Hidx Hrecs Hcopies] & Hst) HDk Hfk Hlk Hfv Hready Hn HRr HRs HΦ. unfold new_key_ops, new_key_room in *.
  pose proof (inserter_ops o) as I1. pose proof (inserter_rec o) as I2. pose proof (inserter_str o) as I3.
  pose proof (chunks_nonneg (length k)) as C1. pose proof (chunks_nonneg (length v)) as C2.
  pose proof (string_room_nonneg (length k)) as S1. pose proof (string_room_nonneg (length v)) as S2.
  unfold set_new. awp_step. apply awp_world, (awp_write_str fuel wcost) with (n - wcost * chunks (length k)) (Rs - string_room (length k)); [nia|].
  eapply (write_string_spec fuel wcost Hwcost); [done|done|lia|nia|]. intros krid Fk Hdk Hck Hwk Hokk.
  split; [cbn [w_left w_room]; lia|]. cbn [w_heap].
  awp_step. apply awp_world, (awp_write_str fuel wcost) with (n - wcost * chunks (length k) - wcost * chunks (length v))
    (Rs - string_room (length k) - string_room (length v)); [nia|].
  eapply (write_string_spec fuel wcost Hwcost); [done|done|lia|nia|]. intros vrid Fv Hdv Hcv Hwv Hokv.
  split; [cbn [w_left w_room]; lia|]. cbn [w_heap].
  destruct (proj1 (map_disjoint_union_r _ _ _) Hdv) as [Hvk Hvs].
  eapply (add_row_spec g keys o fl O Hr Hs D _ _ _ k v (mkRecord krid vrid) Fk Fv);
    [done|done|done|done|done|by apply rid_dec_enc|by apply rid_dec_enc|done|done|done| | |done| | | |done|nia|lia|lia|].
  - etrans; [apply map_union_subseteq_l|]. by apply map_union_subseteq_r.
  - apply map_union_subseteq_l.
  - etrans; [|by apply map_union_subseteq_r]. by apply map_union_subseteq_r.
  - intros o'. eapply map_disjoint_weaken_r; [exact Hdk|apply piece_sub].
  - intros o'. eapply map_disjoint_weaken_r; [exact Hvs|apply piece_sub].
  - intros Hr1 g' o' Hr' Hs' Hw1 Hafter Hcont.
    match goal with |- Φ tt (_, JView _ _ ?n1 ?R1 ?R2) =>
      replace n1 with (n - (wcost * (chunks (length k) + chunks (length v) + 1) + it_ops T o)) by lia;
      replace R2 with (Rs - (string_room (length k) + string_room (length v) + it_str T o)) by lia end.
    eapply HΦ; [exact Hw1| |exact Hafter|exact Hcont]. rewrite !weight_union by done. lia.
Qed.
End rules.

(** *** An index of any depth *)

(** what an index may have become after a row more *)
Record index_after (g : ipool) (o : option tree) (g' : ipool) (o' : option tree) : Prop := {
  ia_depth : index_depth o' <= index_depth o + 1;
  ia_hits : i_hits g - 8 * index_depth o <= i_hits g';
  ia_len : i_len g' <= i_len g + 3 * PAGE_SIZE * index_depth o;
}.

(** the insertion of the record [rid], over tables with room for one copy *)
Lemma insert_record_spec g keys o fl O Hr Hs D n Rr Rs rid k (Φ : RID → ipool * jview → Prop) :
  index_holds (kcmp := str_cmp) g keys o fl → keys !! rid = Some k →
  records_hold (rid :: index_rows o) L O Hr Hs keys → (∀ r, r ∈ index_seps o → r ∉ rid :: index_rows o) →
  stands_for keys O Hr Hs (rid :: index_rows o) D →
  index_depth o <= Z.of_nat fuel → 8 * index_depth o <= i_hits g →
  i_len g + 3 * PAGE_SIZE * index_depth o <= MAX_LEN →
  insert_ops wcost L (index_depth o) <= n → 24 <= Rr → string_room L <= Rs →
  (∀ g' o' Hr' Hs', contents L g' Hr' Hs' D o' → index_after g o g' o' →
    Φ rid (g', JView Hr' Hs' (n - insert_ops wcost L (index_depth o)) (Rr - 24) (Rs - string_room L))) →
  awp (b_tree_insert (row_row_cmp fuel junk_rec junk) (insert_handler fuel junk_rec junk) fuel rid) Φ
    (g, JView Hr Hs n Rr Rs).
Proof using HW Hwcost Hjr Hj HL.
  intros Hidx Hk Hrecs Hcopies Hst Hf Hh HM Hn HRr HRs HΦ s [Hg Hw]. cbn [fst snd] in *.
  assert (1 <= index_depth o) as Hd by (destruct o; simpl; lia).
  assert (0 <= cmp_cost L) as Hcmp by (unfold cmp_cost; lia).
  destruct (insert_ops_split wcost L (index_depth o) Hwcost Hd) as (EI & HI & Hhc & Hhc0 & Ediv). rewrite EI in *.
  remember (insert_copy wcost L (index_depth o)) as hc eqn:Ehc. unfold insert_copy in Ehc.
  remember (compare_ops L (index_depth o)) as I eqn:EIo. unfold compare_ops in EIo.
  set (n0 := n - (I + hc)). assert (0 <= n0) as Hn0 by (unfold n0; lia).
  set (rows := rid :: index_rows o) in *.
  assert (0 <= Rr - 24) as HRr0 by lia. assert (0 <= Rs - string_room L) as HRs0 by lia.
  pose proof (writing_world fuel wcost Hwcost L rows O Hr Hs hc n0 (Rr - 24) (Rs - string_room L) Hhc) as KWi.
  pose proof (row_row_comparer fuel wcost Hwcost L rows O Hr Hs hc n0 (Rr - 24) (Rs - string_room L) Hhc junk_rec junk Hjr Hj HL Hn0 HRr0 HRs0) as HCi.
  pose proof (handler_copier fuel wcost Hwcost L rows O Hr Hs hc n0 (Rr - 24) (Rs - string_room L) Hhc junk_rec junk Hjr Hj HL Hn0 HRr0 HRs0) as HIi.
  pose proof (@b_tree_insert_spec _ _ str_cmp str_order _ KWi _ _ (cmp_cost L) hc HCi HIi Hcmp ltac:(lia)
    rid k g keys o fl fuel (I + hc)
    (λ r gw, ∃ g' keys' o' n', r = rid ∧ gw = (g', World keys' n') ∧
       index_grown (kcmp := str_cmp) (cmp_cost L) hc g keys o (I + hc) rid g' keys' o' n')
    Hidx Hk ltac:(intros q Hq; by eapply stands_unique) Hf ltac:(lia) Hh HM
    ltac:(intros g' keys' o' n' Hgr; by exists g', keys', o', n')) as Hrun.
  assert (∀ q, q ∈ rows → is_Some (keys !! q)) as Hknown.
  { intros q [->|Hq]%elem_of_cons; [by exists k|by eapply index_rows_known]. }
  eapply wp_mono; [apply Hrun; split; [exact Hg|]|].
  - exists O, Hr, Hs, Rr, Rs. cbn [snd w_ops w_keys]. split; [by replace (n0 + (I + hc)) with n by (unfold n0; lia)|].
    split; [done|]. split; [apply kept_refl|]. split; [done|]. rewrite Ediv. lia.
  - intros r s' (gw & [Hg' Hw'] & g' & keys' & o' & n' & -> & -> & Hgrown). cbn [fst snd] in *.
    destruct Hw' as (O' & Hr' & Hs' & Rr' & Rs' & Hw' & Hrecs' & Hkept & Hin' & HRr' & HRs'). cbn [w_ops w_keys] in *.
    destruct Hgrown as [[fl' Hidx'] Hsub Hrows _ Hdep Hops Hhits Hseps Hlen].
    assert (0 <= n') as Hn' by lia.
    assert (0 <= n' / hc) as Hq by (apply Z.div_pos; lia). pose proof (string_room_nonneg L).
    exists (g', JView Hr' Hs' n0 (Rr - 24) (Rs - string_room L)). split.
    + split; [exact Hg'|]. eapply (jview_weaken fuel wcost); [exact Hw'|lia|nia|nia].
    + eapply HΦ; [|by constructor]. exists fl', keys', O'. split.
      * constructor; [done| |].
        -- intros q kq Hq'. destruct (Hrecs' _ _ Hq') as (? & rc & ? & Hval). split; [done|]. exists rc.
           split; [done|]. by rewrite Hrows.
        -- intros q Hq'. rewrite Hrows. destruct (Hseps q Hq') as [Hold|Hnone]; [by apply Hcopies|].
           intros Hq2. destruct (Hknown q Hq2). congruence.
      * eapply stands_perm; [symmetry; exact Hrows|]. eapply stands_mono; [| |exact Hst].
        -- intros q Hq'. destruct (Hknown q Hq') as [kq Ekq]. rewrite Ekq. by eapply lookup_weaken.
        -- intros q v Hq' Hv. by eapply kept_value.
Qed.


Definition any_depth : index_terms := Terms
  (λ g o, index_depth o <= Z.of_nat fuel ∧ 8 * index_depth o <= i_hits g ∧ i_len g + 3 * PAGE_SIZE * index_depth o <= MAX_LEN)
  (λ o, insert_ops wcost L (index_depth o)) (λ _, 24) (λ _, string_room L)
  (λ g o _ _ g' o' _ _, index_after g o g' o').

#[export] Instance any_depth_inserter : RowInserter any_depth.
Proof using All.
  constructor; cbn [any_depth it_ready it_ops it_rec it_str it_after].
  - intros o. apply insert_ops_nonneg; [done|]. destruct o; simpl; lia.
  - lia.
  - intros _. apply string_room_nonneg.
  - intros o o' Hd. split; [|lia]. assert (0 <= cmp_cost L) by (unfold cmp_cost; lia). unfold insert_ops. nia.
  - intros g keys o fl O Hr Hs D n Rr Rs rid k Φ H1 H2 H3 H4 H5 (H6 & H7 & H8) H9 H10 H11 HΦ.
    by apply (insert_record_spec g keys o fl O Hr Hs D n Rr Rs rid k Φ).
Qed.

(** [set_new] of a key that is not in the map *)
Lemma set_new_spec g o Hr Hs D n Rr Rs k pad v padv (Φ : unit → ipool * jview → Prop) :
  contents L g Hr Hs D o → D !! k = None →
  string_fits (length k) → (length k <= L)%nat → string_fits (length v) →
  index_depth o <= Z.of_nat fuel → 8 * index_depth o <= i_hits g →
  i_len g + 3 * PAGE_SIZE * index_depth o <= MAX_LEN →
  set_ops wcost L (index_depth o) (length k) (length v) <= n → 48 <= Rr → set_room L (length k) (length v) <= Rs →
  (∀ g' o' Hr' Hs', contents L g' Hr' Hs' (<[k:=v]> D) o' → index_after g o g' o' →
    Φ tt (g', JView Hr' Hs' (n - set_ops wcost L (index_depth o) (length k) (length v)) (Rr - 48)
      (Rs - set_room L (length k) (length v)))) →
  awp (set_new fuel junk_rec junk (k ++ pad) (Z.of_nat (length k)) (v ++ padv) (Z.of_nat (length v))) Φ
    (g, JView Hr Hs n Rr Rs).
Proof using All.
  intros Hc HD Hfk Hlk Hfv Hf Hh HM Hn HRr HRs HΦ.
  apply (set_new_rule any_depth g o Hr Hs D); [done..| |done|done|done|].
  - by split_and!.
  - intros Hr1 Hs1 g' o' Hr' Hs' _ _ Hafter Hcont. by eapply HΦ.
Qed.
End set.
