(* ===== verification/MyjqlDel.v ===== *)
(** Removing a key, and storing a new value under a key: the record leaves the
    index, its strings and the record itself are freed, and everything else
    stays.  What the index does is behind an interface, [RowRemover], as that
    of an insertion is behind [RowInserter]. *)
From stdpp Require Import base gmap list fin_maps.
From Stdlib Require Import ZArith Lia Strings.Byte.
From S2P Require Import Prelude FileIO BufferPool PoolLogic PoolClient Table HeapStore HeapWrite Str StrSpec StrWrite StrDelete.
From S2P Require Import BTree NodeSpec TreeSpec TreeFrame BTreeSearch TreeInsert TreeDelete BTreeInsert BTreeDelete.
From S2P Require Import BTreeInsertSpec BTreeDeleteSpec BTreeDeleteTree.
From S2P Require Import Myjql MyjqlGet MyjqlOwners MyjqlWrite MyjqlWorld MyjqlMap MyjqlSet.
#[local] Open Scope Z_scope.

(** ** Costs *)

(** the operations of taking a record out of an index of [d] levels; it may copy
    a key on each of them *)
Definition remove_ops (wcost : Z) (L : nat) (d : Z) : Z :=
  ((4 * cmp_cost L + drop_cost wcost L) * (d + 1) + copy_cost wcost L + 1) * d.

Lemma drop_cost_nonneg wcost L : 0 <= wcost → 0 <= drop_cost wcost L.
Proof. intros H. pose proof (chunks_nonneg L). unfold drop_cost, free_cost. nia. Qed.

Lemma remove_ops_nonneg wcost L d : 0 <= wcost → 0 <= d → 0 <= remove_ops wcost L d.
Proof.
  intros H Hd. pose proof (copy_cost_nonneg wcost L H). pose proof (drop_cost_nonneg wcost L H).
  unfold remove_ops. assert (0 <= cmp_cost L) by (unfold cmp_cost; lia). nia.
Qed.

(** they pay for a copy on each level *)
Definition level_ops (wcost : Z) (L : nat) : Z := 4 * cmp_cost L + drop_cost wcost L.
Definition remove_copy (wcost : Z) (L : nat) (d : Z) : Z := level_ops wcost L * d + copy_cost wcost L + 1.
Lemma remove_ops_split wcost L d : 0 <= wcost → 1 <= d → let cc := level_ops wcost L in let hc := remove_copy wcost L d in
  remove_ops wcost L d = (cc + hc) * d ∧ 0 <= cc ∧ copy_cost wcost L <= hc ∧ 0 < hc ∧ (cc + hc) * d / hc = d.
Proof.
  intros Hw Hd cc hc. pose proof (copy_cost_nonneg wcost L Hw). pose proof (drop_cost_nonneg wcost L Hw).
  assert (0 <= cc) by (unfold cc, level_ops, cmp_cost; lia). assert (0 <= cc * d) by nia.
  assert (hc = cc * d + copy_cost wcost L + 1) as E by done. split; [unfold remove_ops; rewrite E; unfold cc, level_ops; lia|].
  split; [done|]. split; [lia|]. split; [lia|]. symmetry. apply (Z.div_unique _ _ _ (cc * d)); lia.
Qed.

(** the operations of removing a key of [lk] characters with a value of [lv]
    from an index of depth [d], and those of replacing the value by one of [lw] *)
Definition del_ops (wcost : Z) (L : nat) (d : Z) (lk lv : nat) : Z :=
  remove_ops wcost L (d - 1) + 1 + free_cost wcost lk + free_cost wcost lv + wcost.
Definition replace_ops (wcost : Z) (L : nat) (d : Z) (lv lw : nat) : Z :=
  1 + free_cost wcost lv + wcost * chunks lw + remove_ops wcost L (d - 1) + 2 * wcost + insert_ops wcost L d.
(** the bytes of the table of strings it takes *)
Definition replace_room (L : nat) (d : Z) (lw : nat) : Z := string_room lw + string_room L * d.

Lemma free_cost_nonneg wcost n : 0 <= wcost → 0 <= free_cost wcost n.
Proof. intros H. pose proof (chunks_nonneg n). unfold free_cost. nia. Qed.

(** ** A record leaves the index *)

Section del.
Context {RV : Rep Table wview} (fuel : nat) (wcost : Z) {HW : HeapWriter fuel wcost}.
Context (Hwcost : 0 <= wcost).
Context (junk_rec junk : list byte) (Hjr : length junk_rec = 20%nat) (Hj : length junk = 32%nat).
Context (L : nat) (HL : (L < fuel)%nat).

(** the accesses an index has left, and its size *)
Record index_less (g : ipool) (o : option tree) (g' : ipool) (o' : option tree) : Prop := {
  il_depth : index_depth o' <= index_depth o;
  il_hits : i_hits g - (6 * index_depth o + 1) <= i_hits g';
  il_len : i_len g' = i_len g;
}.

(** the index without the row [rid], whose record and strings are still there *)
Record removed (g : ipool) (keys : gmap RID (list byte)) (o : option tree) (O : owners) (Hr Hs : rheap) (rid : RID)
    (g' : ipool) (fl' : list Z) (keys' : gmap RID (list byte)) (o' : option tree) (O' : owners) (Hr' Hs' : rheap) : Prop := {
  rm_index : index_holds (kcmp := str_cmp) g' keys' o' fl';
  rm_rows : index_rows o ≡ₚ rid :: index_rows o';
  rm_copies : ∀ r, r ∈ index_seps o' → r ∉ index_rows o;
  rm_records : records_hold (index_rows o) L O' Hr' Hs' keys';
  rm_kept : kept (index_rows o) O Hr Hs O' Hr' Hs';
  rm_keys : ∀ r, r ∈ index_rows o → keys' !! r = keys !! r;
  rm_less : index_less g o g' o';
}.

#[local] Arguments rm_index {_ _ _ _ _ _ _ _ _ _ _ _ _ _} _.
#[local] Arguments rm_rows {_ _ _ _ _ _ _ _ _ _ _ _ _ _} _.
#[local] Arguments rm_copies {_ _ _ _ _ _ _ _ _ _ _ _ _ _} _.
#[local] Arguments rm_records {_ _ _ _ _ _ _ _ _ _ _ _ _ _} _.
#[local] Arguments rm_kept {_ _ _ _ _ _ _ _ _ _ _ _ _ _} _.
#[local] Arguments rm_keys {_ _ _ _ _ _ _ _ _ _ _ _ _ _} _.
#[local] Arguments rm_less {_ _ _ _ _ _ _ _ _ _ _ _ _ _} _.

(** the record [rid] leaves the index *)
Class RowRemover (T : index_terms) : Prop := {
  remover_ops : ∀ o, 0 <= it_ops T o;
  remover_rec : ∀ o, 0 <= it_rec T o;
  remover_str : ∀ o, 0 <= it_str T o;
  remover_runs : ∀ g o fl keys O Hr Hs n Rr Rs rid k (Φ : unit → ipool * jview → Prop),
    holding L g o fl keys O Hr Hs → rid ∈ index_rows o → keys !! rid = Some k → it_ready T g o →
    it_ops T o <= n → it_rec T o <= Rr → it_str T o <= Rs →
    (∀ g' fl' keys' o' O' Hr' Hs', removed g keys o O Hr Hs rid g' fl' keys' o' O' Hr' Hs' →
      it_after T g o Hr Hs g' o' Hr' Hs' →
      Φ tt (g', JView Hr' Hs' (n - it_ops T o) (Rr - it_rec T o) (Rs - it_str T o))) →
    awp (b_tree_delete (row_row_cmp fuel junk_rec junk) (insert_handler fuel junk_rec junk)
           (delete_handler fuel junk_rec junk) fuel rid) Φ (g, JView Hr Hs n Rr Rs);
}.

(** *** The row and the rest *)

Section row.
Context (g : ipool) (o : option tree) (fl : list Z) (keys : gmap RID (list byte)) (O : owners) (Hr Hs : rheap) (rid : RID) (k : list byte) (es : list RID).
Context (Hh : holding L g o fl keys O Hr Hs) (Hk : keys !! rid = Some k) (Hes : index_rows o ≡ₚ rid :: es).
Context (D : contents_map) (Hst : stands_for keys O Hr Hs es D) (HDk : D !! k = None).

(** the other rows have other identifiers *)
Lemma other_rows q : q ∈ es → q ≠ rid.
Proof using Hk Hst HDk. intros Hq E. rewrite E in Hq. by eapply stands_absent. Qed.

Context (g' : ipool) (fl' : list Z) (keys' : gmap RID (list byte)) (o' : option tree) (O1 O' : owners) (Hs1 Hr' Hs' : rheap).
Context (Hrm : removed g keys o O1 Hr Hs1 rid g' fl' keys' o' O' Hr' Hs').

Lemma removed_rows : index_rows o' ≡ₚ es.
Proof using Hes Hrm. apply (Permutation_cons_inv (a := rid)). by rewrite <- Hes, (rm_rows Hrm). Qed.

Lemma removed_index : index_holds (kcmp := str_cmp) g' (delete rid keys') o' fl'.
Proof using Hes Hrm Hk Hst HDk.
  eapply index_holds_agree; [| |exact (rm_index Hrm)]; intros q Hq; apply lookup_delete_ne.
  - intros E. rewrite removed_rows in Hq. apply other_rows in Hq. congruence.
  - intros E. apply (rm_copies Hrm _ Hq). rewrite Hes, E. by left.
Qed.

Lemma removed_copies : ∀ r, r ∈ index_seps o' → r ∉ index_rows o'.
Proof using Hes Hrm.
  intros r Hr1 Hr2. apply (rm_copies Hrm _ Hr1). rewrite Hes. right. by rewrite <- removed_rows.
Qed.

(** the records without [rid], over strings that the others still have *)
Lemma removed_records Hs2 : (∀ q, q ≠ rid → piece O' (KeyOf q) Hs' ⊆ piece O' (KeyOf q) Hs2) →
  records_hold (index_rows o') L O' (delete rid Hr') Hs2 (delete rid keys').
Proof using Hes Hrm.
  intros Hq. eapply records_delete; [exact (rm_records Hrm)|exact Hq|].
  intros q Hne Hin Hq2. apply Hin. rewrite removed_rows. rewrite Hes in Hq2. by apply elem_of_cons in Hq2 as [?|?].
Qed.

Lemma removed_stands Hs2 : (∀ r v, r ∈ es → value_at O Hr Hs r v → value_at O1 Hr Hs1 r v) →
  (∀ q, q ≠ rid → piece O' (ValueOf q) Hs' ⊆ piece O' (ValueOf q) Hs2) →
  stands_for (delete rid keys') O' (delete rid Hr') Hs2 (index_rows o') D.
Proof using Hes Hrm Hk Hst HDk.
  intros Hv1 Hq. eapply stands_perm; [symmetry; apply removed_rows|]. eapply stands_mono; [| |exact Hst].
  - intros q Hq1. pose proof (other_rows _ Hq1). rewrite lookup_delete_ne by congruence.
    apply (rm_keys Hrm). rewrite Hes. by right.
  - intros q v Hq1 Hv. pose proof (other_rows _ Hq1) as Hne.
    eapply value_at_mono; [apply lookup_delete_ne; congruence|by apply Hq|].
    eapply kept_value; [exact (rm_kept Hrm)|rewrite Hes; by right|by apply Hv1].
Qed.
End row.

(** *** Removing *)

Section rules.
Context (R : index_terms) {HRm : RowRemover R}.

(** the operations of removing a key of [lk] characters with a value of [lv] *)
Definition del_key_ops (o : option tree) (lk lv : nat) : Z :=
  it_ops R o + 1 + free_cost wcost lk + free_cost wcost lv + wcost.

Lemma del_found_rule g o fl keys O Hr Hs D n Rr Rs rid k v (Φ : unit → ipool * jview → Prop) :
  holding L g o fl keys O Hr Hs → stands_for keys O Hr Hs (index_rows o) D →
  rid ∈ index_rows o → keys !! rid = Some k → D !! k = Some v → (length v < fuel)%nat →
  it_ready R g o → del_key_ops o (length k) (length v) <= n → it_rec R o <= Rr → it_str R o <= Rs →
  (∀ Hr1 Hs1 g' o' Hr' Hs', it_after R g o Hr Hs g' o' Hr1 Hs1 → index_less g o g' o' →
    weight Hr' = weight Hr1 - 20 → weight Hs' = weight Hs1 - string_bytes (length k) - string_bytes (length v) →
    contents L g' Hr' Hs' (delete k D) o' →
    Φ tt (g', JView Hr' Hs' (n - del_key_ops o (length k) (length v)) (Rr - it_rec R o) (Rs - it_str R o))) →
  awp (del_found fuel junk_rec junk rid) Φ (g, JView Hr Hs n Rr Rs).
Proof using HW Hwcost Hjr Hj HL HRm.
  intros Hhold Hst Hrid Hk HDk Hlv Hready Hn HRr HRs HΦ. unfold del_key_ops in *.
  pose proof (remover_ops o) as I1.
  pose proof (free_cost_nonneg wcost (length k) Hwcost) as C1. pose proof (free_cost_nonneg wcost (length v) Hwcost) as C2.
  pose proof Hrid as [es Hes]%elem_of_Permutation.
  destruct (stands_uncons _ _ _ _ _ _ _ _ Hk (stands_perm _ _ _ _ _ _ _ Hes Hst)) as (v' & Hv & HDv & Hst').
  assert (v' = v) as -> by congruence. pose proof (lookup_delete_eq D k) as HDk'.
  unfold del_found. awp_step. eapply (remover_runs g o fl keys O Hr Hs _ _ _ rid k); [done|done|done|done|lia|done|done|].
  intros g' fl' keys' o' O' Hr' Hs' Hrm Hafter. cbv beta.
  destruct (rm_records Hrm rid k) as (HLk & rc & [Hrc Hck] & _).
  { by rewrite (rm_keys Hrm). }
  destruct (kept_value _ _ _ _ _ _ _ (rm_kept Hrm) _ _ Hrid Hv) as (rc' & Hrc' & Hcv).
  rewrite (has_record_det _ _ _ _ Hrc' Hrc) in Hcv. clear rc' Hrc'.
  awp_step. apply awp_world. eapply (get_record_spec fuel wcost junk_rec Hjr); [exact Hrc|lia|]. cbv beta.
  awp_step. apply awp_world. eapply (free_string_spec fuel wcost junk Hj); [exact Hck|apply piece_sub|lia|done|lia|]. intros Hs1 Hsh1 Hw1. cbv beta.
  assert (piece O' (ValueOf rid) Hs' ⊆ piece O' (ValueOf rid) Hs1) as Hval by (by eapply piece_freed).
  awp_step. apply awp_world. eapply (free_string_spec fuel wcost junk Hj (piece O' (ValueOf rid) Hs1));
    [by eapply chain_mono|apply piece_sub|done|done|lia|]. intros Hs2 Hsh2 Hw2. cbv beta.
  assert (∀ q, q ≠ rid → piece O' (KeyOf q) Hs' ⊆ piece O' (KeyOf q) Hs2 ∧ piece O' (ValueOf q) Hs' ⊆ piece O' (ValueOf q) Hs2) as Hothers.
  { intros q Hq. split; (etrans; [eapply piece_freed; [exact Hsh1|congruence]|eapply piece_freed; [exact Hsh2|congruence]]). }
  apply awp_world. eapply (delete_record_spec fuel wcost); [exact Hrc|lia|done|].
  match goal with |- Φ tt (_, JView _ _ ?n1 _ _) => replace n1 with
    (n - (it_ops R o + 1 + free_cost wcost (length k) + free_cost wcost (length v) + wcost)) by lia end.
  eapply HΦ; [exact Hafter|exact (rm_less Hrm)| |lia|].
  { destruct Hrc as [Hat _]. rewrite (weight_delete _ _ _ Hat), record_enc_length. lia. }
  exists fl', (delete rid keys'), O'. split; [constructor|].
  - by eapply removed_index.
  - eapply removed_records; [exact Hes|exact Hrm|]. intros q Hq. by apply Hothers.
  - by eapply removed_copies.
  - eapply removed_stands; [exact Hk|exact Hes|exact Hst'|done|exact Hrm|done|]. intros q Hq. by apply Hothers.
Qed.

(** *** Replacing a value *)

Context (T : index_terms) {HIn : RowInserter fuel junk_rec junk L T}.
Context (regain : Z → Z → Z) {HG : HeapRegains regain}.

(** the operations of replacing a value of [lv] characters by one of [lw], and
    the bytes of the table of strings; freeing the old value may leave more
    bytes than there were *)
Definition old_key_ops (o : option tree) (lv lw : nat) : Z :=
  1 + free_cost wcost lv + wcost * chunks lw + it_ops R o + 2 * wcost + it_ops T o.
Definition old_key_room (o : option tree) (lw : nat) : Z := string_room lw + it_str R o + it_str T o.
Definition freed_room (Hs : rheap) (Rs : Z) (lv : nat) : Z := regain (weight Hs - string_bytes lv) Rs.

Lemma set_old_rule g o fl keys O Hr Hs D n Rr Rs rid k v w padw (Φ : unit → ipool * jview → Prop) :
  holding L g o fl keys O Hr Hs → stands_for keys O Hr Hs (index_rows o) D →
  rid ∈ index_rows o → keys !! rid = Some k → D !! k = Some v → (length v < fuel)%nat → string_fits (length w) →
  it_ready R g o →
  (∀ Hs1 O1 g' fl' keys' o' O' Hr' Hs', removed g keys o O1 Hr Hs1 rid g' fl' keys' o' O' Hr' Hs' →
    it_after R g o Hr Hs1 g' o' Hr' Hs' → it_ready T g' o') →
  old_key_ops o (length v) (length w) <= n → it_rec R o + 24 + it_rec T o <= Rr →
  old_key_room o (length w) <= freed_room Hs Rs (length v) →
  (∀ Hs1 g1 o1 Hr1 Hs2 Hr2 g' o' Hr' Hs' n' Rr' Rs',
    weight Hs1 = weight Hs - string_bytes (length v) + string_bytes (length w) →
    it_after R g o Hr Hs1 g1 o1 Hr1 Hs2 → index_less g o g1 o1 → weight Hr2 = weight Hr1 →
    it_after T g1 o1 Hr2 Hs2 g' o' Hr' Hs' → contents L g' Hr' Hs' (<[k:=w]> D) o' →
    n - old_key_ops o (length v) (length w) <= n' → Rr - (it_rec R o + 24 + it_rec T o) <= Rr' →
    freed_room Hs Rs (length v) - old_key_room o (length w) <= Rs' →
    Φ tt (g', JView Hr' Hs' n' Rr' Rs')) →
  awp (set_old fuel junk_rec junk rid (w ++ padw) (Z.of_nat (length w))) Φ (g, JView Hr Hs n Rr Rs).
Proof using HW Hwcost Hjr Hj HL HRm HIn HG.
  intros Hhold Hst Hrid Hk HDk Hlv Hfw Hready Hnext Hn HRr HRs HΦ. unfold old_key_ops, old_key_room in *.
  pose proof (remover_ops o) as I1. pose proof (remover_rec o) as I2. pose proof (remover_str o) as I3.
  pose proof (inserter_ops (T := T) fuel junk_rec junk L o) as J1. pose proof (inserter_rec (T := T) fuel junk_rec junk L o) as J2.
  pose proof (inserter_str (T := T) fuel junk_rec junk L o) as J3.
  pose proof (free_cost_nonneg wcost (length v) Hwcost) as C1. pose proof (chunks_nonneg (length w)) as C2.
  pose proof (string_room_nonneg (length w)) as S2. pose proof Hrid as [es Hes]%elem_of_Permutation. pose proof Hhold as [Hidx Hrecs Hcopies].
  destruct (stands_uncons _ _ _ _ _ _ _ _ Hk (stands_perm _ _ _ _ _ _ _ Hes Hst)) as (v' & Hv & HDv & Hst').
  assert (v' = v) as -> by congruence. pose proof (lookup_delete_eq D k) as HDk'.
  destruct Hv as (rc & Hrc & Hcv). unfold set_old.
  awp_step. apply awp_world. eapply (get_record_spec fuel wcost junk_rec Hjr); [exact Hrc|lia|]. cbv beta.
  awp_step. apply awp_world. eapply (free_string_spec fuel wcost junk Hj); [exact Hcv|apply piece_sub|done|done|lia|]. intros Hs1 Hsh1 Hw1. cbv beta.
  awp_step. apply awp_world, (awp_jview_refresh regain). rewrite Hw1. fold (freed_room Hs Rs (length v)). set (R1 := freed_room Hs Rs (length v)) in *.
  apply (awp_write_str fuel wcost) with (n - 1 - free_cost wcost (length v) - wcost * chunks (length w))
    (R1 - string_room (length w)); [nia|].
  eapply (write_string_spec fuel wcost Hwcost); [done|done|nia|nia|]. intros nrid F HF Hcw Hw2 Hokw.
  split; [cbn [w_left w_room]; lia|]. cbn [w_heap]. set (O1 := own (ValueOf rid) F O).
  assert (∀ o', o' ≠ ValueOf rid → piece O o' Hs ⊆ piece O1 o' (F ∪ Hs1)) as Hpieces.
  { intros o' Hne. etrans; [by eapply piece_freed|]. by apply piece_beside. }
  awp_step. eapply (remover_runs g o fl keys O1 Hr (F ∪ Hs1) _ _ _ rid k); [|done|done|done|lia|lia|lia|].
  { constructor; [done| |done]. eapply records_strings; [exact Hrecs|]. intros q. by apply Hpieces. }
  intros g' fl' keys' o' O' Hr' Hs' Hrm Hafter. cbv beta. pose proof (rm_kept Hrm) as [Kr Ks].
  assert (has_record Hr' rid rc) as Hrc' by (destruct Hrc as [Hat Hfits]; split; [by apply Kr|done]).
  destruct (rm_records Hrm rid k) as (HLk & rc2 & [Hrc2 Hck] & _).
  { by rewrite (rm_keys Hrm). }
  rewrite (has_record_det _ _ _ _ Hrc2 Hrc') in Hck. clear rc2 Hrc2.
  awp_step. apply awp_world. eapply (delete_record_spec fuel wcost); [exact Hrc'|nia|done|]. cbv beta.
  destruct (inserter_less (T := T) fuel junk_rec junk L o o' (il_depth _ _ _ _ (rm_less Hrm))) as (M1 & M2 & M3).
  eapply (add_row_spec fuel wcost Hwcost junk_rec junk Hjr Hj L HL T g' (delete rid keys') o' fl' O' _ (others O' rid Hs') (delete k D)
    _ _ _ k w (mkRecord (key rc) nrid) (piece O' (KeyOf rid) Hs') (piece O' (ValueOf rid) Hs'));
    [by eapply removed_index| |by eapply removed_copies| |done|apply Hrc|by apply rid_dec_enc|done|exact Hck| |apply piece_sub|apply piece_sub|
     by apply piece_disjoint|apply others_sub|intros; apply others_disjoint; by left|intros; apply others_disjoint; by right|
     by eapply Hnext|lia|lia|lia|].
  - eapply removed_records; [exact Hes|exact Hrm|]. intros q Hq. apply piece_others; congruence.
  - eapply removed_stands; [exact Hk|exact Hes|exact Hst'|done|exact Hrm| |intros q Hq; apply piece_others; congruence].
    intros q u Hq Hu. eapply value_at_mono; [done| |exact Hu]. apply Hpieces.
    pose proof (other_rows _ _ _ _ rid k es Hk _ Hst' HDk' q Hq). congruence.
  - cbn [value]. eapply chain_mono; [|exact Hcw]. apply map_subseteq_spec. intros x b Hx. apply piece_lookup.
    assert (O1 !! x = Some (ValueOf rid)) as HO by (by eapply own_in).
    destruct (Ks x b) as [K1 K2]; [by apply lookup_union_Some_l|intros; congruence|]. split; [done|congruence].
  - intros Hr2 g2 o2 Hr3 Hs3 Hwr Hafter2 Hcont. rewrite insert_delete_eq in Hcont.
    eapply HΦ; [|exact Hafter|exact (rm_less Hrm)| |exact Hafter2|exact Hcont|lia|lia|lia].
    + rewrite weight_union by done. lia.
    + destruct Hrc' as [Hat _]. rewrite Hwr, (weight_delete _ _ _ Hat), record_enc_length. lia.
Qed.
End rules.

(** *** An index of any depth *)

Lemma remove_entry_spec g o fl keys O Hr Hs n Rr Rs rid k (Φ : unit → ipool * jview → Prop) :
  holding L g o fl keys O Hr Hs → rid ∈ index_rows o → keys !! rid = Some k →
  index_depth o <= Z.of_nat fuel → 6 * index_depth o + 1 <= i_hits g →
  remove_ops wcost L (index_depth o - 1) <= n → 24 * (index_depth o - 1) <= Rr → string_room L * (index_depth o - 1) <= Rs →
  (∀ g' fl' keys' o' O' Hr' Hs', removed g keys o O Hr Hs rid g' fl' keys' o' O' Hr' Hs' →
    Φ tt (g', JView Hr' Hs' (n - remove_ops wcost L (index_depth o - 1)) (Rr - 24 * (index_depth o - 1))
      (Rs - string_room L * (index_depth o - 1)))) →
  awp (b_tree_delete (row_row_cmp fuel junk_rec junk) (insert_handler fuel junk_rec junk)
         (delete_handler fuel junk_rec junk) fuel rid) Φ (g, JView Hr Hs n Rr Rs).
Proof using HW Hwcost Hjr Hj HL.
  intros [Hidx Hrecs Hcopies] Hrid Hk Hf Hh Hn HRr HRs HΦ s [Hg Hw]. cbn [fst snd] in *.
  destruct o as [t|]; [|by apply not_elem_of_nil in Hrid]. cbn [index_rows index_depth index_seps] in *.
  replace (Z.of_nat (height t) + 2 - 1) with (Z.of_nat (height t) + 1) in * by lia.
  set (d := Z.of_nat (height t) + 1) in *. assert (1 <= d) as Hd by (unfold d; lia).
  assert (0 <= cmp_cost L) as Hcmp by (unfold cmp_cost; lia). pose proof (drop_cost_nonneg wcost L Hwcost) as Hdc.
  destruct (remove_ops_split wcost L d Hwcost Hd) as (EN & Hcc0 & Hhc & Hhc0 & Ediv). rewrite EN in *.
  remember (remove_copy wcost L d) as hc eqn:Ehc. clear Ehc.
  remember (level_ops wcost L) as cc eqn:Ecc. unfold level_ops in Ecc.
  set (n0 := n - (cc + hc) * d). assert (0 <= n0) as Hn0 by (unfold n0; lia).
  set (rows := elems t) in *. set (Rr0 := Rr - 24 * d). set (Rs0 := Rs - string_room L * d).
  assert (0 <= Rr0) as HRr0 by (unfold Rr0; lia). assert (0 <= Rs0) as HRs0 by (unfold Rs0; lia).
  pose proof (writing_world fuel wcost Hwcost L rows O Hr Hs hc n0 Rr0 Rs0 Hhc) as KWi.
  pose proof (row_row_comparer fuel wcost Hwcost L rows O Hr Hs hc n0 Rr0 Rs0 Hhc junk_rec junk Hjr Hj HL Hn0 HRr0 HRs0) as HCi.
  pose proof (handler_copier fuel wcost Hwcost L rows O Hr Hs hc n0 Rr0 Rs0 Hhc junk_rec junk Hjr Hj HL Hn0 HRr0 HRs0) as HIi.
  pose proof (handler_dropper fuel wcost Hwcost L rows O Hr Hs hc n0 Rr0 Rs0 Hhc junk_rec junk Hjr Hj HL Hn0 HRr0 HRs0) as HDi.
  assert (Forall (a_copy rows) (seps t)) as Hsp by (apply Forall_forall; exact Hcopies).
  assert (Forall (λ r, ¬ a_copy rows r) (elems t)) as Hrow.
  { apply Forall_forall. intros r Hr' Hnot. by apply Hnot. }
  pose proof (@b_tree_delete_spec _ _ str_cmp str_order _ KWi _ _ _ (cmp_cost L) hc (drop_cost wcost L) (a_copy rows)
    HCi HIi HDi Hcmp ltac:(lia) Hdc rid k g keys t fl fuel ((cc + hc) * d)
    (λ _ gw, ∃ g' keys' o' n', gw = (g', World keys' n') ∧
       index_shrunk (kcmp := str_cmp) (cmp_cost L) hc (drop_cost wcost L) (a_copy rows) keys t fl (i_len g) ((cc + hc) * d) (i_hits g) rid g' keys' o' n')
    Hidx Hk Hrid Hsp Hrow ltac:(unfold d in *; lia) ltac:(fold d; lia) ltac:(fold d; lia)
    ltac:(intros g' keys' o' n' Hsh; by exists g', keys', o', n')) as Hrun.
  eapply wp_mono; [apply Hrun; split; [exact Hg|]|].
  - exists O, Hr, Hs, Rr, Rs. cbn [snd w_ops w_keys]. split; [by replace (n0 + (cc + hc) * d) with n by (unfold n0; lia)|].
    split; [done|]. split; [apply kept_refl|]. split; [|rewrite Ediv; unfold Rr0, Rs0; lia].
    intros r Hr'. by apply (index_rows_known g keys (Some t) fl).
  - intros [] s' (gw & [Hg' Hw'] & g' & keys' & o' & n' & -> & Hshrunk). cbn [fst snd] in *.
    destruct Hw' as (O' & Hr' & Hs' & Rr' & Rs' & Hw' & Hrecs' & Hkept & Hin' & HRr' & HRs'). cbn [w_ops w_keys] in *.
    destruct Hshrunk as [(fl' & Hidx' & _) Hkeys Hrows Hdep Hseps Hops Hhits Hlen]. fold d in Hops, Hhits.
    assert (0 <= n') as Hn' by lia.
    assert (0 <= n' / hc) as Hq by (apply Z.div_pos; lia). pose proof (string_room_nonneg L).
    exists (g', JView Hr' Hs' n0 Rr0 Rs0). split.
    + split; [exact Hg'|]. eapply (jview_weaken fuel wcost); [exact Hw'|lia|nia|nia].
    + apply (HΦ g' fl' keys' o' O' Hr' Hs'). constructor; cbn [index_rows index_depth]; try done.
      * intros r Hr1. destruct o' as [t'|]; [|by apply not_elem_of_nil in Hr1].
        pose proof (Hseps t' eq_refl) as Hall. rewrite Forall_forall in Hall. by apply Hall.
      * intros r Hr1. apply Hkeys; [intros Hr2; by apply (Hcopies r)|].
        by apply (index_rows_known g keys (Some t) fl).
      * cbn [index_depth] in Hdep. constructor; cbn [index_depth]; unfold d in *; lia.
Qed.

(** the insertion's terms in [MyjqlSet] are for the same index *)
Definition any_depth_less : index_terms := Terms
  (λ g o, index_depth o <= Z.of_nat fuel ∧ 6 * index_depth o + 1 <= i_hits g)
  (λ o, remove_ops wcost L (index_depth o - 1)) (λ o, 24 * (index_depth o - 1)) (λ o, string_room L * (index_depth o - 1))
  (λ _ _ _ _ _ _ _ _, True).

#[export] Instance any_depth_remover : RowRemover any_depth_less.
Proof using All.
  assert (∀ o, 0 <= index_depth o - 1) as Hd by (intros []; simpl; lia).
  constructor; cbn [any_depth_less it_ready it_ops it_rec it_str it_after].
  - intros o. by apply remove_ops_nonneg.
  - intros o. specialize (Hd o). lia.
  - intros o. specialize (Hd o). pose proof (string_room_nonneg L). nia.
  - intros g o fl keys O Hr Hs n Rr Rs rid k Φ H1 H2 H3 (H4 & H5) H6 H7 H8 HΦ.
    eapply remove_entry_spec; try done. intros g' fl' keys' o' O' Hr' Hs' Hrm. by eapply HΦ.
Qed.

Lemma del_found_spec g o fl keys O Hr Hs D n Rr Rs rid k v (Φ : unit → ipool * jview → Prop) :
  holding L g o fl keys O Hr Hs → stands_for keys O Hr Hs (index_rows o) D →
  rid ∈ index_rows o → keys !! rid = Some k → D !! k = Some v → (length v < fuel)%nat →
  index_depth o <= Z.of_nat fuel → 6 * index_depth o + 1 <= i_hits g →
  del_ops wcost L (index_depth o) (length k) (length v) <= n →
  24 * (index_depth o - 1) <= Rr → string_room L * (index_depth o - 1) <= Rs →
  (∀ g' o' Hr' Hs', contents L g' Hr' Hs' (delete k D) o' → index_depth o' <= index_depth o →
    i_hits g - (6 * index_depth o + 1) <= i_hits g' → i_len g' = i_len g →
    Φ tt (g', JView Hr' Hs' (n - del_ops wcost L (index_depth o) (length k) (length v))
      (Rr - 24 * (index_depth o - 1)) (Rs - string_room L * (index_depth o - 1)))) →
  awp (del_found fuel junk_rec junk rid) Φ (g, JView Hr Hs n Rr Rs).
Proof using All.
  intros Hhold Hst Hrid Hk HDk Hlv Hf Hh Hn HRr HRs HΦ.
  eapply (del_found_rule any_depth_less); try done. intros Hr1 Hs1 g' o' Hr' Hs' _ [] _ _ Hc. by eapply HΦ.
Qed.

Lemma set_old_spec g o fl keys O Hr Hs D n Rr Rs rid k v w padw (Φ : unit → ipool * jview → Prop) :
  holding L g o fl keys O Hr Hs → stands_for keys O Hr Hs (index_rows o) D →
  rid ∈ index_rows o → keys !! rid = Some k → D !! k = Some v → (length v < fuel)%nat → string_fits (length w) →
  index_depth o <= Z.of_nat fuel → 14 * index_depth o + 1 <= i_hits g →
  i_len g + 3 * PAGE_SIZE * index_depth o <= MAX_LEN →
  replace_ops wcost L (index_depth o) (length v) (length w) <= n →
  24 * index_depth o + 24 <= Rr → replace_room L (index_depth o) (length w) <= Rs →
  (∀ g' o' Hr' Hs' n' Rr' Rs', contents L g' Hr' Hs' (<[k:=w]> D) o' → index_depth o' <= index_depth o + 1 →
    i_hits g - (14 * index_depth o + 1) <= i_hits g' → i_len g' <= i_len g + 3 * PAGE_SIZE * index_depth o →
    n - replace_ops wcost L (index_depth o) (length v) (length w) <= n' →
    Rr - (24 * index_depth o + 24) <= Rr' → Rs - replace_room L (index_depth o) (length w) <= Rs' →
    Φ tt (g', JView Hr' Hs' n' Rr' Rs')) →
  awp (set_old fuel junk_rec junk rid (w ++ padw) (Z.of_nat (length w))) Φ (g, JView Hr Hs n Rr Rs).
Proof using All.
  intros Hhold Hst Hrid Hk HDk Hlv Hfw Hf Hh HM Hn HRr HRs HΦ. pose proof (row_depth _ _ Hrid) as Hd.
  assert (replace_room L (index_depth o) (length w) = old_key_room any_depth_less (any_depth fuel wcost L) o (length w)) as ER.
  { unfold replace_room, old_key_room. cbn [any_depth any_depth_less it_str]. lia. }
  pose proof (any_depth_inserter fuel wcost Hwcost junk_rec junk Hjr Hj L HL) as HIn.
  apply (set_old_rule any_depth_less (any_depth fuel wcost L) no_regain g o fl keys O Hr Hs D n Rr Rs rid k v w padw); try done.
  - split; [done|lia].
  - intros Hs1 O1 g' fl' keys' o' O' Hr' Hs' [_ _ _ _ _ _ []] _. cbn [any_depth it_ready].
    unfold PAGE_SIZE in *. lia.
  - cbn [any_depth any_depth_less it_rec]. lia.
  - unfold freed_room, no_regain. lia.
  - intros Hs1 g1 o1 Hr1 Hs2 Hr2 g' o' Hr' Hs' n' Rr' Rs' _ _ [] _ [] Hc Hn' HRr' HRs'.
    cbn [any_depth any_depth_less it_rec it_after] in *. unfold freed_room, no_regain in HRs'.
    eapply HΦ; [exact Hc|lia|lia|unfold PAGE_SIZE in *; lia|exact Hn'|lia|lia].
Qed.
End del.
