(* ===== verification/MyjqlLeaf.v ===== *)
(** An index of a single leaf over the two tables: while its rows fit the leaf,
    an insertion and a removal read the tables and write nothing to them.  The
    terms here implement the interfaces [RowInserter] and [RowRemover]. *)
From stdpp Require Import base gmap list fin_maps.
From Stdlib Require Import ZArith Lia Strings.Byte.
From S2P Require Import Prelude FileIO BufferPool PoolLogic PoolClient Table HeapStore HeapWrite Str StrSpec StrWrite.
From S2P Require Import BTree NodeSpec TreeSpec TreeFrame BTreeSearch TreeInsert TreeDelete BTreeInsert BTreeInsertSpec BTreeDelete BTreeLeaf.
From S2P Require Import Myjql MyjqlGet MyjqlOwners MyjqlWrite MyjqlWorld MyjqlMap MyjqlSet MyjqlDel.
#[local] Open Scope Z_scope.

(** ** Tables that are only read *)

Section world.
Context {RV : Rep Table wview} (fuel : nat) (wcost : Z) {HW : HeapWriter fuel wcost}.
Context (L : nat) (Hr Hs : rheap) (n0 Rr Rs : Z) (Hn0 : 0 <= n0).

(** the keys of the records of two heaps that stay as they are; [n0]
    operations are left afterwards *)
#[local] Instance comparing : Rep Tables (world (list byte)) := λ w g,
  rep w (JView Hr Hs (n0 + w_ops g) Rr Rs) ∧
  ∀ r k, w_keys g !! r = Some k → has_key Hr Hs r k ∧ (length k <= L)%nat.

#[export] Instance comparing_world : KeyWorld (list byte) Tables.
Proof using HW.
  clear Hn0. constructor.
  - intros w keys n n' [Hw Hk] Hn. split; [|done]. cbn [w_ops] in *. eapply (jview_weaken fuel wcost); [exact Hw|lia|lia|lia].
  - intros w keys n r k [[Hw _] Hk] Hr'. destruct (Hk _ _ Hr') as [(rc & [Hat _] & _) _].
    exact (@heap_rids _ (write_reader Rr) _ Hr _ _ _ Hw Hat).
Qed.

#[export] Instance comparing_rows junk_rec junk (Hjr : length junk_rec = 20%nat) (Hj : length junk = 32%nat) (HL : (L < fuel)%nat) :
  RowComparer str_cmp (row_row_cmp fuel junk_rec junk) (cmp_cost L).
Proof using HW Hn0.
  intros keys r1 k1 r2 k2 n Φ H1 H2 Hn HΦ w [Hw Hk]. unfold cmp_cost in *. cbn [w_ops w_keys] in *.
  destruct (Hk _ _ H1) as [K1 L1], (Hk _ _ H2) as [K2 _].
  eapply wp_mono.
  - eapply (row_row_cmp_spec fuel wcost junk_rec junk Hjr Hj Hr Hs (n0 + n) Rr Rs r1 k1 r2 k2
      (λ c v, c = str_cmp k1 k2 ∧ v = JView Hr Hs (n0 + n - (2 * Z.of_nat (length k1) + 4)) Rr Rs)); [done|done|lia|lia|done|exact Hw].
  - intros c w' (v & Hw' & -> & ->). eexists. split; [|exact HΦ]. split; [|exact Hk]. cbn [w_ops].
    eapply (jview_weaken fuel wcost); [exact Hw'|lia|lia|lia].
Qed.
End world.

(** ** The index of one leaf *)

Section leaf.
Context {RV : Rep Table wview} (fuel : nat) (wcost : Z) {HW : HeapWriter fuel wcost}.
Context (Hwcost : 0 <= wcost).
Context (junk_rec junk : list byte) (Hjr : length junk_rec = 20%nat) (Hj : length junk = 32%nat).
Context (L : nat) (HL : (L < fuel)%nat).

(** the accesses, and the heaps, after either operation *)
Record leaf_after (bytes : Z) (g : ipool) (o : option tree) (Hr Hs : rheap) (g' : ipool) (o' : option tree) (Hr' Hs' : rheap) : Prop := {
  la_leaf : leaf_only o';
  la_rec : Hr' = Hr;
  la_str : Hs' = Hs;
  la_hits : i_hits g - 3 <= i_hits g';
  la_len : i_len g' <= i_len g + bytes;
}.

Definition leaf_ops : Z := 4 * cmp_cost L.

Definition leaf_insert : index_terms := Terms
  (λ g o, leaf_only o ∧ (length (index_rows o) < 4)%nat ∧ 4 <= i_hits g ∧ i_len g + PAGE_SIZE <= MAX_LEN)
  (λ _, leaf_ops) (λ _, 0) (λ _, 0) (leaf_after PAGE_SIZE).

Definition leaf_remove : index_terms := Terms
  (λ g o, leaf_only o ∧ 4 <= i_hits g) (λ _, leaf_ops) (λ _, 0) (λ _, 0) (leaf_after 0).

#[export] Instance leaf_inserter : RowInserter fuel junk_rec junk L leaf_insert.
Proof using HW Hjr Hj HL.
  constructor; cbn [leaf_insert it_ready it_ops it_rec it_str it_after].
  - intros _. unfold leaf_ops, cmp_cost. lia.
  - lia.
  - lia.
  - intros o o' _. lia.
  - intros g keys o fl O Hr Hs D n Rr Rs rid k Φ Hidx Hk Hrecs Hcopies Hst (Hleaf & Hlen & Hh & HM) Hn _ _ HΦ s [Hg Hw].
    set (n0 := n - leaf_ops). assert (0 <= n0) as Hn0 by (unfold n0; lia).
    pose proof (comparing_world fuel wcost L Hr Hs n0 Rr Rs) as KWi.
    pose proof (comparing_rows fuel wcost L Hr Hs n0 Rr Rs Hn0 junk_rec junk Hjr Hj HL) as HCi.
    pose proof (@b_tree_insert_leaf_spec _ _ str_cmp str_order _ KWi _ (insert_handler fuel junk_rec junk) (cmp_cost L) HCi
      ltac:(unfold cmp_cost; lia) rid k g keys o fl fuel leaf_ops
      (λ r gw, ∃ g' o', r = rid ∧ gw = (g', World keys 0) ∧
         leaf_grown (kcmp := str_cmp) keys rid (index_rows o) (i_len g + PAGE_SIZE) (i_hits g - 3) g' o')
      Hidx Hleaf Hlen Hk ltac:(intros q Hq; by eapply stands_unique) ltac:(lia) ltac:(unfold leaf_ops; lia) Hh HM
      ltac:(intros g' o' Hgr; exists g', o'; split; [done|split; [do 2 f_equal; unfold leaf_ops; lia|done]])) as Hrun.
    eapply wp_mono; [apply Hrun; split; [exact Hg|]|].
    + split; [cbn [snd w_ops]; by replace (n0 + leaf_ops) with n by (unfold n0; lia)|].
      intros r k' Hr'. split; [by eapply records_has|]. by apply Hrecs in Hr' as [? _].
    + intros r s' (gw & [Hg' [Hw' _]] & g' & o' & -> & -> & [[fl' Hidx'] Hl' Hrows Hlen' Hhits]).
      cbn [fst snd w_ops] in *. rewrite Z.add_0_r in Hw'.
      exists (g', JView Hr Hs n0 (Rr - 0) (Rs - 0)). rewrite !Z.sub_0_r in HΦ |- *. split; [by split|].
      eapply HΦ; [|by constructor]. exists fl', keys, O. split; [|by eapply stands_perm].
      constructor; [done| |].
      * intros q kq Hq. destruct (Hrecs _ _ Hq) as (? & rc & ? & Hval). split; [done|]. exists rc.
        split; [done|]. by rewrite Hrows.
      * intros q Hq. by destruct o' as [[]|]; [apply not_elem_of_nil in Hq| |apply not_elem_of_nil in Hq].
Qed.

#[export] Instance leaf_remover : RowRemover fuel junk_rec junk L leaf_remove.
Proof using HW Hjr Hj HL.
  constructor; cbn [leaf_remove it_ready it_ops it_rec it_str it_after].
  - intros _. unfold leaf_ops, cmp_cost. lia.
  - lia.
  - lia.
  - intros g o fl keys O Hr Hs n Rr Rs rid k Φ [Hidx Hrecs Hcopies] Hrid Hk (Hleaf & Hh) Hn _ _ HΦ s [Hg Hw].
    set (n0 := n - leaf_ops). assert (0 <= n0) as Hn0 by (unfold n0; lia).
    pose proof (comparing_world fuel wcost L Hr Hs n0 Rr Rs) as KWi.
    pose proof (comparing_rows fuel wcost L Hr Hs n0 Rr Rs Hn0 junk_rec junk Hjr Hj HL) as HCi.
    pose proof (@b_tree_delete_leaf_spec _ _ str_cmp str_order _ KWi _ (insert_handler fuel junk_rec junk) (delete_handler fuel junk_rec junk) (cmp_cost L) HCi
      ltac:(unfold cmp_cost; lia) rid k g keys o fl fuel leaf_ops
      (λ _ gw, ∃ g' o' fl', gw = (g', World keys 0) ∧
         leaf_shrunk (kcmp := str_cmp) keys rid (index_rows o) (index_pages o ++ fl) (i_len g) (i_hits g - 3) g' o' fl')
      Hidx Hleaf Hk Hrid ltac:(lia) ltac:(unfold leaf_ops; lia) Hh
      ltac:(intros g' o' fl' Hsh; exists g', o', fl'; split; [do 2 f_equal; unfold leaf_ops; lia|done])) as Hrun.
    eapply wp_mono; [apply Hrun; split; [exact Hg|]|].
    + split; [cbn [snd w_ops]; by replace (n0 + leaf_ops) with n by (unfold n0; lia)|].
      intros r k' Hr'. split; [by eapply records_has|]. by apply Hrecs in Hr' as [? _].
    + intros [] s' (gw & [Hg' [Hw' _]] & g' & o' & fl' & -> & [Hidx' Hl' Hrows Hpages Hlen' Hhits]).
      cbn [fst snd w_ops] in *. rewrite Z.add_0_r in Hw'.
      exists (g', JView Hr Hs n0 (Rr - 0) (Rs - 0)). rewrite !Z.sub_0_r in HΦ |- *. split; [by split|].
      eapply (HΦ g' fl' keys o' O); constructor; try done; [| |lia].
      * intros q Hq. by destruct o' as [[]|]; [apply not_elem_of_nil in Hq| |apply not_elem_of_nil in Hq].
      * pose proof (row_depth _ _ Hrid) as Hd. constructor; [|lia|done]. destruct o' as [[]|]; [exact Hd|done|cbn; lia].
Qed.
(** ** The branches of the calls

    After each of them the heaps weigh [wr] and [ws]; [h] accesses and [n]
    operations are left, and the index has at most [l] bytes. *)
Record leaf_done (D : contents_map) (wr ws h l n : Z) (g' : ipool) (o' : option tree) (Hr' Hs' : rheap) (n' : Z) : Prop := {
  ld_contents : contents L g' Hr' Hs' D o';
  ld_leaf : leaf_only o';
  ld_rec : weight Hr' = wr;
  ld_str : weight Hs' = ws;
  ld_hits : h <= i_hits g';
  ld_len : i_len g' <= l;
  ld_ops : n <= n';
}.

Lemma set_new_leaf_spec g o Hr Hs D n Rr Rs k pad v padv (Φ : unit → ipool * jview → Prop) :
  let c := wcost * (chunks (length k) + chunks (length v) + 1) + leaf_ops in
  contents L g Hr Hs D o → leaf_only o → (length (index_rows o) < 4)%nat → D !! k = None →
  string_fits (length k) → (length k <= L)%nat → string_fits (length v) →
  4 <= i_hits g → i_len g + PAGE_SIZE <= MAX_LEN → c <= n → 24 <= Rr →
  string_room (length k) + string_room (length v) <= Rs →
  (∀ g' o' Hr' Hs' n' Rr' Rs',
    leaf_done (<[k:=v]> D) (weight Hr + 20) (weight Hs + string_bytes (length k) + string_bytes (length v))
      (i_hits g - 3) (i_len g + PAGE_SIZE) (n - c) g' o' Hr' Hs' n' →
    Φ tt (g', JView Hr' Hs' n' Rr' Rs')) →
  awp (set_new fuel junk_rec junk (k ++ pad) (Z.of_nat (length k)) (v ++ padv) (Z.of_nat (length v))) Φ (g, JView Hr Hs n Rr Rs).
Proof using HW Hwcost Hjr Hj HL.
  intros c Hc Hl Hlen HD Hfk Hlk Hfv Hh HM Hn HRr HRs HΦ.
  eapply (set_new_rule fuel wcost Hwcost junk_rec junk Hjr Hj L HL leaf_insert); try done.
  - unfold new_key_room. cbn [leaf_insert it_str]. lia.
  - intros Hr1 Hs1 g' o' Hr' Hs' Hwr Hws [Hl' -> -> Hh' HM'] Hc'. eapply HΦ. constructor; try done; lia.
Qed.

Lemma del_found_leaf_spec g o fl keys O Hr Hs D n Rr Rs rid k v (Φ : unit → ipool * jview → Prop) :
  let c := leaf_ops + 1 + free_cost wcost (length k) + free_cost wcost (length v) + wcost in
  holding L g o fl keys O Hr Hs → stands_for keys O Hr Hs (index_rows o) D → leaf_only o →
  rid ∈ index_rows o → keys !! rid = Some k → D !! k = Some v → (length v < fuel)%nat →
  4 <= i_hits g → c <= n → 0 <= Rr → 0 <= Rs →
  (∀ g' o' Hr' Hs' n' Rr' Rs',
    leaf_done (delete k D) (weight Hr - 20) (weight Hs - string_bytes (length k) - string_bytes (length v))
      (i_hits g - 3) (i_len g) (n - c) g' o' Hr' Hs' n' →
    Φ tt (g', JView Hr' Hs' n' Rr' Rs')) →
  awp (del_found fuel junk_rec junk rid) Φ (g, JView Hr Hs n Rr Rs).
Proof using HW Hwcost Hjr Hj HL.
  intros c Hhold Hst Hl Hrid Hk HD Hlv Hh Hn HRr HRs HΦ.
  eapply (del_found_rule fuel wcost Hwcost junk_rec junk Hjr Hj L HL leaf_remove); try done.
  intros Hr1 Hs1 g' o' Hr' Hs' [Hl' -> -> Hh' HM'] _ Hwr Hws Hc'. eapply HΦ. constructor; try done; lia.
Qed.

Lemma set_old_leaf_spec {HG : HeapRegains page_regain} g o fl keys O Hr Hs D n Rr Rs rid k v w padw (Φ : unit → ipool * jview → Prop) :
  let c := 1 + free_cost wcost (length v) + wcost * chunks (length w) + leaf_ops + 2 * wcost + leaf_ops in
  holding L g o fl keys O Hr Hs → stands_for keys O Hr Hs (index_rows o) D → leaf_only o → (length (index_rows o) <= 4)%nat →
  rid ∈ index_rows o → keys !! rid = Some k → D !! k = Some v → (length v < fuel)%nat → string_fits (length w) →
  7 <= i_hits g → i_len g + PAGE_SIZE <= MAX_LEN → c <= n → 24 <= Rr →
  string_room (length w) <= page_regain (weight Hs - string_bytes (length v)) Rs →
  (∀ g' o' Hr' Hs' n' Rr' Rs',
    leaf_done (<[k:=w]> D) (weight Hr) (weight Hs - string_bytes (length v) + string_bytes (length w))
      (i_hits g - 6) (i_len g + PAGE_SIZE) (n - c) g' o' Hr' Hs' n' →
    Φ tt (g', JView Hr' Hs' n' Rr' Rs')) →
  awp (set_old fuel junk_rec junk rid (w ++ padw) (Z.of_nat (length w))) Φ (g, JView Hr Hs n Rr Rs).
Proof using HW Hwcost Hjr Hj HL.
  intros c Hhold Hst Hl Hlen Hrid Hk HD Hlv Hfw Hh HM Hn HRr HRs HΦ.
  apply (set_old_rule fuel wcost Hwcost junk_rec junk Hjr Hj L HL leaf_remove leaf_insert page_regain g o fl keys O Hr Hs D n Rr Rs rid k v w padw); try done.
  - split; [done|lia].
  - intros Hs1 O1 g' fl' keys' o' O' Hr' Hs' [_ Hrows _ _ _ _ _] [Hl' _ _ Hh' HM'].
    apply Permutation_length in Hrows. cbn [length leaf_insert it_ready] in *. split_and!; [done|lia|lia|lia].
  - unfold old_key_room. cbn [leaf_remove leaf_insert it_str]. unfold freed_room. lia.
  - intros Hs1 g1 o1 Hr1 Hs2 Hr2 g' o' Hr' Hs' n' Rr' Rs' Hws [_ -> -> Hh1 HM1] _ Hwr [Hl' -> -> Hh2 HM2] Hc' Hn' _ _.
    eapply HΦ. constructor; try done; lia.
Qed.
End leaf.
