(* ===== verification/MyjqlInit.v ===== *)
(** Creating the store: [b_tree_init] and [myjql_init] where no file exists. *)
From stdpp Require Import base gmap list fin_maps.
From Stdlib Require Import ZArith Lia Strings.Byte.
From S2P Require Import Prelude FileIO BufferPool PoolLogic PoolClient PoolDurable Table TableSpec HeapStore TableHeap Str StrSpec.
From S2P Require Import BTree NodeSpec TreeSpec BTreeSearch Myjql MyjqlGet.
#[local] Open Scope Z_scope.

(** the state of the pool of an index without nodes *)
Definition no_nodes : ipool := IPool (-1) (-1) ∅ 128 ∅ (SIZE_MAX - 2).

Lemma b_tree_init_spec p :
  pool_space p → wp (b_tree_init NoFile) (λ _ p', rep p' no_nodes) p.
Proof.
  intros Hp. unfold b_tree_init. wp_step. eapply wp_mono; [by apply init_buffer_pool_new|].
  intros [] p1 H1. rewrite opened_nil in H1. unfold SIZE_MAX in *.
  match goal with |- wp ?m _ _ =>
    assert (awp m (λ _ g, ∃ pg, g = PState {[0:=pg]} 128 ∅ (2 ^ 64 - 1 - 2) ∧
      word pg 0 = -1 ∧ word pg 1 = -1) (PState ∅ 0 ∅ (2 ^ 64 - 1 - 1))) as Hm end.
  { awp_step. apply ps_length. cbv iota beta. cbn [Z.eqb negb]. awp_step.
    eapply ps_get_past; [done|map_find|pins_size|lia|unfold MAX_LEN; done|]. intros k. cbv beta.
    change off_free_node_head with 8. change off_root_node with 0.
    awp_step. wr_word 1. cbv beta. awp_step. wr_word 0. cbv beta. eapply ps_release; [map_find|]. rewrite delete_insert_id by done.
    eexists. split; [rewrite !insert_insert_eq; reflexivity|]. split; vm_compute; reflexivity. }
  eapply wp_mono; [by apply Hm|]. intros [] p2 (g & Hr & pg & -> & E1 & E2).
  exists {[0:=pg]}. split; [exact Hr|]. split; [exists pg; by rewrite lookup_singleton_eq|].
  unfold nodes_of. by rewrite delete_singleton_eq, fmap_empty.
Qed.

(** where no file exists *)
Definition no_files : Files := mkFiles NoFile NoFile NoFile NoFile NoFile.

(** the memory the three pools of the tables and that of the index take *)
Definition jql_space (s : Jql) : Prop :=
  pool_space s.1 ∧
  pool_space (data_pool (tbl_rec s.2)) ∧ pool_space (fsm_pool (tbl_rec s.2)) ∧
  pool_space (data_pool (tbl_str s.2)) ∧ pool_space (fsm_pool (tbl_str s.2)).

Lemma empty_table_view t : holds t ∅ (SIZE_MAX - 1) (SIZE_MAX - 20) → rep t (TView ∅ (SIZE_MAX - 20)).
Proof.
  intros Ht. exists ∅. split; [eapply holds_spend; [exact Ht|simpl; lia|simpl; lia]|].
  intros rid. unfold heap_at. by rewrite !lookup_empty.
Qed.

Lemma myjql_init_run s : jql_space s →
  ∃ s', myjql_init no_files s = Ok (tt, s') ∧ rep s'.1 no_nodes ∧
    rep s'.2 (TView ∅ (SIZE_MAX - 20), TView ∅ (SIZE_MAX - 20)).
Proof.
  intros (Hi & Hrd & Hrf & Hsd & Hsf). destruct s as [p [tr ts]]. cbn [fst snd tbl_rec tbl_str] in *.
  destruct (wp_elim _ _ _ (b_tree_init_spec p Hi)) as ([] & p' & Hp & Hp').
  destruct (table_init_run tr Hrd Hrf) as (tr' & Hr & Hr' & _).
  destruct (table_init_run ts Hsd Hsf) as (ts' & Hs & Hs' & _).
  exists (p', mkTables tr' ts'). split; [|split; [done|split; by apply empty_table_view]].
  unfold myjql_init, idx, ext, in_rec, in_str, zoom, mbind, M_bind.
  cbn [no_files rec_idx rec_data rec_fsm str_data str_fsm fst snd tbl_rec tbl_str].
  rewrite Hp. cbn [fst snd tbl_rec tbl_str]. rewrite Hr. cbn [fst snd tbl_rec tbl_str]. by rewrite Hs.
Qed.

Lemma empty_database s : rep s.1 no_nodes →
  rep s.2 (TView ∅ (SIZE_MAX - 20), TView ∅ (SIZE_MAX - 20)) →
  database s ∅ 1 (SIZE_MAX - 20).
Proof.
  intros Hi Ht. exists no_nodes, None, ∅, ∅, ∅.
  split; [done|]. split; [done|]. split; [done|]. split; [cbn; lia|]. split; [done|].
  split; [done|]. split; [intros r k H; by rewrite lookup_empty in H|].
  split; [by intros r []%not_elem_of_nil|]. intros k v. rewrite lookup_empty. split; [done|].
  by intros (r & []%not_elem_of_nil & _).
Qed.

(** A store created where no file exists is the empty finite map. *)
Theorem myjql_init_empty s : jql_space s →
  ∃ s', myjql_init no_files s = Ok (tt, s') ∧ database s' ∅ 1 (SIZE_MAX - 20).
Proof.
  intros Hs. destruct (myjql_init_run s Hs) as (s' & Hrun & Hi & Ht).
  exists s'. split; [done|]. by apply empty_database.
Qed.

Definition blank_jql : Jql := (blank_pool, mkTables blank_table blank_table).
Lemma blank_jql_space : jql_space blank_jql.
Proof. split_and!; exact blank_pool_space. Qed.

Lemma myjql_init_empty_witness :
  ∃ s', myjql_init no_files blank_jql = Ok (tt, s') ∧ database s' ∅ 1 (SIZE_MAX - 20).
Proof. exact (myjql_init_empty blank_jql blank_jql_space). Defined.
