(* ===== verification/MyjqlStore.v ===== *)
(** The store as a finite map: what a state of the index and the two tables
    holds, what is left to it, and what each call does to both. *)
From stdpp Require Import base gmap list fin_maps.
From Stdlib Require Import ZArith Lia Strings.Byte.
From S2P Require Import Prelude FileIO BufferPool PoolLogic PoolClient PoolDurable Table HeapStore TableSpec TableHeap HeapWrite TableRoom Str StrSpec StrWrite.
From S2P Require Import BTree NodeSpec TreeSpec TreeFrame BTreeSearch BTreeInsert BTreeInsertSpec.
From S2P Require Import Myjql MyjqlGet MyjqlInit MyjqlOwners MyjqlWrite MyjqlWorld MyjqlMap MyjqlSet MyjqlDel.
#[local] Open Scope Z_scope.

(** ** What is left *)

(** the depth of the index is at most [l_depth], [l_ops] operations are left in
    each table, and [l_rec] free bytes on the pages of the table of records and
    [l_str] on those of the table of strings, as [TableRoom.paged_supply] counts
    them; the index has at most [l_len] bytes, and keys at most [l_key]
    characters *)
Record limits := Limits { l_depth : Z; l_ops : Z; l_rec : Z; l_str : Z; l_len : Z; l_key : nat }.

Definition limits_ok (lim : limits) : Prop :=
  0 <= l_ops lim ∧ 0 <= l_rec lim ∧ 0 <= l_str lim ∧ l_len lim <= MAX_LEN.

(** the limits after a call that takes so much *)
Definition spend (lim : limits) (levels ops recs strs bytes : Z) : limits :=
  Limits (l_depth lim + levels) (l_ops lim - ops) (l_rec lim - recs) (l_str lim - strs) (l_len lim + bytes) (l_key lim).

(** the operations of a search for a key of [lk] characters *)
Definition search_cost (lim : limits) (lk : nat) : Z := 4 * (Z.of_nat lk + 1) * l_depth lim.

(** ... after the value [v] is stored under [k], where [old] was the value *)
Definition set_limits (fuel : nat) (lim : limits) (k v : list byte) (old : option (list byte)) : limits :=
  let w := write_cost fuel in let L := l_key lim in let d := l_depth lim in
  let s := search_cost lim (length k) in
  match old with
  | None => spend lim 1 (s + set_ops w L d (length k) (length v)) 48 (set_room L (length k) (length v)) (3 * PAGE_SIZE * d)
  | Some u => spend lim 1 (s + replace_ops w L d (length u) (length v)) (24 * d + 24) (replace_room L d (length v)) (3 * PAGE_SIZE * d)
  end.

(** ... after the key [k] is removed *)
Definition del_limits (fuel : nat) (lim : limits) (k : list byte) (old : option (list byte)) : limits :=
  let w := write_cost fuel in let L := l_key lim in let d := l_depth lim in
  let s := search_cost lim (length k) in
  match old with
  | None => spend lim 0 s 0 0 0
  | Some u => spend lim 0 (s + del_ops w L d (length k) (length u)) (24 * (d - 1)) (string_room L * (d - 1)) 0
  end.

(** ... after the value of [k] is read *)
Definition get_limits (lim : limits) (k : list byte) (old : option (list byte)) : limits :=
  spend lim 0 (get_cost (length k) (length (default [] old)) (l_depth lim)) 0 0 0.

(** ** What the store holds *)

(** the store [s] holds the map [D] *)
Definition store (fuel : nat) (s : Jql) (D : contents_map) (lim : limits) : Prop :=
  ∃ g o Hr Hs, rep s.1 g ∧
    @rep _ _ (@jview_Rep (table_wview fuel)) s.2 (JView Hr Hs (l_ops lim) (l_rec lim) (l_str lim)) ∧
    contents (l_key lim) g Hr Hs D o ∧
    l_ops lim <= i_hits g ∧ i_len g <= l_len lim ∧ index_depth o <= l_depth lim.

(** the store can be read *)
Lemma store_database fuel s D lim : store fuel s D lim → database s D (l_depth lim) (l_ops lim).
Proof.
  intros (g & o & Hr & Hs & Hg & [[T1 (H1 & E1 & _)] [T2 (H2 & E2 & _)]] & (fl & keys & O & [Hidx Hrecs Hcop] & Hst) & Hh & _ & Hd).
  exists g, o, keys, Hr, Hs. split; [done|]. split; [split; [by exists T1|by exists T2]|].
  split; [by eapply ih_pins|]. split; [done|]. split; [by eapply ih_root|]. split; [done|].
  split; [intros r k E; by eapply records_has|].
  assert (∀ r v, r ∈ index_rows o → has_value Hr Hs r v → value_at O Hr Hs r v) as Hback.
  { intros r v Hr1 Hv. destruct (stands_value _ _ _ _ _ _ _ Hst Hr1) as (k & w & _ & Hw & _).
    by rewrite (has_value_det _ _ _ _ _ Hv (value_at_has _ _ _ _ _ Hw)). }
  split.
  - intros r Hr1. destruct (stands_value _ _ _ _ _ _ _ Hst Hr1) as (k & v & _ & Hv & _).
    exists v. by eapply value_at_has.
  - intros k v. rewrite (stands_lookup _ _ _ _ _ _ _ _ Hst).
    split; intros (r & Hr1 & Hk & Hv); exists r; [|by eauto]. split; [done|]. split; [done|]. by eapply value_at_has.
Qed.

Lemma store_depth fuel s D lim : store fuel s D lim → 1 <= l_depth lim.
Proof. intros (g & o & Hr & Hs & _ & _ & _ & _ & _ & Hd). destruct o; simpl in Hd; lia. Qed.

Lemma found_depth fuel s D lim k u : store fuel s D lim → D !! k = Some u → 2 <= l_depth lim.
Proof.
  intros (g & o & Hr & Hs & _ & _ & (fl & keys & O & _ & Hst) & _ & _ & Hd) HD.
  apply (stands_lookup _ _ _ _ _ _ _ _ Hst) in HD as (r & Hr1 & _). apply row_depth in Hr1. lia.
Qed.

(** ** Arithmetic of the costs *)

Section costs.
Context (fuel : nat).
Local Abbreviation wcost := (write_cost fuel).

Lemma wcost_pos : 144 <= wcost.
Proof using. unfold write_cost. lia. Qed.

(** the operations pay for the accesses to the index *)
Lemma search_cost_depth lim lk d : 1 <= d → d <= l_depth lim → 4 * (Z.of_nat lk + 1) * d <= search_cost lim lk ∧ d <= 4 * (Z.of_nat lk + 1) * d.
Proof using. intros H1 H2. unfold search_cost. nia. Qed.

Lemma cmp_cost_ge L : 4 <= cmp_cost L.
Proof using. unfold cmp_cost. lia. Qed.

Lemma insert_ops_mono L d d' : d <= d' → insert_ops wcost L d <= insert_ops wcost L d'.
Proof using. intros H. pose proof (cmp_cost_ge L). unfold insert_ops. nia. Qed.

Lemma insert_ops_hits L d : 1 <= d → 64 * d <= insert_ops wcost L d.
Proof using.
  intros H. pose proof (cmp_cost_ge L). pose proof (copy_cost_nonneg wcost L ltac:(unfold write_cost; lia)).
  unfold insert_ops. nia.
Qed.

Lemma remove_ops_mono L d d' : 1 <= d → d <= d' → remove_ops wcost L d <= remove_ops wcost L d'.
Proof using.
  intros H1 H. pose proof (cmp_cost_ge L). assert (0 <= wcost) as Hw by (unfold write_cost; lia).
  pose proof (copy_cost_nonneg wcost L Hw). pose proof (drop_cost_nonneg wcost L Hw).
  unfold remove_ops. set (c := 4 * cmp_cost L + drop_cost wcost L). assert (0 <= c) by (unfold c; lia).
  assert (c * (d + 1) <= c * (d' + 1)) by nia. assert (0 <= c * (d + 1)) by nia. nia.
Qed.

Lemma remove_ops_hits L d : 1 <= d → 16 * (d + 1) <= remove_ops wcost L d.
Proof using.
  intros H1. pose proof (cmp_cost_ge L). assert (0 <= wcost) as Hw by (unfold write_cost; lia).
  pose proof (copy_cost_nonneg wcost L Hw). pose proof (drop_cost_nonneg wcost L Hw).
  unfold remove_ops. set (c := 4 * cmp_cost L + drop_cost wcost L). assert (16 <= c) by (unfold c; lia).
  assert (16 * (d + 1) <= c * (d + 1)) by nia. nia.
Qed.

(** each call costs more operations than accesses to the index *)
Lemma set_ops_hits L d lk lv : 1 <= d → 8 * d <= set_ops wcost L d lk lv.
Proof using.
  intros H. pose proof (insert_ops_hits L d H). pose proof wcost_pos. pose proof (chunks_nonneg lk). pose proof (chunks_nonneg lv).
  unfold set_ops. nia.
Qed.

Lemma replace_ops_hits L d lv lw : 2 <= d → 14 * d + 1 <= replace_ops wcost L d lv lw.
Proof using.
  intros H. pose proof (insert_ops_hits L d ltac:(lia)). pose proof (remove_ops_hits L (d - 1) ltac:(lia)).
  pose proof wcost_pos. pose proof (chunks_nonneg lw). pose proof (free_cost_nonneg wcost lv ltac:(lia)).
  unfold replace_ops. nia.
Qed.

Lemma del_ops_hits L d lk lv : 2 <= d → 6 * d + 1 <= del_ops wcost L d lk lv.
Proof using.
  intros H. pose proof (remove_ops_hits L (d - 1) ltac:(lia)). pose proof wcost_pos.
  pose proof (free_cost_nonneg wcost lk ltac:(lia)). pose proof (free_cost_nonneg wcost lv ltac:(lia)).
  unfold del_ops. lia.
Qed.

Lemma set_ops_mono L d d' lk lv : d <= d' → set_ops wcost L d lk lv <= set_ops wcost L d' lk lv.
Proof using. intros H. pose proof (insert_ops_mono L d d' H). unfold set_ops. lia. Qed.

Lemma replace_ops_mono L d d' lv lw : 2 <= d → d <= d' → replace_ops wcost L d lv lw <= replace_ops wcost L d' lv lw.
Proof using.
  intros H1 H. pose proof (insert_ops_mono L d d' H). pose proof (remove_ops_mono L (d - 1) (d' - 1) ltac:(lia) ltac:(lia)).
  unfold replace_ops. lia.
Qed.

Lemma del_ops_mono L d d' lk lv : 2 <= d → d <= d' → del_ops wcost L d lk lv <= del_ops wcost L d' lk lv.
Proof using.
  intros H1 H. pose proof (remove_ops_mono L (d - 1) (d' - 1) ltac:(lia) ltac:(lia)). unfold del_ops. lia.
Qed.
End costs.

(** ** What every call does first

    over any two tables with readers *)

Section reads.
Context {RV : Rep Table wview} (fuel : nat) (wcost : Z) {HW : HeapWriter fuel wcost}.
Context (junk_rec junk : list byte).
Context (Hjr : length junk_rec = 20%nat) (Hj : length junk = 32%nat).

(** what the search of a call finds *)
Definition found (keys : gmap RID (list byte)) (rows : list RID) (k : list byte) (v : option (list byte)) (r : RID) : Prop :=
  match v with
  | None => r = failed_rid
  | Some _ => r ∈ rows ∧ keys !! r = Some k ∧ not_found r = false
  end.

Lemma search_run s g o fl keys O Hr Hs D n Rr Rs k pad L :
  rep s.1 g → rep s.2 (JView Hr Hs n Rr Rs) →
  holding L g o fl keys O Hr Hs → stands_for keys O Hr Hs (index_rows o) D →
  (length k < fuel)%nat → index_depth o <= Z.of_nat fuel + 1 → index_depth o <= i_hits g →
  4 * (Z.of_nat (length k) + 1) * index_depth o <= n →
  ∃ r s' g', b_tree_search (ptr_row_cmp fuel junk_rec junk (k ++ pad) (Z.of_nat (length k))) fuel s = Ok (r, s') ∧
    rep s'.1 g' ∧ holding L g' o fl keys O Hr Hs ∧ found keys (index_rows o) k (D !! k) r ∧
    i_hits g' = i_hits g - index_depth o ∧ i_len g' = i_len g ∧
    rep s'.2 (JView Hr Hs (n - 4 * (Z.of_nat (length k) + 1) * index_depth o) Rr Rs).
Proof using HW Hjr Hj.
  intros Hg Hw [Hidx Hrecs Hcop] Hst Hk Hf Hh Hn.
  pose proof (@write_reader fuel wcost _ HW Rr) as HHr.
  pose proof (@write_reader fuel wcost _ HW Rs) as HHs.
  pose proof (@reading_world _ _ HHr HHs Hr Hs) as KWi.
  pose proof (@ptr_row_comparer _ _ HHr HHs Hr Hs fuel junk_rec junk Hjr Hj k pad Hk) as HCi.
  set (g' := IPool (i_root g) (i_free g) (i_nodes g) (i_len g) ∅ (i_hits g - index_depth o)).
  pose proof (@b_tree_search_spec _ _ str_cmp str_order _ KWi _ k (Z.of_nat (length k) + 1) HCi ltac:(lia)
    g keys o fuel n
    (λ r gw, ((r ∈ index_rows o ∧ keys !! r = Some k) ∨ (r = failed_rid ∧ ∀ q, q ∈ index_rows o → keys !! q ≠ Some k)) ∧
       gw = (g', World keys (n - 4 * (Z.of_nat (length k) + 1) * index_depth o)))
    (ih_root _ _ _ _ Hidx) (ih_pins _ _ _ _ Hidx) Hf Hh Hn) as Hrun.
  assert (∀ r k', keys !! r = Some k' → has_key Hr Hs r k') as Hkeys by (intros; by eapply records_has).
  destruct (wp_elim _ _ _ (Hrun ltac:(cbv zeta; split; [intros; split; [by left|done]|intros; split; [by right|done]]) s
    (conj Hg (conj Hw Hkeys)))) as (r & s' & E & gw & [Hg' [Hw' _]] & Hfound & ->).
  exists r, s', g'. split; [exact E|]. split; [exact Hg'|]. split; [constructor; [by apply index_holds_hits|done|done]|].
  split; [|split; [done|split; [done|exact Hw']]]. unfold found. destruct Hfound as [[Hr1 Hkr]|[-> Hno]].
  - destruct (stands_value _ _ _ _ _ _ _ Hst Hr1) as (k' & v & Hk' & _ & HD). simplify_eq. rewrite HD.
    split; [done|]. split; [done|]. destruct (Hkeys _ _ Hkr) as (rc & [Hat _] & _).
    destruct (@heap_rids _ HHr _ _ _ _ _ (proj1 Hw') Hat) as (_ & ? & _).
    unfold not_found. by rewrite (proj2 (Z.eqb_neq _ _)) by lia.
  - destruct (D !! k) as [v|] eqn:HD; [|done].
    apply (stands_lookup _ _ _ _ _ _ _ _ Hst) in HD as (r & Hr1 & Hkr & _). by destruct (Hno r Hr1).
Qed.

(** a value is read, and the two heaps stay *)
Lemma lookup_run s g o Hr Hs D n Rr Rs L k pad dest max c :
  rep s.1 g → rep s.2 (JView Hr Hs n Rr Rs) → contents L g Hr Hs D o →
  (length k < fuel)%nat → (length (default [] (D !! k)) < fuel)%nat →
  index_depth o <= Z.of_nat fuel + 1 → index_depth o <= i_hits g → 0 <= max <= Z.of_nat (length dest) →
  get_cost (length k) (length (default [] (D !! k))) (index_depth o) <= c → c <= n →
  ∃ s' g', myjql_get fuel junk_rec junk (k ++ pad) (Z.of_nat (length k)) dest max s = Ok (get_result (D !! k) dest max, s') ∧
    rep s'.1 g' ∧ rep s'.2 (JView Hr Hs (n - c) Rr Rs) ∧
    contents L g' Hr Hs D o ∧ i_hits g' = i_hits g - index_depth o ∧ i_len g' = i_len g.
Proof using HW Hjr Hj.
  intros Hg Hw (fl & keys & O & Hhold & Hst) Hfk Hfo Hf Hh Hmax Hc Hn. unfold get_cost in Hc.
  pose proof Hhold as [Hidx Hrecs Hcop]. assert (1 <= index_depth o) as Hd1 by (destruct o; simpl; lia).
  assert (∀ r v, r ∈ index_rows o → keys !! r = Some k → has_value Hr Hs r v → D !! k = Some v) as Hval.
  { intros r v Hr1 Hkr Hv. destruct (stands_value _ _ _ _ _ _ _ Hst Hr1) as (k' & v' & Hk' & Hv' & HD). simplify_eq.
    by rewrite (has_value_det _ _ _ _ _ Hv (value_at_has _ _ _ _ _ Hv')). }
  assert (∀ v, D !! k = Some v → (length v < fuel)%nat ∧
    n - c + 4 * (Z.of_nat (length k) + 1) * index_depth o + 2 + Z.of_nat (length v) <= n ∧
    let n' := Nat.min (length v) (Z.to_nat max) in
    let out := take n' v ++ (if Z.of_nat n' <? max then [x00] else []) in
    (Z.of_nat n', out ++ drop (length out) dest) = get_result (D !! k) dest max) as Hgot.
  { intros v E. rewrite E in Hc, Hfo |- *. change (default [] (Some v)) with v in *. split; [done|]. split; [lia|done]. }
  assert ((∀ r, r ∈ index_rows o → keys !! r ≠ Some k) → (SIZE_MAX, dest) = get_result (D !! k) dest max) as Hnone.
  { intros Hno. destruct (D !! k) as [v|] eqn:E; [|done].
    apply (stands_lookup _ _ _ _ _ _ _ _ Hst) in E as (r & Hr1 & Hkr & _). by destruct (Hno r Hr1). }
  pose proof (@write_reader fuel wcost _ HW Rr) as HHr.
  pose proof (@write_reader fuel wcost _ HW Rs) as HHs.
  assert (∀ r k', keys !! r = Some k' → has_key Hr Hs r k') as Hkeys by (intros; by eapply records_has).
  destruct (wp_elim _ _ _ (@myjql_get_spec _ _ HHr HHs Hr Hs fuel junk_rec junk Hjr Hj k pad Hfk g keys o n
    (n - c) dest max (λ r, r = get_result (D !! k) dest max) s Hg (conj Hw Hkeys)
    (ih_root _ _ _ _ Hidx) (ih_pins _ _ _ _ Hidx) ltac:(lia) ltac:(lia)
    ltac:(intros r Hr1 _; destruct (stands_value _ _ _ _ _ _ _ Hst Hr1) as (k' & v & _ & Hv & _); exists v; by eapply value_at_has)
    Hmax
    ltac:(intros r v Hr1 Hkr Hv; exact (Hgot v (Hval r v Hr1 Hkr Hv)))
    ltac:(lia) ltac:(lia) Hnone))
    as (a & s' & Hrun & -> & [Hg' [Hw' _]]).
  eexists s', _. split; [exact Hrun|]. split; [exact Hg'|]. split; [exact Hw'|]. split; [|done].
  exists fl, keys, O. split; [|done]. constructor; [by apply index_holds_hits|done|done].
Qed.

End reads.

(** ** The calls *)

Section calls.
Context (fuel : nat) (junk_rec junk : list byte).
Context (Hjr : length junk_rec = 20%nat) (Hj : length junk = 32%nat).
Local Abbreviation wcost := (write_cost fuel).
#[local] Existing Instance table_writer.

(** when [myjql_set] is certain to succeed *)
Record set_fits (lim : limits) (k v : list byte) (old : option (list byte)) : Prop := {
  sf_key : string_fits (length k) ∧ (length k <= l_key lim)%nat;
  sf_value : string_fits (length v);
  sf_fuel : (l_key lim < fuel)%nat ∧ (length (default [] old) < fuel)%nat ∧ l_depth lim <= Z.of_nat fuel;
  sf_left : limits_ok (set_limits fuel lim k v old);
}.

(** when [myjql_del] is certain to succeed *)
Record del_fits (lim : limits) (k : list byte) (old : option (list byte)) : Prop := {
  df_fuel : (l_key lim < fuel)%nat ∧ (length k < fuel)%nat ∧ (length (default [] old) < fuel)%nat ∧ l_depth lim <= Z.of_nat fuel;
  df_left : limits_ok (del_limits fuel lim k old);
}.

(** a store after the search of a call *)
Record looked (s1 : Jql) (D : contents_map) (lim : limits) (k : list byte) (r : RID) (g : ipool) (o : option tree) (fl : list Z)
    (keys : gmap RID (list byte)) (O : owners) (Hr Hs : rheap) (n1 : Z) : Prop := {
  lk_index : rep s1.1 g;
  lk_tables : @rep _ _ (@jview_Rep (table_wview fuel)) s1.2 (JView Hr Hs n1 (l_rec lim) (l_str lim));
  lk_holding : holding (l_key lim) g o fl keys O Hr Hs;
  lk_stands : stands_for keys O Hr Hs (index_rows o) D;
  lk_found : found keys (index_rows o) k (D !! k) r;
  lk_depth : 1 <= index_depth o <= l_depth lim;
  lk_ops : l_ops lim - search_cost lim (length k) <= n1;
  lk_hits : l_ops lim - search_cost lim (length k) <= i_hits g;
  lk_len : i_len g <= l_len lim;
}.

Lemma look_run s D lim k pad : store fuel s D lim → (length k < fuel)%nat → l_depth lim <= Z.of_nat fuel →
  search_cost lim (length k) <= l_ops lim →
  ∃ r s1 g o fl keys O Hr Hs n1,
    b_tree_search (ptr_row_cmp fuel junk_rec junk (k ++ pad) (Z.of_nat (length k))) fuel s = Ok (r, s1) ∧
    looked s1 D lim k r g o fl keys O Hr Hs n1.
Proof using Hjr Hj.
  intros (g & o & Hr & Hs & Hg & Hw & (fl & keys & O & Hhold & Hst) & Hh & Hl & Hd) Hk Hf Hsc.
  assert (1 <= index_depth o) as Hd1 by (destruct o; simpl; lia).
  destruct (search_cost_depth lim (length k) (index_depth o) Hd1 Hd) as [Hsc1 Hsc2].
  destruct (@search_run (table_wview fuel) fuel wcost (table_writer fuel paged_supply) junk_rec junk Hjr Hj s g o fl keys O Hr Hs D (l_ops lim) (l_rec lim) (l_str lim) k pad (l_key lim))
    as (r & s1 & g1 & Hrun & Hg1 & Hhold1 & Hfound & Hh1 & Hl1 & Hw1); try done; [lia|lia|lia|].
  exists r, s1, g1, o, fl, keys, O, Hr, Hs. eexists. split; [exact Hrun|]. constructor; try done; lia.
Qed.

(** what a branch of a call leaves is a store *)
Definition left_over (D : contents_map) (lim : limits) (gw : ipool * jview) : Prop :=
  ∃ o, contents (l_key lim) gw.1 (j_rec gw.2) (j_str gw.2) D o ∧ index_depth o <= l_depth lim ∧
    l_ops lim <= j_left gw.2 ∧ l_rec lim <= j_rroom gw.2 ∧ l_str lim <= j_sroom gw.2 ∧
    l_ops lim <= i_hits gw.1 ∧ i_len gw.1 <= l_len lim.

Lemma left_over_run (m : M Jql unit) s v D lim :
  @awp _ _ (@pair_Rep _ _ _ _ _ (@jview_Rep (table_wview fuel))) unit m (λ _, left_over D lim) v →
  rep s.1 v.1 → @rep _ _ (@jview_Rep (table_wview fuel)) s.2 v.2 →
  ∃ s', m s = Ok (tt, s') ∧ store fuel s' D lim.
Proof using.
  clear Hjr Hj. intros Hm Hg Hw.
  destruct (wp_elim _ _ _ (Hm s (conj Hg Hw))) as ([] & s' & Hrun & [g' [Hr' Hs' n' Rr' Rs']] & [Hg' Hw'] & o' & Hc & Hd & Hn & HR & HS & Hh & Hl).
  cbn [fst snd j_rec j_str j_left j_rroom j_sroom] in *. exists s'. split; [done|]. exists g', o', Hr', Hs'.
  split; [exact Hg'|]. split; [by eapply (jview_weaken fuel wcost)|]. by split_and!.
Qed.

Section looked.
Context (s1 : Jql) (D : contents_map) (lim : limits) (k : list byte) (r : RID) (g : ipool) (o : option tree) (fl : list Z).
Context (keys : gmap RID (list byte)) (O : owners) (Hr Hs : rheap) (n1 : Z).
Context (Hlk : looked s1 D lim k r g o fl keys O Hr Hs n1).

Lemma set_old_run u v padv : D !! k = Some u → set_fits lim k v (Some u) →
  not_found r = false ∧ ∃ s', set_old fuel junk_rec junk r (v ++ padv) (Z.of_nat (length v)) s1 = Ok (tt, s') ∧
    store fuel s' (<[k:=v]> D) (set_limits fuel lim k v (Some u)).
Proof using All.
  intros HD [_ Hfv (HL & Hfo & Hf) (Hops & Hrec & Hstr & Hlen)]. destruct Hlk as [Hg Hw Hhold Hst Hfound [Hd1 Hd] Hn Hh Hl].
  rewrite HD in Hfound. destruct Hfound as (Hr1 & Hkr & Hnf). split; [done|]. pose proof (row_depth _ _ Hr1) as Hd2.
  cbn [set_limits spend l_ops l_rec l_str l_len default] in *. pose proof (wcost_pos fuel) as Hwc.
  pose proof (replace_ops_mono fuel (l_key lim) _ _ (length u) (length v) Hd2 Hd) as Hro.
  pose proof (replace_ops_hits fuel (l_key lim) _ (length u) (length v) Hd2) as Hrh. pose proof (string_room_nonneg (l_key lim)) as S1.
  assert (replace_room (l_key lim) (index_depth o) (length v) <= replace_room (l_key lim) (l_depth lim) (length v)) as Hsr
    by (unfold replace_room; nia).
  eapply (left_over_run _ s1 (g, JView Hr Hs n1 (l_rec lim) (l_str lim))); [|exact Hg|exact Hw].
  eapply (@set_old_spec (table_wview fuel) fuel wcost (table_writer fuel paged_supply) ltac:(lia) junk_rec junk Hjr Hj (l_key lim) HL);
    [exact Hhold|exact Hst|exact Hr1|exact Hkr|exact HD|done|done|lia|lia|unfold PAGE_SIZE in *; lia|lia|lia|lia|].
  intros g' o' Hr' Hs' n' Rr' Rs' Hc H1 H2 H3 H4 H5 H6. exists o'. split; [exact Hc|].
  cbn [spend l_ops l_rec l_str l_len l_depth fst snd j_left j_rroom j_sroom]. unfold PAGE_SIZE in *. lia.
Qed.

Lemma set_new_run pad v padv : D !! k = None → set_fits lim k v None →
  r = failed_rid ∧
  ∃ s', set_new fuel junk_rec junk (k ++ pad) (Z.of_nat (length k)) (v ++ padv) (Z.of_nat (length v)) s1 = Ok (tt, s') ∧
    store fuel s' (<[k:=v]> D) (set_limits fuel lim k v None).
Proof using All.
  intros HD [[Hfk Hk] Hfv (HL & _ & Hf) (Hops & Hrec & Hstr & Hlen)]. destruct Hlk as [Hg Hw Hhold Hst Hfound [Hd1 Hd] Hn Hh Hl].
  rewrite HD in Hfound. split; [done|]. cbn [set_limits spend l_ops l_rec l_str l_len] in *. pose proof (wcost_pos fuel) as Hwc.
  pose proof (set_ops_mono fuel (l_key lim) _ _ (length k) (length v) Hd) as Hso.
  pose proof (set_ops_hits fuel (l_key lim) _ (length k) (length v) Hd1) as Hsh.
  eapply (left_over_run _ s1 (g, JView Hr Hs n1 (l_rec lim) (l_str lim))); [|exact Hg|exact Hw].
  eapply (@set_new_spec (table_wview fuel) fuel wcost (table_writer fuel paged_supply) ltac:(lia) junk_rec junk Hjr Hj (l_key lim) HL);
    [by exists fl, keys, O|exact HD|done|done|done|lia|lia|unfold PAGE_SIZE in *; lia|lia|lia|lia|].
  intros g' o' Hr' Hs' Hc [H1 H2 H3]. exists o'. split; [exact Hc|].
  cbn [spend l_ops l_rec l_str l_len l_depth fst snd j_left j_rroom j_sroom]. unfold PAGE_SIZE in *. lia.
Qed.

Lemma del_found_run u : D !! k = Some u → del_fits lim k (Some u) →
  not_found r = false ∧ ∃ s', del_found fuel junk_rec junk r s1 = Ok (tt, s') ∧
    store fuel s' (delete k D) (del_limits fuel lim k (Some u)).
Proof using All.
  intros HD [(HL & Hfk & Hfo & Hf) (Hops & Hrec & Hstr & Hlen)]. destruct Hlk as [Hg Hw Hhold Hst Hfound [Hd1 Hd] Hn Hh Hl].
  rewrite HD in Hfound. destruct Hfound as (Hr1 & Hkr & Hnf). split; [done|]. pose proof (row_depth _ _ Hr1) as Hd2.
  cbn [del_limits spend l_ops l_rec l_str l_len default] in *. pose proof (wcost_pos fuel) as Hwc.
  pose proof (del_ops_mono fuel (l_key lim) _ _ (length k) (length u) Hd2 Hd) as Hro.
  pose proof (del_ops_hits fuel (l_key lim) _ (length k) (length u) Hd2) as Hrh. pose proof (string_room_nonneg (l_key lim)) as S1.
  assert (string_room (l_key lim) * (index_depth o - 1) <= string_room (l_key lim) * (l_depth lim - 1)) as Hsr by nia.
  eapply (left_over_run _ s1 (g, JView Hr Hs n1 (l_rec lim) (l_str lim))); [|exact Hg|exact Hw].
  eapply (@del_found_spec (table_wview fuel) fuel wcost (table_writer fuel paged_supply) ltac:(lia) junk_rec junk Hjr Hj (l_key lim) HL);
    [exact Hhold|exact Hst|exact Hr1|exact Hkr|exact HD|done|lia|lia|lia|lia|lia|].
  intros g' o' Hr' Hs' Hc H1 H2 H3. exists o'. split; [exact Hc|].
  cbn [spend l_ops l_rec l_str l_len l_depth fst snd j_left j_rroom j_sroom]. lia.
Qed.

Lemma not_there_run : D !! k = None → del_fits lim k None →
  r = failed_rid ∧ store fuel s1 D (del_limits fuel lim k None).
Proof using Hlk.
  clear Hjr Hj. intros HD [_ (Hops & Hrec & Hstr & Hlen)]. destruct Hlk as [Hg Hw Hhold Hst Hfound [Hd1 Hd] Hn Hh Hl].
  rewrite HD in Hfound. split; [done|]. exists g, o, Hr, Hs. cbn [del_limits spend l_ops l_rec l_str l_len l_depth l_key] in *.
  split; [exact Hg|]. split; [eapply (jview_weaken fuel wcost); [exact Hw|lia|lia|lia]|].
  split; [by exists fl, keys, O|]. lia.
Qed.
End looked.

(** *** Whole calls *)

Lemma set_run s D lim k pad v padv : store fuel s D lim → set_fits lim k v (D !! k) →
  ∃ s', myjql_set fuel junk_rec junk (k ++ pad) (Z.of_nat (length k)) (v ++ padv) (Z.of_nat (length v)) s = Ok (tt, s') ∧
    store fuel s' (<[k:=v]> D) (set_limits fuel lim k v (D !! k)).
Proof using Hjr Hj.
  intros Hs Hfits. pose proof Hfits as [[Hfk Hk] Hfv (HL & Hfo & Hf) (Hops & _)]. pose proof (store_depth _ _ _ _ Hs) as Hd.
  assert (search_cost lim (length k) <= l_ops lim) as Hsc.
  { destruct (D !! k) as [u|] eqn:HD; cbn [set_limits spend l_ops] in Hops.
    - pose proof (found_depth _ _ _ _ _ _ Hs HD) as Hd2.
      pose proof (replace_ops_hits fuel (l_key lim) (l_depth lim) (length u) (length v) Hd2). lia.
    - pose proof (set_ops_hits fuel (l_key lim) (l_depth lim) (length k) (length v) Hd). lia. }
  destruct (look_run s D lim k pad Hs ltac:(lia) Hf Hsc) as (r & s1 & g & o & fl & keys & O & Hr & Hs1 & n1 & Hrun & Hlk).
  unfold myjql_set. rewrite (bind_ok _ _ _ _ _ Hrun). destruct (D !! k) as [u|] eqn:HD.
  - by destruct (set_old_run _ _ _ _ _ _ _ _ _ _ _ _ _ Hlk u v padv HD Hfits) as [-> ?].
  - by destruct (set_new_run _ _ _ _ _ _ _ _ _ _ _ _ _ Hlk pad v padv HD Hfits) as [-> ?].
Qed.

Lemma del_run s D lim k pad : store fuel s D lim → del_fits lim k (D !! k) →
  ∃ s', myjql_del fuel junk_rec junk (k ++ pad) (Z.of_nat (length k)) s = Ok (tt, s') ∧
    store fuel s' (delete k D) (del_limits fuel lim k (D !! k)).
Proof using Hjr Hj.
  intros Hs Hfits. pose proof Hfits as [(HL & Hfk & Hfo & Hf) (Hops & _)].
  assert (search_cost lim (length k) <= l_ops lim) as Hsc.
  { destruct (D !! k) as [u|] eqn:HD; cbn [del_limits spend l_ops] in Hops; [|lia].
    pose proof (found_depth _ _ _ _ _ _ Hs HD) as Hd2.
    pose proof (del_ops_hits fuel (l_key lim) (l_depth lim) (length k) (length u) Hd2). lia. }
  destruct (look_run s D lim k pad Hs Hfk Hf Hsc) as (r & s1 & g & o & fl & keys & O & Hr & Hs1 & n1 & Hrun & Hlk).
  unfold myjql_del. rewrite (bind_ok _ _ _ _ _ Hrun). destruct (D !! k) as [u|] eqn:HD.
  - by destruct (del_found_run _ _ _ _ _ _ _ _ _ _ _ _ _ Hlk u HD Hfits) as [-> ?].
  - destruct (not_there_run _ _ _ _ _ _ _ _ _ _ _ _ _ Hlk HD Hfits) as [-> ?]. rewrite delete_id by done. by exists s1.
Qed.

(** when [myjql_get] is certain to succeed, with the room of its caller *)
Record get_fits (lim : limits) (k dest : list byte) (max : Z) (old : option (list byte)) : Prop := {
  gf_fuel : (length k < fuel)%nat ∧ (length (default [] old) < fuel)%nat ∧ l_depth lim <= Z.of_nat fuel + 1;
  gf_dest : 0 <= max <= Z.of_nat (length dest);
  gf_left : limits_ok (get_limits lim k old);
}.

Lemma get_run s D lim k pad dest max : store fuel s D lim → get_fits lim k dest max (D !! k) →
  ∃ s', myjql_get fuel junk_rec junk (k ++ pad) (Z.of_nat (length k)) dest max s = Ok (get_result (D !! k) dest max, s') ∧
    store fuel s' D (get_limits lim k (D !! k)).
Proof using Hjr Hj.
  intros (g & o & Hr & Hs & Hg & Hw & Hc & Hh & Hl & Hd) [(Hfk & Hfo & Hf) Hmax (Hops & _)].
  assert (1 <= index_depth o) as Hd1 by (destruct o; simpl; lia). cbn [get_limits spend l_ops] in Hops.
  assert (get_cost (length k) (length (default [] (D !! k))) (index_depth o) <=
    get_cost (length k) (length (default [] (D !! k))) (l_depth lim)) as Hcost by (unfold get_cost; nia).
  assert (index_depth o <= get_cost (length k) (length (default [] (D !! k))) (index_depth o)) by (unfold get_cost; nia).
  destruct (@lookup_run (table_wview fuel) fuel wcost (table_writer fuel paged_supply) junk_rec junk Hjr Hj s g o Hr Hs D _ _ _ _ k pad dest max _ Hg Hw Hc Hfk Hfo ltac:(lia) ltac:(lia) Hmax Hcost ltac:(lia))
    as (s' & g' & Hrun & Hg' & Hw' & Hc' & Eh & El).
  exists s'. split; [exact Hrun|]. exists g', o, Hr, Hs. cbn [get_limits spend l_ops l_rec l_str l_len l_depth l_key].
  rewrite !Z.sub_0_r. split; [exact Hg'|]. split; [exact Hw'|]. split; [exact Hc'|lia].
Qed.
End calls.
