(* ===== verification/MyjqlSetProps.v ===== *)
(** What the calls of the store do to the finite map it holds: properties of
    [myjql_init], [myjql_set], [myjql_get] and [myjql_del] one by one. *)
From stdpp Require Import base gmap list fin_maps.
From Stdlib Require Import ZArith Lia Strings.Byte.
From S2P Require Import Prelude FileIO BufferPool PoolLogic PoolClient PoolDurable Table HeapStore TableSpec TableHeap HeapWrite TableRoom Str StrSpec StrWrite.
From S2P Require Import BTree NodeSpec TreeSpec TreeFrame BTreeSearch BTreeInsert BTreeInsertSpec.
From S2P Require Import Myjql MyjqlGet MyjqlInit MyjqlOwners MyjqlWrite MyjqlMap MyjqlStore.
#[local] Open Scope Z_scope.

(** ** A new store *)

(** the operations of a new table: each that writes may make the free-space map
    a page longer, and its searches have [fuel] *)
Definition new_ops (fuel : nat) : Z := Z.min (2 ^ 50) ((Z.of_nat fuel - 9) / 2 * write_cost fuel).

Section new.
Context (fuel : nat) (S : Table → heap → Z → Prop) {HS : PageSupply S}.

Lemma new_table_view t : (128 < fuel)%nat →
  holds t ∅ (SIZE_MAX - 1) (SIZE_MAX - 20) → data_len t = 0 → fsm_len t = 1152 →
  @rep _ _ (pages_wview fuel S) t (WView ∅ (new_ops fuel) 122).
Proof using HS.
  intros Hf Ht Hd Hl. assert (new_ops fuel <= 2 ^ 50) as Hn by (unfold new_ops; lia).
  exists ∅. cbn [w_left w_heap w_room].
  split; [eapply holds_spend; [exact Ht|unfold SIZE_MAX; lia|unfold SIZE_MAX; lia]|].
  split; [intros rid; unfold heap_at; by rewrite !lookup_empty|].
  split; [apply sup_new; intros g; by apply short_file_not_leaky|].
  unfold growth_bounds. cbv zeta. rewrite Hd, Hl.
  assert (0 < write_cost fuel) as Hw by (unfold write_cost; lia).
  assert (new_ops fuel / write_cost fuel <= (Z.of_nat fuel - 9) / 2) as Hk.
  { apply Z.div_le_upper_bound; [done|]. unfold new_ops. lia. }
  assert (new_ops fuel / write_cost fuel <= 2 ^ 50) as Hk2.
  { apply Z.div_le_upper_bound; [done|]. nia. }
  pose proof (Z.mul_div_le (Z.of_nat fuel - 9) 2 ltac:(lia)). unfold MAX_LEN. lia.
Qed.

Lemma views_init_run s : jql_space s → (128 < fuel)%nat →
  ∃ s', myjql_init no_files s = Ok (tt, s') ∧ rep s'.1 no_nodes ∧
    @rep _ _ (@jview_Rep (pages_wview fuel S)) s'.2 (JView ∅ ∅ (new_ops fuel) 122 122).
Proof using HS.
  intros (Hi & Hrd & Hrf & Hsd & Hsf) Hf. destruct s as [p [tr ts]]. cbn [fst snd tbl_rec tbl_str] in *.
  destruct (wp_elim _ _ _ (b_tree_init_spec p Hi)) as ([] & p' & Hp & Hp').
  destruct (table_init_run tr Hrd Hrf) as (tr' & Hr & Hr' & Hr1 & Hr2).
  destruct (table_init_run ts Hsd Hsf) as (ts' & Hs & Hs' & Hs1 & Hs2).
  exists (p', mkTables tr' ts'). split; [|split; [exact Hp'|split; by apply new_table_view]].
  unfold myjql_init, idx, ext, in_rec, in_str, zoom, mbind, M_bind.
  cbn [no_files rec_idx rec_data rec_fsm str_data str_fsm fst snd tbl_rec tbl_str].
  rewrite Hp. cbn [fst snd tbl_rec tbl_str]. rewrite Hr. cbn [fst snd tbl_rec tbl_str]. by rewrite Hs.
Qed.

End new.

(** the limits of a new store for keys of at most [L] characters *)
Definition new_limits (fuel L : nat) : limits := Limits 1 (new_ops fuel) 122 122 128 L.

Lemma no_contents L : contents L no_nodes ∅ ∅ ∅ None.
Proof.
  exists [], ∅, ∅. split; [constructor|].
  - constructor; [done|done|done|constructor|intros _; by left|done].
  - intros r k H. by rewrite lookup_empty in H.
  - by intros r []%not_elem_of_nil.
  - apply stands_nil.
Qed.

Lemma store_init_run s fuel L : jql_space s → (128 < fuel)%nat →
  ∃ s', myjql_init no_files s = Ok (tt, s') ∧ store fuel s' ∅ (new_limits fuel L).
Proof.
  intros Hs Hf. destruct (views_init_run fuel paged_supply s Hs Hf) as (s' & Hrun & Hi & Ht). exists s'. split; [done|].
  exists no_nodes, None, ∅, ∅. cbn [new_limits l_ops l_rec l_str l_len l_depth l_key].
  split; [exact Hi|]. split; [exact Ht|]. split; [apply no_contents|]. split; [|by vm_compute].
  cbn [no_nodes i_hits]. unfold new_ops, SIZE_MAX. lia.
Qed.

(** ** The properties *)

(** C4: [myjql_set] refines insertion into the finite map, for every key, over
    tables of any number of pages and an index of any depth, as long as the
    limits of the store are not used up.  A new key has its two strings written to the string table, a record of both
    to the record table, and the record to the index, splitting nodes and
    copying a key where needed.  For a key that is there, the string of the old
    value is freed, its record leaves the index, joining nodes where needed,
    and a record with the new value takes its place.  Afterwards the store
    holds the map with the pair, and every other pair as before, although the
    index copied, freed and moved records.  The limits are on the depth of the
    index, the operations, and the free bytes of the pages the tables have, which
    keep the searches for a page from failing; they say what is left. *)
Theorem myjql_set_stores s D lim k pad v padv fuel junk_rec junk :
  store fuel s D lim → set_fits fuel lim k v (D !! k) → length junk_rec = 20%nat → length junk = 32%nat →
  ∃ s', myjql_set fuel junk_rec junk (k ++ pad) (Z.of_nat (length k)) (v ++ padv) (Z.of_nat (length v)) s = Ok (tt, s') ∧
    store fuel s' (<[k:=v]> D) (set_limits fuel lim k v (D !! k)).
Proof. intros Hs Hf Hjr Hj. by apply set_run. Qed.

(** C11: what is set is got, in a store of any number of pages and an index of any
    depth whose limits allow both calls: after [myjql_set], whether the key was new or not,
    [myjql_get] of a key [k'] returns the value in the new map: the value that
    was set, for the key that was set, and for any other key what the map had
    before. *)
Theorem set_then_get s D lim k pad v padv fuel junk_rec junk k' pad' dest max :
  store fuel s D lim → set_fits fuel lim k v (D !! k) → length junk_rec = 20%nat → length junk = 32%nat →
  get_fits fuel (set_limits fuel lim k v (D !! k)) k' dest max (if decide (k' = k) then Some v else D !! k') →
  ∃ s' s'', myjql_set fuel junk_rec junk (k ++ pad) (Z.of_nat (length k)) (v ++ padv) (Z.of_nat (length v)) s = Ok (tt, s') ∧
    myjql_get fuel junk_rec junk (k' ++ pad') (Z.of_nat (length k')) dest max s' =
      Ok (get_result (if decide (k' = k) then Some v else D !! k') dest max, s'').
Proof.
  intros Hs Hf Hjr Hj Hg. destruct (set_run fuel junk_rec junk Hjr Hj s D lim k pad v padv Hs Hf) as (s' & Hrun & Hs').
  assert (<[k:=v]> D !! k' = if decide (k' = k) then Some v else D !! k') as E.
  { destruct (decide (k' = k)) as [->|Hne]; [apply lookup_insert_eq|by apply lookup_insert_ne]. }
  rewrite <- E in Hg |- *.
  destruct (get_run fuel junk_rec junk Hjr Hj s' _ _ k' pad' dest max Hs' Hg) as (s'' & Hrun2 & _). by exists s', s''.
Qed.

(** C5: [myjql_del] refines deletion from the finite map, over tables of any number
    of pages and an index of any depth, within the limits: the record of the key
    leaves the index, where nodes are joined and copies of keys are made and
    freed, its strings and the record itself are freed, and every other pair is
    as before; for a key that is not there the store stays as it is. *)
Theorem myjql_del_removes s D lim k pad fuel junk_rec junk :
  store fuel s D lim → del_fits fuel lim k (D !! k) → length junk_rec = 20%nat → length junk = 32%nat →
  ∃ s', myjql_del fuel junk_rec junk (k ++ pad) (Z.of_nat (length k)) s = Ok (tt, s') ∧
    store fuel s' (delete k D) (del_limits fuel lim k (D !! k)).
Proof. intros Hs Hf Hjr Hj. by apply del_run. Qed.

(** A store created where no file exists holds the empty finite map, and has
    room for its first strings. *)
Theorem myjql_init_store s fuel L : jql_space s → (128 < fuel)%nat →
  ∃ s', myjql_init no_files s = Ok (tt, s') ∧ store fuel s' ∅ (new_limits fuel L).
Proof. apply store_init_run. Qed.

(** ** Examples *)

Lemma myjql_init_store_witness :
  ∃ s', myjql_init no_files blank_jql = Ok (tt, s') ∧ store 300 s' ∅ (new_limits 300 5).
Proof. apply (myjql_init_store blank_jql 300 5 blank_jql_space). lia. Defined.

(** limits are evaluated *)
Ltac fits := repeat split; vm_compute; solve [lia | discriminate].

(** the key [k] with the value [vv] *)
Lemma first_set_fits : set_fits 300 (new_limits 300 5) [x6b] [x76; x76] None.
Proof. constructor; fits. Qed.

(** the pair is in the store *)
Definition one_pair : contents_map := <[[x6b] := [x76; x76]]> ∅.
Definition one_limits : limits := set_limits 300 (new_limits 300 5) [x6b] [x76; x76] None.

Lemma one_pair_store : ∃ s, store 300 s one_pair one_limits.
Proof.
  destruct (store_init_run blank_jql 300 5 blank_jql_space) as (s & _ & Hs); [lia|].
  destruct (set_run 300 (replicate 20 x00) (replicate 32 x00) eq_refl eq_refl
    s ∅ (new_limits 300 5) [x6b] [x00] [x76; x76] [x00] Hs) as (s' & _ & H); [rewrite lookup_empty; exact first_set_fits|].
  rewrite lookup_empty in H. by exists s'.
Qed.

Lemma myjql_get_looks_up_witness : ∃ s s', let n := l_ops one_limits in
  database s one_pair 2 n ∧
  myjql_get 300 (replicate 20 x00) (replicate 32 x00) ([x6b] ++ [x00]) 1 (replicate 5 x2a) 5 s =
    Ok (get_result (one_pair !! [x6b]) (replicate 5 x2a) 5, s') ∧
  database s' one_pair 2 (n - get_cost 1 (length (default [] (one_pair !! [x6b]))) 2).
Proof.
  destruct one_pair_store as (s & Hs). pose proof (store_database _ _ _ _ Hs) as Hd.
  destruct (myjql_get_looks_up s one_pair 2 _ [x6b] [x00] (replicate 5 x2a) 5 300 (replicate 20 x00) (replicate 32 x00) Hd) as (s' & H1 & H2).
  - done.
  - done.
  - cbn. lia.
  - cbn. lia.
  - unfold one_pair. rewrite lookup_insert_eq. cbn. lia.
  - cbn. lia.
  - vm_compute. discriminate.
  - exists s, s'. cbv zeta. split; [exact Hd|]. split; [exact H1|exact H2].
Defined.
