(* ===== verification/MyjqlSession.v ===== *)
(** Sessions: any sequence of calls of the store behaves as the same sequence
    on a finite map.  What a session asks of a store is the interface
    [MapStore]; the predicate [store], with its limits, is one implementation,
    that of a small store another. *)
From stdpp Require Import base gmap list fin_maps.
From Stdlib Require Import ZArith Lia Strings.Byte.
From S2P Require Import Prelude FileIO BufferPool PoolLogic Table HeapStore TableRoom StrWrite.
From S2P Require Import BTree NodeSpec TreeSpec Myjql MyjqlGet MyjqlInit MyjqlMap MyjqlStore MyjqlSetProps.
#[local] Open Scope Z_scope.

(** ** Calls *)

(** a call of the store: the key and the value are at the start of buffers that
    go on with [pad] and [padv], and a value is read into [dest] *)
Inductive store_call :=
  | CSet (k pad v padv : list byte)
  | CDel (k pad : list byte)
  | CGet (k pad dest : list byte) (max : Z).

(** *** What the program does *)

Section program.
Context (fuel : nat) (junk_rec junk : list byte).

(** the result of [myjql_get], and the buffer it wrote to *)
Definition run_call (c : store_call) : M Jql (list (Z * list byte)) :=
  match c with
  | CSet k pad v padv =>
      myjql_set fuel junk_rec junk (k ++ pad) (Z.of_nat (length k)) (v ++ padv) (Z.of_nat (length v));; mret []
  | CDel k pad => myjql_del fuel junk_rec junk (k ++ pad) (Z.of_nat (length k));; mret []
  | CGet k pad dest max =>
      r ← myjql_get fuel junk_rec junk (k ++ pad) (Z.of_nat (length k)) dest max; mret [r]
  end.

Fixpoint run_calls (cs : list store_call) : M Jql (list (Z * list byte)) :=
  match cs with
  | [] => mret []
  | c :: cs => r ← run_call c; rs ← run_calls cs; mret (r ++ rs)
  end.
End program.

(** *** What the finite map says *)

Definition call_map (D : contents_map) (c : store_call) : contents_map :=
  match c with
  | CSet k _ v _ => <[k:=v]> D
  | CDel k _ => delete k D
  | CGet _ _ _ _ => D
  end.

Definition call_answer (D : contents_map) (c : store_call) : list (Z * list byte) :=
  match c with CGet k _ dest max => [get_result (D !! k) dest max] | _ => [] end.

Fixpoint session_map (D : contents_map) (cs : list store_call) : contents_map :=
  match cs with [] => D | c :: cs => session_map (call_map D c) cs end.

Fixpoint session_answers (D : contents_map) (cs : list store_call) : list (Z * list byte) :=
  match cs with [] => [] | c :: cs => call_answer D c ++ session_answers (call_map D c) cs end.

(** *** What a store promises

    The terms of a store: when the state [s] holds the map [D] with the account
    [l], when a call is certain to succeed, and the account after it. *)
Record store_terms (A : Type) := StoreTerms {
  ms_holds : Jql → contents_map → A → Prop;
  ms_fits : A → contents_map → store_call → Prop;
  ms_spend : A → contents_map → store_call → A;
}.
#[global] Arguments StoreTerms {_} _ _ _.
#[global] Arguments ms_holds {_} _ _ _ _.
#[global] Arguments ms_fits {_} _ _ _ _.
#[global] Arguments ms_spend {_} _ _ _ _.

Section terms.
Context {A : Type} (T : store_terms A).

Fixpoint calls_fit (l : A) (D : contents_map) (cs : list store_call) : Prop :=
  match cs with
  | [] => True
  | c :: cs => ms_fits T l D c ∧ calls_fit (ms_spend T l D c) (call_map D c) cs
  end.

Fixpoint calls_spend (l : A) (D : contents_map) (cs : list store_call) : A :=
  match cs with
  | [] => l
  | c :: cs => calls_spend (ms_spend T l D c) (call_map D c) cs
  end.
End terms.

(** each call does what the map says, on the terms [T] *)
Class MapStore {A : Type} (T : store_terms A) (fuel : nat) (junk_rec junk : list byte) : Prop := {
  ms_call : ∀ s D l c, ms_holds T s D l → ms_fits T l D c →
    ∃ s', run_call fuel junk_rec junk c s = Ok (call_answer D c, s') ∧
      ms_holds T s' (call_map D c) (ms_spend T l D c);
  (** no value is empty *)
  ms_nonempty : ∀ s D l k, ms_holds T s D l → D !! k ≠ Some [];
  (** what a value is read into does not matter, but for its length *)
  ms_dest : ∀ l D k pad dest dest' max, length dest = length dest' →
    (ms_fits T l D (CGet k pad dest max) → ms_fits T l D (CGet k pad dest' max)) ∧
    ms_spend T l D (CGet k pad dest max) = ms_spend T l D (CGet k pad dest' max);
}.

Section session.
Context {A : Type} (T : store_terms A) (fuel : nat) (junk_rec junk : list byte) {HT : MapStore T fuel junk_rec junk}.

Lemma calls_run cs : ∀ s D l, ms_holds T s D l → calls_fit T l D cs →
  ∃ s', run_calls fuel junk_rec junk cs s = Ok (session_answers D cs, s') ∧
    ms_holds T s' (session_map D cs) (calls_spend T l D cs).
Proof using HT.
  induction cs as [|c cs IH]; intros s D l Hs Hfits; cbn [run_calls session_answers session_map calls_spend] in *.
  { by exists s. }
  destruct Hfits as [Hc Hcs]. destruct (ms_call s D l c Hs Hc) as (s1 & Hrun & Hs1).
  destruct (IH s1 _ _ Hs1 Hcs) as (s2 & Hrun2 & Hs2). exists s2. split; [|done].
  by rewrite (bind_ok _ _ _ _ _ Hrun), (bind_ok _ _ _ _ _ Hrun2).
Qed.
End session.

(** ** A store with limits *)

Definition call_limits (fuel : nat) (lim : limits) (D : contents_map) (c : store_call) : limits :=
  match c with
  | CSet k _ v _ => set_limits fuel lim k v (D !! k)
  | CDel k _ => del_limits fuel lim k (D !! k)
  | CGet k _ _ _ => get_limits lim k (D !! k)
  end.

Definition call_fits (fuel : nat) (lim : limits) (D : contents_map) (c : store_call) : Prop :=
  match c with
  | CSet k _ v _ => set_fits fuel lim k v (D !! k)
  | CDel k _ => del_fits fuel lim k (D !! k)
  | CGet k _ dest max => get_fits fuel lim k dest max (D !! k)
  end.

Definition limited (fuel : nat) : store_terms limits := StoreTerms (store fuel) (call_fits fuel) (call_limits fuel).

Definition session_fits (fuel : nat) : limits → contents_map → list store_call → Prop := calls_fit (limited fuel).
Definition session_limits (fuel : nat) : limits → contents_map → list store_call → limits := calls_spend (limited fuel).

Section limited.
Context (fuel : nat) (junk_rec junk : list byte).
Context (Hjr : length junk_rec = 20%nat) (Hj : length junk = 32%nat).

Lemma call_run s D lim c : store fuel s D lim → call_fits fuel lim D c →
  ∃ s', run_call fuel junk_rec junk c s = Ok (call_answer D c, s') ∧
    store fuel s' (call_map D c) (call_limits fuel lim D c).
Proof using Hjr Hj.
  intros Hs Hc. destruct c as [k pad v padv|k pad|k pad dest max]; cbn [call_fits call_map call_answer call_limits run_call] in *.
  - destruct (set_run fuel junk_rec junk Hjr Hj s D lim k pad v padv Hs Hc) as (s' & Hrun & Hs').
    exists s'. by rewrite (bind_ok _ _ _ _ _ Hrun).
  - destruct (del_run fuel junk_rec junk Hjr Hj s D lim k pad Hs Hc) as (s' & Hrun & Hs').
    exists s'. by rewrite (bind_ok _ _ _ _ _ Hrun).
  - destruct (get_run fuel junk_rec junk Hjr Hj s D lim k pad dest max Hs Hc) as (s' & Hrun & Hs').
    exists s'. by rewrite (bind_ok _ _ _ _ _ Hrun).
Qed.

#[export] Instance limited_store : MapStore (limited fuel) fuel junk_rec junk.
Proof using Hjr Hj.
  constructor; cbn [limited ms_holds ms_fits ms_spend].
  - apply call_run.
  - intros s D l k (g & o & Hr & Hs & _ & _ & Hc & _). by eapply contents_nonempty.
  - intros l D k pad dest dest' max E. split; [|done]. intros [H1 H2 H3]. constructor; [done|by rewrite <- E|done].
Qed.

Lemma session_run cs s D lim : store fuel s D lim → session_fits fuel lim D cs →
  ∃ s', run_calls fuel junk_rec junk cs s = Ok (session_answers D cs, s') ∧
    store fuel s' (session_map D cs) (session_limits fuel lim D cs).
Proof using Hjr Hj. intros Hs Hfits. exact (calls_run (limited fuel) fuel junk_rec junk cs s D lim Hs Hfits). Qed.
End limited.

(** Every session of the store, from a store that has just been created, is
    a session of a finite map: whatever sequence of [myjql_set], [myjql_get]
    and [myjql_del] the limits allow, each [myjql_get] returns what the same
    sequence of insertions and deletions leaves under its key, and the store
    holds the map at the end. *)
Theorem store_session fuel junk_rec junk L cs s :
  jql_space s → (128 < fuel)%nat → length junk_rec = 20%nat → length junk = 32%nat →
  session_fits fuel (new_limits fuel L) ∅ cs →
  ∃ s', (myjql_init no_files;; run_calls fuel junk_rec junk cs) s = Ok (session_answers ∅ cs, s') ∧
    store fuel s' (session_map ∅ cs) (session_limits fuel (new_limits fuel L) ∅ cs).
Proof.
  intros Hs Hf Hjr Hj Hfits. destruct (store_init_run s fuel L Hs Hf) as (s1 & Hrun1 & Hs1).
  destruct (session_run fuel junk_rec junk Hjr Hj cs s1 _ _ Hs1 Hfits) as (s2 & Hrun2 & Hs2).
  exists s2. split; [|done]. unfold mbind, M_bind. by rewrite Hrun1.
Qed.

(** the key [k] gets a value, loses it, and another key [j] gets one *)
Definition short_session : list store_call :=
  [CSet [x6b] [x00] [x76] [x00]; CGet [x6b] [x00] (replicate 3 x2a) 3;
   CDel [x6b] [x00]; CGet [x6b] [x00] (replicate 3 x2a) 3;
   CSet [x6a] [x00] [x77] [x00]; CGet [x6a] [x00] (replicate 3 x2a) 1].

Lemma store_session_witness : ∃ s,
  (myjql_init no_files;; run_calls 300 (replicate 20 x00) (replicate 32 x00) short_session) blank_jql =
    Ok ([(1, [x76; x00; x2a]); (SIZE_MAX, [x2a; x2a; x2a]); (1, [x77; x2a; x2a])], s) ∧
  store 300 s (session_map ∅ short_session) (session_limits 300 (new_limits 300 1) ∅ short_session).
Proof.
  destruct (store_session 300 (replicate 20 x00) (replicate 32 x00) 1 short_session blank_jql blank_jql_space)
    as (s & H1 & H2).
  - lia.
  - done.
  - done.
  - repeat split; vm_compute; solve [lia | discriminate].
  - exists s. split; [exact H1|exact H2].
Defined.
