(* ===== verification/MyjqlHang.v ===== *)
(** Two keys and five calls of [myjql_set] on a new store, of which the last
    one never returns: the store is correct within its limits
    ([MyjqlSession], [MyjqlSmall]), and this is what lies beyond them. *)
From stdpp Require Import base gmap list.
From Stdlib Require Import ZArith Lia Strings.Byte.
From S2P Require Import Prelude FileIO BufferPool Block HashMap HashMapProps Table Str BTree Myjql MyjqlInit MyjqlSession.
#[local] Open Scope Z_scope.

(** what the uninitialised local variables hold *)
Definition zero_record : list byte := replicate 20 x00.
Definition zero_chunk : list byte := replicate 32 x00.

Definition key_b : list byte := replicate 20 x62.
Definition key_c : list byte := replicate 3 x63.
Definition text_v (n : nat) : list byte := replicate n x76.

(** the second key is set once, the first one three times *)
Definition four_sets : list store_call :=
  [CSet key_c [x00] (text_v 20) [x00]; CSet key_b [x00] (text_v 20) [x00];
   CSet key_c [x00] (text_v 18) [x00]; CSet key_c [x00] (text_v 12) [x00]].
(** ... and the second one again *)
Definition fifth_set : store_call := CSet key_b [x00] (text_v 9) [x00].

(** the state after a run that answers *)
Definition state_of {A} (r : res (A * Jql)) : Jql :=
  match r with Ok (_, s) => s | _ => blank_jql end.

(** ** The first four calls *)

Definition four_sets_state : Jql :=
  Eval vm_compute in state_of ((myjql_init no_files;; run_calls 200 zero_record zero_chunk four_sets) blank_jql).

Lemma four_sets_run f :
  (myjql_init no_files;; run_calls (200 + f) zero_record zero_chunk four_sets) blank_jql =
    Ok ([], four_sets_state).
Proof. vm_compute. reflexivity. Qed.

(** ** The fifth call, up to its write

    The search finds the record of the second key, and the old value of that
    record is read and deleted. *)
Definition old_found (fuel : nat) (jr j k pad : list byte) : M Jql (RID * Record) :=
  bp_result ← b_tree_search (ptr_row_cmp fuel jr j (k ++ pad) (Z.of_nat (length k))) fuel;
  record ← ext (in_rec (read_record jr bp_result));
  ext (in_str (delete_string fuel j (value record)));;
  mret (bp_result, record).

(** the call does not return when it cannot write the new value *)
Lemma set_no_fuel fuel jr j k pad v padv s bp record s' :
  old_found fuel jr j k pad s = Ok ((bp, record), s') → not_found bp = false →
  write_string fuel j (v ++ padv) (Z.of_nat (length v)) (tbl_str s'.2) = NoFuel →
  run_call fuel jr j (CSet k pad v padv) s = NoFuel.
Proof.
  intros H Hf Hw. unfold old_found in H.
  destruct (bind_run _ _ _ _ H) as (bp' & s1 & H1 & H'). clear H.
  destruct (bind_run _ _ _ _ H') as (record' & s2 & H2 & H''). clear H'.
  destruct (bind_run _ _ _ _ H'') as (u & s3 & H3 & Hr). injection Hr as -> -> ->.
  cbn [run_call]. apply bind_no_fuel.
  unfold myjql_set. rewrite (bind_ok _ _ _ _ _ H1), Hf. unfold set_old.
  rewrite (bind_ok _ _ _ _ _ H2), (bind_ok _ _ _ _ _ H3).
  by apply bind_no_fuel, zoom_no_fuel, zoom_no_fuel.
Qed.

Definition value_deleted : Jql := Eval vm_compute in state_of (old_found 200 zero_record zero_chunk key_b [x00] four_sets_state).
Definition found : RID * Record :=
  (mkRID 0 1, mkRecord (mkRID 0 2) (mkRID 128 0)).

Lemma old_found_run f : old_found (200 + f) zero_record zero_chunk key_b [x00] four_sets_state = Ok (found, value_deleted).
Proof. vm_compute. reflexivity. Qed.

(** ** The search for a page of the string table

    The map has lost its control page: the page holds the chain field -1 and
    the counts zero. *)
Definition damaged_map : BufferPool := Eval vm_compute in fsm_pool (tbl_str value_deleted.2).

Lemma search_reaches_circle : ∃ p,
  (∀ f, hash_table_pop_lower_bound (200 + f) 25 damaged_map =
    (pop_loop (200 + f) 25 0 (-1) (-1);; mret 0) p) ∧
  circle p 0 [-1; 0] = true.
Proof.
  eexists. split.
  - intros f. unfold hash_table_pop_lower_bound, hash_table_pop. generalize (pop_loop (200 + f)).
    intros loop. vm_compute. reflexivity.
  - vm_compute. reflexivity.
Qed.

Lemma search_never_returns f : hash_table_pop_lower_bound (200 + f) 25 damaged_map = NoFuel.
Proof.
  destruct search_reaches_circle as (p & -> & Hc). unfold mbind, M_bind.
  by rewrite (circle_never_ends _ _ _ _ _ _ _ Hc) by (by left).
Qed.

(** ** The fifth call *)

Lemma write_never_returns f :
  write_string (200 + f) zero_chunk (text_v 9 ++ [x00]) (Z.of_nat (length (text_v 9))) (tbl_str value_deleted.2) = NoFuel.
Proof.
  unfold write_string.
  erewrite bind_ok by (vm_compute; reflexivity).
  apply bind_no_fuel. unfold table_insert. apply bind_no_fuel, zoom_no_fuel. 
  exact (search_never_returns f).
Qed.

Lemma fifth_set_never_returns f : run_call (200 + f) zero_record zero_chunk fifth_set four_sets_state = NoFuel.
Proof.
  exact (set_no_fuel _ _ _ _ _ _ _ _ _ _ _ (old_found_run f) eq_refl (write_never_returns f)).
Qed.

Lemma run_calls_snoc fuel jr j cs c : ∀ s rs s', run_calls fuel jr j cs s = Ok (rs, s') →
  run_call fuel jr j c s' = NoFuel → run_calls fuel jr j (cs ++ [c]) s = NoFuel.
Proof.
  induction cs as [|d cs IH]; intros s rs s' H Hc; cbn [run_calls app] in *.
  - injection H as <- <-. by apply bind_no_fuel.
  - destruct (bind_run _ _ _ _ H) as (r & s1 & H1 & H'). rewrite (bind_ok _ _ _ _ _ H1).
    destruct (bind_run _ _ _ _ H') as (r' & s2 & H2 & [= _ <-]). apply bind_no_fuel. by eapply IH.
Qed.

(** the calls that read the two keys *)
Definition two_gets : list store_call :=
  [CGet key_c [x00] (replicate 32 x2a) 32; CGet key_b [x00] (replicate 32 x2a) 32].

(** C26: the store can stop answering: after four calls of [myjql_set] on a new
    store, with two keys of 3 and 20 characters and values of at most 20, both
    keys read back what was set last; the fifth call, which gives the second key
    a value of 9 characters, does not return, however many steps it is given.
    The map of free space of the string table has lost its control page, which
    was used without being pinned, and the search for room goes round two
    blocks. *)
Theorem five_sets_never_return f :
  (∃ s, (myjql_init no_files;; run_calls (200 + f) zero_record zero_chunk (four_sets ++ two_gets)) blank_jql =
    Ok (session_answers ∅ (four_sets ++ two_gets), s)) ∧
  (myjql_init no_files;; run_calls (200 + f) zero_record zero_chunk (four_sets ++ [fifth_set])) blank_jql =
    NoFuel.
Proof.
  split; [eexists; vm_compute; reflexivity|].
  destruct (bind_run _ _ _ _ (four_sets_run f)) as (u & s & H1 & H2). rewrite (bind_ok _ _ _ _ _ H1).
  eapply run_calls_snoc; [exact H2|]. exact (fifth_set_never_returns f).
Qed.
