(* ===== verification/MyjqlDurable.v ===== *)
(** Durability: [myjql_close] leaves the whole store in its five files, and
    [myjql_init] on these files, in any memory, gives the store back. *)
From stdpp Require Import base gmap list fin_maps.
From Stdlib Require Import ZArith Lia Strings.Byte.
From S2P Require Import Prelude FileIO BufferPool PoolLogic PoolClient PoolDurable HashMap HashMapSpec HashMapPop Table HeapStore TableSpec TableHeap HeapWrite TableRoom.
From S2P Require Import BTree NodeSpec TreeSpec BTreeInsertSpec Myjql MyjqlGet MyjqlInit MyjqlOwners MyjqlWrite MyjqlMap MyjqlStore MyjqlSetProps MyjqlSession.
#[local] Open Scope Z_scope.

(** what the path of a pool's file names once the pool is closed *)
Definition path_of (p : BufferPool) : PathState :=
  match fp (file p) with Some f => HasFile (f_content f) | None => NoFile end.
Definition files_of (s : Jql) : Files :=
  mkFiles (path_of s.1)
    (path_of (data_pool (tbl_rec s.2))) (path_of (fsm_pool (tbl_rec s.2)))
    (path_of (data_pool (tbl_str s.2))) (path_of (fsm_pool (tbl_str s.2))).

(** [myjql_init] in the memory [q], on the files the store was closed to *)
Definition reopen (q : Jql) : M Jql unit := λ s, myjql_init (files_of s) q.
(** the store is closed, and opened again by a process with the memory [q] *)
Definition restart (q : Jql) : M Jql unit :=
  myjql_close;; reopen q.

(** ** One pool *)

Lemma close_run p g : pool_rep p g →
  ∃ p', close_buffer_pool p = Ok (tt, p') ∧
    ∀ q, pool_space q → ∃ q', init_buffer_pool (path_of p') q = Ok (tt, q') ∧
      pool_rep q' (PState (mem g) (plen g) ∅ (SIZE_MAX - 1)).
Proof.
  intros Hr. destruct (close_open_run p g Hr) as (p' & f & Hc & Hf & Hi). exists p'. split; [done|].
  unfold path_of. by rewrite Hf.
Qed.

(** an index and a map of free space that exist are opened like a pool *)
Lemma b_tree_init_existing path q q' g : init_buffer_pool path q = Ok (tt, q') → pool_rep q' g → plen g ≠ 0 →
  b_tree_init path q = Ok (tt, q').
Proof.
  intros Hi Hr Hl. unfold b_tree_init. rewrite (bind_ok _ _ _ _ _ Hi).
  unfold file_length, gets, mbind, M_bind. rewrite (proj1 (r_plen _ _ Hr)).
  by rewrite (proj2 (Z.eqb_neq _ _) Hl).
Qed.

Lemma hash_table_init_existing path n q q' g : init_buffer_pool path q = Ok (tt, q') → pool_rep q' g → plen g ≠ 0 →
  hash_table_init path n q = Ok (tt, q').
Proof.
  intros Hi Hr Hl. unfold hash_table_init. rewrite (bind_ok _ _ _ _ _ Hi).
  unfold file_length, gets, mbind, M_bind. rewrite (proj1 (r_plen _ _ Hr)).
  by rewrite (proj2 (Z.eqb_neq _ _) Hl).
Qed.

(** ** One table *)

Section table.
Context (fuel : nat) (S : Table → heap → Z → Prop) {HS : PageSupply S}.
#[local] Abbreviation holds_view := (@rep _ _ (pages_wview fuel S)).

Lemma table_restart t v : holds_view t v →
  ∃ t', table_close t = Ok (tt, t') ∧
    ∀ u, pool_space (data_pool u) → pool_space (fsm_pool u) →
      ∃ u', table_init (path_of (data_pool t')) (path_of (fsm_pool t')) u = Ok (tt, u') ∧ holds_view u' v.
Proof using HS.
  intros (T & ([gd gf] & [Hrd Hrf] & Hd & Hnd & Hnf & Hpf & h & Hf & Hag) & HT & Hsup & Hb). cbn [fst snd] in *.
  destruct (close_run _ _ Hrd) as (pd & Hcd & Hod), (close_run _ _ Hrf) as (pf & Hcf & Hof).
  exists (mkTable pd pf). split.
  { unfold table_close, in_data, in_fsm, hash_table_close, zoom, mbind, M_bind. rewrite Hcd. cbn [set_data_pool fsm_pool]. by rewrite Hcf. }
  intros u Hu1 Hu2. destruct (Hod _ Hu1) as (qd & Hid & Hqd), (Hof _ Hu2) as (qf & Hif & Hqf).
  exists (mkTable qd qf). split.
  { unfold table_init, in_data, in_fsm, zoom, mbind, M_bind. cbn [data_pool fsm_pool]. rewrite Hid. cbn [set_data_pool fsm_pool].
    rewrite (hash_table_init_existing _ _ _ _ _ Hif Hqf); [done|].
    destruct (f_max _ _ _ Hf) as (Hm & _ & Hl). cbn [plen]. unfold FIRST_BLOCK in Hm. lia. }
  pose proof (r_hits _ _ Hrd) as Hhd. pose proof (r_hits _ _ Hrf) as Hhf.
  exists T. split; [|split; [done|split]].
  - eexists (_, _). split; [split; [exact Hqd|exact Hqf]|]. split; [|split; [|split; [|split; [done|by exists h]]]].
    + destruct Hd as [_ Hp Hdom]. by constructor.
    + cbn [fst hits]. lia.
    + cbn [snd hits]. lia.
  - eapply sup_pool; [exact Hsup|]. intros _ Hl g Hg. rewrite (pool_rep_mem _ _ _ Hqf Hg). apply (Hl gf Hrf).
  - unfold growth_bounds, data_len, fsm_len in *. cbn [data_pool fsm_pool].
    rewrite (proj1 (r_plen _ _ Hqd)), (proj1 (r_plen _ _ Hqf)). cbn [plen].
    by rewrite (proj1 (r_plen _ _ Hrd)), (proj1 (r_plen _ _ Hrf)) in Hb.
Qed.
End table.

(** ** The store *)

Lemma index_restart p g : rep p g → 
  ∃ p', b_tree_close p = Ok (tt, p') ∧
    ∀ q, pool_space q → ∃ q', b_tree_init (path_of p') q = Ok (tt, q') ∧
      rep q' (IPool (i_root g) (i_free g) (i_nodes g) (i_len g) ∅ (SIZE_MAX - 1)).
Proof.
  intros (m & Hr & (pg & H0 & H1 & H2) & Hn). destruct (close_run _ _ Hr) as (p' & Hc & Ho).
  exists p'. split; [done|]. intros q Hq. destruct (Ho q Hq) as (q' & Hi & Hq'). exists q'. split.
  - eapply b_tree_init_existing; [exact Hi|exact Hq'|]. cbn [plen].
    destruct (proj1 (r_dom _ _ Hr 0) (ex_intro _ pg H0)) as [Hlt _]. cbn [plen] in Hlt. lia.
  - exists m. split; [exact Hq'|]. split; [by exists pg|done].
Qed.

Section restart.
Context (fuel : nat) (S : Table → heap → Z → Prop) {HS : PageSupply S}.
#[local] Abbreviation tables_view := (@rep _ _ (@jview_Rep (pages_wview fuel S))).

(** the index and the two tables come back, with every access of the index *)
Lemma views_restart s g v q : rep s.1 g → tables_view s.2 v → jql_space q →
  ∃ s', restart q s = Ok (tt, s') ∧ tables_view s'.2 v ∧
    rep s'.1 (IPool (i_root g) (i_free g) (i_nodes g) (i_len g) ∅ (SIZE_MAX - 1)).
Proof using HS.
  intros Hg [Ht1 Ht2] (Q1 & Q2 & Q3 & Q4 & Q5).
  destruct s as [p [tr ts]], q as [qi [qr qs]]. cbn [fst snd tbl_rec tbl_str] in *.
  destruct (index_restart _ _ Hg) as (p' & Hc1 & Ho1). destruct (Ho1 _ Q1) as (q1 & Hi1 & Hq1).
  destruct (table_restart fuel S _ _ Ht1) as (tr' & Hc2 & Ho2). destruct (Ho2 _ Q2 Q3) as (q2 & Hi2 & Hq2).
  destruct (table_restart fuel S _ _ Ht2) as (ts' & Hc3 & Ho3). destruct (Ho3 _ Q4 Q5) as (q3 & Hi3 & Hq3).
  exists (q1, mkTables q2 q3). split; [|split; [by split|exact Hq1]].
  assert (myjql_close (p, mkTables tr ts) = Ok (tt, (p', mkTables tr' ts'))) as Hclose.
  { unfold myjql_close, idx, ext, in_rec, in_str, zoom, mbind, M_bind. cbn [fst snd tbl_rec tbl_str].
    rewrite Hc1. cbn [fst snd tbl_rec tbl_str]. rewrite Hc2. cbn [fst snd tbl_rec tbl_str]. by rewrite Hc3. }
  unfold restart. rewrite (bind_ok _ _ _ _ _ Hclose).
  unfold reopen, myjql_init, files_of, idx, ext, in_rec, in_str, zoom, mbind, M_bind.
  cbn [rec_idx rec_data rec_fsm str_data str_fsm fst snd tbl_rec tbl_str].
  rewrite Hi1. cbn [fst snd tbl_rec tbl_str]. rewrite Hi2. cbn [fst snd tbl_rec tbl_str]. by rewrite Hi3.
Qed.

End restart.

Lemma contents_hits L g Hr Hs D o h : contents L g Hr Hs D o →
  contents L (IPool (i_root g) (i_free g) (i_nodes g) (i_len g) ∅ h) Hr Hs D o.
Proof.
  intros (fl & keys & O & [Hidx Hrecs Hcop] & Hst). exists fl, keys, O. split; [|done].
  constructor; [|done|done]. by apply index_holds_hits.
Qed.

Lemma pool_hits p g : rep p g → i_hits g <= SIZE_MAX - 1.
Proof. intros (m & Hm & _). pose proof (r_hits _ _ Hm) as Hh. cbn [hits] in Hh. lia. Qed.

Lemma restart_run fuel s D lim q : store fuel s D lim → jql_space q →
  ∃ s', restart q s = Ok (tt, s') ∧ store fuel s' D lim.
Proof.
  intros (g & o & Hr & Hs & Hg & Ht & Hc & Hh & Hl & Hd) Hq.
  destruct (views_restart fuel paged_supply s g _ q Hg Ht Hq) as (s' & Hrun & Ht' & Hg'). exists s'. split; [done|].
  pose proof (pool_hits _ _ Hg). eexists _, o, Hr, Hs. split; [exact Hg'|]. split; [exact Ht'|].
  split; [by apply contents_hits|]. cbn [i_hits i_len]. split; [lia|done].
Qed.

(** C3: the store is durable: [myjql_close] writes the pages that are in memory to
    the five files, and [myjql_init] on these files, in the memory of another
    process, gives a store with the same map and the same limits, for any
    number of pages of the tables and any depth of the index. *)
Theorem store_closes_and_opens fuel s D lim q : store fuel s D lim → jql_space q →
  ∃ s', restart q s = Ok (tt, s') ∧ store fuel s' D lim.
Proof. apply restart_run. Qed.

(** ** Processes

    A process of the store opens the files that the one before it closed, in a
    memory of its own, and makes its calls. *)

Section run.
Context (fuel : nat) (junk_rec junk : list byte).

Fixpoint run_processes (ps : list (Jql * list store_call)) : M Jql (list (Z * list byte)) :=
  match ps with
  | [] => mret []
  | (q, cs) :: ps =>
      restart q;;
      r ← run_calls fuel junk_rec junk cs;
      rs ← run_processes ps;
      mret (r ++ rs)
  end.
End run.

(** their calls, in order *)
Definition process_calls (ps : list (Jql * list store_call)) : list store_call := concat ps.*2.

Lemma session_answers_app cs cs' : ∀ D,
  session_answers D (cs ++ cs') = session_answers D cs ++ session_answers (session_map D cs) cs'.
Proof. induction cs as [|c cs IH]; intros D; [done|]. cbn. by rewrite IH, app_assoc. Qed.
Lemma session_map_app cs cs' : ∀ D, session_map D (cs ++ cs') = session_map (session_map D cs) cs'.
Proof. induction cs as [|c cs IH]; intros D; [done|]. cbn. by rewrite IH. Qed.

(** closing and opening keeps the map and the account *)
Class DurableStore {A : Type} (T : store_terms A) : Prop :=
  ms_restart s D l q : ms_holds T s D l → jql_space q → ∃ s', restart q s = Ok (tt, s') ∧ ms_holds T s' D l.

#[export] Instance limited_durable fuel : DurableStore (limited fuel).
Proof. intros s D lim q. apply restart_run. Qed.

Section processes.
Context {A : Type} (T : store_terms A) (fuel : nat) (junk_rec junk : list byte).
Context {HT : MapStore T fuel junk_rec junk} {HD : DurableStore T}.

Lemma calls_spend_app cs cs' : ∀ l D,
  calls_spend T l D (cs ++ cs') = calls_spend T (calls_spend T l D cs) (session_map D cs) cs'.
Proof using. clear. induction cs as [|c cs IH]; intros l D; [done|]. cbn. by rewrite IH. Qed.
Lemma calls_fit_app cs cs' : ∀ l D, calls_fit T l D (cs ++ cs') ↔
  calls_fit T l D cs ∧ calls_fit T (calls_spend T l D cs) (session_map D cs) cs'.
Proof using. clear. induction cs as [|c cs IH]; intros l D; cbn; [naive_solver|]. rewrite IH. naive_solver. Qed.

Lemma processes_run ps : ∀ s D l, ms_holds T s D l → Forall (λ qc, jql_space qc.1) ps →
  calls_fit T l D (process_calls ps) →
  ∃ s', run_processes fuel junk_rec junk ps s = Ok (session_answers D (process_calls ps), s') ∧
    ms_holds T s' (session_map D (process_calls ps)) (calls_spend T l D (process_calls ps)).
Proof using HT HD.
  induction ps as [|[q cs] ps IH]; intros s D l Hs Hq Hfits; [by exists s|].
  apply Forall_cons in Hq as [Hq Hqs]. change (process_calls ((q, cs) :: ps)) with (cs ++ process_calls ps) in *.
  apply calls_fit_app in Hfits as [Hf1 Hf2].
  destruct (ms_restart s D l q Hs Hq) as (s1 & H1 & Hs1).
  destruct (calls_run T fuel junk_rec junk cs s1 D l Hs1 Hf1) as (s2 & H2 & Hs2).
  destruct (IH s2 _ _ Hs2 Hqs Hf2) as (s3 & H3 & Hs3). exists s3. split.
  - cbn [run_processes]. rewrite (bind_ok _ _ _ _ _ H1), (bind_ok _ _ _ _ _ H2), (bind_ok _ _ _ _ _ H3).
    by rewrite session_answers_app.
  - by rewrite session_map_app, calls_spend_app.
Qed.

(** the first process creates the store *)
Lemma first_process_run cs ps s l :
  (∃ s1, myjql_init no_files s = Ok (tt, s1) ∧ ms_holds T s1 ∅ l) → Forall (λ qc, jql_space qc.1) ps →
  calls_fit T l ∅ (cs ++ process_calls ps) →
  ∃ s', (myjql_init no_files;; r ← run_calls fuel junk_rec junk cs;
         rs ← run_processes fuel junk_rec junk ps; mret (r ++ rs)) s =
      Ok (session_answers ∅ (cs ++ process_calls ps), s') ∧
    ms_holds T s' (session_map ∅ (cs ++ process_calls ps)) (calls_spend T l ∅ (cs ++ process_calls ps)).
Proof using HT HD.
  intros (s1 & H1 & Hs1) Hps [Hf1 Hf2]%calls_fit_app.
  destruct (calls_run T fuel junk_rec junk cs s1 _ _ Hs1 Hf1) as (s2 & H2 & Hs2).
  destruct (processes_run ps s2 _ _ Hs2 Hps Hf2) as (s3 & H3 & Hs3).
  exists s3. split; [|by rewrite session_map_app, calls_spend_app].
  by rewrite (bind_ok _ _ _ _ _ H1), (bind_ok _ _ _ _ _ H2), (bind_ok _ _ _ _ _ H3), session_answers_app.
Qed.
End processes.

(** The store is durable: a first process creates it and makes its calls;
    each later process opens the files that [myjql_close] left, in any memory,
    and makes its own. Together they answer what a single session of a finite
    map answers, and the store holds that map at the end: closing and opening
    changes nothing. *)
Theorem store_survives_restarts fuel junk_rec junk L cs ps s :
  jql_space s → (128 < fuel)%nat → length junk_rec = 20%nat → length junk = 32%nat →
  Forall (λ qc, jql_space qc.1) ps →
  session_fits fuel (new_limits fuel L) ∅ (cs ++ process_calls ps) →
  ∃ s', (myjql_init no_files;; r ← run_calls fuel junk_rec junk cs;
         rs ← run_processes fuel junk_rec junk ps; mret (r ++ rs)) s =
      Ok (session_answers ∅ (cs ++ process_calls ps), s') ∧
    store fuel s' (session_map ∅ (cs ++ process_calls ps))
      (session_limits fuel (new_limits fuel L) ∅ (cs ++ process_calls ps)).
Proof.
  intros Hs Hf Hjr Hj Hps Hfits. pose proof (limited_store fuel junk_rec junk Hjr Hj) as HT.
  refine (first_process_run (limited fuel) fuel junk_rec junk cs ps s _ _ Hps Hfits). by apply store_init_run.
Qed.

(** a value is stored by one process and read and replaced by the next, and
    the new one read by a third *)
Definition value_of_k : store_call := CGet [x6b] [x00] (replicate 3 x2a) 3.
Definition two_restarts : list (Jql * list store_call) :=
  [(blank_jql, [value_of_k; CSet [x6b] [x00] [x77; x78] [x00]]); (blank_jql, [value_of_k])].

Lemma store_survives_restarts_witness : ∃ s,
  (myjql_init no_files;; r ← run_calls 300 (replicate 20 x00) (replicate 32 x00) [CSet [x6b] [x00] [x76] [x00]];
   rs ← run_processes 300 (replicate 20 x00) (replicate 32 x00) two_restarts; mret (r ++ rs)) blank_jql =
    Ok ([(1, [x76; x00; x2a]); (2, [x77; x78; x00])], s) ∧
  store 300 s (session_map ∅ ([CSet [x6b] [x00] [x76] [x00]] ++ process_calls two_restarts))
    (session_limits 300 (new_limits 300 1) ∅ ([CSet [x6b] [x00] [x76] [x00]] ++ process_calls two_restarts)).
Proof.
  destruct (store_survives_restarts 300 (replicate 20 x00) (replicate 32 x00) 1
    [CSet [x6b] [x00] [x76] [x00]] two_restarts blank_jql blank_jql_space) as (s & H1 & H2).
  - lia.
  - done.
  - done.
  - repeat first [apply Forall_nil; exact I | apply Forall_cons; split; [exact blank_jql_space|]].
  - repeat split; vm_compute; solve [lia | discriminate].
  - exists s. split; [exact H1|exact H2].
Defined.
