(* ===== verification/MyjqlSmall.v ===== *)
(** A small store: while the keys and the values fit one page of the table of
    strings, the bytes of what is replaced or removed are used again, and what
    limits the number of calls is only the fuel and the accesses that the hit
    counters can count. *)
From stdpp Require Import base gmap list fin_maps.
From Stdlib Require Import ZArith Lia Strings.Byte.
From S2P Require Import Prelude FileIO BufferPool PoolLogic PoolClient PoolDurable Table HeapStore TableSpec TableHeap HeapWrite TableRoom Str StrSpec StrWrite.
From S2P Require Import BTree NodeSpec TreeSpec BTreeSearch BTreeInsertSpec BTreeLeaf.
From S2P Require Import Myjql MyjqlGet MyjqlInit MyjqlOwners MyjqlWrite MyjqlWorld MyjqlMap MyjqlSet MyjqlDel MyjqlLeaf MyjqlStore MyjqlSetProps MyjqlSession MyjqlDurable.
#[local] Open Scope Z_scope.

(** ** The bytes of a map *)

(** the bytes of the strings of a pair, and of all pairs *)
Definition pair_bytes (k v : list byte) : Z := string_bytes (length k) + string_bytes (length v).
Definition live_bytes (D : contents_map) : Z := map_fold (λ k v n, pair_bytes k v + n) 0 D.

(** no string is empty *)
Definition full_pairs (D : contents_map) : Prop := map_Forall (λ k v, (0 < length k)%nat ∧ (0 < length v)%nat) D.

Lemma string_bytes_ge n : 0 <= string_bytes n ∧ Z.of_nat n <= string_bytes n ∧ ((0 < n)%nat → 13 <= string_bytes n).
Proof.
  pose proof (chunks_nonneg n). unfold string_bytes. split; [lia|]. split; [lia|]. intros Hn.
  assert (1 <= chunks n); [|lia]. unfold chunks. apply Z.div_le_lower_bound; lia.
Qed.

Section live.
Implicit Types D : contents_map.

Lemma live_insert D k v : D !! k = None → live_bytes (<[k:=v]> D) = live_bytes D + pair_bytes k v.
Proof. intros Hk. unfold live_bytes. rewrite map_fold_insert_L; [lia|intros; lia|done]. Qed.

Lemma live_delete D k v : D !! k = Some v → live_bytes (delete k D) = live_bytes D - pair_bytes k v.
Proof.
  intros Hk. rewrite <- (insert_delete_id D k v Hk) at 2. rewrite live_insert by apply lookup_delete_eq. lia.
Qed.

Lemma live_replace D k v w : D !! k = Some v →
  live_bytes (<[k:=w]> D) = live_bytes D - string_bytes (length v) + string_bytes (length w).
Proof.
  intros Hk. rewrite <- insert_delete_eq, live_insert by apply lookup_delete_eq.
  rewrite (live_delete _ _ _ Hk). unfold pair_bytes. lia.
Qed.

(** each pair has two items *)
Lemma live_size D : full_pairs D → 26 * Z.of_nat (size D) <= live_bytes D.
Proof.
  induction D as [|k v D Hk IH] using map_ind; intros Hf; [done|]. apply map_Forall_insert in Hf as [[H1 H2] Hf]; [|done].
  rewrite map_size_insert_None, live_insert by done. specialize (IH Hf). unfold pair_bytes.
  pose proof (proj2 (proj2 (string_bytes_ge (length k))) H1). pose proof (proj2 (proj2 (string_bytes_ge (length v))) H2). lia.
Qed.

Lemma live_entry D k v : full_pairs D → D !! k = Some v → Z.of_nat (length k) + Z.of_nat (length v) <= live_bytes D.
Proof.
  intros Hf Hk. pose proof (live_size _ (map_Forall_delete _ _ k Hf)) as Hn. rewrite (live_delete _ _ _ Hk) in Hn.
  unfold pair_bytes in Hn. pose proof (string_bytes_ge (length k)). pose proof (string_bytes_ge (length v)). lia.
Qed.
End live.

(** the pair fits the page, where each item takes four bytes more *)
Definition pair_fits (D : contents_map) (k v : list byte) : Prop :=
  (0 < length k)%nat ∧ (0 < length v)%nat ∧
  live_bytes (<[k:=v]> D) + 4 * (chunks (length k) + chunks (length v)) <= page_room.

(** a pair that fits is short, and there are at most three of them *)
Lemma fits_sizes D k v : full_pairs D → pair_fits D k v →
  full_pairs (<[k:=v]> D) ∧ Z.of_nat (length k) <= 94 ∧ Z.of_nat (length v) <= 94 ∧
  26 * Z.of_nat (size (<[k:=v]> D)) <= 94 ∧ live_bytes (<[k:=v]> D) <= page_room.
Proof.
  intros Hfull (Hk & Hv & Hfit). assert (full_pairs (<[k:=v]> D)) as Hfull' by (by apply map_Forall_insert_2).
  pose proof (chunks_nonneg (length k)). pose proof (chunks_nonneg (length v)).
  pose proof (live_entry _ k v Hfull' (lookup_insert_eq _ _ _)). pose proof (live_size _ Hfull'). unfold page_room in *.
  split; [done|]. lia.
Qed.

(** the rows are as many as the pairs *)
Lemma stands_size keys O Hr Hs rows D : stands_for keys O Hr Hs rows D → length rows = size D.
Proof.
  intros (kvs & -> & Hnd & Hf). rewrite (Forall2_length _ _ _ Hf). symmetry. by apply map_size_list_to_map.
Qed.

(** ** The store *)

(** no key is longer *)
Definition small_key : nat := 94.
(** what each call takes from the operations that are left *)
Definition call_cost (fuel : nat) : Z := 26 * write_cost fuel.

(** the store [s] holds the map [D] in one page of each table and one leaf of
    the index, and [N] calls are left *)
Definition small (fuel : nat) (s : Jql) (D : contents_map) (N : Z) : Prop :=
  ∃ g o Hr Hs, rep s.1 g ∧
    @rep _ _ (@jview_Rep (tidy_wview fuel)) s.2 (JView Hr Hs (N * call_cost fuel) (page_room - weight Hr) (page_room - weight Hs)) ∧
    contents small_key g Hr Hs D o ∧ leaf_only o ∧
    weight Hr = 20 * Z.of_nat (size D) ∧ weight Hs = live_bytes D ∧
    N * call_cost fuel <= i_hits g ∧ i_len g + PAGE_SIZE * N <= MAX_LEN ∧ full_pairs D ∧ live_bytes D <= page_room.

Section calls.
Context (fuel : nat) (junk_rec junk : list byte).
Context (Hf : (128 < fuel)%nat) (Hjr : length junk_rec = 20%nat) (Hj : length junk = 32%nat).
Local Abbreviation wcost := (write_cost fuel).
Local Abbreviation tables_view := (@rep _ _ (@jview_Rep (tidy_wview fuel))).
#[local] Existing Instance table_writer.

(** the page has its room back after each call *)
Lemma small_intro s g o Hr Hs D N n Rr Rs :
  rep s.1 g → tables_view s.2 (JView Hr Hs n Rr Rs) → contents small_key g Hr Hs D o → leaf_only o →
  weight Hr = 20 * Z.of_nat (size D) → weight Hs = live_bytes D →
  N * call_cost fuel <= n → N * call_cost fuel <= i_hits g → i_len g + PAGE_SIZE * N <= MAX_LEN →
  full_pairs D → live_bytes D <= page_room → small fuel s D N.
Proof using.
  clear Hf Hjr Hj. intros Hg Hw Hc Hl Hwr Hws Hn Hh HM Hfull Hlive. exists g, o, Hr, Hs. split; [done|]. split; [|done].
  eapply (jview_weaken fuel wcost); [by eapply (jview_refresh page_regain)|done|unfold page_regain; lia|unfold page_regain; lia].
Qed.

(** an index of a leaf, with as many rows as pairs *)
Lemma leaf_depth o : leaf_only o → 1 <= index_depth o <= 2.
Proof using. clear. destruct o as [[]|]; cbn; intros H; [lia|done|lia]. Qed.

Lemma chunks_small n : Z.of_nat n <= 94 → chunks n <= 5.
Proof using. clear. intros Hn. unfold chunks. pose proof (Z.div_le_mono (Z.of_nat n + 19) 113 20 ltac:(lia) ltac:(lia)) as H. exact H. Qed.

Lemma get_small s D N k pad dest max : small fuel s D N → 1 <= N →
  (length k < fuel)%nat → 0 <= max <= Z.of_nat (length dest) →
  ∃ s', myjql_get fuel junk_rec junk (k ++ pad) (Z.of_nat (length k)) dest max s = Ok (get_result (D !! k) dest max, s') ∧
    small fuel s' D (N - 1).
Proof using Hf Hjr Hj.
  intros (g & o & Hr & Hs & Hg & Hw & Hc & Hl & Hwr & Hws & Hh & HM & Hfull & Hlive) HN Hk Hmax.
  pose proof (leaf_depth o Hl) as Hd. unfold page_room in *.
  assert (Z.of_nat (length (default [] (D !! k))) <= 94) as Hold.
  { destruct (D !! k) as [v|] eqn:E; [|simpl; lia]. pose proof (live_entry _ _ _ Hfull E). change (default [] (Some v)) with v. lia. }
  assert (get_cost (length k) (length (default [] (D !! k))) (index_depth o) <= call_cost fuel) as Hcost.
  { unfold get_cost, call_cost, write_cost. nia. }
  assert (1 * call_cost fuel <= N * call_cost fuel) as HNc by (apply Z.mul_le_mono_nonneg_r; [unfold call_cost, write_cost; lia|done]).
  destruct (@lookup_run (tidy_wview fuel) fuel wcost (table_writer fuel tidy_supply) junk_rec junk Hjr Hj s g o Hr Hs D _ _ _ _ k pad dest max _ Hg Hw Hc Hk ltac:(lia) ltac:(lia)
    ltac:(unfold call_cost, write_cost in *; lia) Hmax Hcost ltac:(lia)) as (s' & g' & Hrun & Hg' & Hw' & Hc' & Eh & El).
  exists s'. split; [exact Hrun|]. eapply small_intro; try done; [lia| |unfold PAGE_SIZE in *; lia].
  rewrite Eh. unfold call_cost, write_cost in *. lia.
Qed.
(** a branch of a call leaves a small store *)
Lemma branch_run (m : M Jql unit) s v D N wr ws h l n :
  @awp _ _ (@pair_Rep _ _ _ _ _ (@jview_Rep (tidy_wview fuel))) unit m (λ _ gw, ∃ o', leaf_done small_key D wr ws h l n gw.1 o' (j_rec gw.2) (j_str gw.2) (j_left gw.2)) v →
  rep s.1 v.1 → tables_view s.2 v.2 →
  wr = 20 * Z.of_nat (size D) → ws = live_bytes D → N * call_cost fuel <= n → N * call_cost fuel <= h →
  l + PAGE_SIZE * N <= MAX_LEN → full_pairs D → live_bytes D <= page_room →
  ∃ s', m s = Ok (tt, s') ∧ small fuel s' D N.
Proof using.
  clear Hf Hjr Hj. intros Hm Hg Hw -> -> Hn Hh' HM' Hfull Hlive.
  destruct (wp_elim _ _ _ (Hm s (conj Hg Hw))) as ([] & s' & Hrun & [g' [Hr' Hs' n' Rr' Rs']] & [Hg' Hw'] & o' & [Hc Hl Hwr Hws Hh HM Hn']).
  cbn [fst snd j_rec j_str j_left] in *. exists s'. split; [done|].
  eapply small_intro; [exact Hg'|exact Hw'|done|done|done|done|lia|lia|lia|done|done].
Qed.

(** the search of a call *)
Record searched (s1 : Jql) (D : contents_map) (k : list byte) (n : Z) (r : RID) (g : ipool) (o : option tree) (fl : list Z)
    (keys : gmap RID (list byte)) (O : owners) (Hr Hs : rheap) (n1 Rr Rs : Z) : Prop := {
  sd_index : rep s1.1 g;
  sd_tables : tables_view s1.2 (JView Hr Hs n1 Rr Rs);
  sd_holding : holding small_key g o fl keys O Hr Hs;
  sd_stands : stands_for keys O Hr Hs (index_rows o) D;
  sd_leaf : leaf_only o;
  sd_found : found keys (index_rows o) k (D !! k) r;
  sd_weights : weight Hr = 20 * Z.of_nat (size D) ∧ weight Hs = live_bytes D;
  sd_room : Rr = page_room - weight Hr ∧ Rs = page_room - weight Hs;
  sd_ops : n <= n1 ∧ n <= i_hits g;
}.

Lemma search_small s D N k pad : small fuel s D N → 1 <= N → (length k < fuel)%nat →
  ∃ r s1 g o fl keys O Hr Hs n1 Rr Rs,
    b_tree_search (ptr_row_cmp fuel junk_rec junk (k ++ pad) (Z.of_nat (length k))) fuel s = Ok (r, s1) ∧
    searched s1 D k ((N - 1) * call_cost fuel + 18 * wcost) r g o fl keys O Hr Hs n1 Rr Rs ∧ i_len g + PAGE_SIZE * N <= MAX_LEN.
Proof using Hf Hjr Hj.
  intros (g & o & Hr & Hs & Hg & Hw & (fl & keys & O & Hhold & Hst) & Hl & Hwr & Hws & Hh & HM & Hfull & Hlive) HN Hk.
  pose proof (leaf_depth o Hl) as Hd. set (n := N * call_cost fuel) in *.
  assert (n = (N - 1) * call_cost fuel + 26 * wcost) as En by (unfold n, call_cost; lia).
  assert (0 <= (N - 1) * call_cost fuel) as Hn0 by (apply Z.mul_nonneg_nonneg; unfold call_cost, write_cost; lia).
  assert (4 * (Z.of_nat (length k) + 1) * index_depth o <= 8 * wcost) as Hc by (unfold write_cost; nia).
  assert (2 <= wcost) as Hwc by (unfold write_cost; lia).
  destruct (@search_run (tidy_wview fuel) fuel wcost (table_writer fuel tidy_supply) junk_rec junk Hjr Hj s g o fl keys O Hr Hs D n _ _ k pad small_key Hg Hw Hhold Hst
    Hk ltac:(lia) ltac:(lia) ltac:(lia)) as (r & s1 & g1 & Hrun & Hg1 & Hhold1 & Hfound & Hh1 & Hl1 & Hw1).
  exists r, s1, g1, o, fl, keys, O, Hr, Hs. eexists _, _, _. split; [exact Hrun|]. split; [|by rewrite Hl1].
  econstructor; try done; lia.
Qed.
(** the operations of the branches of a call *)
Lemma leaf_costs a b : Z.of_nat a <= 94 → Z.of_nat b <= 94 → let L := small_key in
  wcost * (chunks a + chunks b + 1) + leaf_ops L <= 18 * wcost ∧
  leaf_ops L + 1 + free_cost wcost a + free_cost wcost b + wcost <= 18 * wcost ∧
  1 + free_cost wcost a + wcost * chunks b + leaf_ops L + 2 * wcost + leaf_ops L <= 18 * wcost.
Proof using Hf.
  clear junk_rec junk Hjr Hj. intros Ha Hb L. pose proof (chunks_small a Ha). pose proof (chunks_small b Hb).
  assert (273 <= wcost) as Hw by (unfold write_cost; lia). change (leaf_ops L) with 768. unfold free_cost.
  assert (wcost * chunks a <= wcost * 5) by (apply Z.mul_le_mono_nonneg_l; lia).
  assert (wcost * chunks b <= wcost * 5) by (apply Z.mul_le_mono_nonneg_l; lia). lia.
Qed.

Section found.
Context (s1 : Jql) (D : contents_map) (N : Z) (k : list byte) (r : RID) (g : ipool) (o : option tree) (fl : list Z).
Context (keys : gmap RID (list byte)) (O : owners) (Hr Hs : rheap) (n1 Rr Rs : Z).
Context (Hsd : searched s1 D k ((N - 1) * call_cost fuel + 18 * wcost) r g o fl keys O Hr Hs n1 Rr Rs).
Context (HN : 1 <= N) (HM : i_len g + PAGE_SIZE * N <= MAX_LEN) (Hfull : full_pairs D) (Hlive0 : live_bytes D <= page_room).

Lemma small_key_fuel : (small_key < fuel)%nat.
Proof using Hf. clear -Hf. unfold small_key. lia. Qed.

Lemma left_nonneg : 0 <= (N - 1) * call_cost fuel ∧ 273 <= wcost.
Proof using Hf HN. clear -Hf HN. split; [apply Z.mul_nonneg_nonneg; unfold call_cost, write_cost; lia|unfold write_cost; lia]. Qed.

Lemma set_old_small u v padv : D !! k = Some u → pair_fits D k v →
  not_found r = false ∧
  ∃ s', set_old fuel junk_rec junk r (v ++ padv) (Z.of_nat (length v)) s1 = Ok (tt, s') ∧ small fuel s' (<[k:=v]> D) (N - 1).
Proof using All.
  intros HD Hpair. destruct Hsd as [Hg Hw Hhold Hst Hl Hfound [Hwr Hws] [-> ->] [Hn Hh]].
  destruct (fits_sizes D k v Hfull Hpair) as (Hfull' & Hk94 & Hv94 & Hsz & Hlive). destruct Hpair as (_ & Hv & Hfit).
  destruct left_nonneg as [Hm Hwc]. pose proof (stands_size _ _ _ _ _ _ Hst) as Hrows. pose proof (eq_refl : page_room = 94) as HP.
  pose proof (chunks_nonneg (length k)). rewrite HD in Hfound. destruct Hfound as (Hr1 & Hkr & Hnf). split; [done|].
  pose proof (live_entry _ _ _ Hfull HD) as Hku. rewrite (live_replace _ _ _ _ HD) in Hfit, Hlive.
  rewrite map_size_insert_Some in Hsz by done.
  destruct (leaf_costs (length u) (length v) ltac:(lia) Hv94) as (_ & _ & Hc).
  eapply (branch_run _ s1 (g, JView Hr Hs n1 _ _)); [|exact Hg|exact Hw| | | | | |done|].
  - eapply (@set_old_leaf_spec (tidy_wview fuel) fuel wcost (table_writer fuel tidy_supply) ltac:(lia) junk_rec junk Hjr Hj small_key small_key_fuel (table_regains fuel));
      [exact Hhold|exact Hst|done|lia|exact Hr1|exact Hkr|done|lia|unfold string_fits; lia|lia|unfold PAGE_SIZE in *; lia|lia|lia|unfold page_regain, string_bytes, string_room in *; lia|].
    intros g' o' Hr' Hs' n' Rr' Rs' Hdone. exists o'. exact Hdone.
  - rewrite map_size_insert_Some by done. lia.
  - rewrite (live_replace _ _ _ _ HD). lia.
  - lia.
  - lia.
  - unfold PAGE_SIZE in *. lia.
  - rewrite (live_replace _ _ _ _ HD). lia.
Qed.

Lemma set_new_small pad v padv : D !! k = None → pair_fits D k v →
  r = failed_rid ∧
  ∃ s', set_new fuel junk_rec junk (k ++ pad) (Z.of_nat (length k)) (v ++ padv) (Z.of_nat (length v)) s1 = Ok (tt, s') ∧
    small fuel s' (<[k:=v]> D) (N - 1).
Proof using All.
  intros HD Hpair. destruct Hsd as [Hg Hw Hhold Hst Hl Hfound [Hwr Hws] [-> ->] [Hn Hh]].
  destruct (fits_sizes D k v Hfull Hpair) as (Hfull' & Hk94 & Hv94 & Hsz & Hlive). destruct Hpair as (Hk & Hv & Hfit).
  destruct left_nonneg as [Hm Hwc]. pose proof (stands_size _ _ _ _ _ _ Hst) as Hrows. pose proof (eq_refl : page_room = 94) as HP.
  rewrite HD in Hfound. split; [done|]. rewrite (live_insert _ _ _ HD) in Hfit, Hlive. unfold pair_bytes in *.
  rewrite map_size_insert_None in Hsz by done.
  destruct (leaf_costs (length k) (length v) Hk94 Hv94) as (Hc & _ & _).
  eapply (branch_run _ s1 (g, JView Hr Hs n1 _ _)); [|exact Hg|exact Hw| | | | | |done|].
  - eapply (@set_new_leaf_spec (tidy_wview fuel) fuel wcost (table_writer fuel tidy_supply) ltac:(lia) junk_rec junk Hjr Hj small_key small_key_fuel);
      [by exists fl, keys, O|done|lia|done|unfold string_fits; lia|unfold small_key; lia|unfold string_fits; lia|lia|unfold PAGE_SIZE in *; lia|lia|lia|unfold string_bytes, string_room in *; lia|].
    intros g' o' Hr' Hs' n' Rr' Rs' Hdone. exists o'. exact Hdone.
  - rewrite map_size_insert_None by done. lia.
  - rewrite (live_insert _ _ _ HD). unfold pair_bytes. lia.
  - lia.
  - lia.
  - unfold PAGE_SIZE in *. lia.
  - rewrite (live_insert _ _ _ HD). unfold pair_bytes. lia.
Qed.

Lemma del_found_small u : D !! k = Some u →
  not_found r = false ∧ ∃ s', del_found fuel junk_rec junk r s1 = Ok (tt, s') ∧ small fuel s' (delete k D) (N - 1).
Proof using All.
  intros HD. destruct Hsd as [Hg Hw Hhold Hst Hl Hfound [Hwr Hws] [-> ->] [Hn Hh]].
  destruct left_nonneg as [Hm Hwc]. pose proof (stands_size _ _ _ _ _ _ Hst) as Hrows. pose proof (eq_refl : page_room = 94) as HP.
  rewrite HD in Hfound. destruct Hfound as (Hr1 & Hkr & Hnf). split; [done|].
  pose proof (live_entry _ _ _ Hfull HD) as Hku. pose proof (live_size D Hfull) as Hsz.
  pose proof (string_bytes_ge (length k)). pose proof (string_bytes_ge (length u)).
  assert (size D ≠ 0%nat) as Hne. { intros E%map_size_empty_iff. rewrite E in HD. by rewrite lookup_empty in HD. }
  destruct (leaf_costs (length k) (length u) ltac:(lia) ltac:(lia)) as (_ & Hc & _).
  eapply (branch_run _ s1 (g, JView Hr Hs n1 _ _)); [|exact Hg|exact Hw| | | | | | |].
  - eapply (@del_found_leaf_spec (tidy_wview fuel) fuel wcost (table_writer fuel tidy_supply) ltac:(lia) junk_rec junk Hjr Hj small_key small_key_fuel);
      [exact Hhold|exact Hst|done|exact Hr1|exact Hkr|exact HD|lia|lia|lia|lia|lia|].
    intros g' o' Hr' Hs' n' Rr' Rs' Hdone. exists o'. exact Hdone.
  - rewrite map_size_delete_Some by done. lia.
  - rewrite (live_delete _ _ _ HD). unfold pair_bytes. lia.
  - lia.
  - lia.
  - unfold PAGE_SIZE in *. lia.
  - by apply map_Forall_delete.
  - rewrite (live_delete _ _ _ HD). unfold pair_bytes. lia.
Qed.

Lemma not_there_small : D !! k = None → r = failed_rid ∧ small fuel s1 D (N - 1).
Proof using All.
  intros HD. destruct Hsd as [Hg Hw Hhold Hst Hl Hfound [Hwr Hws] [-> ->] [Hn Hh]]. rewrite HD in Hfound. split; [done|].
  destruct left_nonneg as [Hm Hwc].
  eapply small_intro; [exact Hg|exact Hw|by exists fl, keys, O|done|done|done|lia|lia|unfold PAGE_SIZE in *; lia|done|done].
Qed.
End found.

(** *** One call *)

Lemma small_pairs s D N : small fuel s D N → full_pairs D ∧ live_bytes D <= page_room.
Proof using. clear. by intros (_ & _ & _ & _ & _ & _ & _ & _ & _ & _ & _ & _ & ?). Qed.

Lemma set_small s D N k pad v padv : small fuel s D N → 1 <= N → pair_fits D k v →
  ∃ s', myjql_set fuel junk_rec junk (k ++ pad) (Z.of_nat (length k)) (v ++ padv) (Z.of_nat (length v)) s = Ok (tt, s') ∧
    small fuel s' (<[k:=v]> D) (N - 1).
Proof using Hf Hjr Hj.
  intros Hs HN Hpair. destruct (small_pairs _ _ _ Hs) as [Hfull Hlive]. pose proof (fits_sizes D k v Hfull Hpair) as (_ & Hk & _).
  destruct (search_small s D N k pad Hs HN ltac:(lia)) as (r & s1 & g & o & fl & keys & O & Hr & Hs0 & n1 & Rr & Rs & Hrun & Hsd & HM).
  unfold myjql_set. rewrite (bind_ok _ _ _ _ _ Hrun). destruct (D !! k) as [u|] eqn:HD.
  - by destruct (set_old_small _ _ _ _ _ _ _ _ _ _ _ _ _ _ _ Hsd HN HM Hfull Hlive u v padv HD Hpair) as [-> ?].
  - by destruct (set_new_small _ _ _ _ _ _ _ _ _ _ _ _ _ _ _ Hsd HN HM Hfull Hlive pad v padv HD Hpair) as [-> ?].
Qed.

Lemma del_small s D N k pad : small fuel s D N → 1 <= N → (length k < fuel)%nat →
  ∃ s', myjql_del fuel junk_rec junk (k ++ pad) (Z.of_nat (length k)) s = Ok (tt, s') ∧ small fuel s' (delete k D) (N - 1).
Proof using Hf Hjr Hj.
  intros Hs HN Hk. destruct (small_pairs _ _ _ Hs) as [Hfull Hlive].
  destruct (search_small s D N k pad Hs HN Hk) as (r & s1 & g & o & fl & keys & O & Hr & Hs0 & n1 & Rr & Rs & Hrun & Hsd & HM).
  unfold myjql_del. rewrite (bind_ok _ _ _ _ _ Hrun). destruct (D !! k) as [u|] eqn:HD.
  - by destruct (del_found_small _ _ _ _ _ _ _ _ _ _ _ _ _ _ _ Hsd HN HM Hfull Hlive u HD) as [-> ?].
  - destruct (not_there_small _ _ _ _ _ _ _ _ _ _ _ _ _ _ _ Hsd HN HM Hfull Hlive HD) as [-> ?].
    rewrite delete_id by done. by exists s1.
Qed.
(** ** Sessions *)

(** a call keeps the store small *)
Definition call_small (D : contents_map) (c : store_call) : Prop :=
  match c with
  | CSet k _ v _ => pair_fits D k v
  | CDel k _ => (length k < fuel)%nat
  | CGet k _ dest max => (length k < fuel)%nat ∧ 0 <= max <= Z.of_nat (length dest)
  end.

Fixpoint session_small (D : contents_map) (cs : list store_call) : Prop :=
  match cs with [] => True | c :: cs => call_small D c ∧ session_small (call_map D c) cs end.

#[export] Instance call_small_dec D c : Decision (call_small D c).
Proof using. destruct c; cbn [call_small]; unfold pair_fits; apply _. Defined.
#[export] Instance session_small_dec cs : ∀ D, Decision (session_small D cs).
Proof using. induction cs as [|c cs IH]; intros D; cbn [session_small]; apply _. Defined.

(** its terms: a call is one call less *)
Definition counted : store_terms Z :=
  StoreTerms (small fuel) (λ N D c, 1 <= N ∧ call_small D c) (λ N _ _, N - 1).

Lemma counted_left cs : ∀ N D, calls_spend counted N D cs = N - Z.of_nat (length cs).
Proof using.
  clear. induction cs as [|c cs IH]; intros N D; cbn [calls_spend length]; [lia|]. rewrite IH. cbn [counted ms_spend]. lia.
Qed.

Lemma counted_fit cs : ∀ N D, Z.of_nat (length cs) <= N → session_small D cs → calls_fit counted N D cs.
Proof using.
  clear. induction cs as [|c cs IH]; intros N D HN Hcs; [done|]. cbn [length session_small calls_fit] in *.
  destruct Hcs as [Hc Hcs]. cbn [counted ms_fits ms_spend]. split; [split; [lia|done]|]. apply IH; [lia|done].
Qed.

#[export] Instance counted_store : MapStore counted fuel junk_rec junk.
Proof using Hf Hjr Hj.
  constructor; cbn [counted ms_holds ms_fits ms_spend].
  - intros s D N c Hs [HN Hc]. destruct c as [k pad v padv|k pad|k pad dest max]; cbn [call_small call_map call_answer run_call] in *.
    + destruct (set_small s D N k pad v padv Hs HN Hc) as (s' & Hrun & Hs'). exists s'. by rewrite (bind_ok _ _ _ _ _ Hrun).
    + destruct (del_small s D N k pad Hs HN Hc) as (s' & Hrun & Hs'). exists s'. by rewrite (bind_ok _ _ _ _ _ Hrun).
    + destruct Hc as [Hk Hmax]. destruct (get_small s D N k pad dest max Hs HN Hk Hmax) as (s' & Hrun & Hs').
      exists s'. by rewrite (bind_ok _ _ _ _ _ Hrun).
  - intros s D N k (g & o & Hr & Hs & _ & _ & Hc & _). by eapply contents_nonempty.
  - intros N D k pad dest dest' max E. cbn [call_small]. by rewrite E.
Qed.

#[export] Instance counted_durable : DurableStore counted.
Proof using.
  clear. intros s D N q (g & o & Hr & Hs & Hg & Hw & Hc & Hl & Hwr & Hws & Hh & HM & Hfull & Hlive) Hq.
  destruct (views_restart fuel tidy_supply s g _ q Hg Hw Hq) as (s' & Hrun & Hw' & Hg'). exists s'. split; [done|].
  pose proof (pool_hits _ _ Hg). eexists _, o, Hr, Hs. split; [exact Hg'|]. split; [exact Hw'|].
  split; [by apply contents_hits|]. cbn [i_hits i_len]. split_and!; (done || lia).
Qed.
End calls.

(** ** From the first process on *)

(** a new store has as many calls as its searches have fuel for *)
Lemma small_init_run s fuel N : jql_space s → 0 <= N → 52 * N + 10 <= Z.of_nat fuel <= 2 ^ 25 → (128 < fuel)%nat →
  ∃ s', myjql_init no_files s = Ok (tt, s') ∧ small fuel s' ∅ N.
Proof.
  intros Hs HN Hfuel Hf. destruct (views_init_run fuel tidy_supply s Hs Hf) as (s' & Hrun & Hi & Ht). exists s'. split; [done|].
  assert (N * call_cost fuel <= new_ops fuel) as Hops.
  { unfold new_ops, call_cost. assert (26 * N <= (Z.of_nat fuel - 9) / 2) as Hk by (apply Z.div_le_lower_bound; lia).
    assert (0 <= write_cost fuel <= 2 ^ 26) as Hw by (unfold write_cost; lia). apply Z.min_glb; nia. }
  assert (new_ops fuel <= 2 ^ 50) as Hmax by (unfold new_ops; lia).
  eapply small_intro; [exact Hi|exact Ht|apply no_contents|done|done|done|exact Hops| | |done|done];
    cbn [no_nodes i_hits i_len]; unfold SIZE_MAX, MAX_LEN, PAGE_SIZE; lia.
Qed.

(** C1: a small store refines a finite map for as long as its counters last: while
    the keys and the values that are in the store fit one page of the table of
    strings, any sequence of [myjql_set], [myjql_get] and [myjql_del], over any
    number of processes that close the store and open it again, answers what the
    same sequence of insertions, deletions and lookups on a finite map does, and
    the store holds that map at the end.  What is replaced or removed gives its
    bytes back, in both tables and in the index, so that the fuel is linear in
    the number of calls; [2^25] of it are enough for 645000. *)
Theorem small_store_refines_map fuel junk_rec junk cs ps s :
  let calls := cs ++ process_calls ps in
  jql_space s → Forall (λ qc, jql_space qc.1) ps → length junk_rec = 20%nat → length junk = 32%nat →
  (128 < fuel)%nat → 52 * Z.of_nat (length calls) + 10 <= Z.of_nat fuel <= 2 ^ 25 →
  session_small fuel ∅ calls →
  ∃ s', (myjql_init no_files;; r ← run_calls fuel junk_rec junk cs;
         rs ← run_processes fuel junk_rec junk ps; mret (r ++ rs)) s = Ok (session_answers ∅ calls, s') ∧
    small fuel s' (session_map ∅ calls) 0.
Proof.
  intros calls Hs Hps Hjr Hj Hf Hfuel Hsmall. set (N := Z.of_nat (length calls)) in *.
  pose proof (counted_store fuel junk_rec junk Hf Hjr Hj) as HT.
  assert (calls_fit (counted fuel) N ∅ calls) as Hfit by (by apply counted_fit).
  replace 0 with (calls_spend (counted fuel) N ∅ calls) by (rewrite counted_left; unfold N; lia).
  refine (first_process_run (counted fuel) fuel junk_rec junk cs ps s N _ Hps Hfit).
  by apply small_init_run; [|unfold N; lia|..].
Qed.

(** three keys, each with a value that is replaced and read, and one removed,
    twenty times, and again in a second process *)
Definition one_round : list store_call :=
  [CSet [x6b] [x00] [x76] [x00]; CSet [x6a] [x00] [x77] [x00]; CSet [x6c] [x00] [x78] [x00];
   CSet [x6b] [x00] [x79; x79] [x00]; CGet [x6b] [x00] (replicate 3 x2a) 3; CDel [x6a] [x00]].
Definition rounds : list store_call := concat (replicate 20 one_round).

Lemma small_store_refines_map_witness : ∃ s,
  (myjql_init no_files;; r ← run_calls 13000 (replicate 20 x00) (replicate 32 x00) rounds;
   rs ← run_processes 13000 (replicate 20 x00) (replicate 32 x00) [(blank_jql, rounds)]; mret (r ++ rs)) blank_jql =
    Ok (replicate 40 (2, [x79; x79; x00]), s) ∧
  small 13000 s {[ [x6b] := [x79; x79]; [x6c] := [x78] ]} 0.
Proof.
  destruct (small_store_refines_map 13000 (replicate 20 x00) (replicate 32 x00) rounds [(blank_jql, rounds)] blank_jql blank_jql_space)
    as (s & H1 & H2).
  - apply Forall_cons. split; [exact blank_jql_space|apply Forall_nil; exact I].
  - done.
  - done.
  - apply Nat.ltb_lt. vm_compute. reflexivity.
  - vm_compute. split; discriminate.
  - apply (bool_decide_unpack _). vm_compute. exact I.
  - exists s. split; [exact H1|exact H2].
Defined.
