(* ===== verification/DeepStore.v ===== *)
(** Tables of several pages, and an index of several levels over them.

    A table gets a second page when a search of its free-space map fails.  Such
    a search over-releases a page ([HashMapProps.failed_search_over_releases]),
    but closing and opening the table forgets the reference counts: processes
    that insert one item each leave files of any number of pages.  The store
    that is opened on such files has room for a map whose index is split. *)
From stdpp Require Import base gmap list fin_maps.
From Stdlib Require Import ZArith Lia Strings.Byte.
From S2P Require Import Prelude FileIO BufferPool PoolLogic PoolClient PoolDurable Block HashMap HashMapSpec HashMapPop HashMapProps.
From S2P Require Import Table HeapStore TableSpec TableHeap HeapWrite TableRoom Str StrSpec StrWrite.
From S2P Require Import BTree NodeSpec TreeSpec BTreeSearch BTreeInsertSpec.
From S2P Require Import Myjql MyjqlGet MyjqlInit MyjqlOwners MyjqlWrite MyjqlMap MyjqlStore MyjqlSetProps MyjqlSession MyjqlDurable MyjqlSmall.
#[local] Open Scope Z_scope.

(** ** New pages *)

Lemma insert_new_page_run t T nd nf src :
  holds t T nd nf → (0 < length src)%nat → Z.of_nat (length src) + 4 <= 122 → 1 <= nd → 4 <= nf →
  data_len t + 128 <= MAX_LEN → fsm_len t + 128 <= MAX_LEN →
  ∃ t', insert_new_page src (Z.of_nat (length src)) t = Ok (insert_rid T (data_len t), t') ∧
    holds t' (TableSpec.heap_insert T (data_len t) src) (nd - 1) (nf - 4) ∧
    data_len t' = data_len t + 128 ∧ fsm_len t' <= fsm_len t + 128.
Proof.
  intros Hh Hs Hfit Hnd Hnf HMl HMf. set (a := data_len t).
  destruct (holds_awp (insert_new_page src (Z.of_nat (length src))) t T nd nf
    (λ rid g', rid = insert_rid T a ∧ tbl_rep g' (TableSpec.heap_insert T a src) (nd - 1) (nf - 4) ∧
       plen g'.1 = a + 128 ∧ plen g'.2 <= fsm_len t + 128) Hh)
    as (rid & t' & g' & Hrun & Hr & (-> & Ht & Hl1 & Hl2) & Hd & Hf).
  - intros ms l hh mf lf hf h -> -> Hhh Hhf Hrf Hdr Hfr Hag Hok. destruct (f_max _ _ _ Hfr) as (_ & _ & Hmx).
    eapply insert_new_page_spec; [exact Hdr|done|done|lia|done|exact Hfr|lia|lia|].
    intros m' gf' h' HTl Hd' Hp' Hl' Hh' Hf' Hadd. split; [done|]. split; [|split; [done|simpl; lia]].
    split; [exact Hd'|]. simpl. split; [lia|]. split; [lia|]. split; [done|]. exists h'. split; [done|].
    assert (0 <= free_space (add_item [] src)) as Hge by (unfold free_space, PAGE_SIZE, off_data; simpl; lia).
    unfold TableSpec.heap_insert. rewrite (HTl : T !! a = None). simpl.
    eapply (fsm_agrees_new _ _ _ _ _ (Z.to_nat (free_space (add_item [] src))));
      [done|done|simpl in *; lia|]. apply Hadd. simpl in *. lia.
  - exists t'. split; [done|]. split; [by exists g'|]. lia.
Qed.

(** an item on a page of its own, for each of a list, and their removal *)
Fixpoint new_pages (items : list (list byte)) : M Table (list RID) :=
  match items with
  | [] => mret []
  | bs :: items =>
      rid ← insert_new_page bs (Z.of_nat (length bs));
      rids ← new_pages items;
      mret (rid :: rids)
  end.
Fixpoint delete_all (fuel : nat) (rids : list RID) : M Table unit :=
  match rids with
  | [] => mret tt
  | rid :: rids => table_delete fuel rid;; delete_all fuel rids
  end.

(** the heap they leave, from the address [a] on, and the identifiers *)
Fixpoint paged_heap (T : heap) (a : Z) (items : list (list byte)) : heap :=
  match items with
  | [] => T
  | bs :: items => paged_heap (TableSpec.heap_insert T a bs) (a + 128) items
  end.
Fixpoint paged_rids (T : heap) (a : Z) (items : list (list byte)) : list RID :=
  match items with
  | [] => []
  | bs :: items => insert_rid T a :: paged_rids (TableSpec.heap_insert T a bs) (a + 128) items
  end.

Lemma new_pages_run items : ∀ t T nd nf, let n := Z.of_nat (length items) in
  holds t T nd nf → Forall (λ bs, (0 < length bs <= 118)%nat) items → n <= nd → 4 * n <= nf →
  data_len t + 128 * n <= MAX_LEN → fsm_len t + 128 * n <= MAX_LEN →
  ∃ t', new_pages items t = Ok (paged_rids T (data_len t) items, t') ∧
    holds t' (paged_heap T (data_len t) items) (nd - n) (nf - 4 * n) ∧
    data_len t' = data_len t + 128 * n ∧ fsm_len t' <= fsm_len t + 128 * n.
Proof.
  induction items as [|bs items IH]; intros t T nd nf n Ht Hl Hnd Hnf HMl HMf; cbn [new_pages paged_rids paged_heap length] in *.
  { exists t. split; [done|]. split; [|unfold n; lia]. by replace (nd - n) with nd by (unfold n; lia); replace (nf - 4 * n) with nf by (unfold n; lia). }
  apply Forall_cons in Hl as [Hbs Hl].
  destruct (insert_new_page_run t T nd nf bs Ht) as (t1 & H1 & Ht1 & Hd1 & Hf1); [lia|lia|lia|lia|lia|lia|].
  destruct (IH t1 _ _ _ Ht1 Hl) as (t2 & H2 & Ht2 & Hd2 & Hf2); [lia|lia|lia|lia|].
  rewrite Hd1 in *. exists t2. split; [by rewrite (bind_ok _ _ _ _ _ H1), (bind_ok _ _ _ _ _ H2)|].
  split; [eapply holds_spend; [exact Ht2|lia|lia]|lia].
Qed.

(** every identifier of the list has an item when its turn comes *)
Fixpoint removable (T : heap) (rids : list RID) : Prop :=
  match rids with
  | [] => True
  | rid :: rids => is_Some (heap_at T rid) ∧ removable (TableSpec.heap_delete T rid) rids
  end.
#[local] Instance removable_dec rids : ∀ T, Decision (removable T rids).
Proof. induction rids; intros T; cbn [removable]; apply _. Defined.

Lemma delete_all_run fuel rids : ∀ t T nd nf, let n := Z.of_nat (length rids) in
  holds t T nd nf → removable T rids → n <= nd → (Z.of_nat fuel + 7) * n <= nf →
  data_len t + 128 * n <= MAX_LEN → fsm_len t + 384 + 256 * n <= MAX_LEN →
  (128 < fuel)%nat → fsm_len t + 256 * n <= 128 * Z.of_nat fuel →
  ∃ t', delete_all fuel rids t = Ok (tt, t') ∧
    holds t' (foldl TableSpec.heap_delete T rids) (nd - n) (nf - (Z.of_nat fuel + 7) * n) ∧
    data_len t' <= data_len t + 128 * n ∧ fsm_len t' <= fsm_len t + 256 * n.
Proof.
  induction rids as [|rid rids IH]; intros t T nd nf n Ht Hat Hnd Hnf HMl HMf Hf128 Hfuel; cbn [delete_all removable foldl length] in *.
  { exists t. split; [done|]. split; [eapply holds_spend; [exact Ht|unfold n; lia|unfold n; lia]|unfold n; lia]. }
  destruct Hat as [[bs Hat] Hats].
  destruct (table_delete_run t T nd nf rid bs fuel Ht Hat) as (t1 & H1 & Ht1 & Hd1 & Hf1); [lia|lia|unfold table_bounds; lia|].
  destruct (IH t1 _ _ _ Ht1 Hats) as (t2 & H2 & Ht2 & Hd2 & Hf2); [lia|lia|lia|lia|lia|lia|].
  exists t2. split; [by rewrite (bind_ok _ _ _ _ _ H1)|]. split; [eapply holds_spend; [exact Ht2|lia|lia]|lia].
Qed.

(** ** Six pages

    Items of decreasing length, so that each finds no room on the pages before
    it, nor a page that is listed under the same free space. *)
Definition page_items : list (list byte) := map (λ n, replicate n x61) [118; 117; 116; 115; 114; 113]%nat.
Definition deep_fuel : nat := 1000.
Definition six_pages : heap :=
  foldl TableSpec.heap_delete (paged_heap ∅ 0 page_items) (paged_rids ∅ 0 page_items).

Definition grow : M Table unit := rids ← new_pages page_items; delete_all deep_fuel rids.

(** the operations that the table is used for afterwards *)
Definition deep_ops : Z := 400 * write_cost deep_fuel.

Lemma grow_run t : holds t ∅ (SIZE_MAX - 1) (SIZE_MAX - 20) → data_len t = 0 → fsm_len t = 1152 →
  ∃ t', grow t = Ok (tt, t') ∧ @rep _ _ (table_wview deep_fuel) t' (WView ∅ deep_ops 522).
Proof.
  intros Ht Hd Hf.
  destruct (new_pages_run page_items t ∅ _ _ Ht) as (t1 & H1 & Ht1 & Hd1 & Hf1).
  - apply (bool_decide_unpack _). vm_compute. exact I.
  - by vm_compute.
  - by vm_compute.
  - rewrite Hd. by vm_compute.
  - rewrite Hf. by vm_compute.
  - rewrite Hd in *. rewrite Hf in *. change (length page_items) with 6%nat in *.
    destruct (delete_all_run deep_fuel (paged_rids ∅ 0 page_items) t1 _ _ _ Ht1) as (t2 & H2 & Ht2 & Hd2 & Hf2).
    + apply (bool_decide_unpack _). vm_compute. exact I.
    + by vm_compute.
    + by vm_compute.
    + rewrite Hd1. by vm_compute.
    + change (length (paged_rids ∅ 0 page_items)) with 6%nat. unfold MAX_LEN. lia.
    + by apply Nat.ltb_lt.
    + change (length (paged_rids ∅ 0 page_items)) with 6%nat. unfold deep_fuel. lia.
    + change (length (paged_rids ∅ 0 page_items)) with 6%nat in *. fold six_pages in Ht2.
      exists t2. split; [unfold grow; by rewrite (bind_ok _ _ _ _ _ H1)|].
      exists six_pages. cbn [w_heap w_left w_room]. split; [eapply holds_spend; [exact Ht2|by vm_compute|by vm_compute]|].
      assert (map_Forall (λ _ its, its = []) six_pages) as Hempty by (apply (bool_decide_unpack _); vm_compute; exact I).
      split; [|split; [left; by vm_compute|]].
      * intros rid. rewrite lookup_empty. unfold heap_at.
        destruct (six_pages !! rid_block_addr rid) as [its|] eqn:E; [|done]. rewrite (Hempty _ _ E). cbn. by destruct (_ <? 0).
      * unfold growth_bounds. cbv zeta. change (deep_ops / write_cost deep_fuel) with 400. unfold MAX_LEN, deep_fuel. lia.
Qed.

(** *** What processes leave

    Each inserts an item with [table_insert], whose search fails, closes the
    table and is followed by another one; the last one deletes the items. *)
Definition reopen_table (t : Table) : M Table unit := λ s, table_init (path_of (data_pool s)) (path_of (fsm_pool s)) t.

Fixpoint insert_each (items : list (list byte)) : M Table (list RID) :=
  match items with
  | [] => mret []
  | bs :: items =>
      rid ← table_insert deep_fuel bs (Z.of_nat (length bs));
      table_close;; reopen_table blank_table;;
      rids ← insert_each items;
      mret (rid :: rids)
  end.

Definition table_files (m : M Table unit) : PathState * PathState :=
  match (table_init NoFile NoFile;; m;; table_close) blank_table with
  | Ok (_, t) => (path_of (data_pool t), path_of (fsm_pool t))
  | _ => (NoFile, NoFile)
  end.

Definition processes : M Table unit := rids ← insert_each page_items; delete_all deep_fuel rids.

(** their files are those that [grow] leaves *)
Lemma processes_grow : table_files processes = table_files grow.
Proof. vm_compute. reflexivity. Qed.

Lemma table_files_ok m t t1 t2 : table_init NoFile NoFile blank_table = Ok (tt, t) → m t = Ok (tt, t1) →
  table_close t1 = Ok (tt, t2) → table_files m = (path_of (data_pool t2), path_of (fsm_pool t2)).
Proof. intros H1 H2 H3. unfold table_files, mbind, M_bind. by rewrite H1, H2, H3. Qed.

Lemma grown_table u : pool_space (data_pool u) → pool_space (fsm_pool u) →
  ∃ u', table_init (table_files processes).1 (table_files processes).2 u = Ok (tt, u') ∧
    @rep _ _ (table_wview deep_fuel) u' (WView ∅ deep_ops 522).
Proof.
  intros Hu1 Hu2. rewrite processes_grow.
  destruct (table_init_run blank_table blank_pool_space blank_pool_space) as (t & H1 & Ht & Hd & Hf).
  destruct (grow_run t Ht Hd Hf) as (t1 & H2 & Ht1).
  destruct (table_restart deep_fuel paged_supply _ _ Ht1) as (t2 & H3 & Hopen).
  rewrite (table_files_ok grow t t1 t2 H1 H2 H3). by apply Hopen.
Qed.

(** ** A store on these files *)

Definition deep_files : Files :=
  mkFiles NoFile (table_files processes).1 (table_files processes).2 (table_files processes).1 (table_files processes).2.
(** for keys of one character *)
Definition empty_limits : limits := Limits 1 deep_ops 522 522 128 1.

Lemma deep_init_run s : jql_space s → ∃ s', myjql_init deep_files s = Ok (tt, s') ∧ store deep_fuel s' ∅ empty_limits.
Proof.
  intros (Hi & Hrd & Hrf & Hsd & Hsf). destruct s as [p [tr ts]]. cbn [fst snd tbl_rec tbl_str] in *.
  destruct (wp_elim _ _ _ (b_tree_init_spec p Hi)) as ([] & p' & Hp & Hp').
  destruct (grown_table tr Hrd Hrf) as (tr' & Hr & Hr'), (grown_table ts Hsd Hsf) as (ts' & Hs & Hs').
  exists (p', mkTables tr' ts'). split.
  - unfold myjql_init, deep_files, idx, ext, in_rec, in_str, zoom, mbind, M_bind.
    cbn [rec_idx rec_data rec_fsm str_data str_fsm fst snd tbl_rec tbl_str].
    rewrite Hp. cbn [fst snd tbl_rec tbl_str]. rewrite Hr. cbn [fst snd tbl_rec tbl_str]. by rewrite Hs.
  - exists no_nodes, None, ∅, ∅. split; [exact Hp'|]. split; [split; [exact Hr'|exact Hs']|].
    split; [apply no_contents|]. clear. repeat split; vm_compute; discriminate.
Qed.

(** *** Six keys

    are more than a leaf holds, so that the index has been split. *)
Definition six_sets : list store_call :=
  map (λ k, CSet [k] [x00] [x76] [x00]) [x66; x61; x65; x62; x64; x63].
Definition six_pairs : contents_map := session_map ∅ six_sets.
Definition six_limits : limits := session_limits deep_fuel empty_limits ∅ six_sets.

Lemma six_pairs_store : ∃ s0 s, myjql_init deep_files blank_jql = Ok (tt, s0) ∧
  run_calls deep_fuel (replicate 20 x00) (replicate 32 x00) six_sets s0 = Ok ([], s) ∧
  store deep_fuel s six_pairs six_limits.
Proof.
  destruct (deep_init_run blank_jql blank_jql_space) as (s0 & H0 & Hs0).
  destruct (session_run deep_fuel (replicate 20 x00) (replicate 32 x00) eq_refl eq_refl six_sets s0 ∅ empty_limits Hs0)
    as (s & H & Hs).
  - clear. repeat split; vm_compute; solve [lia | discriminate].
  - exists s0, s. split; [exact H0|]. split; [exact H|exact Hs].
Qed.

(** a store of more pairs than fit a leaf has an index whose root is not one *)
Lemma many_pairs_split fuel s D lim : store fuel s D lim → (4 < size D)%nat →
  ∃ g o Hr Hs, rep s.1 g ∧ contents (l_key lim) g Hr Hs D o ∧ 3 <= index_depth o.
Proof.
  intros (g & o & Hr & Hs & Hg & _ & Hc & _) HD. exists g, o, Hr, Hs. split; [done|]. split; [done|].
  destruct Hc as (fl & keys & O & [Hidx _ _] & Hst). pose proof (stands_size _ _ _ _ _ _ Hst) as Hn.
  destruct o as [[a rows|a c0 kids]|]; cbn [index_rows elems length] in *; [|cbn; lia|lia].
  destruct (ih_root _ _ _ _ Hidx) as (_ & ((_ & Hle) & _) & _). cbn [height] in *. lia.
Qed.

(** ** Witnesses

    of the properties of the calls, on the store of six pairs *)


(** a seventh key *)
Lemma myjql_set_stores_witness : ∃ s s', store deep_fuel s six_pairs six_limits ∧ size six_pairs = 6%nat ∧
  myjql_set deep_fuel (replicate 20 x00) (replicate 32 x00) ([x67] ++ [x00]) 1 ([x77] ++ [x00]) 1 s = Ok (tt, s') ∧
  store deep_fuel s' (<[[x67] := [x77]]> six_pairs) (set_limits deep_fuel six_limits [x67] [x77] None).
Proof.
  destruct six_pairs_store as (s0 & s & _ & _ & Hs).
  assert (six_pairs !! [x67] = None) as E by (vm_compute; reflexivity).
  destruct (myjql_set_stores s six_pairs six_limits [x67] [x00] [x77] [x00] deep_fuel (replicate 20 x00) (replicate 32 x00) Hs)
    as (s' & H).
  - rewrite E. clear. constructor; fits.
  - done.
  - done.
  - rewrite E in H. exists s, s'. split; [exact Hs|]. split; [vm_compute; reflexivity|exact H].
Defined.

(** a key of the map *)
Lemma myjql_del_removes_witness : ∃ s s', store deep_fuel s six_pairs six_limits ∧ size six_pairs = 6%nat ∧
  myjql_del deep_fuel (replicate 20 x00) (replicate 32 x00) ([x62] ++ [x00]) 1 s = Ok (tt, s') ∧
  store deep_fuel s' (delete [x62] six_pairs) (del_limits deep_fuel six_limits [x62] (Some [x76])).
Proof.
  destruct six_pairs_store as (s0 & s & _ & _ & Hs).
  assert (six_pairs !! [x62] = Some [x76]) as E by (vm_compute; reflexivity).
  destruct (myjql_del_removes s six_pairs six_limits [x62] [x00] deep_fuel (replicate 20 x00) (replicate 32 x00) Hs) as (s' & H).
  - rewrite E. clear. constructor; fits.
  - done.
  - done.
  - rewrite E in H. exists s, s'. split; [exact Hs|]. split; [vm_compute; reflexivity|exact H].
Defined.

(** a key gets another value, and a different one is read *)
Lemma set_then_get_witness : ∃ s s' s'', store deep_fuel s six_pairs six_limits ∧
  myjql_set deep_fuel (replicate 20 x00) (replicate 32 x00) ([x62] ++ [x00]) 1 ([x77] ++ [x00]) 1 s = Ok (tt, s') ∧
  myjql_get deep_fuel (replicate 20 x00) (replicate 32 x00) ([x65] ++ [x00]) 1 (replicate 5 x2a) 5 s' =
    Ok (1, [x76; x00; x2a; x2a; x2a], s'').
Proof.
  destruct six_pairs_store as (s0 & s & _ & _ & Hs).
  assert (six_pairs !! [x62] = Some [x76]) as E by (vm_compute; reflexivity).
  assert (six_pairs !! [x65] = Some [x76]) as E' by (vm_compute; reflexivity).
  destruct (set_then_get s six_pairs six_limits [x62] [x00] [x77] [x00] deep_fuel (replicate 20 x00) (replicate 32 x00)
    [x65] [x00] (replicate 5 x2a) 5 Hs) as (s' & s'' & H1 & H2).
  - rewrite E. clear. constructor; fits.
  - done.
  - done.
  - rewrite E. rewrite decide_False by done. rewrite E'. clear. constructor; fits.
  - rewrite decide_False in H2 by done. rewrite E' in H2. exists s, s', s''. split; [exact Hs|]. split; [exact H1|exact H2].
Defined.

Lemma store_closes_and_opens_witness : ∃ s s', store deep_fuel s six_pairs six_limits ∧ size six_pairs = 6%nat ∧
  restart blank_jql s = Ok (tt, s') ∧ store deep_fuel s' six_pairs six_limits.
Proof.
  destruct six_pairs_store as (s0 & s & _ & _ & Hs).
  destruct (store_closes_and_opens deep_fuel s six_pairs six_limits blank_jql Hs blank_jql_space) as (s' & H1 & H2).
  exists s, s'. split; [exact Hs|]. split; [vm_compute; reflexivity|]. split; [exact H1|exact H2].
Defined.
