(* ===== verification/MyjqlCompare.v ===== *)
(** The two comparisons of the store against their reference: the loops over
    chunks compute the lexicographic order of the whole strings. *)
From stdpp Require Import base gmap list fin_maps.
From Stdlib Require Import ZArith Lia Strings.Byte.
From S2P Require Import Prelude FileIO BufferPool PoolLogic PoolClient Table HeapStore HeapWrite TableRoom Str StrSpec StrWrite.
From S2P Require Import BTree NodeSpec TreeSpec Myjql MyjqlGet MyjqlInit MyjqlOwners MyjqlWrite MyjqlMap MyjqlStore MyjqlSetProps MyjqlSession.
#[local] Open Scope Z_scope.

(** ** The reference *)

(** the order of signed characters *)
Definition char_lt (a b : byte) : Prop := char_val a < char_val b.

(** [s] comes before [t]: it ends first, or has the smaller character where
    they first differ *)
Definition str_lt (s t : list byte) : Prop :=
  (∃ b u, t = s ++ b :: u) ∨ (∃ p a b s' t', s = p ++ a :: s' ∧ t = p ++ b :: t' ∧ char_lt a b).

Lemma str_cmp_lt s t : str_cmp s t < 0 ↔ str_lt s t.
Proof.
  split.
  - revert t. induction s as [|a s IH]; intros [|b t]; cbn [str_cmp]; try lia.
    + intros _. left. by exists b, t.
    + destruct (Z.eqb_spec (char_val a) (char_val b)) as [E|E].
      * apply char_val_inj in E as ->. intros [(c & u & ->)|(p & c & d & s' & t' & -> & -> & H)]%IH.
        -- left. by exists c, u.
        -- right. by exists (b :: p), c, d, s', t'.
      * destruct (Z.gtb_spec (char_val a) (char_val b)); [lia|]. intros _. right.
        exists [], a, b, s, t. split; [done|]. split; [done|]. unfold char_lt. lia.
  - intros [(b & u & ->)|(p & a & b & s' & t' & -> & -> & H)].
    + induction s as [|a s IH]; [done|]. cbn [app str_cmp]. by rewrite Z.eqb_refl.
    + unfold char_lt in H. induction p as [|c p IH]; cbn [app str_cmp]; [|by rewrite Z.eqb_refl].
      rewrite (proj2 (Z.eqb_neq _ _)) by lia. destruct (Z.gtb_spec (char_val a) (char_val b)); lia.
Qed.

(** the verdict of a comparison *)
Definition verdict (c : Z) (s t : list byte) : Prop :=
  (c = -1 ∧ str_lt s t) ∨ (c = 0 ∧ s = t) ∨ (c = 1 ∧ str_lt t s).

Lemma str_cmp_range s t : str_cmp s t = -1 ∨ str_cmp s t = 0 ∨ str_cmp s t = 1.
Proof.
  revert t. induction s as [|a s IH]; intros [|b t]; cbn [str_cmp]; auto.
  destruct (_ =? _); [done|]. destruct (_ >? _); auto.
Qed.

Lemma str_cmp_verdict s t : verdict (str_cmp s t) s t.
Proof.
  unfold verdict. rewrite <- !str_cmp_lt. rewrite (kcmp_swap (kcmp := str_cmp) s t).
  destruct (str_cmp_range s t) as [E|[E|E]]; rewrite E.
  - left. lia.
  - right. left. split; [done|]. by apply (kcmp_eq (kcmp := str_cmp)).
  - right. right. lia.
Qed.

(** ** Equivalence *)

(** C13: both comparisons of the index, over tables of any number of pages, are the
    lexicographic order of the whole keys, of characters as signed bytes: [row_row_cmp], which walks along the
    chunks of two strings in the table at once, and [ptr_row_cmp], which walks
    along a key in memory and one in the table, return the same verdict, -1, 0
    or 1 as the first key comes before the second, is equal to it or comes
    after it, wherever the strings are cut into chunks; they change neither
    table. *)
Theorem comparisons_lexicographic fuel junk_rec junk w Hr Hs n Rr Rs r1 k1 pad r2 k2 :
  @rep _ _ (@jview_Rep (table_wview fuel)) w (JView Hr Hs n Rr Rs) →
  has_key Hr Hs r1 k1 → has_key Hr Hs r2 k2 → (length k1 < fuel)%nat → 2 * Z.of_nat (length k1) + 4 <= n →
  length junk_rec = 20%nat → length junk = 32%nat →
  ∃ c w1 w2, row_row_cmp fuel junk_rec junk r1 r2 w = Ok (c, w1) ∧
    ptr_row_cmp fuel junk_rec junk (k1 ++ pad) (Z.of_nat (length k1)) r2 w = Ok (c, w2) ∧ verdict c k1 k2 ∧
    let n' := n - (2 * Z.of_nat (length k1) + 4) in
    @rep _ _ (@jview_Rep (table_wview fuel)) w1 (JView Hr Hs n' Rr Rs) ∧
    @rep _ _ (@jview_Rep (table_wview fuel)) w2 (JView Hr Hs n' Rr Rs).
Proof.
  intros Hw H1 H2 Hf Hn Hjr Hj. set (n' := n - (2 * Z.of_nat (length k1) + 4)).
  pose proof (table_writer fuel paged_supply) as HW.
  pose proof (@write_reader fuel _ _ HW Rr) as HHr. pose proof (@write_reader fuel _ _ HW Rs) as HHs.
  pose proof (@row_row_cmp_spec (table_wview fuel) fuel _ HW junk_rec junk Hjr Hj Hr Hs n Rr Rs r1 k1 r2 k2
    (λ c v, c = str_cmp k1 k2 ∧ v = JView Hr Hs n' Rr Rs) H1 H2 Hf Hn (conj eq_refl eq_refl)) as Hrow.
  destruct (wp_elim _ _ _ (Hrow w Hw)) as (c & w1 & Hrun1 & v & Hw1 & -> & ->).
  pose proof (@ptr_row_cmp_spec _ _ HHr HHs fuel junk_rec junk Hjr Hj Hr Hs n k1 pad r2 k2
    (λ c v, c = str_cmp k1 k2 ∧ ∃ nr, n - (Z.of_nat (length k1) + 1) <= nr ∧
       v = (TView Hr nr, TView Hs (n - (Z.of_nat (length k1) + 1)))) H2 Hf ltac:(lia)
    ltac:(intros nr Hnr; split; [done|by exists nr])) as Hptr.
  destruct (wp_elim _ _ _ (Hptr w Hw)) as (c & w2 & Hrun2 & v & Hw2 & -> & nr & Hnr & ->).
  exists (str_cmp k1 k2), w1, w2. split; [done|]. split; [done|]. split; [apply str_cmp_verdict|].
  split; [done|]. destruct Hw2 as [Hw2 Hw2']. apply (jview_weaken fuel (write_cost fuel) w2 Hr Hs
    (Z.min nr (n - (Z.of_nat (length k1) + 1))) Rr Rs); [|unfold n'; lia|done|done].
  split; (eapply heap_weaken; [eassumption|simpl; lia|done]).
Qed.

(** ** Example: the rows of two keys *)

Definition two_keys : list store_call := [CSet [x6b; x61] [x00] [x76] [x00]; CSet [x6b] [x00] [x77] [x00]].

(** [ka] comes after [k] *)
Lemma comparisons_lexicographic_witness : ∃ w r1 r2 w1 w2,
  row_row_cmp 300 (replicate 20 x00) (replicate 32 x00) r1 r2 w = Ok (1, w1) ∧
  ptr_row_cmp 300 (replicate 20 x00) (replicate 32 x00) ([x6b; x61] ++ [x00]) 2 r2 w = Ok (1, w2) ∧
  verdict 1 [x6b; x61] [x6b].
Proof.
  destruct (store_init_run blank_jql 300 2 blank_jql_space) as (s0 & _ & Hs0); [lia|].
  destruct (session_run 300 (replicate 20 x00) (replicate 32 x00) eq_refl eq_refl two_keys s0 ∅ (new_limits 300 2) Hs0)
    as (s & _ & Hs); [repeat split; vm_compute; solve [lia | discriminate]|].
  destruct Hs as (g & o & Hr & Hs & _ & Hw & (fl & keys & O & [Hidx Hrecs _] & Hst) & _).
  destruct (proj1 (stands_lookup _ _ _ _ _ _ [x6b; x61] [x76] Hst)) as (r1 & _ & Hk1 & _); [by vm_compute|].
  destruct (proj1 (stands_lookup _ _ _ _ _ _ [x6b] [x77] Hst)) as (r2 & _ & Hk2 & _); [by vm_compute|].
  destruct (comparisons_lexicographic 300 (replicate 20 x00) (replicate 32 x00) s.2 Hr Hs _ _ _ r1 [x6b; x61] [x00] r2 [x6b] Hw)
    as (c & w1 & w2 & H1 & H2 & H3 & _).
  - by eapply records_has.
  - by eapply records_has.
  - cbn. lia.
  - vm_compute. discriminate.
  - done.
  - done.
  - assert (c = 1) as ->.
    { destruct H3 as [[-> H]|[[-> H]|[-> H]]]; [|done|done]. by apply str_cmp_lt in H. }
    exists s.2, r1, r2, w1, w2. split; [exact H1|]. split; [exact H2|exact H3].
Defined.
