(* ===== verification/RowsInMemory.v ===== *)
(** Callbacks for examples of the index: rows with integer keys, kept in
    memory, and the identifiers [D] of the rows that are not copies of keys. *)
From stdpp Require Import base gmap list fin_maps sorting.
From Stdlib Require Import ZArith Lia Strings.Byte.
From S2P Require Import Prelude FileIO BufferPool PoolLogic PoolClient PoolDurable Table HeapStore BTree NodeSpec NodeFocus TreeSpec NodeOps.
From S2P Require Import TreeFrame BTreeSearch TreeInsert BTreeInsert BTreeInsertSpec BTreeDelete MyjqlInit.
#[local] Open Scope Z_scope.

(** the rows, and the block of the next identifier *)
Definition rows_state : Type := gmap RID Z * Z.

Definition cmp_rows (r1 r2 : RID) : M rows_state Z :=
  w ← gets id; k1 ← of_opt (w.1 !! r1); k2 ← of_opt (w.1 !! r2); mret (k1 - k2).
Definition cmp_key (k : Z) (r : RID) : M rows_state Z :=
  w ← gets id; k' ← of_opt (w.1 !! r); mret (k - k').
Definition copy_row (r : RID) : M rows_state RID :=
  w ← gets id; k ← of_opt (w.1 !! r);
  modify (λ w, (<[mkRID w.2 0:=k]> w.1, w.2 + 128));;
  mret (mkRID w.2 0).
Definition drop_copy (r : RID) : M rows_state unit :=
  w ← gets id; _ ← of_opt (w.1 !! r); modify (λ w, (delete r w.1, w.2)).

#[export] Instance Z_order : KeyOrder Z.sub.
Proof. constructor; lia. Qed.

Section rows_in_memory.
Context (D : list RID).

Definition rows_rep : Rep rows_state (world Z) := λ w g,
  w.1 = w_keys g ∧ (0 <= w.2 ∧ w.2 + 128 * w_ops g <= MAX_LEN) ∧
  (∀ r k, w.1 !! r = Some k → rid_ok r ∧ rid_block_addr r < w.2) ∧ ∀ r, r ∈ D → is_Some (w.1 !! r).
#[local] Existing Instance rows_rep.

Lemma rows_world : KeyWorld Z rows_state.
Proof using.
  constructor.
  - intros [m next] keys n n' (? & ? & Hr) Hn. cbn [fst snd w_keys w_ops] in *.
    split; [done|]. cbn [fst snd w_keys w_ops]. split; [lia|done].
  - intros [m next] keys n r k (E & _ & Hr & _) Hk. simpl in *. subst m. by destruct (Hr _ _ Hk).
Qed.

Lemma rows_spend m next keys n n' : n' <= n →
  rep (m, next) (World keys n) → rep (m, next) (World keys n').
Proof using. intros Hn Hs. by eapply (@world_spend Z rows_state rows_rep rows_world). Qed.

Lemma rows_comparer : RowComparer Z.sub cmp_rows 0.
Proof using.
  intros keys r1 k1 r2 k2 n Φ H1 H2 Hn HΦ [m next] Hs. pose proof Hs as (E & _). simpl in E. subst m.
  unfold cmp_rows. wp_step. wp_step. wp_step. eapply wp_of_opt; [exact H1|]. wp_step.
  eapply wp_of_opt; [exact H2|]. wp_step. eexists. split; [|exact HΦ]. eapply rows_spend; [|exact Hs]. lia.
Qed.

Lemma key_comparer k : Comparer Z.sub (cmp_key k) k 0.
Proof using.
  intros keys r k' n Φ H1 Hn HΦ [m next] Hs. pose proof Hs as (E & _). simpl in E. subst m.
  unfold cmp_key. wp_step. wp_step. wp_step. eapply wp_of_opt; [exact H1|]. wp_step.
  eexists. split; [|exact HΦ]. eapply rows_spend; [|exact Hs]. lia.
Qed.

Lemma row_copier : KeyCopier copy_row 1.
Proof using.
  intros keys r k n Φ Hr Hn HΦ [m next] (E & [H0 H1] & Hids & HD). cbn [fst snd w_keys w_ops] in *. subst m.
  unfold copy_row. wp_step. wp_step. wp_step. eapply wp_of_opt; [exact Hr|]. wp_step. wp_step. wp_step.
  eexists. split; [|apply HΦ].
  - cbn [fst snd w_keys w_ops]. split; [done|]. cbn [fst snd w_keys w_ops]. split; [lia|]. split.
    + intros r' k' [[<- <-]|[Hne Hr']]%lookup_insert_Some.
      * split; [|cbn; lia]. unfold rid_ok, in_s, MAX_LEN in *. cbn. change (2 ^ (64 - 1)) with (2 ^ 63). lia.
      * destruct (Hids _ _ Hr'). split; [done|lia].
    + intros r' Hr'. apply lookup_insert_is_Some'. right. by apply HD.
  - cbn [fst snd]. destruct (keys !! mkRID next 0) as [k'|] eqn:E; [|done].
    destruct (Hids _ _ E) as [_ Hlt]. cbn in Hlt. lia.
Qed.

Lemma copy_dropper : KeyDropper (λ r, r ∉ D) drop_copy 0.
Proof using.
  constructor.
  - intros keys r k n Φ Hr Hsp Hn HΦ [m next] (E & [H0 H1] & Hids & HD). cbn [fst snd w_keys w_ops] in *. subst m.
    unfold drop_copy. wp_step. wp_step. wp_step. eapply wp_of_opt; [exact Hr|]. wp_step.
    eexists. split; [|apply HΦ]. cbn [fst snd w_keys w_ops]. split; [done|]. cbn [fst snd w_keys w_ops]. split; [lia|]. split.
    + intros r' k' [_ Hr']%lookup_delete_Some. by eapply Hids.
    + intros r' Hr'. rewrite lookup_delete_ne; [by apply HD|]. by intros ->.
  - intros [m next] keys n r (E & _ & _ & HD) Hr Hin. simpl in *. subst m. destruct (HD r Hin) as [k Hk]. by rewrite Hr in Hk.
Qed.
End rows_in_memory.

(** an index without rows, and the row to insert *)
Definition first_row : RID := mkRID 0 0.

#[export] Instance first_rep : Rep rows_state (world Z) := rows_rep [first_row].
#[export] Instance first_world : KeyWorld Z rows_state := rows_world [first_row].
#[export] Instance first_comparer : RowComparer Z.sub cmp_rows 0 := rows_comparer [first_row].
#[export] Instance first_key_comparer k : Comparer Z.sub (cmp_key k) k 0 := key_comparer [first_row] k.
#[export] Instance first_copier : KeyCopier copy_row 1 := row_copier [first_row].
#[export] Instance first_dropper : KeyDropper (λ r, r ∉ [first_row]) drop_copy 0 := copy_dropper [first_row].

Lemma first_index : ∃ s, rep s (no_nodes, World {[first_row := 5]} 1000) ∧
  index_holds (kcmp := Z.sub) no_nodes {[first_row := 5]} None [].
Proof.
  destruct (wp_elim _ _ _ (b_tree_init_spec blank_pool blank_pool_space)) as ([] & p & _ & Hp).
  exists (p, ({[first_row := 5]}, 128)). split.
  - split; [exact Hp|]. split; [done|]. cbn [fst snd w_ops]. split; [split; [lia|unfold MAX_LEN; lia]|]. split.
    + by intros r k [<- _]%lookup_singleton_Some.
    + intros r ->%list_elem_of_singleton. by rewrite lookup_singleton_eq.
  - constructor; [done|done|done|constructor|intros _; by left|done].
Qed.
