(* ===== verification/BTreeInsertProps.v ===== *)
(** What an insertion means to a client of the index: the row is among the
    rows, in the order of keys, and a search of its key finds it. *)
From stdpp Require Import base gmap list fin_maps sorting.
From Stdlib Require Import ZArith Lia Strings.Byte.
From S2P Require Import Prelude FileIO BufferPool PoolLogic PoolClient PoolDurable Table HeapStore BTree NodeSpec NodeFocus TreeSpec NodeOps.
From S2P Require Import TreeFrame BTreeSearch TreeInsert BTreeInsert BTreeInsertSpec RowsInMemory MyjqlInit.
#[local] Open Scope Z_scope.

Section index.
Context {K W : Type} {kcmp : K → K → Z} {KO : KeyOrder kcmp}.
Context {RW : Rep W (world K)} {KW : KeyWorld K W}.
Context (cmp : RID → RID → M W Z) (insert_handler : RID → M W RID) (cost hcost : Z).
Context {HC : RowComparer kcmp cmp cost} {HI : KeyCopier insert_handler hcost}.
Context (Hcost : 0 <= cost) (Hhcost : 0 <= hcost).

Lemma b_tree_insert_run rid k g keys o fl fuel n s :
  rep s (g, World keys n) → index_holds (kcmp := kcmp) g keys o fl →
  keys !! rid = Some k → (∀ r, r ∈ index_rows o → keys !! r ≠ Some k) →
  index_depth o <= Z.of_nat fuel → 8 * cost * index_depth o + hcost <= n →
  8 * index_depth o <= i_hits g → i_len g + 3 * PAGE_SIZE * index_depth o <= MAX_LEN →
  ∃ s' g' keys' o' n', b_tree_insert cmp insert_handler fuel rid s = Ok (rid, s') ∧
    rep s' (g', World keys' n') ∧ index_grown (kcmp := kcmp) cost hcost g keys o n rid g' keys' o' n'.
Proof using HC HI Hcost Hhcost KO KW.
  intros Hs Hidx Hk Hno Hf Hn Hh HM.
  pose proof (b_tree_insert_spec cmp insert_handler cost hcost Hcost Hhcost rid k g keys o fl fuel n
    (λ r gw, ∃ g' keys' o' n', r = rid ∧ gw = (g', World keys' n') ∧
       index_grown (kcmp := kcmp) cost hcost g keys o n rid g' keys' o' n')
    Hidx Hk Hno Hf Hn Hh HM ltac:(intros g' keys' o' n' Hgr; by exists g', keys', o', n') s Hs) as Hrun.
  apply wp_elim in Hrun as (r & s' & Hrun & gw & Hs' & g' & keys' & o' & n' & -> & -> & Hgrown).
  by exists s', g', keys', o', n'.
Qed.

(** C6: [b_tree_insert] refines insertion into a sorted list of rows.  On a
    well-formed index without a row of the same key, whose pages are those of
    the tree and of the free list, the C code returns; the new tree is
    well formed (every node but the root has two to four rows or keys, and all
    leaves are at one level), no page is in use twice or pinned, its rows are
    the old ones and the new one in strictly increasing order, and the
    callbacks' rows are kept.  This covers the leaf with room, the split of a
    leaf and of an internal node, the new root, and the first row. *)
Theorem b_tree_insert_adds rid k g keys o fl fuel n s :
  rep s (g, World keys n) → index_holds (kcmp := kcmp) g keys o fl →
  keys !! rid = Some k → (∀ r, r ∈ index_rows o → keys !! r ≠ Some k) →
  index_depth o <= Z.of_nat fuel → 8 * cost * index_depth o + hcost <= n →
  8 * index_depth o <= i_hits g → i_len g + 3 * PAGE_SIZE * index_depth o <= MAX_LEN →
  ∃ s' g' keys' o' n', b_tree_insert cmp insert_handler fuel rid s = Ok (rid, s') ∧
    rep s' (g', World keys' n') ∧ index_grown (kcmp := kcmp) cost hcost g keys o n rid g' keys' o' n'.
Proof using HC HI Hcost Hhcost KO KW. apply b_tree_insert_run. Qed.

(** C7: a row that was inserted is found: [b_tree_search] of the key of [rid]
    after [b_tree_insert] of [rid] returns [rid], and a search of the key of
    any row that was in the index before still returns that row. *)
Theorem insert_then_search rid k g keys o fl fuel n s (r : RID) (kr : K) (cmpk : RID → M W Z) costk
    {HCk : Comparer kcmp cmpk kr costk} :
  rep s (g, World keys n) → index_holds (kcmp := kcmp) g keys o fl →
  keys !! rid = Some k → (∀ r, r ∈ index_rows o → keys !! r ≠ Some k) →
  r = rid ∨ r ∈ index_rows o → keys !! r = Some kr → 0 <= costk →
  index_depth o <= Z.of_nat fuel →
  8 * cost * index_depth o + hcost + 4 * costk * (index_depth o + 1) <= n →
  9 * index_depth o + 1 <= i_hits g → i_len g + 3 * PAGE_SIZE * index_depth o <= MAX_LEN →
  ∃ s' s'', b_tree_insert cmp insert_handler fuel rid s = Ok (rid, s') ∧
    b_tree_search cmpk fuel s' = Ok (r, s'').
Proof using HC HI Hcost Hhcost KO KW.
  intros Hs Hidx Hk Hno Hr Hkr Hck Hf Hn Hh HM.
  assert (1 <= index_depth o) by (destruct o; simpl; lia).
  destruct (b_tree_insert_run rid k g keys o fl fuel n s) as (s' & g' & keys' & o' & n' & Hrun & Hs' & Hg);
    [done|done|done|done|done|nia|lia|done|].
  destruct Hg as [[fl' Hidx'] Hsub Hrows _ Hdepth Hops Hhits _].
  pose proof (b_tree_search_spec cmpk kr costk Hck g' keys' o' fuel n' (λ x _, x = r)
    (ih_root _ _ _ _ Hidx') (ih_pins _ _ _ _ Hidx') ltac:(lia) ltac:(lia) ltac:(nia)) as Hsearch.
  unshelve epose proof (wp_elim _ _ _ (Hsearch _ s' Hs')) as (x & s'' & Hrun2 & _ & _ & ->).
  - assert (r ∈ index_rows o') as Hin by (rewrite Hrows; apply elem_of_cons; tauto).
    assert (keys' !! r = Some kr) as Hkr' by (by eapply lookup_weaken). cbv zeta. split.
    + intros x Hx Hkx. destruct (decide (x = r)) as [|Hne]; [done|exfalso].
      pose proof (ih_root _ _ _ _ Hidx') as Hroot. destruct o' as [t|]; [|by apply not_elem_of_nil in Hx].
      destruct Hroot as (_ & Hwf & _). apply Hne.
      eapply (unique_key (kcmp := kcmp)); [by eapply elems_sorted|exact Hx|exact Hin|done|done].
    + intros Habs. by destruct (Habs r Hin).
  - by exists s', s''.
Qed.
End index.

Lemma b_tree_insert_adds_witness : ∃ s s' g' keys' o' n',
  b_tree_insert cmp_rows copy_row 5 first_row s = Ok (first_row, s') ∧
  rep s' (g', World keys' n') ∧
  index_grown (kcmp := Z.sub) 0 1 no_nodes {[first_row := 5]} None 1000 first_row g' keys' o' n'.
Proof.
  destruct first_index as (s & Hs & Hidx). exists s.
  apply (b_tree_insert_adds cmp_rows copy_row 0 1 (Z.le_refl 0) ltac:(lia) first_row 5 no_nodes {[first_row := 5]} None [] 5 1000 s Hs Hidx).
  - by rewrite lookup_singleton_eq.
  - by intros r []%not_elem_of_nil.
  - cbn. lia.
  - cbn. lia.
  - by vm_compute.
  - by vm_compute.
Defined.

Lemma insert_then_search_witness : ∃ s s' s'',
  b_tree_insert cmp_rows copy_row 5 first_row s = Ok (first_row, s') ∧
  b_tree_search (cmp_key 5) 5 s' = Ok (first_row, s'').
Proof.
  destruct first_index as (s & Hs & Hidx). exists s.
  apply (insert_then_search cmp_rows copy_row 0 1 (Z.le_refl 0) ltac:(lia) first_row 5 no_nodes {[first_row := 5]} None [] 5 1000 s
    first_row 5 (cmp_key 5) 0 Hs Hidx).
  - by rewrite lookup_singleton_eq.
  - by intros r []%not_elem_of_nil.
  - by left.
  - by rewrite lookup_singleton_eq.
  - lia.
  - cbn. lia.
  - cbn. lia.
  - by vm_compute.
  - by vm_compute.
Defined.
