(* ===== verification/BTreeDeleteProps.v ===== *)
(** What a deletion means to a client of the index: the row is gone, a search
    of its key fails and one of any other finds its row; and any sequence of
    insertions and deletions keeps the index a well-formed B+ tree of the rows
    it should have. *)
From stdpp Require Import base gmap list fin_maps sorting.
From Stdlib Require Import ZArith Lia Strings.Byte.
From S2P Require Import Prelude FileIO BufferPool PoolLogic PoolClient Table HeapStore BTree NodeSpec TreeSpec.
From S2P Require Import TreeFrame BTreeSearch TreeInsert TreeDelete BTreeInsert BTreeInsertSpec BTreeDelete BTreeDeleteTree RowsInMemory MyjqlInit.
#[local] Open Scope Z_scope.

Section index.
Context {K W : Type} {kcmp : K → K → Z} {KO : KeyOrder kcmp}.
Context {RW : Rep W (world K)} {KW : KeyWorld K W}.
Context (cmp : RID → RID → M W Z) (insert_handler : RID → M W RID) (delete_handler : RID → M W unit).
Context (cost hcost dcost : Z) (spare : RID → Prop).
Context {HC : RowComparer kcmp cmp cost} {HI : KeyCopier insert_handler hcost}.
Context {HD : KeyDropper spare delete_handler dcost}.
Context (Hcost : 0 <= cost) (Hhcost : 0 <= hcost) (Hdcost : 0 <= dcost).
Local Abbreviation level := (4 * cost + hcost + dcost).

(** The type of an index between operations: the tree is well formed and
    stored on pages of its own, the free nodes are the other ones, and the
    keys of internal nodes are records that are not rows. *)
Definition index_ok (g : ipool) (keys : gmap RID K) (o : option tree) : Prop :=
  (∃ fl, index_holds (kcmp := kcmp) g keys o fl) ∧ Forall spare (index_seps o) ∧ Forall (λ r, ¬ spare r) (index_rows o).

Lemma b_tree_delete_run rid k g keys t fl fuel n s :
  rep s (g, World keys n) → index_holds (kcmp := kcmp) g keys (Some t) fl →
  Forall spare (seps t) → Forall (λ r, ¬ spare r) (elems t) → keys !! rid = Some k → rid ∈ elems t →
  (height t < fuel)%nat → level * (Z.of_nat (height t) + 1) <= n → 6 * (Z.of_nat (height t) + 1) + 1 <= i_hits g →
  ∃ s' g' keys' o' n', b_tree_delete cmp insert_handler delete_handler fuel rid s = Ok (tt, s') ∧
    rep s' (g', World keys' n') ∧
    index_shrunk (kcmp := kcmp) cost hcost dcost spare keys t fl (i_len g) n (i_hits g) rid g' keys' o' n'.
Proof using HC HD HI Hcost Hdcost Hhcost KO KW.
  intros Hs Hidx Hsp Hrow Hk Hrid Hf Hn Hh.
  pose proof (b_tree_delete_spec cmp insert_handler delete_handler cost hcost dcost spare Hcost Hhcost Hdcost
    rid k g keys t fl fuel n (λ _ gw, ∃ g' keys' o' n', gw = (g', World keys' n') ∧
       index_shrunk (kcmp := kcmp) cost hcost dcost spare keys t fl (i_len g) n (i_hits g) rid g' keys' o' n')
    Hidx Hk Hrid Hsp Hrow Hf Hn Hh ltac:(intros g' keys' o' n' Hgr; by exists g', keys', o', n') s Hs) as Hrun.
  apply wp_elim in Hrun as ([] & s' & Hrun & gw & Hs' & g' & keys' & o' & n' & -> & Hshrunk).
  by exists s', g', keys', o', n'.
Qed.

(** C8: [b_tree_delete] refines removal from a sorted list of rows.  On a
    well-formed index with the row, whose internal nodes hold keys of records
    of their own, the C code returns; the new tree is well formed (every node
    but the root still has two to four rows or keys, and all leaves are at one
    level), its rows are the old ones without the row, the keys of all other
    rows are kept, and no page is lost: those that left the tree are in the
    free list.  This covers the leaf and the internal node that stay large
    enough, the loan from the right or left brother, the merge with it, the
    root that loses its last key, and the tree that becomes empty. *)
Theorem b_tree_delete_removes rid k g keys t fl fuel n s :
  rep s (g, World keys n) → index_holds (kcmp := kcmp) g keys (Some t) fl →
  Forall spare (seps t) → Forall (λ r, ¬ spare r) (elems t) → keys !! rid = Some k → rid ∈ elems t →
  (height t < fuel)%nat → level * (Z.of_nat (height t) + 1) <= n → 6 * (Z.of_nat (height t) + 1) + 1 <= i_hits g →
  ∃ s' g' keys' o' n', b_tree_delete cmp insert_handler delete_handler fuel rid s = Ok (tt, s') ∧
    rep s' (g', World keys' n') ∧
    index_shrunk (kcmp := kcmp) cost hcost dcost spare keys t fl (i_len g) n (i_hits g) rid g' keys' o' n'.
Proof using HC HD HI Hcost Hdcost Hhcost KO KW. apply b_tree_delete_run. Qed.

(** rows that are not spare keep their keys *)
Lemma row_keys (keys keys' : gmap RID K) t x :
  Forall spare (seps t) → (∀ r, r ∉ seps t → is_Some (keys !! r) → keys' !! r = keys !! r) →
  ¬ spare x → is_Some (keys !! x) → keys' !! x = keys !! x.
Proof using.
  intros Hsp Hk Hx Hkx. apply Hk; [|done]. intros Hin. rewrite Forall_forall in Hsp. by apply Hx, Hsp.
Qed.

(** C10: a row that was deleted is not found again, and every other one still
    is: after [b_tree_delete] of [rid] the search of its key returns
    [failed_rid], and the search of the key of another row returns that row. *)
Theorem delete_then_search rid k g keys t fl fuel n s (r : RID) (kr : K) (cmpk : RID → M W Z) costk
    {HCk : Comparer kcmp cmpk kr costk} :
  rep s (g, World keys n) → index_holds (kcmp := kcmp) g keys (Some t) fl →
  Forall spare (seps t) → Forall (λ r, ¬ spare r) (elems t) → keys !! rid = Some k → rid ∈ elems t →
  r ∈ elems t → keys !! r = Some kr → 0 <= costk → Z.of_nat (height t) + 2 <= Z.of_nat fuel →
  level * (Z.of_nat (height t) + 1) + 4 * costk * (Z.of_nat (height t) + 2) <= n →
  8 * (Z.of_nat (height t) + 2) <= i_hits g →
  ∃ s' s'', b_tree_delete cmp insert_handler delete_handler fuel rid s = Ok (tt, s') ∧
    b_tree_search cmpk fuel s' = Ok (if decide (r = rid) then failed_rid else r, s'').
Proof using HC HD HI Hcost Hdcost Hhcost KO KW.
  intros Hs Hidx Hsp Hrow Hk Hrid Hr Hkr Hck Hf Hn Hh.
  destruct (b_tree_delete_run rid k g keys t fl fuel n s) as (s' & g' & keys' & o' & n' & Hrun & Hs' & Hg);
    [done|done|done|done|done|done|lia|nia|lia|].
  destruct Hg as [(fl' & Hidx' & _) Hkeys Hrows Hdepth _ Hops Hhits _].
  pose proof (ih_root _ _ _ _ Hidx) as (_ & Hwf & _). pose proof (elems_sorted _ _ _ _ _ _ Hwf) as Hsort.
  assert (NoDup (rid :: index_rows o')) as [Hnr _]%NoDup_cons by (rewrite <- Hrows; by eapply sorted_nodup).
  assert (∀ x, x ∈ index_rows o' → x ∈ elems t ∧ keys' !! x = keys !! x) as Hx.
  { intros x Hx. assert (x ∈ elems t) as Hxt by (rewrite Hrows; by right). split; [done|].
    eapply row_keys; [exact Hsp|exact Hkeys| |by eapply elems_known]. rewrite Forall_forall in Hrow. by apply Hrow. }
  pose proof (b_tree_search_spec cmpk kr costk Hck g' keys' o' fuel n'
    (λ x _, x = if decide (r = rid) then failed_rid else r)
    (ih_root _ _ _ _ Hidx') (ih_pins _ _ _ _ Hidx') ltac:(simpl in *; lia) ltac:(simpl in *; lia) ltac:(simpl in *; nia)) as Hsearch.
  unshelve epose proof (wp_elim _ _ _ (Hsearch _ s' Hs')) as (x & s'' & Hrun2 & _ & _ & ->).
  - cbv zeta. split.
    + intros x Hxo Hkx. destruct (Hx x Hxo) as [Hxt Ek]. assert (x = r) as -> by (eapply unique_key; [exact Hsort|done..|by rewrite <- Ek|done]).
      destruct (decide (r = rid)) as [->|]; done.
    + intros Habs. destruct (decide (r = rid)) as [|Hne]; [done|exfalso].
      assert (r ∈ index_rows o') as Hro. { rewrite Hrows in Hr. by apply elem_of_cons in Hr as [?|?]. }
      destruct (Hx r Hro) as [_ Ek]. apply (Habs r Hro). by rewrite Ek.
  - by exists s', s''.
Qed.

(** a deletion from an index that is empty returns without a change to it, but
    with the control page pinned *)
Lemma b_tree_delete_empty_keeps_pin fuel rid free ns l hh w s : 0 < hh →
  rep s (IPool (-1) free ns l ∅ hh, w) →
  ∃ s' k, b_tree_delete cmp insert_handler delete_handler fuel rid s = Ok (tt, s') ∧
    rep s' (IPool (-1) free ns l {[0 := (k, 1)]} (hh - 1), w).
Proof using.
  intros Hh Hs.
  assert (awp (b_tree_delete cmp insert_handler delete_handler fuel rid)
    (λ _ gw, ∃ k, gw = (IPool (-1) free ns l {[0 := (k, 1)]} (hh - 1), w)) (IPool (-1) free ns l ∅ hh, w)) as Hw.
  { unfold b_tree_delete. awp_step. apply awp_idx. eapply ip_get_ctrl; [done|pins_size|lia|]. intros kc. cbv beta.
    awp_step. apply awp_idx. eapply ip_rd_root; [map_find|]. cbv beta. cbn [Z.eqb Pos.eqb]. awp_step. by exists kc. }
  destruct (wp_elim _ _ _ (Hw s Hs)) as ([] & s' & Hrun & gw & Hs' & k & ->). by exists s', k.
Qed.

(** ** Sessions: sequences of insertions and deletions *)

Inductive index_op := Insert (rid : RID) | Delete (rid : RID).

Definition run_op (fuel : nat) (op : index_op) : M (BufferPool * W) unit :=
  match op with
  | Insert rid => _ ← b_tree_insert cmp insert_handler fuel rid; mret tt
  | Delete rid => b_tree_delete cmp insert_handler delete_handler fuel rid
  end.
Fixpoint run_ops (fuel : nat) (ops : list index_op) : M (BufferPool * W) unit :=
  match ops with
  | [] => mret tt
  | op :: ops' => run_op fuel op;; run_ops fuel ops'
  end.

(** the set of rows after an operation, and when it may be called *)
Definition op_rows (R : gset RID) (op : index_op) : gset RID :=
  match op with Insert rid => {[rid]} ∪ R | Delete rid => R ∖ {[rid]} end.
Definition op_ok (keys : gmap RID K) (R : gset RID) (op : index_op) : Prop :=
  match op with
  | Insert rid => ¬ spare rid ∧ ∃ k, keys !! rid = Some k ∧ ∀ r, r ∈ R → keys !! r ≠ Some k
  | Delete rid => rid ∈ R
  end.
Fixpoint ops_ok (keys : gmap RID K) (R : gset RID) (ops : list index_op) : Prop :=
  match ops with [] => True | op :: ops' => op_ok keys R op ∧ ops_ok keys (op_rows R op) ops' end.

(** operations on the callbacks for one call, at depth [d] *)
Definition op_cost (d : Z) : Z := (8 * cost + hcost + dcost) * d.

Lemma op_ok_keys keys keys' R op : (∀ r, ¬ spare r → keys' !! r = keys !! r) → (∀ r, r ∈ R → ¬ spare r) →
  op_ok keys R op → op_ok keys' R op.
Proof using.
  intros Hk HR. destruct op as [rid|rid]; [|done]. intros [Hsp (k & E & Hno)]. split; [done|]. exists k.
  rewrite Hk by done. split; [done|]. intros r Hr. rewrite Hk by (by apply HR). by apply Hno.
Qed.

Lemma ops_ok_keys keys keys' R ops : (∀ r, ¬ spare r → keys' !! r = keys !! r) → (∀ r, r ∈ R → ¬ spare r) →
  ops_ok keys R ops → ops_ok keys' R ops.
Proof using.
  intros Hk. revert R. induction ops as [|op ops IH]; intros R HR; [done|]. intros [Hop Hops].
  split; [by eapply op_ok_keys|]. apply IH; [|done]. destruct op as [rid|rid]; cbn [op_rows]; intros r.
  - intros [->%elem_of_singleton|Hr]%elem_of_union; [by destruct Hop|by apply HR].
  - intros [Hr _]%elem_of_difference. by apply HR.
Qed.

(** one operation keeps the type of the index *)
Lemma run_op_spec op R g keys o fuel n s d :
  rep s (g, World keys n) → index_ok g keys o → index_rows o ≡ₚ elements R → op_ok keys R op →
  index_depth o <= d → d <= Z.of_nat fuel → op_cost d <= n → 8 * d <= i_hits g → i_len g + 3 * PAGE_SIZE * d <= MAX_LEN →
  ∃ s' g' keys' o' n', run_op fuel op s = Ok (tt, s') ∧ rep s' (g', World keys' n') ∧
    index_ok g' keys' o' ∧ index_rows o' ≡ₚ elements (op_rows R op) ∧ (∀ r, ¬ spare r → keys' !! r = keys !! r) ∧
    index_depth o' <= index_depth o + 1 ∧ n - op_cost d <= n' ∧ i_hits g - 8 * d <= i_hits g' ∧
    i_len g' <= i_len g + 3 * PAGE_SIZE * d.
Proof using HC HD HI Hcost Hdcost Hhcost KO KW.
  intros Hs [[fl Hidx] [Hsp Hrow]] HR Hop Hd Hf Hn Hh HM. unfold op_cost in *. assert (1 <= index_depth o) by (destruct o; simpl; lia).
  assert (∀ r, keys !! r = None → spare r) as Hfresh by (intros r; destruct s; by eapply fresh_spare, Hs).
  destruct op as [rid|rid]; cbn [run_op op_rows op_ok] in *.
  - destruct Hop as [Hnsp (k & Hk & Hno)].
    assert (∀ r, r ∈ index_rows o → keys !! r ≠ Some k) as Hno'.
    { intros r Hr. apply Hno. rewrite HR in Hr. by apply elem_of_elements. }
    destruct (wp_elim _ _ _ (b_tree_insert_spec cmp insert_handler cost hcost Hcost Hhcost rid k g keys o fl fuel n
      (λ _ gw, ∃ g' keys' o' n', gw = (g', World keys' n') ∧
        index_grown (kcmp := kcmp) cost hcost g keys o n rid g' keys' o' n')
      Hidx Hk Hno' ltac:(lia) ltac:(nia) ltac:(nia) ltac:(unfold PAGE_SIZE in *; nia) ltac:(intros g' keys' o' n' Hgr; by exists g', keys', o', n') s Hs))
      as (x & s' & Hrun & gw & Hs' & g' & keys' & o' & n' & -> & [Hidx' Hsub Hrows _ Hdepth Hops Hhits Hseps Hlen]).
    exists s', g', keys', o', n'. split; [unfold mbind, M_bind in *; by rewrite Hrun|]. split; [done|].
    split; [split; [done|split]|split; [|split; [|split; [lia|split; [nia|split; [nia|unfold PAGE_SIZE in *; nia]]]]]].
    + apply Forall_forall. intros r Hr. destruct (Hseps r Hr) as [?|?]; [|by apply Hfresh]. rewrite Forall_forall in Hsp. by apply Hsp.
    + rewrite Hrows. by constructor.
    + rewrite Hrows, HR. symmetry. apply elements_union_singleton. intros Hin. by apply (Hno rid Hin).
    + intros r Hr. destruct (keys !! r) as [kr|] eqn:E; [by eapply lookup_weaken|]. by destruct (Hr (Hfresh r E)).
  - assert (rid ∈ index_rows o) as Hrid by (rewrite HR; by apply elem_of_elements).
    destruct o as [t|]; [|by apply not_elem_of_nil in Hrid]. cbn [index_rows index_seps index_depth] in *.
    pose proof (ih_root _ _ _ _ Hidx) as (_ & Hwf & _). destruct (elems_known _ _ _ _ _ _ _ Hwf Hrid) as [k Hk].
    destruct (b_tree_delete_run rid k g keys t fl fuel n s) as (s' & g' & keys' & o' & n' & Hrun & Hs' & [(fl' & Hidx' & _) Hkeys Hrows Hdepth Hsp' Hops Hhits Hlen]);
      [done|done|done|done|done|done|lia|nia|lia|].
    exists s', g', keys', o', n'. split; [done|]. split; [done|].
    split; [split; [by exists fl'|split]|split; [|split; [|split; [simpl in *; lia|split; [nia|split; [lia|unfold PAGE_SIZE in *; nia]]]]]].
    + destruct o' as [t'|]; [by apply Hsp'|constructor].
    + rewrite Hrows in Hrow. by apply Forall_cons in Hrow as [_ ?].
    + apply (Permutation_cons_inv (a:=rid)). rewrite <- Hrows, HR.
      rewrite <- elements_union_singleton by set_solver. apply elements_proper.
      assert (rid ∈ R) by done. intros x. destruct (decide (x = rid)); set_solver.
    + intros r Hr. destruct (keys !! r) as [kr|] eqn:E.
      * rewrite <- E. eapply row_keys; [exact Hsp|exact Hkeys|done|by exists kr].
      * by destruct (Hr (Hfresh r E)).
Qed.

(** C9: the index keeps its type through every sequence of insertions and
    deletions, in any order, emptying the tree and filling it again included:
    if each insertion is of a row whose key is not there and each deletion of a
    row that is there, the calls return, the index is a well-formed B+ tree on
    pages of its own at the end, and its rows are those of the finite set the
    operations compute. *)
Theorem index_session ops : ∀ R g keys o fuel n s d,
  rep s (g, World keys n) → index_ok g keys o → index_rows o ≡ₚ elements R → ops_ok keys R ops →
  index_depth o + Z.of_nat (length ops) <= d → d <= Z.of_nat fuel → op_cost d * Z.of_nat (length ops) <= n →
  8 * d * Z.of_nat (length ops) <= i_hits g → i_len g + 3 * PAGE_SIZE * d * Z.of_nat (length ops) <= MAX_LEN →
  ∃ s' g' keys' o' n', run_ops fuel ops s = Ok (tt, s') ∧ rep s' (g', World keys' n') ∧
    index_ok g' keys' o' ∧ index_rows o' ≡ₚ elements (foldl op_rows R ops).
Proof using HC HD HI Hcost Hdcost Hhcost KO KW.
  induction ops as [|op ops IH]; intros R g keys o fuel n s d Hs Hok HR Hops Hd Hf Hn Hh HM.
  { by exists s, g, keys, o, n. }
  destruct Hops as [Hop Hops]. cbn [length] in *. assert (1 <= index_depth o) by (destruct o; simpl; lia).
  assert (0 <= op_cost d) by (unfold op_cost; nia).
  destruct (run_op_spec op R g keys o fuel n s d) as
    (s1 & g1 & keys1 & o1 & n1 & Hrun & Hs1 & Hok1 & HR1 & Hk1 & Hd1 & Hn1 & Hh1 & HM1);
    [done..|lia|lia|nia|nia|unfold PAGE_SIZE in *; nia|].
  destruct (IH (op_rows R op) g1 keys1 o1 fuel n1 s1 d) as (s' & g' & keys' & o' & n' & Hrun' & Hres);
    [done|done|done| |lia|lia|nia|nia|unfold PAGE_SIZE in *; nia|].
  - eapply ops_ok_keys; [exact Hk1| |exact Hops]. intros r Hr. destruct Hok1 as (_ & _ & Hrow1). rewrite Forall_forall in Hrow1.
    apply Hrow1. rewrite HR1. by apply elem_of_elements.
  - exists s', g', keys', o', n'. split; [|done]. cbn [run_ops]. unfold mbind, M_bind in *. by rewrite Hrun.
Qed.
End index.

(** ** Examples *)

(** an index of one row *)
Lemma one_row_index : ∃ s g keys t fl n, rep s (g, World keys n) ∧ index_holds (kcmp := Z.sub) g keys (Some t) fl ∧
  elems t = [first_row] ∧ height t = 0%nat ∧ seps t = [] ∧ keys !! first_row = Some 5 ∧ 900 <= n ∧ 900 <= i_hits g.
Proof.
  destruct first_index as (s & Hs & Hidx).
  pose proof (b_tree_insert_spec cmp_rows copy_row 0 1 ltac:(lia) ltac:(lia) first_row 5 no_nodes {[first_row := 5]} None [] 5 1000
    (λ _ gw, ∃ g' keys' o' n', gw = (g', World keys' n') ∧
       index_grown (kcmp := Z.sub) 0 1 no_nodes {[first_row := 5]} None 1000 first_row g' keys' o' n')
    Hidx (lookup_singleton_eq _ _) ltac:(by intros r []%not_elem_of_nil) ltac:(cbn; lia) ltac:(cbn; lia) ltac:(by vm_compute)
    ltac:(by vm_compute) ltac:(intros g' keys' o' n' Hgr; by exists g', keys', o', n') s Hs) as Hrun.
  apply wp_elim in Hrun as (r & s' & _ & gw & Hs' & g' & keys' & o' & n' & -> & [[fl Hidx'] Hsub Hrows _ Hdepth Hops Hhits _ _]).
  cbn [index_rows index_depth] in *. apply Permutation_singleton_r in Hrows.
  destruct o' as [t|]; [|done]. cbn [index_rows index_depth] in *.
  assert (height t = 0%nat) as Eh by lia.
  exists s', g', keys', t, fl, n'. split; [done|]. split; [done|]. split; [done|]. split; [done|].
  split; [by destruct t|]. split; [eapply lookup_weaken; [apply lookup_singleton_eq|done]|]. split; [lia|].
  assert (8 * 1 + 900 <= i_hits no_nodes) by (by vm_compute). lia.
Qed.

Lemma b_tree_delete_removes_witness : ∃ s s' g' keys' o' n' g keys t fl n,
  b_tree_delete cmp_rows copy_row drop_copy 5 first_row s = Ok (tt, s') ∧ rep s' (g', World keys' n') ∧
  index_shrunk (kcmp := Z.sub) 0 1 0 (λ r, r ∉ [first_row]) keys t fl (i_len g) n (i_hits g) first_row g' keys' o' n'.
Proof.
  destruct one_row_index as (s & g & keys & t & fl & n & Hs & Hidx & He & Hh & Hsp & Hk & Hn & Hhits).
  destruct (b_tree_delete_removes cmp_rows copy_row drop_copy 0 1 0 (λ r, r ∉ [first_row]) ltac:(lia) ltac:(lia) ltac:(lia)
    first_row 5 g keys t fl 5 n s Hs Hidx) as (s' & g' & keys' & o' & n' & H).
  - rewrite Hsp. constructor.
  - rewrite He. constructor; [|constructor]. intros Hno. apply Hno. by left.
  - exact Hk.
  - rewrite He. by left.
  - lia.
  - lia.
  - lia.
  - exists s, s', g', keys', o', n', g, keys, t, fl, n. exact H.
Defined.

Lemma delete_then_search_witness : ∃ s s' s'',
  b_tree_delete cmp_rows copy_row drop_copy 5 first_row s = Ok (tt, s') ∧
  b_tree_search (cmp_key 5) 5 s' = Ok (failed_rid, s'').
Proof.
  destruct one_row_index as (s & g & keys & t & fl & n & Hs & Hidx & He & Hh & Hsp & Hk & Hn & Hhits).
  destruct (delete_then_search cmp_rows copy_row drop_copy 0 1 0 (λ r, r ∉ [first_row]) ltac:(lia) ltac:(lia) ltac:(lia)
    first_row 5 g keys t fl 5 n s first_row 5 (cmp_key 5) 0 Hs Hidx) as (s' & s'' & H1 & H2).
  - rewrite Hsp. constructor.
  - rewrite He. constructor; [|constructor]. intros Hno. apply Hno. by left.
  - exact Hk.
  - rewrite He. by left.
  - rewrite He. by left.
  - exact Hk.
  - lia.
  - lia.
  - lia.
  - lia.
  - exists s, s', s''. split; [exact H1|]. by rewrite decide_True in H2.
Defined.

(** a row inserted, deleted and inserted again *)
Lemma index_session_witness : ∃ s s' g' keys' o' n',
  run_ops cmp_rows copy_row drop_copy 5 [Insert first_row; Delete first_row; Insert first_row] s = Ok (tt, s') ∧
  rep s' (g', World keys' n') ∧ index_ok (kcmp := Z.sub) (λ r, r ∉ [first_row]) g' keys' o' ∧
  index_rows o' ≡ₚ elements (foldl op_rows ∅ [Insert first_row; Delete first_row; Insert first_row]).
Proof.
  destruct first_index as (s & Hs & Hidx). exists s.
  apply (index_session cmp_rows copy_row drop_copy 0 1 0 (λ r, r ∉ [first_row]) ltac:(lia) ltac:(lia) ltac:(lia)
    [Insert first_row; Delete first_row; Insert first_row] ∅ no_nodes {[first_row := 5]} None 5 1000 s 4 Hs).
  - split; [by exists []|]. split; constructor.
  - done.
  - cbn [ops_ok op_ok op_rows]. assert (¬ (first_row ∉ [first_row])) as Hsp by (intros Hno; apply Hno; by left).
    split; [|split; [set_solver|split; [|done]]]; (split; [exact Hsp|]); exists 5; (split; [apply lookup_singleton_eq|]);
      intros r Hr; set_solver.
  - cbn. lia.
  - lia.
  - by vm_compute.
  - by vm_compute.
  - by vm_compute.
Defined.
