(* ===== verification/Net.v ===== *)
(** Programs that talk to sockets: a thread is a finite tree of calls whose
    answers the environment chooses, and an environment is a state that
    answers calls.  Used by the server ([main/myjqlserver.c]), by the client
    library ([driver/myjqlclient.cpp]) and by the shell. *)
From stdpp Require Import base gmap list.
From Stdlib Require Import ZArith Lia Strings.Byte.
From S2P Require Import Prelude.
#[local] Open Scope Z_scope.

Definition SOCKET_ERROR : Z := -1.

(** ** Calls

    [Recv n] is [recv] into an object of [n] bytes: the result, and the bytes
    stored at its start; [Malloc n] answers the contents of the new block,
    which the source does not initialise. *)
Inductive syscall :=
  | Signal | Socket | Bind | Listen | MutexInit | MutexDestroy | Accept | CreateThread
  | GetHostByName | Connect.

Inductive call : Type → Type :=
  | Sys (c : syscall) : call Z
  | Recv (n : Z) : call (Z * list byte)
  | Send (bs : list byte) : call Z
  | Shutdown : call Z
  | CloseSocket : call unit
  | Malloc (n : Z) : call (list byte)
  | Free : call unit
  | EnterCriticalSection : call unit
  | LeaveCriticalSection : call unit
  | MyjqlGet (key : list byte) (key_len : Z) (value : list byte) (max_size : Z) : call (Z * list byte)
  | MyjqlSet (key : list byte) (key_len : Z) (value : list byte) (value_len : Z) : call unit
  | MyjqlDel (key : list byte) (key_len : Z) : call unit
  | MyjqlInit : call unit
  | MyjqlClose : call unit.

Inductive prog (A : Type) : Type :=
  | Ret (a : A)
  | Crash
  | Call {R} (c : call R) (k : R → prog A).
Arguments Ret {A} a.
Arguments Crash {A}.
Arguments Call {A R} c k.

#[export] Instance prog_ret : MRet prog := @Ret.
Fixpoint prog_bind_aux {A B} (f : A → prog B) (p : prog A) : prog B :=
  match p with
  | Ret a => f a
  | Crash => Crash
  | Call c k => Call c (λ r, prog_bind_aux f (k r))
  end.
#[export] Instance prog_bind : MBind prog := @prog_bind_aux.

Definition call_ {R} (c : call R) : prog R := Call c Ret.
(** a condition without which the next access is undefined *)
Definition guard_ (b : bool) : prog unit := if b then Ret tt else Crash.

(** [recv(s, &code, sizeof(code), 0)]: the bytes that arrive replace
    the first bytes of the variable *)
Definition int_bytes (code : Z) : list byte := le_enc 4 code.
Definition recv_int (code : Z) : prog (Z * Z) :=
  '(iResult, got) ← call_ (Recv 4);
  mret (iResult, dec_s (splice 0 got (int_bytes code))).
Definition send_int (code : Z) : prog Z := call_ (Send (int_bytes code)).
(** [recv] of [n] bytes into a block: a negative [n] is a huge [size_t] *)
Definition recv_into (block : list byte) (n : Z) : prog (Z * list byte) :=
  guard_ ((0 <=? n) && (n <=? Z.of_nat (length block)));;
  '(iResult, got) ← call_ (Recv n);
  mret (iResult, splice 0 got block).
(** [block[i] = 0] *)
Definition set_zero (block : list byte) (i : Z) : prog (list byte) :=
  guard_ ((0 <=? i) && (i <? Z.of_nat (length block)));;
  mret (splice (Z.to_nat i) [x00] block).

(** ** A connection

    What arrives on a socket: segments of bytes, or an error.  [recv] returns
    what has arrived, at most the size asked for, and 0 when the peer is done;
    [sends] calls of [send] succeed, and send everything; [outbox] is what
    each of them sent. *)
Inductive arrival := Segment (bs : list byte) | Reset.
Record conn := Conn { inbox : list arrival; outbox : list (list byte); sends : nat; closed : bool }.

Fixpoint recv_from (inb : list arrival) (n : nat) : (Z * list byte) * list arrival :=
  match inb with
  | [] => ((0, []), [])
  | Reset :: rest => ((SOCKET_ERROR, []), rest)
  | Segment [] :: rest => recv_from rest n
  | Segment bs :: rest =>
      let got := take n bs in
      ((Z.of_nat (length got), got),
       match drop n bs with [] => rest | bs' => Segment bs' :: rest end)
  end.

Definition conn_recv (n : Z) (c : conn) : (Z * list byte) * conn :=
  let '(r, inb) := recv_from (inbox c) (Z.to_nat n) in
  (r, Conn inb (outbox c) (sends c) (closed c)).
Definition conn_send (bs : list byte) (c : conn) : Z * conn :=
  match sends c with
  | O => (SOCKET_ERROR, c)
  | S n => (Z.of_nat (length bs), Conn (inbox c) (outbox c ++ [bs]) n (closed c))
  end.
Definition conn_close (c : conn) : conn := Conn (inbox c) (outbox c) (sends c) true.
