(* ===== verification/Server.v ===== *)
(** The server ([main/myjqlserver.c], the POSIX side of its conditional
    compilation): the thread that serves one client, and the state machine of
    the threads, the mutex and the store. *)
From stdpp Require Import base gmap list.
From Stdlib Require Import ZArith Lia Strings.Byte.
From S2P Require Import Prelude FileIO BufferPool Table Str BTree Myjql Net.
#[local] Open Scope Z_scope.

Definition MAX_STR_LEN : Z := 1024.

(** how one turn of the loop of [InstanceThread] ends: the loop goes on with a
    value of [code], is left by [break], or the thread returns *)
Inductive turn := Continue (code : Z) | Break | Return (status : Z).

(** [closesocket(ClientSocket); free(...); ...; return 1;] with [n] blocks to free *)
Fixpoint free_blocks (n : nat) : prog unit :=
  match n with O => mret tt | S n' => call_ Free;; free_blocks n' end.
Definition fail_with (n : nat) : prog turn :=
  call_ CloseSocket;; free_blocks n;; mret (Return 1).

(** [code = c; send(...)], with [n] blocks to free when it fails *)
Definition reply (c : Z) (n : nat) (next : prog turn) : prog turn :=
  iResult ← send_int c;
  if iResult =? SOCKET_ERROR then fail_with n else next.

(** [recv] of a length, [malloc] and [recv] of as many bytes, with [n] blocks
    to free when the first [recv] fails and [m] when the second does *)
Definition recv_str (code : Z) (n m : nat) (next : Z → list byte → prog turn) : prog turn :=
  '(iResult, code) ← recv_int code;
  if iResult =? SOCKET_ERROR then fail_with n
  else
    guard_ (code <? 2 ^ 31 - 1);;
    key ← call_ (Malloc (code + 1));
    '(iResult, key) ← recv_into key code;
    if iResult =? SOCKET_ERROR then fail_with m
    else
      key ← set_zero key code;
      next code key.

(** get key; [value] and [key] are freed at the end *)
Definition reply_value (value : list byte) (value_len : Z) : prog turn :=
  if value_len =? -1 then reply 0 2 (free_blocks 2;; mret (Continue 0))
  else
    reply 1 2 (
    reply value_len 2 (
    guard_ ((0 <=? value_len) && (value_len <=? Z.of_nat (length value)));;
    iResult ← call_ (Send (take (Z.to_nat value_len) value));
    if iResult =? SOCKET_ERROR then fail_with 2
    else
      _ ← set_zero value value_len;
      free_blocks 2;; mret (Continue value_len))).

Definition serve_get (code : Z) : prog turn :=
  recv_str code 0 1 (λ code key,
    if code >? MAX_STR_LEN then reply 2 1 (free_blocks 1;; mret (Continue 2))
    else
      value ← call_ (Malloc (MAX_STR_LEN + 1));
      call_ EnterCriticalSection;;
      '(r, value) ← call_ (MyjqlGet key code value MAX_STR_LEN);
      call_ LeaveCriticalSection;;
      reply_value value (swrap 32 r)).

(** set key value; when the length of the value does not arrive the key is
    not freed *)
Definition serve_set (code : Z) : prog turn :=
  recv_str code 0 1 (λ key_len key,
    recv_str key_len 0 2 (λ value_len value,
      if key_len >? MAX_STR_LEN then reply 2 2 (free_blocks 2;; mret (Continue 2))
      else if value_len >? MAX_STR_LEN then reply 3 2 (free_blocks 2;; mret (Continue 3))
      else
        call_ EnterCriticalSection;;
        call_ (MyjqlSet key key_len value value_len);;
        call_ LeaveCriticalSection;;
        reply 1 2 (free_blocks 2;; mret (Continue 1)))).

(** del key *)
Definition serve_del (code : Z) : prog turn :=
  recv_str code 0 1 (λ code key,
    if code >? MAX_STR_LEN then reply 2 1 (free_blocks 1;; mret (Continue 2))
    else
      call_ EnterCriticalSection;;
      call_ (MyjqlDel key code);;
      call_ LeaveCriticalSection;;
      reply 1 1 (free_blocks 1;; mret (Continue 1))).

(** client exits *)
Definition serve_exit : prog turn := reply 1 0 (mret Break).

(** one turn of the loop *)
Definition serve_turn (code : Z) : prog turn :=
  '(iResult, code) ← recv_int code;
  if iResult =? SOCKET_ERROR then fail_with 0
  else if code =? 0 then serve_get code
  else if code =? 1 then serve_set code
  else if code =? 2 then serve_del code
  else if code =? 3 then serve_exit
  else mret (Continue code).

(** after the loop *)
Definition finish : prog Z :=
  iResult ← call_ Shutdown;
  if iResult =? SOCKET_ERROR then call_ CloseSocket;; mret 1
  else call_ CloseSocket;; mret 0.

(** a thread: the rest of the turn it is in, or of what follows the loop; the
    rest of the signal handler; or its end *)
Inductive thread :=
  | Turn (p : prog turn)
  | Finish (p : prog Z)
  | Handler (p : prog unit)
  | Done (status : Z)
  | Crashed.

(** [InstanceThread] frees the block that [main] allocated for the number of
    its socket, and starts with an uninitialised [code] *)
Definition InstanceThread (code : Z) : thread := Turn (call_ Free;; serve_turn code).

(** the thread between two turns *)
Definition next_turn (t : turn) : thread :=
  match t with
  | Continue code => Turn (serve_turn code)
  | Break => Finish finish
  | Return status => Done status
  end.

(** [exit_nicely]; when it is done the process has called [exit(0)] *)
Definition exit_nicely : prog unit :=
  call_ EnterCriticalSection;;
  call_ MyjqlClose;;
  call_ LeaveCriticalSection;;
  call_ CloseSocket;;
  _ ← call_ (Sys MutexDestroy);
  mret tt.
Definition SIGINT : Z := 2.
Definition CtrlHandler (signo : Z) : prog (option unit) :=
  if signo =? SIGINT then exit_nicely;; mret (Some tt) else mret None.

(** ** [main] *)

Definition SIG_ERR : Z := -1.

(** up to the loop: the status [main] returns when a step fails *)
Definition open_listener : prog (option Z) :=
  ListenSocket ← call_ (Sys Socket);
  if ListenSocket <? 0 then mret (Some 1)
  else
    iResult ← call_ (Sys Bind);
    if iResult <? 0 then mret (Some 1)
    else
      _ ← call_ (Sys Listen);
      mret None.

Definition init_store : prog (option Z) :=
  r ← call_ (Sys MutexInit);
  if negb (r =? 0) then
    call_ CloseSocket;;
    mret (Some 1)
  else
    call_ MyjqlInit;;
    mret None.

Definition start_server : prog (option Z) :=
  r ← call_ (Sys Signal);
  if r =? SIG_ERR then mret (Some 1)
  else
    status ← open_listener;
    match status with
    | Some status => mret (Some status)
    | None => init_store
    end.

(** one turn of the loop of [main]: the socket a new thread serves *)
Definition create_thread (ClientSocket : Z) : prog (option Z) :=
  _ ← call_ (Malloc 4);
  iResult ← call_ (Sys CreateThread);
  if negb (iResult =? 0) then
    call_ CloseSocket;;
    call_ Free;;
    mret None
  else mret (Some ClientSocket).

Definition accept_client : prog (option Z) :=
  ClientSocket ← call_ (Sys Accept);
  if ClientSocket <? 0 then mret None else create_thread ClientSocket.

(** ** One client at a time

    A thread run without interruption against a connection and the store;
    [junk] is what [malloc] returns, [live] counts the blocks in use. *)
Record env := Env { e_conn : conn; e_db : Jql; e_live : nat }.

Section run.
Context (fuel : nat) (junk_rec junk_chunk : list byte) (junk : nat → list byte)
  (sys : syscall → Z) (files : Files).

(** the object of [n] bytes a [malloc] returns; of a negative size there is none *)
Definition malloc (n : Z) : option (list byte) :=
  if n <? 0 then None else Some (junk (Z.to_nat n)).

Definition on_db {A} (m : M Jql A) : M env A :=
  zoom e_db (λ d e, Env (e_conn e) d (e_live e)) m.
Definition on_conn {A} (f : conn → A * conn) : M env A := λ e,
  let '(a, c) := f (e_conn e) in Ok (a, Env c (e_db e) (e_live e)).

Definition answer {R} (c : call R) : M env R :=
  match c with
  | Sys c => mret (sys c)
  | Recv n => on_conn (conn_recv n)
  | Send bs => on_conn (conn_send bs)
  | Shutdown => mret 0
  | CloseSocket => on_conn (λ c, (tt, conn_close c))
  | Malloc n =>
      b ← of_opt (malloc n);
      modify (λ e, Env (e_conn e) (e_db e) (S (e_live e)));;
      mret b
  | Free => modify (λ e, Env (e_conn e) (e_db e) (pred (e_live e)))
  | EnterCriticalSection | LeaveCriticalSection => mret tt
  | MyjqlGet key key_len value max_size =>
      on_db (myjql_get fuel junk_rec junk_chunk key key_len value max_size)
  | MyjqlSet key key_len value value_len =>
      on_db (myjql_set fuel junk_rec junk_chunk key key_len value value_len)
  | MyjqlDel key key_len => on_db (myjql_del fuel junk_rec junk_chunk key key_len)
  | MyjqlInit => on_db (myjql_init files)
  | MyjqlClose => on_db myjql_close
  end.

Fixpoint exec {A} (p : prog A) : M env A :=
  match p with
  | Ret a => mret a
  | Crash => undef
  | Call c k => r ← answer c; exec (k r)
  end.

(** [n] turns of the loop at most, and what follows it *)
Fixpoint serve (n : nat) (code : Z) : M env Z :=
  match n with
  | O => no_fuel
  | S n' =>
      t ← exec (serve_turn code);
      match t with
      | Continue code => serve n' code
      | Break => exec finish
      | Return status => mret status
      end
  end.

(** the whole thread: [InstanceThread] run to its end *)
Definition run_thread (n : nat) (code : Z) : M env Z :=
  exec (call_ Free);; serve n code.
End run.
