(* ===== verification/ServerSteps.v ===== *)
(** The server as a state machine: any number of clients, whose threads take
    turns call by call, one mutex, one store. *)
From stdpp Require Import base gmap list fin_maps.
From Stdlib Require Import ZArith Lia Strings.Byte.
From S2P Require Import Prelude FileIO BufferPool PoolDurable HashMapProps Table TableSpec Str BTree Myjql MyjqlInit Net Server.
#[local] Open Scope Z_scope.

(** who holds the mutex, the store, the threads with their connections, the
    thread a signal handler interrupts, and whether [exit] was called *)
Record server := Srv {
  owner : option nat; store : Jql; threads : gmap nat (thread * conn);
  interrupted : option nat; exited : bool;
}.

(** the server before the first client *)
Definition started (db : Jql) : server := Srv None db ∅ None false.

Section steps.
Context (fuel : nat) (junk_rec junk_chunk : list byte).

(** a call that is not about the mutex or the store; [malloc] may return any
    block of the size *)
Inductive local_call : ∀ {R}, call R → conn → R → conn → Prop :=
  | l_recv n c r c' : conn_recv n c = (r, c') → local_call (Recv n) c r c'
  | l_send bs c r c' : conn_send bs c = (r, c') → local_call (Send bs) c r c'
  | l_shutdown c r : local_call Shutdown c r c
  | l_close c : local_call CloseSocket c tt (conn_close c)
  | l_malloc n c b : 0 <= n → length b = Z.to_nat n → local_call (Malloc n) c b c
  | l_free c : local_call Free c tt c
  | l_sys s c r : local_call (Sys s) c r c.

(** a call of the store *)
Definition db_call {R} (c : call R) : option (M Jql R) :=
  match c with
  | MyjqlGet key key_len value max_size =>
      Some (myjql_get fuel junk_rec junk_chunk key key_len value max_size)
  | MyjqlSet key key_len value value_len =>
      Some (myjql_set fuel junk_rec junk_chunk key key_len value value_len)
  | MyjqlDel key key_len => Some (myjql_del fuel junk_rec junk_chunk key key_len)
  | MyjqlClose => Some myjql_close
  | _ => None
  end.

(** the next call of a thread, and the thread after its answer *)
Inductive calls : thread → ∀ {R}, call R → (R → thread) → Prop :=
  | c_turn {R} (c : call R) k : calls (Turn (Call c k)) c (λ r, Turn (k r))
  | c_finish {R} (c : call R) k : calls (Finish (Call c k)) c (λ r, Finish (k r))
  | c_handler {R} (c : call R) k : calls (Handler (Call c k)) c (λ r, Handler (k r)).

(** the end of a turn, and of a thread *)
Definition settle (t : thread) : option thread :=
  match t with
  | Turn (Ret t) => Some (next_turn t)
  | Turn Crash | Finish Crash | Handler Crash => Some Crashed
  | Finish (Ret status) => Some (Done status)
  | _ => None
  end.

(** a value a program can return, whatever its calls are answered *)
Inductive may_return {A} : prog A → A → Prop :=
  | m_ret a : may_return (Ret a) a
  | m_call {R} (c : call R) k r a : may_return (k r) a → may_return (Call c k) a.

(** A signal handler runs on top of some thread ([Some i]) or of [main]; until
    it is done that thread makes no step. *)
Inductive step : server → server → Prop :=
  | s_accept o db ts h i c code fd :
      ts !! i = None → may_return accept_client (Some fd) →
      step (Srv o db ts h false) (Srv o db (<[i := (InstanceThread code, c)]> ts) h false)
  | s_signal o db ts i c victim :
      ts !! i = None →
      step (Srv o db ts None false) (Srv o db (<[i := (Handler exit_nicely, c)]> ts) victim false)
  | s_local o db ts h i t c R (cl : call R) k r c' :
      h ≠ Some i → ts !! i = Some (t, c) → calls t cl k → local_call cl c r c' →
      step (Srv o db ts h false) (Srv o db (<[i := (k r, c')]> ts) h false)
  | s_enter db ts h i t c k :
      h ≠ Some i → ts !! i = Some (t, c) → calls t EnterCriticalSection k →
      step (Srv None db ts h false) (Srv (Some i) db (<[i := (k tt, c)]> ts) h false)
  | s_leave o db ts h i t c k :
      h ≠ Some i → ts !! i = Some (t, c) → calls t LeaveCriticalSection k →
      step (Srv o db ts h false) (Srv None db (<[i := (k tt, c)]> ts) h false)
  | s_db o db ts h i t c R (cl : call R) k m r db' :
      h ≠ Some i → ts !! i = Some (t, c) → calls t cl k → db_call cl = Some m →
      m db = Ok (r, db') →
      step (Srv o db ts h false) (Srv o db' (<[i := (k r, c)]> ts) h false)
  | s_settle o db ts h i t c t' :
      h ≠ Some i → ts !! i = Some (t, c) → settle t = Some t' →
      step (Srv o db ts h false) (Srv o db (<[i := (t', c)]> ts) h false)
  | s_exit o db ts h i c :
      ts !! i = Some (Handler (Ret tt), c) →
      step (Srv o db ts h false) (Srv o db ts h true).

Inductive steps : server → server → Prop :=
  | steps_refl s : steps s s
  | steps_step s s' s'' : steps s s' → step s' s'' → steps s s''.

Definition reachable (db0 : Jql) : server → Prop := steps (started db0).
End steps.

(** ** The discipline of the mutex *)

(** how a call uses the mutex *)
Inductive mutex_use := Takes | Gives | Needs | Ignores.
Definition use_of {R} (c : call R) : mutex_use :=
  match c with
  | EnterCriticalSection => Takes
  | LeaveCriticalSection => Gives
  | MyjqlGet _ _ _ _ | MyjqlSet _ _ _ _ | MyjqlDel _ _ | MyjqlInit | MyjqlClose => Needs
  | _ => Ignores
  end.

(** a program that starts with the mutex or without it, uses the store only
    with it, and ends without it *)
Fixpoint disciplined {A} (held : bool) (p : prog A) : Prop :=
  match p with
  | Ret _ => held = false
  | Crash => True
  | Call c k =>
      match use_of c with
      | Takes => held = false ∧ ∀ r, disciplined true (k r)
      | Gives => held = true ∧ ∀ r, disciplined false (k r)
      | Needs => held = true ∧ ∀ r, disciplined true (k r)
      | Ignores => ∀ r, disciplined held (k r)
      end
  end.

Lemma disciplined_bind {A B} (p : prog A) (f : A → prog B) held :
  disciplined held p → (∀ a, disciplined false (f a)) → disciplined held (p ≫= f).
Proof.
  revert held. induction p as [a| |R c k IH]; intros held Hp Hf; simpl in *; [by subst|done|].
  destruct (use_of c); [destruct Hp as [-> Hp]; split; [done|]..|]; intros r; by apply IH.
Qed.

Ltac discipline := repeat first
  [ progress (cbn [disciplined use_of mbind prog_bind prog_bind_aux call_ mret prog_ret])
  | split; [reflexivity|] | intros [? ?] | intros ? | reflexivity | exact I ].

Lemma disciplined_free n : disciplined false (free_blocks n).
Proof. induction n as [|n IH]; [done|]. simpl. by intros []. Qed.

Lemma disciplined_fail n : disciplined false (fail_with n).
Proof.
  unfold fail_with. apply disciplined_bind; [by discipline|]. intros [].
  apply disciplined_bind; [apply disciplined_free|done].
Qed.

Lemma disciplined_recv_int code : disciplined false (recv_int code).
Proof. unfold recv_int. by discipline. Qed.

Lemma disciplined_guard b : disciplined false (guard_ b).
Proof. by destruct b. Qed.

Lemma disciplined_recv_into block n : disciplined false (recv_into block n).
Proof. unfold recv_into. apply disciplined_bind; [apply disciplined_guard|]. by discipline. Qed.

Lemma disciplined_set_zero block i : disciplined false (set_zero block i).
Proof. unfold set_zero. apply disciplined_bind; [apply disciplined_guard|done]. Qed.

Lemma disciplined_reply c n next : disciplined false next → disciplined false (reply c n next).
Proof.
  intros Hn. unfold reply. apply disciplined_bind; [by discipline|]. intros r.
  destruct (r =? SOCKET_ERROR); [apply disciplined_fail|done].
Qed.

Lemma disciplined_end n t : disciplined false (free_blocks n;; mret t : prog turn).
Proof. apply disciplined_bind; [apply disciplined_free|done]. Qed.

Lemma disciplined_recv_str code n m next :
  (∀ c key, disciplined false (next c key)) → disciplined false (recv_str code n m next).
Proof.
  intros Hn. unfold recv_str. apply disciplined_bind; [apply disciplined_recv_int|]. intros [r c].
  destruct (r =? SOCKET_ERROR); [apply disciplined_fail|].
  apply disciplined_bind; [apply disciplined_guard|]. intros _.
  apply disciplined_bind; [by discipline|]. intros block.
  apply disciplined_bind; [apply disciplined_recv_into|]. intros [r2 key].
  destruct (r2 =? SOCKET_ERROR); [apply disciplined_fail|].
  apply disciplined_bind; [apply disciplined_set_zero|]. intros key'. apply Hn.
Qed.

(** taking the mutex for one call of the store, and giving it back *)
Lemma disciplined_critical {R A} (c : call R) (f : R → prog A) :
  use_of c = Needs → (∀ r, disciplined true (f r)) →
  disciplined false (call_ EnterCriticalSection;; r ← call_ c; f r).
Proof. intros Hc Hf. simpl. split; [done|]. intros _. by rewrite Hc. Qed.

Lemma disciplined_leave {A} (p : prog A) :
  disciplined false p → disciplined true (call_ LeaveCriticalSection;; p).
Proof. by intros Hp; split. Qed.

Create HintDb mutex.
#[local] Hint Resolve disciplined_reply disciplined_end disciplined_fail disciplined_free
  disciplined_recv_str disciplined_recv_int disciplined_set_zero : mutex.
#[local] Hint Extern 1 (disciplined false (if ?b then _ else _)) => destruct b : mutex.
#[local] Hint Extern 1 (disciplined false (mret _)) => reflexivity : mutex.

Lemma disciplined_reply_value value len : disciplined false (reply_value value len).
Proof.
  unfold reply_value. destruct (len =? -1); [auto with mutex|]. do 2 apply disciplined_reply.
  apply disciplined_bind; [apply disciplined_guard|]. intros _.
  apply disciplined_bind; [by discipline|]. intros r.
  destruct (r =? SOCKET_ERROR); [auto with mutex|].
  apply disciplined_bind; [auto with mutex|]. intros _. auto with mutex.
Qed.

Lemma disciplined_turn code : disciplined false (serve_turn code).
Proof.
  unfold serve_turn. apply disciplined_bind; [auto with mutex|]. intros [r c].
  destruct (r =? SOCKET_ERROR); [auto with mutex|].
  destruct (c =? 0); [|destruct (c =? 1); [|destruct (c =? 2); [|destruct (c =? 3); [|done]]]].
  - apply disciplined_recv_str. intros len key. destruct (len >? MAX_STR_LEN); [auto with mutex|].
    apply disciplined_bind; [by discipline|]. intros value.
    apply (disciplined_critical (MyjqlGet _ _ _ _)); [done|]. intros [n v].
    apply disciplined_leave, disciplined_reply_value.
  - apply disciplined_recv_str. intros klen key. apply disciplined_recv_str. intros vlen value.
    destruct (klen >? MAX_STR_LEN); [auto with mutex|].
    destruct (vlen >? MAX_STR_LEN); [auto with mutex|].
    apply (disciplined_critical (MyjqlSet _ _ _ _)); [done|]. intros _. apply disciplined_leave. auto with mutex.
  - apply disciplined_recv_str. intros len key. destruct (len >? MAX_STR_LEN); [auto with mutex|].
    apply (disciplined_critical (MyjqlDel _ _)); [done|]. intros _. apply disciplined_leave. auto with mutex.
  - unfold serve_exit. auto with mutex.
Qed.

Lemma disciplined_finish : disciplined false finish.
Proof.
  unfold finish. apply disciplined_bind; [by discipline|]. intros r.
  by destruct (r =? SOCKET_ERROR).
Qed.

Lemma disciplined_handler : disciplined false exit_nicely.
Proof.
  unfold exit_nicely. apply (disciplined_critical MyjqlClose); [done|].
  intros _. apply disciplined_leave. by discipline.
Qed.

Lemma disciplined_instance code : disciplined false (call_ Free;; serve_turn code).
Proof. apply disciplined_bind; [by discipline|]. intros _. apply disciplined_turn. Qed.

(** ** The invariant of the server *)

Definition thread_ok (held : bool) (t : thread) : Prop :=
  match t with
  | Turn p => disciplined held p
  | Finish p => disciplined held p
  | Handler p => disciplined held p
  | Done _ => held = false
  | Crashed => True
  end.

Definition holds_mutex (s : server) (i : nat) : bool := bool_decide (owner s = Some i).

Record srv_ok (s : server) : Prop := {
  ok_threads : ∀ i t c, threads s !! i = Some (t, c) → thread_ok (holds_mutex s i) t;
  ok_owner : ∀ i, owner s = Some i → is_Some (threads s !! i);
}.

(** what a thread may do next, by its discipline *)
Lemma thread_ok_calls held t R (c : call R) k :
  thread_ok held t → calls t c k →
  match use_of c with
  | Takes => held = false ∧ ∀ r, thread_ok true (k r)
  | Gives => held = true ∧ ∀ r, thread_ok false (k r)
  | Needs => held = true ∧ ∀ r, thread_ok true (k r)
  | Ignores => ∀ r, thread_ok held (k r)
  end.
Proof. intros Ht Hc. destruct Hc; exact Ht. Qed.

Lemma settle_ok held t t' : thread_ok held t → settle t = Some t' → thread_ok held t'.
Proof.
  destruct t as [[[code| |st]| |R c k]|[st| |R c k]|[[]| |R c k]|st|]; simpl; intros H E; simplify_eq;
    simpl; try done; [apply disciplined_turn|apply disciplined_finish].
Qed.

(** an update of one thread, with the mutex as it was, taken or given back *)
Lemma srv_ok_update o o' db db' ts h h' e e' i t c :
  srv_ok (Srv o db ts h e) → thread_ok (bool_decide (o' = Some i)) t →
  (∀ j, j ≠ i → (o' = Some j ↔ o = Some j)) →
  srv_ok (Srv o' db' (<[i:=(t, c)]> ts) h' e').
Proof.
  intros [Ht Ho] Hi Hj. constructor; unfold holds_mutex in *; cbn [owner threads] in *.
  - intros j t' c' Hl. destruct (decide (j = i)) as [->|Hne].
    + rewrite lookup_insert_eq in Hl. by simplify_eq.
    + rewrite lookup_insert_ne in Hl by done. specialize (Ht _ _ _ Hl).
      by rewrite (bool_decide_ext _ _ (Hj j Hne)).
  - intros j Hoj. destruct (decide (j = i)) as [->|Hne].
    + rewrite lookup_insert_eq. by eexists.
    + rewrite lookup_insert_ne by done. apply Ho. by apply Hj.
Qed.

Section invariant.
Context (fuel : nat) (junk_rec junk_chunk : list byte).
Abbreviation step := (step fuel junk_rec junk_chunk).
Abbreviation steps := (steps fuel junk_rec junk_chunk).

Lemma local_ignores R (cl : call R) c r c' : local_call cl c r c' → use_of cl = Ignores.
Proof. by destruct 1. Qed.

Lemma db_call_needs R (cl : call R) m :
  db_call fuel junk_rec junk_chunk cl = Some m → use_of cl = Needs.
Proof. by destruct cl. Qed.

Lemma step_ok s s' : srv_ok s → step s s' → srv_ok s'.
Proof.
  intros Hok Hst. pose proof Hok as [Ht Ho]. unfold holds_mutex in *.
  destruct Hst as [o db ts h i c code fd Hn _|o db ts i c v Hn|o db ts h i t c R cl k r c' _ Hi Hc Hl
    |db ts h i t c k _ Hi Hc|o db ts h i t c k _ Hi Hc|o db ts h i t c R cl k m r db' _ Hi Hc Hd _
    |o db ts h i t c t' _ Hi Hs|o db ts h i c Hi]; cbn [owner threads] in *.
  - eapply srv_ok_update; [exact Hok| |done]. rewrite bool_decide_eq_false_2; [apply disciplined_instance|].
    intros ->. destruct (Ho i eq_refl) as [? E]. congruence.
  - eapply srv_ok_update; [exact Hok| |done]. rewrite bool_decide_eq_false_2; [apply disciplined_handler|].
    intros ->. destruct (Ho i eq_refl) as [? E]. congruence.
  - pose proof (thread_ok_calls _ _ _ _ _ (Ht _ _ _ Hi) Hc) as Hk.
    rewrite (local_ignores _ _ _ _ _ Hl) in Hk. by eapply srv_ok_update.
  - pose proof (thread_ok_calls _ _ _ _ _ (Ht _ _ _ Hi) Hc) as [_ Hk].
    eapply srv_ok_update; [exact Hok| |]; [by rewrite bool_decide_eq_true_2|naive_solver].
  - pose proof (thread_ok_calls _ _ _ _ _ (Ht _ _ _ Hi) Hc) as [Ho' Hk].
    apply bool_decide_eq_true in Ho' as ->.
    eapply srv_ok_update; [exact Hok| |]; [by rewrite bool_decide_eq_false_2|naive_solver].
  - pose proof (thread_ok_calls _ _ _ _ _ (Ht _ _ _ Hi) Hc) as Hk.
    rewrite (db_call_needs _ _ _ Hd) in Hk. destruct Hk as [Ho' Hk].
    eapply srv_ok_update; [exact Hok| |done]. by rewrite Ho'.
  - eapply srv_ok_update; [exact Hok| |done]. by eapply settle_ok; [apply (Ht _ _ _ Hi)|].
  - by constructor.
Qed.

Lemma steps_ok s s' : srv_ok s → steps s s' → srv_ok s'.
Proof. intros Hok. induction 1 as [|s s' s'' _ IH Hs]; [done|]. by eapply step_ok; [apply IH|]. Qed.

Lemma started_ok db : srv_ok (started db).
Proof. by constructor. Qed.

(** C32: mutual exclusion: in every reachable state of the server, whatever the
    clients send and however the threads interleave, a thread about to call
    the store is the owner of the mutex, so that two calls of the store never
    overlap; a thread that has returned does not own it. *)
Theorem store_calls_exclusive db s i t c :
  reachable fuel junk_rec junk_chunk db s → threads s !! i = Some (t, c) →
  (∀ R (cl : call R) k, calls t cl k → is_Some (db_call fuel junk_rec junk_chunk cl) →
     owner s = Some i ∧
     ∀ j t' c' R' (cl' : call R') k', threads s !! j = Some (t', c') → calls t' cl' k' →
       is_Some (db_call fuel junk_rec junk_chunk cl') → j = i) ∧
  (∀ status, t = Done status → owner s ≠ Some i).
Proof.
  intros Hr Hi. pose proof (steps_ok _ _ (started_ok db) Hr) as [Ht _].
  assert (∀ j t' c' R' (cl' : call R') k', threads s !! j = Some (t', c') → calls t' cl' k' →
       is_Some (db_call fuel junk_rec junk_chunk cl') → owner s = Some j) as Hall.
  { intros j t' c' R' cl' k' Hj Hc [m Hm].
    pose proof (thread_ok_calls _ _ _ _ _ (Ht _ _ _ Hj) Hc) as Hk.
    rewrite (db_call_needs _ _ _ Hm) in Hk. destruct Hk as [Hk _]. by apply bool_decide_eq_true in Hk. }
  split.
  - intros R cl k Hc Hm. split; [by eapply Hall|]. intros j t' c' R' cl' k' Hj Hc' Hm'.
    pose proof (Hall _ _ _ _ _ _ Hi Hc Hm). pose proof (Hall _ _ _ _ _ _ Hj Hc' Hm'). congruence.
  - intros status ->. specialize (Ht _ _ _ Hi). by apply bool_decide_eq_false in Ht.
Qed.
End invariant.

(** *** A signal during a call of the store *)

(** a handler is still at its first call, which takes the mutex *)
Definition at_enter (t : thread) : Prop :=
  match t with
  | Handler p => match p with Call c _ => use_of c = Takes | _ => False end
  | _ => True
  end.

Lemma calls_at_enter t R (c : call R) k :
  calls t c k → at_enter t → use_of c = Takes ∨ ∀ r, at_enter (k r).
Proof. destruct 1; simpl; auto. Qed.

Section hang.
Context (fuel : nat) (junk_rec junk_chunk : list byte).
Abbreviation step := (step fuel junk_rec junk_chunk).
Abbreviation steps := (steps fuel junk_rec junk_chunk).

(** the handler runs on top of the thread that owns the mutex *)
Record hung (db : Jql) (j : nat) (s : server) : Prop := {
  h_owner : owner s = Some j;
  h_victim : interrupted s = Some j;
  h_exited : exited s = false;
  h_ok : srv_ok s;
  h_store : store s = db;
  h_wait : ∀ i t c, threads s !! i = Some (t, c) → at_enter t;
}.

Lemma hung_update db j db' ts i t c :
  hung db j (Srv (Some j) db' ts (Some j) false) → at_enter t →
  srv_ok (Srv (Some j) db' (<[i:=(t, c)]> ts) (Some j) false) →
  hung db j (Srv (Some j) db' (<[i:=(t, c)]> ts) (Some j) false).
Proof.
  intros [Ho Hv He Hok Hst Hw] Ha Hok'. constructor; try done. cbn in *.
  intros i' t' c' [[_ E]|[_ Hl]]%lookup_insert_Some; [by simplify_eq|by eapply Hw].
Qed.

Lemma hung_step db j s s' : hung db j s → step s s' → hung db j s'.
Proof.
  intros Hh Hs. pose proof Hh as [Ho Hv He Hok Hst Hw].
  pose proof (step_ok _ _ _ _ _ Hok Hs) as Hok'. pose proof Hok as [Ht _]. unfold holds_mutex in Ht.
  destruct Hs as [o db1 ts h i c code fd Hn _|o db1 ts i c v Hn|o db1 ts h i t c R cl k r c' Hi' Hi Hc Hl
    |db1 ts h i t c k Hi' Hi Hc|o db1 ts h i t c k Hi' Hi Hc|o db1 ts h i t c R cl k m r db' Hi' Hi Hc Hd _
    |o db1 ts h i t c t' Hi' Hi Hs|o db1 ts h i c Hi];
    cbn [owner threads store interrupted exited] in *; subst; try done.
  - by apply hung_update.
  - apply hung_update; [done| |done].
    destruct (calls_at_enter _ _ _ _ Hc (Hw _ _ _ Hi)) as [E|E]; [|done].
    by rewrite (local_ignores _ _ _ _ _ Hl) in E.
  - pose proof (thread_ok_calls _ _ _ _ _ (Ht _ _ _ Hi) Hc) as [E _].
    apply bool_decide_eq_true in E. congruence.
  - pose proof (thread_ok_calls _ _ _ _ _ (Ht _ _ _ Hi) Hc) as Hk.
    rewrite (db_call_needs _ _ _ _ _ _ Hd) in Hk. destruct Hk as [E _].
    apply bool_decide_eq_true in E. congruence.
  - apply hung_update; [done| |done]. specialize (Hw _ _ _ Hi).
    destruct t as [[[code| |st]| |R0 c0 k0]|[st| |R0 c0 k0]|[[]| |R0 c0 k0]|st|]; simpl in *; by simplify_eq.
  - by specialize (Hw _ _ _ Hi).
Qed.

Lemma hung_steps db j s s' : hung db j s → steps s s' → hung db j s'.
Proof. intros Hh. induction 1 as [|s s' s'' _ IH Hs]; [done|]. eapply hung_step; [by apply IH|done]. Qed.

(** C33: a signal that arrives while a thread owns the mutex, and is delivered
    to that thread, hangs the server: [exit_nicely] waits for a mutex whose
    owner waits for the handler, so that from then on no call of the store is
    made and [exit] is never reached, whatever the other threads do. *)
Theorem signal_in_critical_section_hangs db s s1 s2 j :
  reachable fuel junk_rec junk_chunk db s → owner s = Some j → interrupted s = None →
  exited s = false → (∀ i t c, threads s !! i = Some (t, c) → at_enter t) →
  (∃ i c, threads s !! i = None ∧
     s1 = Srv (owner s) (store s) (<[i := (Handler exit_nicely, c)]> (threads s)) (Some j) false) →
  steps s1 s2 →
  step s s1 ∧ exited s2 = false ∧ store s2 = store s ∧ owner s2 = Some j.
Proof.
  intros Hr Ho Hn He Hw (i & c & Hi & ->) Hs.
  pose proof (steps_ok _ _ _ _ _ (started_ok db) Hr) as Hok.
  destruct s as [o db' ts h e]. cbn [owner store threads interrupted exited] in *. subst.
  assert (step (Srv (Some j) db' ts None false)
    (Srv (Some j) db' (<[i := (Handler exit_nicely, c)]> ts) (Some j) false)) as Hstep by by constructor.
  split; [done|].
  assert (hung db' j s2) as [? _ ? _ ? _]; [|done].
  eapply hung_steps; [|exact Hs]. constructor; try done; [by eapply step_ok|]. cbn.
  intros i' t' c' [[_ E]|[_ Hl]]%lookup_insert_Some; [by simplify_eq|by eapply Hw].
Qed.

(** a client asks to delete the key "k", and its thread takes the mutex *)
Definition del_conn : conn :=
  Conn [Segment (int_bytes 2 ++ int_bytes 1 ++ [x6b])] [] 9 false.

Lemma reply_accepted : may_return accept_client (Some 5).
Proof.
  unfold accept_client. eapply (m_call _ _ 5). eapply (m_call _ _ (replicate 4 x00)).
  eapply (m_call _ _ 0). constructor.
Qed.

Lemma critical_reachable db :
  ∃ s t c k, reachable fuel junk_rec junk_chunk db s ∧ owner s = Some 0%nat ∧
    interrupted s = None ∧ exited s = false ∧
    (∃ ts, threads s = <[0%nat := (t, c)]> ts ∧ ∀ i, i ≠ 0%nat → ts !! i = None) ∧
    calls t (MyjqlDel [x6b; x00] 1) k ∧ at_enter t.
Proof.
  assert (∃ t c ts, reachable fuel junk_rec junk_chunk db
      (Srv None db (<[0%nat := (t, c)]> ts) None false) ∧
    (∀ i, i ≠ 0%nat → ts !! i = None) ∧
    t = InstanceThread 0 ∧ c = del_conn) as (t & c & ts & Hr & Hts & -> & ->).
  { eexists _, _, ∅. split; [|split; [by intros; apply lookup_empty|done]].
    eapply steps_step; [apply steps_refl|]. by eapply s_accept; [|apply reply_accepted]. }
  assert (∀ t' c' o ts' R (cl : call R) k r c'',
    reachable fuel junk_rec junk_chunk db (Srv o db (<[0%nat := (t', c')]> ts') None false) →
    calls t' cl k → local_call cl c' r c'' →
    reachable fuel junk_rec junk_chunk db
      (Srv o db (<[0%nat := (k r, c'')]> (<[0%nat := (t', c')]> ts')) None false)) as Hlocal.
  { intros. eapply steps_step; [eassumption|]. eapply s_local; try done. apply lookup_insert_eq. }
  eapply Hlocal in Hr; [|apply c_turn|apply l_free]; cbv beta in Hr; cbn in Hr.
  do 2 (eapply Hlocal in Hr; [|apply c_turn|by apply l_recv]; cbv beta in Hr; cbn in Hr).
  eapply Hlocal in Hr; [|apply c_turn|apply (l_malloc _ _ [x00; x00]); done]; cbn in Hr.
  eapply Hlocal in Hr; [|apply c_turn|by apply l_recv]; cbn in Hr.
  eapply steps_step in Hr; [|eapply s_enter; [done|apply lookup_insert_eq|apply c_turn]].
  eexists _, _, _, _. split; [exact Hr|]. do 3 (split; [done|]). split.
  { eexists. split; [done|]. intros i Hi. rewrite !lookup_insert_ne by done. by apply Hts. }
  split; [apply c_turn|done].
Qed.
End hang.


Lemma store_calls_exclusive_witness :
  ∃ s t c k, reachable 100 [] [] blank_jql s ∧ threads s !! 0%nat = Some (t, c) ∧
    calls t (MyjqlDel [x6b; x00] 1) k ∧ owner s = Some 0%nat.
Proof.
  destruct (critical_reachable 100 [] [] blank_jql)
    as (s & t & c & k & Hr & _ & _ & _ & (ts & Ht & _) & Hc & _).
  assert (threads s !! 0%nat = Some (t, c)) as Hl by (rewrite Ht; apply lookup_insert_eq).
  exists s, t, c, k. split; [exact Hr|]. split; [exact Hl|]. split; [exact Hc|].
  apply (store_calls_exclusive 100 [] [] blank_jql s 0 t c Hr Hl) with (cl := MyjqlDel [x6b; x00] 1) (k := k).
  - exact Hc.
  - by eexists.
Defined.

Lemma signal_in_critical_section_hangs_witness :
  ∃ s s1, reachable 100 [] [] blank_jql s ∧ owner s = Some 0%nat ∧
    step 100 [] [] s s1 ∧ exited s1 = false ∧ store s1 = store s ∧ owner s1 = Some 0%nat.
Proof.
  destruct (critical_reachable 100 [] [] blank_jql)
    as (s & t & c & k & Hr & Ho & Hn & He & (ts & Ht & Hts) & Hc & Ha).
  exists s, (Srv (owner s) (store s) (<[1%nat := (Handler exit_nicely, del_conn)]> (threads s))
    (Some 0%nat) false). split; [exact Hr|]. split; [exact Ho|].
  apply (signal_in_critical_section_hangs 100 [] [] blank_jql s _ _ 0 Hr Ho Hn He).
  - intros i t' c'. rewrite Ht. intros [[_ E]|[Hi Hl]]%lookup_insert_Some; [by simplify_eq|].
    by rewrite Hts in Hl.
  - exists 1%nat, del_conn. split; [|done]. rewrite Ht, lookup_insert_ne by done. by apply Hts.
  - apply steps_refl.
Defined.
