(* ===== verification/ServerSpec.v ===== *)
(** What one turn of the server does with a request that has arrived: the
    request is exactly one call of the store, and the reply is its result. *)
From stdpp Require Import base gmap list fin_maps.
From Stdlib Require Import ZArith Lia Strings.Byte.
From S2P Require Import Prelude FileIO BufferPool Table Str BTree Myjql MyjqlGet MyjqlInit Net Server.
#[local] Open Scope Z_scope.

(** ** What travels over the connection *)

Definition arrived (ss : list (list byte)) : list arrival := Segment <$> ss.
Definition str_msg (s : list byte) : list (list byte) := [int_bytes (Z.of_nat (length s)); s].
Definition get_request (k : list byte) : list (list byte) := int_bytes 0 :: str_msg k.
Definition set_request (k v : list byte) : list (list byte) := int_bytes 1 :: str_msg k ++ str_msg v.
Definition del_request (k : list byte) : list (list byte) := int_bytes 2 :: str_msg k.

(** the reply to a get: at most 1024 characters of the value *)
Definition get_reply (o : option (list byte)) : list (list byte) :=
  match o with
  | None => [int_bytes 0]
  | Some v => int_bytes 1 :: str_msg (take 1024 v)
  end.

(** a string that a message can carry *)
Definition sendable (s : list byte) : Prop := s ≠ [] ∧ Z.of_nat (length s) < 2 ^ 31 - 1.

Lemma int_bytes_length c : length (int_bytes c) = 4%nat.
Proof. apply le_enc_length. Qed.

Lemma splice_all (bs l : list byte) : length bs = length l → splice 0 bs l = bs.
Proof. intros H. unfold splice. simpl. rewrite drop_ge, app_nil_r; [done|lia]. Qed.

Lemma dec_int_bytes c : in_s 32 c → dec_s (int_bytes c) = c.
Proof. intros Hc. apply (dec_s_enc 4); [lia|exact Hc]. Qed.

Lemma recv_from_segment bs inb : bs ≠ [] →
  recv_from (Segment bs :: inb) (length bs) = ((Z.of_nat (length bs), bs), inb).
Proof. intros Hne. destruct bs; [done|]. simpl recv_from. by rewrite firstn_all, drop_all. Qed.

(** ** Rules for programs over sockets *)

Section rules.
Context (fuel : nat) (junk_rec junk_chunk : list byte) (junk : nat → list byte)
  (sys : syscall → Z) (files : Files).
Context (Hjunk : ∀ n, length (junk n) = n).

Abbreviation exec := (exec fuel junk_rec junk_chunk junk sys files).
Abbreviation answer := (answer fuel junk_rec junk_chunk junk sys files).

Lemma wp_exec_bind {A B} (p : prog A) (f : A → prog B) Φ e :
  wp (exec p) (λ a, wp (exec (f a)) Φ) e → wp (exec (p ≫= f)) Φ e.
Proof using.
  clear Hjunk. revert e. induction p as [a| |R c k IH]; intros e H; [exact H|done|].
  change (wp (r ← answer c; exec (k r ≫= f)) Φ e). wp_step.
  apply wp_bind_inv in H. eapply wp_mono; [exact H|]. intros r e' Hr. by apply IH.
Qed.

Lemma wp_exec_ret {A} (a : A) (Φ : A → env → Prop) e : Φ a e → wp (exec (mret a)) Φ e.
Proof using. done. Qed.

Lemma wp_exec_call {R} (c : call R) Φ e : wp (answer c) Φ e → wp (exec (call_ c)) Φ e.
Proof using.
  clear Hjunk. intros H. change (wp (r ← answer c; mret r) Φ e). wp_step.
  eapply wp_mono; [exact H|]. intros r e' Hr. by wp_step.
Qed.

Lemma wp_exec_guard b (Φ : unit → env → Prop) e : b = true → Φ tt e → wp (exec (guard_ b)) Φ e.
Proof using. by intros ->. Qed.

Lemma wp_send_int c inb out n cl db live (Φ : Z → env → Prop) :
  Φ 4 (Env (Conn inb (out ++ [int_bytes c]) n cl) db live) →
  wp (exec (send_int c)) Φ (Env (Conn inb out (S n) cl) db live).
Proof using. clear Hjunk. intros H. by apply wp_exec_call. Qed.

Lemma wp_recv_int code c inb out n cl db live (Φ : Z * Z → env → Prop) :
  in_s 32 c → Φ (4, c) (Env (Conn inb out n cl) db live) →
  wp (exec (recv_int code)) Φ (Env (Conn (Segment (int_bytes c) :: inb) out n cl) db live).
Proof using.
  clear Hjunk. intros Hc H. unfold recv_int. apply wp_exec_bind, wp_exec_call.
  change (wp (answer (Recv 4)) ?P (Env (Conn (Segment (int_bytes c) :: inb) out n cl) db live))
    with (P (4, int_bytes c) (Env (Conn inb out n cl) db live)).
  cbv beta iota. apply wp_exec_ret. rewrite splice_all by (by rewrite !int_bytes_length).
  by rewrite dec_int_bytes.
Qed.

Lemma wp_recv_into block s inb out n cl db live (Φ : Z * list byte → env → Prop) :
  s ≠ [] → (length s <= length block)%nat →
  Φ (Z.of_nat (length s), s ++ drop (length s) block) (Env (Conn inb out n cl) db live) →
  wp (exec (recv_into block (Z.of_nat (length s)))) Φ
    (Env (Conn (Segment s :: inb) out n cl) db live).
Proof using.
  clear Hjunk. intros Hne Hl H. unfold recv_into. apply wp_exec_bind, wp_exec_guard.
  { apply andb_true_iff. rewrite !Z.leb_le. lia. }
  apply wp_exec_bind, wp_exec_call. cbn [answer]. unfold on_conn, conn_recv, wp. cbn [e_conn inbox].
  rewrite Nat2Z.id, recv_from_segment by done. cbn [outbox sends closed e_db e_live].
  apply wp_exec_ret. exact H.
Qed.

Lemma wp_set_zero s x rest (Φ : list byte → env → Prop) e :
  Φ (s ++ x00 :: rest) e → wp (exec (set_zero (s ++ x :: rest) (Z.of_nat (length s)))) Φ e.
Proof using.
  clear Hjunk. intros H. unfold set_zero. apply wp_exec_bind, wp_exec_guard.
  { apply andb_true_iff. rewrite Z.leb_le, Z.ltb_lt, length_app. simpl. lia. }
  apply wp_exec_ret. rewrite Nat2Z.id, splice_middle. exact H.
Qed.

Lemma wp_malloc n c db live (Φ : list byte → env → Prop) :
  0 <= n → (∀ b, length b = Z.to_nat n → Φ b (Env c db (S live))) →
  wp (exec (call_ (Malloc n))) Φ (Env c db live).
Proof using Hjunk.
  intros Hn H. apply wp_exec_call. cbn [answer]. unfold malloc.
  rewrite (proj2 (Z.ltb_ge n 0)) by done. apply H, Hjunk.
Qed.

Lemma wp_free_blocks n c db live (Φ : unit → env → Prop) :
  Φ tt (Env c db live) → wp (exec (free_blocks n)) Φ (Env c db (n + live)%nat).
Proof using.
  clear Hjunk. intros H. induction n as [|n IH]; [exact H|].
  cbn [free_blocks]. by apply wp_exec_bind, wp_exec_call.
Qed.

(** a turn that frees its blocks at the end *)
Lemma wp_reply c n t inb out m cl db live (Φ : turn → env → Prop) :
  Φ t (Env (Conn inb (out ++ [int_bytes c]) m cl) db live) →
  wp (exec (reply c n (free_blocks n;; mret t))) Φ (Env (Conn inb out (S m) cl) db (n + live)%nat).
Proof using.
  clear Hjunk. intros H. unfold reply. apply wp_exec_bind, wp_send_int.
  change (4 =? SOCKET_ERROR) with false. cbv iota. apply wp_exec_bind, wp_free_blocks. exact H.
Qed.

(** a string that has arrived: a zero byte follows it in its block *)
Lemma wp_recv_str code n m next s inb out k cl db live (Φ : turn → env → Prop) :
  sendable s →
  wp (exec (next (Z.of_nat (length s)) (s ++ [x00]))) Φ (Env (Conn inb out k cl) db (S live)) →
  wp (exec (recv_str code n m next)) Φ (Env (Conn (arrived (str_msg s) ++ inb) out k cl) db live).
Proof using Hjunk.
  intros [Hne Hl] H. unfold recv_str, arrived, str_msg. rewrite !fmap_cons. simpl app.
  apply wp_exec_bind, wp_recv_int. { unfold in_s. change (2 ^ (32 - 1)) with (2 ^ 31). lia. }
  cbv beta iota. change (4 =? SOCKET_ERROR) with false. cbv iota.
  apply wp_exec_bind, wp_exec_guard; [by apply Z.ltb_lt|].
  apply wp_exec_bind, wp_malloc; [lia|]. intros b Hb.
  apply wp_exec_bind, wp_recv_into; [done|lia|]. cbv beta iota.
  rewrite (proj2 (Z.eqb_neq _ SOCKET_ERROR)) by (unfold SOCKET_ERROR; lia). cbv iota.
  destruct (drop (length s) b) as [|x rest] eqn:E.
  { apply (f_equal length) in E. rewrite length_drop in E. simpl in E. lia. }
  assert (rest = []) as ->.
  { apply nil_length_inv. apply (f_equal length) in E. rewrite length_drop in E. simpl in E. lia. }
  apply wp_exec_bind. by apply wp_set_zero.
Qed.

(** ** The requests *)

(** the first integer of a request *)
Lemma wp_serve_turn code c ss rest out n cl db live (Φ : turn → env → Prop) :
  in_s 32 c →
  wp (exec (if c =? 0 then serve_get c else if c =? 1 then serve_set c
    else if c =? 2 then serve_del c else if c =? 3 then serve_exit else mret (Continue c)))
    Φ (Env (Conn (arrived ss ++ rest) out n cl) db live) →
  wp (exec (serve_turn code)) Φ (Env (Conn (arrived (int_bytes c :: ss) ++ rest) out n cl) db live).
Proof using.
  clear Hjunk. intros Hc H. unfold serve_turn. apply wp_exec_bind.
  change (arrived (int_bytes c :: ss) ++ rest) with (Segment (int_bytes c) :: (arrived ss ++ rest)).
  by apply wp_recv_int.
Qed.

(** the peer is done: nothing arrives *)
Lemma wp_recv_int_gone code out n cl db live (Φ : Z * Z → env → Prop) :
  in_s 32 code → Φ (0, code) (Env (Conn [] out n cl) db live) →
  wp (exec (recv_int code)) Φ (Env (Conn [] out n cl) db live).
Proof using.
  clear Hjunk. intros Hc H. unfold recv_int. apply wp_exec_bind, wp_exec_call.
  change (wp (answer (Recv 4)) ?P ?e) with (P (0, []) e). cbv beta iota.
  apply wp_exec_ret. change (splice 0 [] (int_bytes code)) with (int_bytes code).
  by rewrite dec_int_bytes.
Qed.

Lemma wp_recv_str_gone n m next a b out k cl db live (Φ : turn → env → Prop) :
  junk 2%nat = [a; b] →
  wp (exec (next 1 [a; x00])) Φ (Env (Conn [] out k cl) db (S live)) →
  wp (exec (recv_str 1 n m next)) Φ (Env (Conn [] out k cl) db live).
Proof using.
  clear Hjunk. intros Hj H. unfold recv_str.
  apply wp_exec_bind, wp_recv_int_gone; [done|]. cbv beta iota.
  change (0 =? SOCKET_ERROR) with false. cbv iota.
  apply wp_exec_bind, wp_exec_guard; [done|]. apply wp_exec_bind, wp_exec_call. cbn [answer].
  change (malloc junk (1 + 1)) with (Some (junk 2%nat)). rewrite Hj.
  apply wp_ret. apply wp_exec_bind. exact H.
Qed.

(** the store is called between taking the mutex and giving it back *)
Lemma wp_critical {A} (c : call A) (f : A → prog turn) Φ e :
  wp (exec (call_ c)) (λ r, wp (exec (f r)) Φ) e →
  wp (exec (call_ EnterCriticalSection;; r ← call_ c; call_ LeaveCriticalSection;; f r)) Φ e.
Proof using.
  clear Hjunk. intros H. apply wp_exec_bind, wp_exec_call, wp_ret, wp_exec_bind.
  eapply wp_mono; [exact H|]. intros r e' Hr. by apply wp_exec_bind, wp_exec_call, wp_ret.
Qed.

Lemma wp_on_db {A} (m : M Jql A) a c db db' live (Φ : A → env → Prop) :
  m db = Ok (a, db') → Φ a (Env c db' live) → wp (on_db m) Φ (Env c db live).
Proof using. clear Hjunk. intros Hm H. apply wp_zoom. unfold wp. cbn [e_db]. by rewrite Hm. Qed.

(** the code of the reply to a set, and to a del *)
Definition set_code (k v : list byte) : Z :=
  if MAX_STR_LEN <? Z.of_nat (length k) then 2
  else if MAX_STR_LEN <? Z.of_nat (length v) then 3 else 1.
Definition del_code (k : list byte) : Z :=
  if MAX_STR_LEN <? Z.of_nat (length k) then 2 else 1.

Lemma serve_set_run code k v rest out n cl db db' live :
  sendable k → sendable v →
  (if set_code k v =? 1 then
     myjql_set fuel junk_rec junk_chunk (k ++ [x00]) (Z.of_nat (length k)) (v ++ [x00])
       (Z.of_nat (length v)) db = Ok (tt, db')
   else db' = db) →
  exec (serve_turn code) (Env (Conn (arrived (set_request k v) ++ rest) out (S n) cl) db live) =
    Ok (Continue (set_code k v),
        Env (Conn rest (out ++ [int_bytes (set_code k v)]) n cl) db' live).
Proof using Hjunk.
  intros Hk Hv Hrun.
  edestruct (wp_elim (exec (serve_turn code)) (λ t e, t = Continue (set_code k v) ∧
    e = Env (Conn rest (out ++ [int_bytes (set_code k v)]) n cl) db' live))
    as (a & e & H & -> & ->); [|exact H].
  apply wp_serve_turn; [done|]. change (1 =? 0) with false. change (1 =? 1) with true. cbv iota.
  unfold serve_set. unfold arrived at 1. rewrite fmap_app, <- app_assoc.
  fold (arrived (str_msg k)) (arrived (str_msg v)).
  apply wp_recv_str; [done|]. apply wp_recv_str; [done|].
  change (S (S live)) with (2 + live)%nat. rewrite !Z.gtb_ltb. unfold set_code in *.
  destruct (_ <? Z.of_nat (length k)); [cbn in Hrun; subst; by apply wp_reply|].
  destruct (_ <? Z.of_nat (length v)); [cbn in Hrun; subst; by apply wp_reply|].
  apply wp_critical, wp_exec_call. cbn [answer]. eapply wp_on_db; [exact Hrun|]. by apply wp_reply.
Qed.

Lemma serve_del_run code k rest out n cl db db' live :
  sendable k →
  (if del_code k =? 1 then
     myjql_del fuel junk_rec junk_chunk (k ++ [x00]) (Z.of_nat (length k)) db = Ok (tt, db')
   else db' = db) →
  exec (serve_turn code) (Env (Conn (arrived (del_request k) ++ rest) out (S n) cl) db live) =
    Ok (Continue (del_code k), Env (Conn rest (out ++ [int_bytes (del_code k)]) n cl) db' live).
Proof using Hjunk.
  intros Hk Hrun.
  edestruct (wp_elim (exec (serve_turn code)) (λ t e, t = Continue (del_code k) ∧
    e = Env (Conn rest (out ++ [int_bytes (del_code k)]) n cl) db' live))
    as (a & e & H & -> & ->); [|exact H].
  apply wp_serve_turn; [done|]. change (2 =? 0) with false. change (2 =? 1) with false.
  change (2 =? 2) with true. cbv iota. unfold serve_del.
  apply wp_recv_str; [done|]. change (S live) with (1 + live)%nat. rewrite !Z.gtb_ltb. unfold del_code in *.
  destruct (_ <? Z.of_nat (length k)); [cbn in Hrun; subst; by apply wp_reply|].
  apply wp_critical, wp_exec_call. cbn [answer]. eapply wp_on_db; [exact Hrun|]. by apply wp_reply.
Qed.

(** the value found is sent; what [myjql_get] leaves in the block does not matter *)
Lemma wp_reply_found v rest_v inb out n cl db live (Φ : turn → env → Prop) :
  Z.of_nat (length v) <= MAX_STR_LEN → rest_v ≠ [] →
  Φ (Continue (Z.of_nat (length v))) (Env (Conn inb (out ++ int_bytes 1 :: str_msg v) n cl) db live) →
  wp (exec (reply_value (v ++ rest_v) (Z.of_nat (length v)))) Φ
    (Env (Conn inb out (S (S (S n))) cl) db (2 + live)).
Proof using.
  clear Hjunk. intros Hv Hr H. unfold reply_value. rewrite (proj2 (Z.eqb_neq _ (-1))) by lia.
  unfold reply. apply wp_exec_bind, wp_send_int. change (4 =? SOCKET_ERROR) with false. cbv iota.
  apply wp_exec_bind, wp_send_int. change (4 =? SOCKET_ERROR) with false. cbv iota.
  apply wp_exec_bind, wp_exec_guard.
  { apply andb_true_iff. rewrite !Z.leb_le, length_app. lia. }
  rewrite Nat2Z.id, take_app_length. apply wp_exec_bind, wp_exec_call.
  cbn [answer]. unfold on_conn, conn_send, wp at 1. cbn [e_conn sends inbox outbox closed e_db e_live].
  rewrite (proj2 (Z.eqb_neq _ SOCKET_ERROR)) by (unfold SOCKET_ERROR; lia).
  destruct rest_v as [|x rest_v]; [done|]. apply wp_exec_bind, wp_set_zero.
  apply wp_exec_bind, wp_free_blocks. rewrite <- !app_assoc. exact H.
Qed.

Lemma serve_get_long_run code k rest out n cl db live :
  sendable k → MAX_STR_LEN < Z.of_nat (length k) →
  exec (serve_turn code) (Env (Conn (arrived (get_request k) ++ rest) out (S n) cl) db live) =
    Ok (Continue 2, Env (Conn rest (out ++ [int_bytes 2]) n cl) db live).
Proof using Hjunk.
  intros Hk Hl.
  edestruct (wp_elim (exec (serve_turn code)) (λ t e, t = Continue 2 ∧
    e = Env (Conn rest (out ++ [int_bytes 2]) n cl) db live)) as (a & e & H & -> & ->); [|exact H].
  apply wp_serve_turn; [done|]. change (0 =? 0) with true. cbv iota. unfold serve_get.
  apply wp_recv_str; [done|]. rewrite Z.gtb_ltb, (proj2 (Z.ltb_lt _ _)) by done.
  change (S live) with (1 + live)%nat. by apply wp_reply.
Qed.

(** [P] holds of the store after [myjql_get], whatever the block for the value
    holds before *)
Lemma serve_get_run code k rest out n cl db live o (P : Jql → Prop) :
  (∀ value, length value = 1025%nat → ∃ db',
    myjql_get fuel junk_rec junk_chunk (k ++ [x00]) (Z.of_nat (length k)) value MAX_STR_LEN db =
      Ok (get_result o value MAX_STR_LEN, db') ∧ P db') →
  sendable k → Z.of_nat (length k) <= MAX_STR_LEN →
  ∃ c m db', exec (serve_turn code)
      (Env (Conn (arrived (get_request k) ++ rest) out (S (S (S n))) cl) db live) =
    Ok (Continue c, Env (Conn rest (out ++ get_reply o) m cl) db' live) ∧ (n <= m)%nat ∧ P db'.
Proof using Hjunk.
  intros Hget Hk Hlk.
  edestruct (wp_elim (exec (serve_turn code)) (λ t e, ∃ c m db', t = Continue c ∧
    e = Env (Conn rest (out ++ get_reply o) m cl) db' live ∧ (n <= m)%nat ∧ P db'))
    as (a & e & H & (c & m & db' & -> & -> & Hm & Hdb')); [|by exists c, m, db'].
  apply wp_serve_turn; [done|]. change (0 =? 0) with true. cbv iota. unfold serve_get.
  apply wp_recv_str; [done|]. rewrite !Z.gtb_ltb, !(proj2 (Z.ltb_ge _ _)) by done.
  apply wp_exec_bind, wp_malloc; [done|]. intros value Hvl. change (Z.to_nat _) with 1025%nat in Hvl.
  apply wp_exec_bind, wp_exec_call, wp_ret. apply wp_exec_bind, wp_exec_call.
  destruct (Hget value Hvl) as (db' & Hrun & Hdb').
  cbn [answer]. eapply wp_on_db; [exact Hrun|].
  destruct o as [v|]; cbn [get_result get_reply].
  - apply wp_exec_bind, wp_exec_call, wp_ret.
    change (Z.to_nat MAX_STR_LEN) with 1024%nat. set (q := Nat.min (length v) 1024).
    assert (q = length (take 1024 v)) as Hq by (rewrite length_take; unfold q; lia).
    assert (q <= 1024)%nat as Hq' by (unfold q; lia).
    rewrite swrap_id; [|lia|unfold in_s; change (2 ^ (32 - 1)) with (2 ^ 31); lia].
    assert (take q v = take 1024 v) as ->.
    { unfold q. destruct (Nat.min_spec (length v) 1024) as [[? ->]|[? ->]]; [|done].
      rewrite !take_ge by lia. done. }
    rewrite <- app_assoc, Hq. apply wp_reply_found.
    + rewrite <- Hq. unfold MAX_STR_LEN. lia.
    + intros Hnil. apply (f_equal length) in Hnil. revert Hnil.
      rewrite length_app, length_drop, length_app, length_take, Hvl.
      destruct (_ <? _); cbn [length]; lia.
    + by exists (Z.of_nat (length (take 1024 v))), n, db'.
  - apply wp_exec_bind, wp_exec_call, wp_ret. change (swrap 32 SIZE_MAX) with (-1). unfold reply_value. change (-1 =? -1) with true. cbv iota.
    change (S (S live)) with (2 + live)%nat. apply wp_reply. exists 0, (S (S n)), db'. by repeat (split; [done || lia|]).
Qed.

End rules.

(** the block a [malloc] returns in the examples *)
Definition zeros (n : nat) : list byte := replicate n x00.
Lemma zeros_length n : length (zeros n) = n.
Proof. apply length_replicate. Qed.

(** ** Properties of a turn *)

(** C37: a client that goes away after a set, without the exit request: every
    [recv] returns 0 and leaves its object alone, so that the turn takes the 1
    still in [code] for the next request, for the length of the key and for
    that of the value, and stores one character of uninitialised memory under
    another; [code] is 1 again afterwards, and the thread is where it was. *)
Theorem vanished_client_sets_garbage fuel junk_rec junk_chunk junk sys files out n cl db db' live a b :
  junk 2%nat = [a; b] →
  myjql_set fuel junk_rec junk_chunk [a; x00] 1 [a; x00] 1 db = Ok (tt, db') →
  exec fuel junk_rec junk_chunk junk sys files (serve_turn 1)
    (Env (Conn [] out (S n) cl) db live) =
  Ok (Continue 1, Env (Conn [] (out ++ [int_bytes 1]) n cl) db' live).
Proof.
  intros Hj Hrun.
  edestruct (wp_elim (exec fuel junk_rec junk_chunk junk sys files (serve_turn 1))
    (λ t e, t = Continue 1 ∧ e = Env (Conn [] (out ++ [int_bytes 1]) n cl) db' live))
    as (t & e & H & -> & ->); [|exact H].
  apply wp_exec_bind, (wp_recv_int_gone _ _ _ _ _ _ 1); [done|]. cbv beta iota.
  change (0 =? SOCKET_ERROR) with false. change (1 =? 0) with false. change (1 =? 1) with true. cbv iota.
  unfold serve_set. do 2 (eapply wp_recv_str_gone; [exact Hj|]).
  change (1 >? MAX_STR_LEN) with false. cbv iota.
  apply wp_critical, wp_exec_call. cbn [answer]. eapply wp_on_db; [exact Hrun|].
  change (S (S live)) with (2 + live)%nat. by apply wp_reply.
Qed.

(** ** Examples: a store just created, and the store with one key *)

Definition run_db {A} (m : M Jql A) (db : Jql) : Jql := match m db with Ok (_, db') => db' | _ => db end.
Definition new_jql : Jql := run_db (myjql_init no_files) blank_jql.
Definition one_key_jql : Jql :=
  run_db (myjql_set 200 (zeros 20) (zeros 32) [x6b; x00] 1 [x61; x00] 1) new_jql.

Lemma new_jql_empty : database new_jql ∅ 1 (SIZE_MAX - 20).
Proof.
  destruct (myjql_init_run blank_jql blank_jql_space) as (s & Hrun & Hi & Ht).
  unfold new_jql, run_db. rewrite Hrun. by apply empty_database.
Qed.

Lemma vanished_client_sets_garbage_witness :
  exec 200 (zeros 20) (zeros 32) (λ n, replicate n x7a) (λ _, 0) no_files (serve_turn 1)
    (Env (Conn [] [] 1 false) new_jql 0) =
  Ok (Continue 1, Env (Conn [] ([] ++ [int_bytes 1]) 0 false)
    (run_db (myjql_set 200 (zeros 20) (zeros 32) [x7a; x00] 1 [x7a; x00] 1) new_jql) 0).
Proof.
  apply (vanished_client_sets_garbage 200 (zeros 20) (zeros 32) _ (λ _, 0) no_files [] 0 false
    new_jql _ 0 x7a x7a eq_refl).
  vm_compute. reflexivity.
Defined.
