(* ===== verification/ServerMemory.v ===== *)
(** The blocks a server thread allocates: what it takes it gives back, but
    for the key of a set whose value does not arrive. *)
From stdpp Require Import base gmap list fin_maps.
From Stdlib Require Import ZArith Lia Strings.Byte.
From S2P Require Import Prelude FileIO BufferPool PoolDurable Table TableSpec Str BTree Myjql MyjqlInit Net Server ServerSpec.
#[local] Open Scope Z_scope.

(** how a call changes the number of blocks in use *)
Inductive block_use := TakesBlock | GivesBlock | KeepsBlocks.
Definition blocks_of {R} (c : call R) : block_use :=
  match c with Malloc _ => TakesBlock | Free => GivesBlock | _ => KeepsBlocks end.

(** a program that starts with [n] blocks of its own and returns with a result
    and a number of blocks that satisfy [P], whatever its calls are answered;
    it frees no block it has not taken *)
Fixpoint balanced {A} (n : nat) (P : A → nat → Prop) (p : prog A) : Prop :=
  match p with
  | Ret a => P a n
  | Crash => True
  | Call c k =>
      match blocks_of c with
      | TakesBlock => ∀ r, balanced (S n) P (k r)
      | GivesBlock => match n with O => False | S n' => ∀ r, balanced n' P (k r) end
      | KeepsBlocks => ∀ r, balanced n P (k r)
      end
  end.

Lemma balanced_bind {A B} (p : prog A) (f : A → prog B) n P :
  balanced n (λ a n', balanced n' P (f a)) p → balanced n P (p ≫= f).
Proof.
  revert n. induction p as [a| |R c k IH]; intros n Hp; simpl in *; [done|done|].
  destruct (blocks_of c); [|destruct n; [done|]|]; intros r; by apply IH.
Qed.

Lemma balanced_keep {A R} (c : call R) (f : R → prog A) n P :
  blocks_of c = KeepsBlocks → (∀ r, balanced n P (f r)) → balanced n P (r ← call_ c; f r).
Proof. intros Hc Hf. simpl. by rewrite Hc. Qed.

(** at the end of a turn nothing is left, or one block, when the thread returns
    after a failed call *)
Definition turn_end (t : turn) (n : nat) : Prop := n = O ∨ (t = Return 1 ∧ n = 1%nat).

Lemma balanced_free {A} (p : prog A) m n P :
  balanced n P p → balanced (m + n) P (free_blocks m;; p).
Proof.
  intros Hp. apply balanced_bind. induction m as [|m IH]; [exact Hp|]. simpl. by intros [].
Qed.

Lemma balanced_fail m n : (n <= 1)%nat → balanced (m + n) turn_end (fail_with m).
Proof.
  intros Hn. unfold fail_with. apply balanced_keep; [done|]. intros _. apply balanced_free.
  destruct n as [|[|n]]; [by left|by right|lia].
Qed.

Lemma balanced_guard {A} b (p : prog A) n P : balanced n P p → balanced n P (guard_ b;; p).
Proof. by destruct b. Qed.

Lemma balanced_recv_int {A} code (f : Z * Z → prog A) n P :
  (∀ r, balanced n P (f r)) → balanced n P (recv_int code ≫= f).
Proof. intros Hf. unfold recv_int. simpl. intros [r got]. apply Hf. Qed.

Lemma balanced_recv_into {A} block z (f : Z * list byte → prog A) n P :
  (∀ r, balanced n P (f r)) → balanced n P (recv_into block z ≫= f).
Proof.
  intros Hf. unfold recv_into. destruct (_ && _); [|done]. simpl. intros [r got]. apply Hf.
Qed.

Lemma balanced_set_zero {A} block z (f : list byte → prog A) n P :
  (∀ r, balanced n P (f r)) → balanced n P (set_zero block z ≫= f).
Proof. intros Hf. unfold set_zero. destruct (_ && _); [|done]. apply Hf. Qed.

Lemma balanced_reply c m next :
  balanced m turn_end next → balanced m turn_end (reply c m next).
Proof.
  intros Hn. unfold reply. apply balanced_bind. simpl. intros r.
  destruct (r =? SOCKET_ERROR); [|done].
  rewrite <- (Nat.add_0_r m) at 1. apply balanced_fail. lia.
Qed.

Lemma balanced_end m t : balanced m turn_end (free_blocks m;; mret t).
Proof. rewrite <- (Nat.add_0_r m) at 1. apply balanced_free. by left. Qed.

(** with [b] blocks taken before, of which [n] are freed when the length does
    not arrive, and all when the string does not *)
Lemma balanced_recv_str code b n next :
  (n <= b <= S n)%nat → (∀ c s, balanced (S b) turn_end (next c s)) →
  balanced b turn_end (recv_str code n (S b) next).
Proof.
  intros Hb Hn. unfold recv_str. apply balanced_recv_int. intros [r c].
  destruct (r =? SOCKET_ERROR).
  { replace b with (n + (b - n))%nat by lia. apply balanced_fail. lia. }
  apply balanced_guard. simpl. intros s. apply balanced_recv_into. intros [r2 s2].
  destruct (r2 =? SOCKET_ERROR).
  { rewrite <- (Nat.add_0_r (S b)) at 1. apply balanced_fail. lia. }
  apply balanced_set_zero. intros s3. apply Hn.
Qed.

Lemma balanced_reply_value value len : balanced 2 turn_end (reply_value value len).
Proof.
  unfold reply_value. destruct (len =? -1); [apply balanced_reply, balanced_end|].
  apply balanced_reply, balanced_reply, balanced_guard, balanced_keep; [done|]. intros r. destruct (r =? SOCKET_ERROR); [by apply (balanced_fail 2 0); lia|].
  apply balanced_set_zero. intros _. apply balanced_end.
Qed.

Lemma balanced_critical {R A} (c : call R) (f : R → prog A) n P :
  blocks_of c = KeepsBlocks → (∀ r, balanced n P (f r)) →
  balanced n P (call_ EnterCriticalSection;; r ← call_ c; call_ LeaveCriticalSection;; f r).
Proof. intros Hc Hf. simpl. intros _. rewrite Hc. intros r _. apply Hf. Qed.

Lemma balanced_turn code : balanced 0 turn_end (serve_turn code).
Proof.
  unfold serve_turn. apply balanced_recv_int. intros [r c].
  destruct (r =? SOCKET_ERROR); [by apply (balanced_fail 0 0); lia|].
  destruct (c =? 0); [|destruct (c =? 1); [|destruct (c =? 2); [|destruct (c =? 3)]]].
  - apply balanced_recv_str; [lia|]. intros len key.
    destruct (len >? MAX_STR_LEN); [apply balanced_reply, balanced_end|].
    simpl. intros value _ [n v] _. apply balanced_reply_value.
  - apply balanced_recv_str; [lia|]. intros klen key. apply balanced_recv_str; [lia|]. intros vlen value.
    destruct (klen >? MAX_STR_LEN); [apply balanced_reply, balanced_end|].
    destruct (vlen >? MAX_STR_LEN); [apply balanced_reply, balanced_end|].
    apply balanced_critical; [done|]. intros _. apply balanced_reply, balanced_end.
  - apply balanced_recv_str; [lia|]. intros len key.
    destruct (len >? MAX_STR_LEN); [apply balanced_reply, balanced_end|].
    apply balanced_critical; [done|]. intros _. apply balanced_reply, balanced_end.
  - unfold serve_exit. apply balanced_reply. by left.
  - by left.
Qed.

Lemma balanced_finish : balanced 0 (λ _ n, n = O) finish.
Proof. unfold finish. simpl. intros r. by destruct (r =? SOCKET_ERROR). Qed.

Section run.
Context (fuel : nat) (junk_rec junk_chunk : list byte) (junk : nat → list byte)
  (sys : syscall → Z) (files : Files).
Abbreviation exec := (exec fuel junk_rec junk_chunk junk sys files).
Abbreviation answer := (answer fuel junk_rec junk_chunk junk sys files).
Abbreviation serve := (serve fuel junk_rec junk_chunk junk sys files).

Lemma answer_blocks {R} (c : call R) e r e' : answer c e = Ok (r, e') →
  match blocks_of c with
  | TakesBlock => e_live e' = S (e_live e)
  | GivesBlock => e_live e' = pred (e_live e)
  | KeepsBlocks => e_live e' = e_live e
  end.
Proof.
  destruct c; cbn [answer blocks_of]; unfold on_conn, on_db, zoom, mbind, M_bind, modify, of_opt, mret, M_ret.
  all: intros; repeat (simplify_eq || case_match); done.
Qed.

(** the blocks of the program are among those in use *)
Lemma exec_blocks {A} (p : prog A) n P e a e' :
  balanced n P p → exec p e = Ok (a, e') → (n <= e_live e)%nat →
  ∃ n', P a n' ∧ (e_live e' + n = e_live e + n')%nat.
Proof.
  revert n e. induction p as [b| |R c k IH]; intros n e Hb Hrun Hn.
  - injection Hrun as <- <-. exists n. split; [done|lia].
  - done.
  - cbn [exec] in Hrun. unfold mbind, M_bind in Hrun.
    destruct (answer c e) as [[r e1]| |] eqn:E; [|done|done].
    pose proof (answer_blocks _ _ _ _ E) as Hl. cbn [balanced] in Hb.
    destruct (blocks_of c).
    + destruct (IH r (S n) e1) as (n' & ? & ?); [apply Hb|done|lia|]. exists n'. split; [done|lia].
    + destruct n as [|n]; [done|].
      destruct (IH r n e1) as (n' & ? & ?); [apply Hb|done|lia|]. exists n'. split; [done|lia].
    + destruct (IH r n e1) as (n' & ? & ?); [apply Hb|done|lia|]. exists n'. split; [done|lia].
Qed.

Lemma serve_blocks n code e status e' : serve n code e = Ok (status, e') →
  e_live e' = e_live e ∨ (status = 1 ∧ e_live e' = S (e_live e)).
Proof.
  revert code e. induction n as [|n IH]; intros code e Hrun; [done|].
  cbn [serve] in Hrun. unfold mbind, M_bind in Hrun.
  destruct (exec (serve_turn code) e) as [[t e1]| |] eqn:E; [|done|done].
  destruct (exec_blocks _ _ _ _ _ _ (balanced_turn code) E) as (n1 & Ht & Hl1); [lia|].
  destruct t as [code'| |st].
  - destruct Ht as [->|[? _]]; [|done]. apply IH in Hrun. lia.
  - destruct (exec_blocks _ _ _ _ _ _ balanced_finish Hrun) as (n2 & -> & Hl2); [lia|].
    destruct Ht as [->|[? _]]; [left; lia|done].
  - injection Hrun as <- <-. destruct Ht as [->|[[= ->] ->]]; [left; lia|right; split; [done|lia]].
Qed.
End run.

(** With the block that [main] allocated for the thread: it is freed first. *)
Theorem run_thread_frees_blocks fuel junk_rec junk_chunk junk sys files n code e status e' :
  (1 <= e_live e)%nat → run_thread fuel junk_rec junk_chunk junk sys files n code e = Ok (status, e') →
  S (e_live e') = e_live e ∨ (status = 1 ∧ e_live e' = e_live e).
Proof.
  intros He ([] & e1 & H1 & H2)%bind_run. injection H1 as <-. apply serve_blocks in H2.
  cbn [e_live] in H2. lia.
Qed.

(** C35: memory of a server thread: over all the requests of a client, whatever
    arrives, and whatever the store does, every block allocated is freed when
    the thread ends, except that a thread that ends with status 1 after a
    failed call may leave one. *)
Theorem thread_frees_blocks fuel junk_rec junk_chunk junk sys files n code e status e' :
  serve fuel junk_rec junk_chunk junk sys files n code e = Ok (status, e') →
  e_live e' = e_live e ∨ (status = 1 ∧ e_live e' = S (e_live e)).
Proof. apply serve_blocks. Qed.

(** a set of the key [k] whose value does not arrive *)
Definition lost_set_conn (k : list byte) : conn :=
  Conn (arrived (int_bytes 1 :: str_msg k) ++ [Reset]) [] 0 false.

(** C36: the block that is left is the key of a set whose value does not
    arrive, whatever the key and the store: the branch that handles the failed [recv] of the length of the
    value returns without freeing the key. *)
Theorem set_leaks_key fuel junk_rec junk_chunk junk sys files db live code k :
  (∀ n, length (junk n) = n) → sendable k →
  exec fuel junk_rec junk_chunk junk sys files (serve_turn code) (Env (lost_set_conn k) db live) =
    Ok (Return 1, Env (Conn [] [] 0 true) db (S live)).
Proof.
  intros Hj Hk.
  edestruct (wp_elim (exec fuel junk_rec junk_chunk junk sys files (serve_turn code))
    (λ t e, t = Return 1 ∧ e = Env (Conn [] [] 0 true) db (S live)))
    as (t & e & H & -> & ->); [|exact H].
  unfold lost_set_conn. eapply wp_serve_turn; [done|].
  change (1 =? 0) with false. change (1 =? 1) with true. cbv iota. unfold serve_set.
  eapply wp_recv_str; [done|done|]. cbv beta. unfold recv_str. apply wp_exec_bind.
  unfold recv_int. apply wp_exec_bind, wp_exec_call. cbn [answer].
  unfold on_conn, conn_recv, wp. cbn. done.
Qed.

Lemma thread_frees_blocks_witness :
  ∃ e', serve 100 [] [] zeros (λ _, 0) no_files 1 0 (Env (lost_set_conn [x6b]) blank_jql 0) = Ok (1, e') ∧
    (e_live e' = O ∨ (1 = 1 ∧ e_live e' = 1%nat)).
Proof.
  exists (Env (Conn [] [] 0 true) blank_jql 1). split; [vm_compute; reflexivity|].
  apply (thread_frees_blocks 100 [] [] zeros (λ _, 0) no_files 1 0 (Env (lost_set_conn [x6b]) blank_jql 0)).
  vm_compute. reflexivity.
Defined.

Lemma set_leaks_key_witness :
  exec 100 [] [] zeros (λ _, 0) no_files (serve_turn 0) (Env (lost_set_conn [x6b]) blank_jql 0) =
    Ok (Return 1, Env (Conn [] [] 0 true) blank_jql 1).
Proof. apply (set_leaks_key 100 [] [] zeros (λ _, 0) no_files blank_jql 0 0 [x6b] zeros_length). done. Defined.
