(* ===== verification/Client.v ===== *)
(** The client library ([driver/myjqlclient.cpp], the POSIX side of its
    conditional compilation): a method is a program over the socket whose
    result is a value or an exception. *)
From Stdlib Require Import ZArith Lia Strings.Byte Strings.String.
From stdpp Require Import base gmap list.
From S2P Require Import Prelude Net.
#[local] Open Scope Z_scope.

Inductive exn :=
  | system_error (msg : string) (error_code : Z)
  | key_too_long
  | value_too_long.

Inductive outcome (A : Type) := Returns (a : A) | Throws (e : exn).
Arguments Returns {A} a.
Arguments Throws {A} e.

(** [WSAGetLastError()] *)
Definition last_error : Z := 0.

(** [if (iResult == SOCKET_ERROR) throw system_error{"send", ...}] *)
Definition sending {A} (p : prog Z) (next : prog (outcome A)) : prog (outcome A) :=
  iResult ← p;
  if iResult =? SOCKET_ERROR then mret (Throws (system_error "send" last_error)) else next.

(** [recv] into [code], and the throw when it fails *)
Definition receiving {A} (code : Z) (next : Z → prog (outcome A)) : prog (outcome A) :=
  '(iResult, code) ← recv_int code;
  if iResult =? SOCKET_ERROR then mret (Throws (system_error "recv" last_error)) else next code.

(** [code = (int)s.size(); send(&code); send(s.data(), code)]; a negative
    [code] is a huge [size_t] *)
Definition send_data (s : list byte) (code : Z) : prog Z :=
  guard_ ((0 <=? code) && (code <=? Z.of_nat (length s)));;
  call_ (Send (take (Z.to_nat code) s)).
Definition send_str {A} (s : list byte) (next : Z → prog (outcome A)) : prog (outcome A) :=
  let code := swrap 32 (Z.of_nat (length s)) in
  sending (send_int code) (sending (send_data s code) (next code)).

(** [std::string res = buf]: the characters up to the first zero *)
Fixpoint c_string (buf : list byte) : option (list byte) :=
  match buf with
  | [] => None
  | b :: buf' => if byte_eq_dec b x00 then Some [] else (b ::.) <$> c_string buf'
  end.
Definition read_c_string (buf : list byte) : prog (list byte) :=
  match c_string buf with Some s => mret s | None => Crash end.

(** ** The connection *)

(** [client::client()]; [gethostbyname] answers 0 for a null pointer *)
Definition client_ctor : prog (outcome unit) :=
  ConnectSocket ← call_ (Sys Socket);
  if ConnectSocket <? 0 then mret (Throws (system_error "socket" 0))
  else
    server ← call_ (Sys GetHostByName);
    if server =? 0 then mret (Throws (system_error "gethostbyname" 0))
    else
      r ← call_ (Sys Connect);
      if r <? 0 then mret (Throws (system_error "connect" 0))
      else mret (Returns tt).

(** [client::~client()] *)
Definition client_dtor : prog unit :=
  iResult ← send_int 3;
  if iResult =? SOCKET_ERROR then call_ CloseSocket
  else
    '(iResult, _) ← recv_int 3;
    if iResult =? SOCKET_ERROR then call_ CloseSocket
    else
      iResult ← call_ Shutdown;
      if iResult =? SOCKET_ERROR then call_ CloseSocket
      else call_ CloseSocket.

(** ** The methods *)

Definition unknown_code {A} (code : Z) : prog (outcome A) :=
  mret (Throws (system_error "unknown return code" code)).

(** the value of a found key *)
Definition get_value (code : Z) : prog (outcome (option (list byte))) :=
  receiving code (λ code,
    guard_ (code <? 2 ^ 31 - 1);;
    buf ← call_ (Malloc (code + 1));
    '(iResult, buf) ← recv_into buf code;
    if iResult =? SOCKET_ERROR then
      call_ Free;; mret (Throws (system_error "recv" last_error))
    else if negb (iResult =? code) then
      call_ Free;; mret (Throws (system_error "incomplete response" 0))
    else
      buf ← set_zero buf code;
      res ← read_c_string buf;
      call_ Free;;
      mret (Returns (Some res))).

Definition get (key : list byte) : prog (outcome (option (list byte))) :=
  sending (send_int 0) (
  send_str key (λ code,
  receiving code (λ code,
    if code =? 0 then mret (Returns None)
    else if code =? 1 then get_value code
    else if code =? 2 then mret (Throws key_too_long)
    else unknown_code code))).

Definition set (key value : list byte) : prog (outcome unit) :=
  sending (send_int 1) (
  send_str key (λ _,
  send_str value (λ code,
  receiving code (λ code,
    if code =? 1 then mret (Returns tt)
    else if code =? 2 then mret (Throws key_too_long)
    else if code =? 3 then mret (Throws value_too_long)
    else unknown_code code)))).

Definition del (key : list byte) : prog (outcome unit) :=
  sending (send_int 2) (
  send_str key (λ code,
  receiving code (λ code,
    if code =? 1 then mret (Returns tt)
    else if code =? 2 then mret (Throws key_too_long)
    else unknown_code code))).
