(* ===== verification/ClientSpec.v ===== *)
(** Client and server together: the requests the client library sends are
    those the server understands, and the replies those the client expects. *)
From Stdlib Require Import ZArith Lia Strings.Byte.
From stdpp Require Import base gmap list fin_maps.
From S2P Require Import Prelude FileIO BufferPool Table Str BTree Myjql MyjqlGet MyjqlInit MyjqlStore DeepStore Net Server ServerSpec Client.
#[local] Open Scope Z_scope.

(** the characters of a buffer before the first zero *)
Fixpoint before_zero (s : list byte) : list byte :=
  match s with [] => [] | b :: s' => if byte_eq_dec b x00 then [] else b :: before_zero s' end.

Lemma c_string_zero s rest : c_string (s ++ x00 :: rest) = Some (before_zero s).
Proof.
  induction s as [|b s IH]; [done|]. simpl. destruct (byte_eq_dec b x00); [done|]. by rewrite IH.
Qed.

Lemma before_zero_id s : x00 ∉ s → before_zero s = s.
Proof.
  induction s as [|b s IH]; [done|]. rewrite not_elem_of_cons. intros [Hb Hs]. simpl.
  destruct (byte_eq_dec b x00); [by subst|]. by rewrite IH.
Qed.

Section rules.
Context (fuel : nat) (junk_rec junk_chunk : list byte) (junk : nat → list byte)
  (sys : syscall → Z) (files : Files).
Context (Hjunk : ∀ n, length (junk n) = n).
Abbreviation exec := (exec fuel junk_rec junk_chunk junk sys files).

Lemma wp_sending_int {A} c (next : prog (outcome A)) inb out n cl db live Φ :
  wp (exec next) Φ (Env (Conn inb (out ++ [int_bytes c]) n cl) db live) →
  wp (exec (sending (send_int c) next)) Φ (Env (Conn inb out (S n) cl) db live).
Proof using. clear Hjunk. intros H. unfold sending. by apply wp_exec_bind, wp_send_int. Qed.

Lemma wp_send_str {A} s (next : Z → prog (outcome A)) inb out n cl db live Φ :
  Z.of_nat (length s) < 2 ^ 31 →
  wp (exec (next (Z.of_nat (length s)))) Φ (Env (Conn inb (out ++ str_msg s) n cl) db live) →
  wp (exec (send_str s next)) Φ (Env (Conn inb out (S (S n)) cl) db live).
Proof using.
  clear Hjunk. intros Hs H. unfold send_str.
  rewrite swrap_id; [|lia|unfold in_s; change (2 ^ (32 - 1)) with (2 ^ 31); lia].
  apply wp_sending_int. unfold sending, send_data. apply wp_exec_bind, wp_exec_bind, wp_exec_guard.
  { apply andb_true_iff. rewrite !Z.leb_le. lia. }
  apply wp_exec_call. cbn [answer]. unfold on_conn, conn_send, wp at 1.
  cbn [e_conn sends inbox outbox closed e_db e_live].
  rewrite Nat2Z.id, firstn_all, (proj2 (Z.eqb_neq _ SOCKET_ERROR)) by (unfold SOCKET_ERROR; lia).
  rewrite <- app_assoc. exact H.
Qed.

Lemma wp_receiving {A} code c (next : Z → prog (outcome A)) inb out n cl db live Φ :
  in_s 32 c → wp (exec (next c)) Φ (Env (Conn inb out n cl) db live) →
  wp (exec (receiving code next)) Φ (Env (Conn (Segment (int_bytes c) :: inb) out n cl) db live).
Proof using. clear Hjunk. intros Hc H. unfold receiving. by apply wp_exec_bind, wp_recv_int. Qed.

Lemma wp_get_value code v inb out n cl db live (Φ : outcome (option (list byte)) → env → Prop) :
  sendable v → Φ (Returns (Some (before_zero v))) (Env (Conn inb out n cl) db live) →
  wp (exec (get_value code)) Φ (Env (Conn (arrived (str_msg v) ++ inb) out n cl) db live).
Proof using Hjunk.
  intros [Hne Hl] H. unfold get_value, arrived, str_msg. rewrite !fmap_cons. simpl app.
  apply wp_receiving. { unfold in_s. change (2 ^ (32 - 1)) with (2 ^ 31). lia. }
  apply wp_exec_bind, wp_exec_guard; [by apply Z.ltb_lt|].
  apply wp_exec_bind, wp_malloc; [done|lia|]. intros b Hb.
  apply wp_exec_bind, wp_recv_into; [done|lia|]. cbv beta iota.
  rewrite (proj2 (Z.eqb_neq _ SOCKET_ERROR)) by (unfold SOCKET_ERROR; lia).
  rewrite Z.eqb_refl. cbn [negb].
  destruct (drop (length v) b) as [|x rest] eqn:E.
  { apply (f_equal length) in E. rewrite length_drop in E. simpl in E. lia. }
  apply wp_exec_bind, wp_set_zero. unfold read_c_string. rewrite c_string_zero.
  apply wp_exec_bind, wp_exec_ret, wp_exec_bind, wp_exec_call. exact H.
Qed.

(** *** The methods *)

(** what [get] makes of a lookup *)
Definition get_outcome (o : option (list byte)) : outcome (option (list byte)) :=
  Returns ((λ v, before_zero (take 1024 v)) <$> o).

Lemma client_get_run k o inb n cl db live :
  sendable k → o ≠ Some [] →
  exec (get k) (Env (Conn (arrived (get_reply o) ++ inb) [] (S (S (S n))) cl) db live) =
    Ok (get_outcome o, Env (Conn inb (get_request k) n cl) db live).
Proof using Hjunk.
  intros [Hne Hl] Ho.
  edestruct (wp_elim (exec (get k)) (λ r e, r = get_outcome o ∧
    e = Env (Conn inb (get_request k) n cl) db live)) as (a & e & H & -> & ->); [|exact H].
  unfold get. apply wp_sending_int, wp_send_str; [lia|].
  destruct o as [v|]; cbn [get_reply].
  - assert (v ≠ []) as Hv by congruence.
    change (arrived (int_bytes 1 :: str_msg (take 1024 v)) ++ inb) with
      (Segment (int_bytes 1) :: (arrived (str_msg (take 1024 v)) ++ inb)).
    apply wp_receiving; [done|]. change (1 =? 0) with false. change (1 =? 1) with true. cbv iota.
    apply wp_get_value; [|done]. split; [by destruct v|]. rewrite length_take. lia.
  - apply wp_receiving; [done|]. by apply wp_exec_ret.
Qed.

Lemma client_get_long_run k inb n cl db live :
  sendable k →
  exec (get k) (Env (Conn (Segment (int_bytes 2) :: inb) [] (S (S (S n))) cl) db live) =
    Ok (Throws key_too_long, Env (Conn inb (get_request k) n cl) db live).
Proof using Hjunk.
  intros [Hne Hl].
  edestruct (wp_elim (exec (get k)) (λ r e, r = Throws key_too_long ∧
    e = Env (Conn inb (get_request k) n cl) db live)) as (a & e & H & -> & ->); [|exact H].
  unfold get. apply wp_sending_int, wp_send_str; [lia|]. apply wp_receiving; [done|]. by apply wp_exec_ret.
Qed.

(** what [set] makes of the code of the reply *)
Definition set_outcome (c : Z) : outcome unit :=
  if c =? 1 then Returns tt else if c =? 2 then Throws key_too_long
  else Throws value_too_long.

Lemma client_set_run k v c inb n cl db live :
  sendable k → sendable v → c = 1 ∨ c = 2 ∨ c = 3 →
  exec (set k v) (Env (Conn (Segment (int_bytes c) :: inb) [] (S (S (S (S (S n))))) cl) db live) =
    Ok (set_outcome c, Env (Conn inb (set_request k v) n cl) db live).
Proof using Hjunk.
  intros [_ Hk] [_ Hv] Hc.
  edestruct (wp_elim (exec (set k v)) (λ r e, r = set_outcome c ∧
    e = Env (Conn inb (set_request k v) n cl) db live)) as (a & e & H & -> & ->); [|exact H].
  unfold set. apply wp_sending_int, wp_send_str; [lia|]. apply wp_send_str; [lia|].
  apply wp_receiving; [by destruct Hc as [->|[->| ->]]|].
  rewrite <- app_assoc. by destruct Hc as [->|[->| ->]]; apply wp_exec_ret.
Qed.

Lemma client_del_run k c inb n cl db live :
  sendable k → c = 1 ∨ c = 2 →
  exec (del k) (Env (Conn (Segment (int_bytes c) :: inb) [] (S (S (S n))) cl) db live) =
    Ok (set_outcome c, Env (Conn inb (del_request k) n cl) db live).
Proof using Hjunk.
  intros [_ Hk] Hc.
  edestruct (wp_elim (exec (del k)) (λ r e, r = set_outcome c ∧
    e = Env (Conn inb (del_request k) n cl) db live)) as (a & e & H & -> & ->); [|exact H].
  unfold del. apply wp_sending_int, wp_send_str; [lia|].
  apply wp_receiving; [by destruct Hc as [->| ->]|]. by destruct Hc as [->| ->]; apply wp_exec_ret.
Qed.
End rules.

(** what a client sees of the map: a value as far as its first zero byte, at
    most 1024 characters of it *)
Definition client_view (D : gmap (list byte) (list byte)) (k : list byte)
    : outcome (option (list byte)) :=
  if MAX_STR_LEN <? Z.of_nat (length k) then Throws key_too_long else get_outcome (D !! k).

(** C31: a get through the whole system: the messages [client::get] sends are a
    request to which the server's turn replies, and from that reply
    [client::get] makes the value stored under the key as far as its first zero
    byte, at most 1024 characters of it, or nothing, or throws for a key of more
    than 1024 characters; the store stands for the same map afterwards. *)
Theorem client_get_round_trip fuel junk_rec junk_chunk junk sys files code k db live cdb clive D d ops :
  (∀ n, length (junk n) = n) → length junk_rec = 20%nat → length junk_chunk = 32%nat →
  database db D d ops → sendable k → D !! k ≠ Some [] → (length k < fuel)%nat →
  d <= Z.of_nat fuel + 1 → (length (default [] (D !! k)) < fuel)%nat →
  get_cost (length k) (length (default [] (D !! k))) d <= ops →
  ∃ reply c m m' db' ops', exec fuel junk_rec junk_chunk junk sys files (serve_turn code)
      (Env (Conn (arrived (get_request k)) [] 3 false) db live) =
    Ok (Continue c, Env (Conn [] reply m false) db' live) ∧
    exec fuel junk_rec junk_chunk junk sys files (get k)
      (Env (Conn (arrived reply) [] 3 false) cdb clive) =
    Ok (client_view D k, Env (Conn [] (get_request k) m' false) cdb clive) ∧
    database db' D d ops'.
Proof.
  intros Hjunk Hjr Hj Hdb Hk Hv Hfk Hd Hfv Hops. unfold client_view. rewrite <- (app_nil_r (arrived (get_request k))).
  destruct (Z.ltb_spec MAX_STR_LEN (Z.of_nat (length k))) as [Hl|Hl].
  - exists [int_bytes 2], 2, 2%nat, O, db, ops.
    split; [by apply serve_get_long_run|]. split; [|done]. by apply client_get_long_run.
  - set (ops' := ops - get_cost (length k) (length (default [] (D !! k))) d).
    destruct (serve_get_run fuel junk_rec junk_chunk junk sys files Hjunk code k [] [] 0 false db live (D !! k)
      (λ db', database db' D d ops')) as (c & m & db' & H & _ & Hd'); [|done|done|].
    { intros value Hvl. apply (myjql_get_run db D d ops); try done. rewrite Hvl. unfold MAX_STR_LEN. lia. }
    exists (get_reply (D !! k)), c, m, O, db', ops'. split; [exact H|]. split; [|exact Hd'].
    rewrite <- (app_nil_r (arrived (get_reply _))). by apply client_get_run.
Qed.

(** C34: a set through the whole system: with a key and a value the server
    takes, the store is changed by exactly one call of [myjql_set] with the
    key and the value, and [client::set] returns; with a longer one the store
    is not touched, and [client::set] throws. *)
Theorem client_set_round_trip fuel junk_rec junk_chunk junk sys files code k v db db' live cdb clive :
  (∀ n, length (junk n) = n) → sendable k → sendable v →
  (if set_code k v =? 1 then
     myjql_set fuel junk_rec junk_chunk (k ++ [x00]) (Z.of_nat (length k)) (v ++ [x00])
       (Z.of_nat (length v)) db = Ok (tt, db')
   else db' = db) →
  ∃ reply, exec fuel junk_rec junk_chunk junk sys files (serve_turn code)
      (Env (Conn (arrived (set_request k v)) [] 1 false) db live) =
    Ok (Continue (set_code k v), Env (Conn [] reply 0 false) db' live) ∧
    exec fuel junk_rec junk_chunk junk sys files (set k v)
      (Env (Conn (arrived reply) [] 5 false) cdb clive) =
    Ok (set_outcome (set_code k v), Env (Conn [] (set_request k v) 0 false) cdb clive).
Proof.
  intros Hjunk Hk Hv Hrun. exists [int_bytes (set_code k v)].
  rewrite <- (app_nil_r (arrived (set_request k v))).
  split; [by apply serve_set_run|]. apply client_set_run; [done..|].
  unfold set_code. repeat case_match; auto.
Qed.

(** likewise for a del *)
Lemma client_del_round_trip fuel junk_rec junk_chunk junk sys files code k db db' live cdb clive :
  (∀ n, length (junk n) = n) → sendable k →
  (if del_code k =? 1 then
     myjql_del fuel junk_rec junk_chunk (k ++ [x00]) (Z.of_nat (length k)) db = Ok (tt, db')
   else db' = db) →
  ∃ reply, exec fuel junk_rec junk_chunk junk sys files (serve_turn code)
      (Env (Conn (arrived (del_request k)) [] 1 false) db live) =
    Ok (Continue (del_code k), Env (Conn [] reply 0 false) db' live) ∧
    exec fuel junk_rec junk_chunk junk sys files (del k)
      (Env (Conn (arrived reply) [] 3 false) cdb clive) =
    Ok (set_outcome (del_code k), Env (Conn [] (del_request k) 0 false) cdb clive).
Proof.
  intros Hjunk Hk Hrun. exists [int_bytes (del_code k)].
  rewrite <- (app_nil_r (arrived (del_request k))).
  split; [by apply serve_del_run|]. apply client_del_run; [done..|].
  unfold del_code. repeat case_match; auto.
Qed.

(** a key of a store of six *)
Lemma client_get_round_trip_witness : ∃ db, database db six_pairs 7 (l_ops six_limits) ∧
  ∃ reply c m m' db' ops', exec deep_fuel (zeros 20) (zeros 32) zeros (λ _, 0) no_files (serve_turn 0)
      (Env (Conn (arrived (get_request [x62])) [] 3 false) db 0) =
    Ok (Continue c, Env (Conn [] reply m false) db' 0) ∧
    exec deep_fuel (zeros 20) (zeros 32) zeros (λ _, 0) no_files (get [x62])
      (Env (Conn (arrived reply) [] 3 false) blank_jql 0) =
    Ok (Returns (Some [x76]), Env (Conn [] (get_request [x62]) m' false) blank_jql 0) ∧
    database db' six_pairs 7 ops'.
Proof.
  destruct six_pairs_store as (s0 & db & _ & _ & Hs). exists db. apply store_database in Hs.
  change (l_depth six_limits) with 7 in Hs. split; [exact Hs|].
  assert (six_pairs !! [x62] = Some [x76]) as E by (vm_compute; reflexivity).
  unshelve epose proof (client_get_round_trip deep_fuel (zeros 20) (zeros 32) zeros (λ _, 0) no_files 0 [x62]
    db 0 blank_jql 0 six_pairs 7 (l_ops six_limits) zeros_length _ _ Hs _ _ _ _ _ _) as H.
  - done.
  - done.
  - done.
  - rewrite E. discriminate.
  - apply Nat.ltb_lt. vm_compute. reflexivity.
  - vm_compute. discriminate.
  - rewrite E. apply Nat.ltb_lt. vm_compute. reflexivity.
  - rewrite E. vm_compute. discriminate.
  - unfold client_view in H. rewrite E in H. exact H.
Defined.

Lemma client_set_round_trip_witness :
  ∃ reply, exec 200 (zeros 20) (zeros 32) zeros (λ _, 0) no_files (serve_turn 0)
      (Env (Conn (arrived (set_request [x6b] [x61])) [] 1 false) new_jql 0) =
    Ok (Continue 1, Env (Conn [] reply 0 false) one_key_jql 0) ∧
    exec 200 (zeros 20) (zeros 32) zeros (λ _, 0) no_files (set [x6b] [x61])
      (Env (Conn (arrived reply) [] 5 false) blank_jql 0) =
    Ok (Returns tt, Env (Conn [] (set_request [x6b] [x61]) 0 false) blank_jql 0).
Proof.
  apply (client_set_round_trip 200 (zeros 20) (zeros 32) zeros (λ _, 0) no_files 0 [x6b] [x61]
    new_jql one_key_jql 0 blank_jql 0 zeros_length); [done|done|].
  vm_compute. reflexivity.
Defined.
