(* ===== verification/SystemSpec.v ===== *)
(** The whole system: client library, the server's turns, the store, its index
    and its tables, from the requests of clients to the answers they get. *)
From Stdlib Require Import ZArith Lia Strings.Byte.
From stdpp Require Import base gmap list fin_maps.
From S2P Require Import Prelude FileIO PoolLogic Table StrSpec StrWrite Myjql MyjqlGet MyjqlInit MyjqlOwners MyjqlMap MyjqlStore MyjqlSetProps MyjqlSession MyjqlSmall.
From S2P Require Import Net Server ServerSpec Client ClientSpec.
#[local] Open Scope Z_scope.

(** ** Requests and answers *)

(** what a client asks for *)
Inductive request :=
  | RSet (k v : list byte)
  | RDel (k : list byte)
  | RGet (k : list byte).

(** what its method returns: nothing, or the value that was found *)
Inductive client_answer :=
  | Accepted
  | Found (o : option (list byte)).

(** the bytes of the request *)
Definition request_bytes (r : request) : list (list byte) :=
  match r with
  | RSet k v => set_request k v
  | RDel k => del_request k
  | RGet k => get_request k
  end.

(** the strings are not empty, and the server takes them *)
Definition takes (s : list byte) : Prop := sendable s ∧ Z.of_nat (length s) <= MAX_STR_LEN.
Definition request_ok (r : request) : Prop :=
  match r with
  | RSet k v => takes k ∧ takes v
  | RDel k | RGet k => takes k
  end.

(** the call of the store it stands for: strings come with a zero byte, and a
    value is read into a block of 1025 bytes *)
Definition request_call (r : request) : store_call :=
  match r with
  | RSet k v => CSet k [x00] v [x00]
  | RDel k => CDel k [x00]
  | RGet k => CGet k [x00] (zeros 1025) MAX_STR_LEN
  end.

(** the answer the map gives: a value as far as its first zero byte, at most
    1024 characters of it *)
Definition request_answer (D : contents_map) (r : request) : client_answer :=
  match r with
  | RGet k => Found ((λ v, before_zero (take 1024 v)) <$> D !! k)
  | _ => Accepted
  end.

Fixpoint requests_answers (D : contents_map) (rs : list request) : list client_answer :=
  match rs with
  | [] => []
  | r :: rs => request_answer D r :: requests_answers (call_map D (request_call r)) rs
  end.

(** ** Turns *)

Section turns.
Context (fuel : nat) (junk_rec junk_chunk : list byte) (junk : nat → list byte).
Context (sys : syscall → Z) (files : Files).
Local Abbreviation exec := (exec fuel junk_rec junk_chunk junk sys files).

(** a turn of the server takes the request and sends the reply; [code] is the
    result of the turn before it in its thread, and [live] the blocks that are
    allocated *)
Definition turn_serves (code : Z) (live : nat) (db : Jql) (r : request) (reply : list (list byte)) (db' : Jql) : Prop :=
  ∃ c m, exec (serve_turn code) (Env (Conn (arrived (request_bytes r)) [] 3 false) db live) =
    Ok (Continue c, Env (Conn [] reply m false) db' live).

(** the method of the client library sends the request and makes the answer of
    the reply *)
Definition client_takes (r : request) (reply : list (list byte)) (ans : client_answer) : Prop :=
  ∀ db live, ∃ m,
    let before := Env (Conn (arrived reply) [] 5 false) db live in
    let after := Env (Conn [] (request_bytes r) m false) db live in
    match r, ans with
    | RSet k v, Accepted => exec (set k v) before = Ok (Returns tt, after)
    | RDel k, Accepted => exec (del k) before = Ok (Returns tt, after)
    | RGet k, Found o => exec (get k) before = Ok (Returns o, after)
    | _, _ => False
    end.

(** the requests of clients, one after another, each with what its thread
    starts the turn with *)
Inductive served : Jql → list (Z * nat * request) → list client_answer → Jql → Prop :=
  | served_nil db : served db [] [] db
  | served_cons db code live r reply ans db1 rs anss db2 :
      turn_serves code live db r reply db1 → client_takes r reply ans → served db1 rs anss db2 →
      served db ((code, live, r) :: rs) (ans :: anss) db2.
End turns.

(** ** One request *)

(** what a call of the store did *)
Lemma ran {S A} (m : M S unit) (a b : A) s s' : (m;; mret a) s = Ok (b, s') → m s = Ok (tt, s').
Proof. unfold mbind, M_bind. destruct (m s) as [[[] s1]| |]; by intros [= _ ->]. Qed.
Lemma ran_with {S A} (m : M S A) a s s' : (r ← m; mret [r]) s = Ok ([a], s') → m s = Ok (a, s').
Proof. unfold mbind, M_bind. destruct (m s) as [[r s1]| |]; by intros [= -> ->]. Qed.

Lemma set_code_one k v : takes k → takes v → set_code k v = 1.
Proof.
  intros [_ Hk] [_ Hv]. unfold set_code.
  rewrite (proj2 (Z.ltb_ge _ _)) by lia. by rewrite (proj2 (Z.ltb_ge _ _)) by lia.
Qed.

Lemma del_code_one k : takes k → del_code k = 1.
Proof. intros [_ Hk]. unfold del_code. by rewrite (proj2 (Z.ltb_ge _ _)) by lia. Qed.

Section serve.
Context (fuel : nat) (junk_rec junk_chunk : list byte) (junk : nat → list byte).
Context (sys : syscall → Z) (files : Files).
Context (Hjunk : ∀ n, length (junk n) = n).
Context {A : Type} (T : store_terms A) {HT : MapStore T fuel junk_rec junk_chunk}.
Local Abbreviation turn_serves := (turn_serves fuel junk_rec junk_chunk junk sys files).
Local Abbreviation client_takes := (client_takes fuel junk_rec junk_chunk junk sys files).
Local Abbreviation calls_of rs := (map (λ a : Z * nat * request, request_call a.2) rs).

(** the answer to a request, and the store after it *)
Lemma request_served code live db D l r : ms_holds T db D l → request_ok r → ms_fits T l D (request_call r) →
  ∃ reply db', turn_serves code live db r reply db' ∧ client_takes r reply (request_answer D r) ∧
    ms_holds T db' (call_map D (request_call r)) (ms_spend T l D (request_call r)).
Proof using Hjunk HT.
  intros Hs Hr Hfits. destruct r as [k v|k|k]; cbn [request_ok request_call call_map request_answer] in *.
  - destruct Hr as [Hk Hv]. pose proof (set_code_one k v Hk Hv) as Hc. destruct Hk as [Hk _], Hv as [Hv _].
    destruct (ms_call db D l _ Hs Hfits) as (db' & Hrun%ran & Hs').
    exists [int_bytes 1], db'. split; [|split; [|done]].
    + exists 1, 2%nat. cbn [request_bytes]. rewrite <- (app_nil_r (arrived _)), <- Hc.
      apply serve_set_run; [done..|]. by rewrite Hc.
    + intros cdb clive. exists O. apply (client_set_run fuel junk_rec junk_chunk junk sys files Hjunk k v 1 [] 0); [done..|by left].
  - pose proof (del_code_one k Hr) as Hc. destruct Hr as [Hk _].
    destruct (ms_call db D l _ Hs Hfits) as (db' & Hrun%ran & Hs').
    exists [int_bytes 1], db'. split; [|split; [|done]].
    + exists 1, 2%nat. cbn [request_bytes]. rewrite <- (app_nil_r (arrived _)), <- Hc.
      apply serve_del_run; [done..|]. by rewrite Hc.
    + intros cdb clive. exists 2%nat. apply (client_del_run fuel junk_rec junk_chunk junk sys files Hjunk k 1 [] 2); [done..|by left].
  - destruct Hr as [Hk Hlk].
    destruct (serve_get_run fuel junk_rec junk_chunk junk sys files Hjunk code k [] [] 0 false db live (D !! k)
      (λ db', ms_holds T db' D (ms_spend T l D (CGet k [x00] (zeros 1025) MAX_STR_LEN)))) as (c & m & db' & Hrun & _ & Hs'); [|done|done|].
    { intros value Hvl. destruct (ms_dest (T := T) l D k [x00] (zeros 1025) value MAX_STR_LEN) as [Hfit ->]; [by rewrite Hvl|].
      destruct (ms_call db D l _ Hs (Hfit Hfits)) as (db' & Hrun%ran_with & Hs'). by exists db'. }
    exists (get_reply (D !! k)), db'. split; [|split; [|done]].
    + exists c, m. cbn [request_bytes]. by rewrite <- (app_nil_r (arrived _)).
    + intros cdb clive. exists 2%nat. rewrite <- (app_nil_r (arrived (get_reply _))).
      apply (client_get_run fuel junk_rec junk_chunk junk sys files Hjunk k (D !! k) [] 2); [done|]. by eapply ms_nonempty.
Qed.

Lemma requests_run rs : ∀ db D l, ms_holds T db D l → Forall (λ a, request_ok a.2) rs → calls_fit T l D (calls_of rs) →
  ∃ db', served fuel junk_rec junk_chunk junk sys files db rs (requests_answers D (map snd rs)) db' ∧
    ms_holds T db' (session_map D (calls_of rs)) (calls_spend T l D (calls_of rs)).
Proof using Hjunk HT.
  induction rs as [|[[code live] r] rs IH]; intros db D l Hs Hok Hfits; cbn [map requests_answers session_map calls_spend calls_fit snd] in *.
  { exists db. split; [constructor|done]. }
  apply Forall_cons in Hok as [Hr Hok]. destruct Hfits as [Hf Hfits].
  destruct (request_served code live db D l r Hs Hr Hf) as (reply & db1 & Ht & Hc & Hs1).
  destruct (IH db1 _ _ Hs1 Hok Hfits) as (db2 & Hserved & Hs2).
  exists db2. split; [by econstructor|done].
Qed.
End serve.

(** A store with limits serves the requests that the limits allow. *)
Theorem limited_requests_served fuel junk_rec junk_chunk junk sys files db D lim rs :
  (∀ n, length (junk n) = n) → length junk_rec = 20%nat → length junk_chunk = 32%nat →
  store fuel db D lim → Forall (λ a, request_ok a.2) rs →
  session_fits fuel lim D (map (λ a, request_call a.2) rs) →
  ∃ db', served fuel junk_rec junk_chunk junk sys files db rs (requests_answers D (map snd rs)) db' ∧
    store fuel db' (session_map D (map (λ a, request_call a.2) rs)) (session_limits fuel lim D (map (λ a, request_call a.2) rs)).
Proof.
  intros Hjunk Hjr Hj. pose proof (limited_store fuel junk_rec junk_chunk Hjr Hj) as HT. by apply (requests_run _ _ _ _ _ _ Hjunk (limited fuel)).
Qed.

(** C2: the whole system over a small store behaves as a finite map.  The store is
    one of [MyjqlSmall]: after each request the strings in it must fit a page
    ([session_small]), which is three keys at most, and it is good for [N]
    requests.  These are served one after another, whichever threads serve
    them; their strings are not empty and have at most 1024 characters.  Then
    each turn of the server takes the bytes of the request, calls the store and
    replies, the method of the client library makes of the reply the answer
    that the map gives, where a value that is got is cut at its first zero byte,
    and the store holds the map that the sets and dels leave.  A set of a key is
    seen by every later get of it, and a del is. *)
Theorem requests_served fuel junk_rec junk_chunk junk sys files db D N rs :
  let calls := map (λ a, request_call a.2) rs in
  (∀ n, length (junk n) = n) → length junk_rec = 20%nat → length junk_chunk = 32%nat → (128 < fuel)%nat →
  small fuel db D N → Forall (λ a, request_ok a.2) rs → Z.of_nat (length rs) <= N → session_small fuel D calls →
  ∃ db', served fuel junk_rec junk_chunk junk sys files db rs (requests_answers D (map snd rs)) db' ∧
    small fuel db' (session_map D calls) (N - Z.of_nat (length rs)).
Proof.
  intros calls Hjunk Hjr Hj Hf Hs Hok HN Hsmall. pose proof (counted_store fuel junk_rec junk_chunk Hf Hjr Hj) as HT.
  assert (length calls = length rs) as El by apply length_map. rewrite <- El in *. rewrite <- (counted_left fuel calls N D).
  apply (requests_run _ _ _ _ _ _ Hjunk (counted fuel)); [done|done|]. by apply counted_fit.
Qed.

(** a value is set, got, replaced, got and deleted by the clients of two
    threads, ten times *)
Definition some_requests : list (Z * nat * request) :=
  concat (replicate 10 [(0, O, RSet [x6b] [x61]); (0, O, RGet [x6b]); (1, O, RSet [x6b] [x62; x62]);
    (0, O, RGet [x6b]); (1, O, RDel [x6b]); (1, O, RGet [x6b])]).

Lemma requests_served_witness : ∃ db db', small 3200 db ∅ 60 ∧
  served 3200 (zeros 20) (zeros 32) zeros (λ _, 0) no_files db some_requests
    (concat (replicate 10 [Accepted; Found (Some [x61]); Accepted; Found (Some [x62; x62]); Accepted; Found None])) db' ∧
  small 3200 db' ∅ 0.
Proof.
  destruct (small_init_run blank_jql 3200 60 blank_jql_space) as (db & _ & Hs); [lia|lia|lia|].
  destruct (requests_served 3200 (zeros 20) (zeros 32) zeros (λ _, 0) no_files db ∅ 60 some_requests
    zeros_length (zeros_length 20) (zeros_length 32)) as (db' & H1 & H2).
  - lia.
  - exact Hs.
  - unfold some_requests. cbn [replicate concat app].
    repeat first [apply Forall_nil; exact I | apply Forall_cons; split; [repeat split; done|]].
  - vm_compute. discriminate.
  - apply (bool_decide_unpack _). vm_compute. exact I.
  - exists db, db'. split; [exact Hs|]. split; [exact H1|exact H2].
Defined.
