(* ===== verification/Shell.v ===== *)
(** The shell ([main/myjqlshell.cpp]): lines from the terminal, split by
    [sscanf], become calls of the client library. *)
From Stdlib Require Import ZArith Lia Strings.Byte Strings.String.
From stdpp Require Import base gmap list.
From S2P Require Import Prelude Net Client.
#[local] Open Scope Z_scope.

Definition INPUT_BUFFER_SIZE : Z := 1024.
Definition EOF : Z := -1.
Definition newline : Z := 10.

(** the terminal: what is still to be typed, and what was printed; then the
    array [input_buffer.buffer] of 1025 characters *)
Record terminal := Term { stdin : list byte; stdout : list byte; buffer : list byte }.

(** characters are signed *)
Definition to_char (c : Z) : byte := Z_to_byte c.
Definition char_value (b : byte) : Z := swrap 8 (byte_to_Z b).

Definition getchar : M terminal Z := λ t,
  match stdin t with
  | [] => Ok (EOF, t)
  | b :: rest => Ok (byte_to_Z b, Term rest (stdout t) (buffer t))
  end.
Definition print (s : list byte) : M terminal unit :=
  modify (λ t, Term (stdin t) (stdout t ++ s) (buffer t)).
Definition set_buffer (i : Z) (b : byte) : M terminal unit :=
  zoom buffer (λ o t, Term (stdin t) (stdout t) o) (wr i [b]).
Definition buffer_at (i : Z) : M terminal Z :=
  bs ← zoom buffer (λ o t, Term (stdin t) (stdout t) o) (rd i 1);
  mret (char_value (default x00 (head bs))).

Inductive InputResult := INPUT_SUCCESS | INPUT_TOO_LONG.

(** the first loop of [read_input]: the length afterwards *)
Fixpoint read_chars (fuel : nat) (length : Z) : M terminal Z :=
  match fuel with
  | O => no_fuel
  | S fuel' =>
      if length <=? INPUT_BUFFER_SIZE then
        c ← getchar;
        set_buffer length (to_char c);;
        let b := char_value (to_char c) in
        if negb (b =? newline) && negb (b =? EOF) then read_chars fuel' (length + 1)
        else mret (length + 1)
      else mret length
  end.

(** [while (getchar() != '\n');] *)
Fixpoint discard (fuel : nat) : M terminal unit :=
  match fuel with
  | O => no_fuel
  | S fuel' => c ← getchar; if c =? newline then mret tt else discard fuel'
  end.

(** [None]: the shell calls [exit] *)
Definition read_input (fuel : nat) : M terminal (option InputResult) :=
  length ← read_chars fuel 0;
  last ← buffer_at (length - 1);
  if last =? EOF then mret None
  else
    let length := length - 1 in
    last ← buffer_at length;
    if (length =? INPUT_BUFFER_SIZE) && negb (last =? newline) then
      discard fuel;;
      mret (Some INPUT_TOO_LONG)
    else
      set_buffer length x00;;
      mret (Some INPUT_SUCCESS).

(** ** [sscanf] *)

Definition isspace (b : byte) : bool :=
  bool_decide (b = x20) || ((9 <=? byte_to_Z b) && (byte_to_Z b <=? 13)).

(** [%s] on the string at the start of the list: white space is skipped, and a
    word of at least one character read *)
Fixpoint skip_space (s : list byte) : list byte :=
  match s with
  | b :: s' => if isspace b then skip_space s' else s
  | [] => []
  end.
Fixpoint split_word (s : list byte) : list byte * list byte :=
  match s with
  | b :: s' => if isspace b then ([], s) else let '(w, r) := split_word s' in (b :: w, r)
  | [] => ([], [])
  end.
Definition scan_word (s : list byte) : option (list byte * list byte) :=
  match split_word (skip_space s) with
  | ([], _) => None
  | (w, r) => Some (w, r)
  end.

(** [sscanf(s, "%s", ...) == 1] *)
Definition scan_command (s : list byte) : option (list byte) := fst <$> scan_word s.
(** [sscanf(s, "%*s %s", ...) == 1] *)
Definition scan_key (s : list byte) : option (list byte) :=
  '(_, r) ← scan_word s; '(k, _) ← scan_word r; Some k.
(** [sscanf(s, "%*s %s %s", ...) == 2] *)
Definition scan_key_value (s : list byte) : option (list byte * list byte) :=
  '(_, r) ← scan_word s; '(k, r) ← scan_word r; '(v, _) ← scan_word r; Some (k, v).

(** ** Commands *)

Definition str (s : string) : list byte := list_byte_of_string s.
Definition line_of (s : list byte) : list byte := s ++ [x0a].

(** [e.what()] *)
Definition what (e : exn) : list byte :=
  match e with
  | system_error msg _ => str msg
  | key_too_long => str "key is too long"
  | value_too_long => str "value is too long"
  end.
Definition print_error (e : exn) : list byte := line_of (str "Error: " ++ what e).

(** what is printed for the result of a method *)
Definition print_get (r : outcome (option (list byte))) : list byte :=
  match r with
  | Returns (Some res) => line_of res
  | Returns None => line_of (str "(not found)")
  | Throws e => print_error e
  end.
Definition print_ok (r : outcome unit) : list byte :=
  match r with Returns _ => line_of (str "OK") | Throws e => print_error e end.

(** one line of input: [None] for [exit], the output otherwise *)
Definition run_line (s : list byte) : prog (option (list byte)) :=
  if bool_decide (s = str "exit") then mret None
  else
    match scan_command s with
    | None => mret (Some (line_of (str "Invalid input.")))
    | Some command =>
        if bool_decide (command = str "get") then
          match scan_key s with
          | None => mret (Some (line_of (str "Invalid input.")))
          | Some key => r ← get key; mret (Some (print_get r))
          end
        else if bool_decide (command = str "set") then
          match scan_key_value s with
          | None => mret (Some (line_of (str "Invalid input.")))
          | Some (key, value) => r ← set key value; mret (Some (print_ok r))
          end
        else if bool_decide (command = str "del") then
          match scan_key s with
          | None => mret (Some (line_of (str "Invalid input.")))
          | Some key => r ← del key; mret (Some (print_ok r))
          end
        else mret (Some (line_of (str "Invalid command.")))
    end.

(** [print_prompt] *)
Definition print_prompt : M terminal unit := print (str "myjql> ").

(** ** The loop of [main]

    The client's programs run in a world [W]; [EXIT] leaves without the
    destructor of [client]. *)
Section shell.
Context {W : Type} (exec : ∀ {A}, prog A → M W A).

Definition on_term {A} (m : M terminal A) : M (terminal * W) A :=
  zoom fst (λ t s, (t, s.2)) m.
Definition on_client {A} (p : prog A) : M (terminal * W) A :=
  zoom snd (λ w s, (s.1, w)) (exec _ p).

Inductive shell_turn := NextLine | Bye | EXIT.

Definition one_line (fuel : nat) : M (terminal * W) shell_turn :=
  on_term print_prompt;;
  r ← on_term (read_input fuel);
  match r with
  | None => mret EXIT
  | Some INPUT_TOO_LONG =>
      on_term (print (line_of (str "Input is too long.")));; mret NextLine
  | Some INPUT_SUCCESS =>
      buf ← on_term (gets buffer);
      s ← of_opt (c_string buf);
      out ← on_client (run_line s);
      match out with
      | None => on_term (print (line_of (str "bye~")));; mret Bye
      | Some out => on_term (print out);; mret NextLine
      end
  end.

(** [n] lines at most *)
Fixpoint shell (n fuel : nat) : M (terminal * W) unit :=
  match n with
  | O => no_fuel
  | S n' =>
      r ← one_line fuel;
      match r with
      | NextLine => shell n' fuel
      | Bye => on_client client_dtor
      | EXIT => mret tt
      end
  end.

(** [MyJQL::client client;] an exception of its constructor ends the process *)
Definition main (n fuel : nat) : M (terminal * W) (outcome unit) :=
  r ← on_client client_ctor;
  match r with
  | Throws e => mret (Throws e)
  | Returns _ => shell n fuel;; mret (Returns tt)
  end.
End shell.
