(* ===== verification/ShellSpec.v ===== *)
(** The shell: lines are read whole or refused, and words go to the client
    library unchanged. *)
From Stdlib Require Import ZArith Lia Strings.Byte Strings.String.
From stdpp Require Import base gmap list.
From S2P Require Import Prelude Net Client ServerSpec ClientSpec Shell.
#[local] Open Scope Z_scope.

(** ** Reading a line *)

(** a character that neither ends a line nor looks like the end of the input *)
Definition plain (b : byte) : Prop := b ≠ x0a ∧ b ≠ xff.

Lemma char_value_newline b : char_value b = newline ↔ b = x0a.
Proof. destruct b; vm_compute; split; congruence. Qed.
Lemma char_value_eof b : char_value b = EOF ↔ b = xff.
Proof. destruct b; vm_compute; split; congruence. Qed.
Lemma to_char_byte b : to_char (byte_to_Z b) = b.
Proof. apply Z_to_byte_to_Z. Qed.
Lemma byte_not_eof b : byte_to_Z b ≠ EOF.
Proof. pose proof (byte_to_Z_range b). unfold EOF. lia. Qed.

(** what [getchar] reads next: a character, or at the end of the input EOF,
    which is stored as the character 255 *)
Definition next_is (t : list byte) (e : byte) (rest : list byte) : Prop :=
  t = e :: rest ∨ (t = [] ∧ e = xff ∧ rest = []).

Lemma wp_getchar t e rest out buf (Φ : Z → terminal → Prop) :
  next_is t e rest → (∀ c, to_char c = e → Φ c (Term rest out buf)) →
  wp getchar Φ (Term t out buf).
Proof.
  intros [->|(-> & -> & ->)] HΦ; unfold wp; cbn [getchar stdin]; apply HΦ; [apply to_char_byte|done].
Qed.

(** one character that does not end the loop, and one that does *)
Lemma wp_read_char fuel i t e rest out buf (Φ : Z → terminal → Prop) :
  next_is t e rest → length buf = 1025%nat → (i <= 1024)%nat →
  wp (if bool_decide (e = x0a ∨ e = xff) then mret (Z.of_nat i + 1)
      else read_chars fuel (Z.of_nat (S i))) Φ (Term rest out (splice i [e] buf)) →
  wp (read_chars (S fuel) (Z.of_nat i)) Φ (Term t out buf).
Proof.
  intros Ht Hb Hi HΦ. cbn [read_chars].
  rewrite (proj2 (Z.leb_le _ INPUT_BUFFER_SIZE)) by (unfold INPUT_BUFFER_SIZE; lia).
  wp_step. eapply wp_getchar; [exact Ht|]. intros c <-. wp_step. unfold set_buffer. wp_step.
  cbn [buffer]. apply wp_wr; [lia|cbn [length]; lia|]. rewrite Nat2Z.id. cbn [stdin stdout].
  replace (Z.of_nat i + 1) with (Z.of_nat (S i)) in * by lia. revert HΦ. set (e := to_char c).
  destruct (Z.eqb_spec (char_value e) newline) as [Hn|Hn]; rewrite char_value_newline in Hn.
  { by rewrite bool_decide_eq_true_2 by auto. }
  destruct (Z.eqb_spec (char_value e) EOF) as [He|He]; rewrite char_value_eof in He.
  { by rewrite bool_decide_eq_true_2 by auto. }
  by rewrite bool_decide_eq_false_2 by tauto.
Qed.

Lemma not_plain e : plain e ↔ ¬ (e = x0a ∨ e = xff).
Proof. unfold plain. tauto. Qed.

(** a line that ends while it fits *)
Lemma read_chars_spec : ∀ line fuel i t rest out buf e (Φ : Z → terminal → Prop),
  Forall plain line → length buf = 1025%nat → (i + length line <= 1024)%nat →
  (length line < fuel)%nat → next_is t e rest → e = x0a ∨ e = xff →
  Φ (Z.of_nat (i + length line) + 1) (Term rest out (splice i (line ++ [e]) buf)) →
  wp (read_chars fuel (Z.of_nat i)) Φ (Term (line ++ t) out buf).
Proof.
  induction line as [|b line IH]; intros fuel i t rest out buf e Φ Hp Hb Hi Hf Ht He HΦ;
    (destruct fuel as [|fuel]; [simpl in Hf; lia|]); cbn [app length] in *.
  - eapply wp_read_char; [exact Ht|done|lia|]. rewrite bool_decide_eq_true_2 by done.
    rewrite Nat.add_0_r in HΦ. exact HΦ.
  - apply Forall_cons in Hp as [Hbp Hp].
    eapply wp_read_char; [by left|done|lia|]. rewrite bool_decide_eq_false_2 by (by apply not_plain).
    eapply IH; [done| |lia|lia|done|done|].
    + rewrite splice_length; [done|simpl; lia].
    + rewrite splice_cons by (rewrite app_length; cbn [length]; lia).
      eapply (eq_ind _ (λ z, Φ z _)); [exact HΦ|lia].
Qed.

(** a line that fills the buffer: the loop stops after 1025 characters *)
Lemma read_chars_full : ∀ line fuel i rest out buf (Φ : Z → terminal → Prop),
  Forall plain line → length buf = 1025%nat → (i + length line = 1025)%nat →
  (length line < fuel)%nat →
  Φ 1025 (Term rest out (splice i line buf)) →
  wp (read_chars fuel (Z.of_nat i)) Φ (Term (line ++ rest) out buf).
Proof.
  induction line as [|b line IH]; intros fuel i rest out buf Φ Hp Hb Hi Hf HΦ;
    (destruct fuel as [|fuel]; [simpl in Hf; lia|]); cbn [app length] in *.
  - cbn [read_chars]. rewrite (proj2 (Z.leb_gt _ INPUT_BUFFER_SIZE)) by (unfold INPUT_BUFFER_SIZE; lia).
    apply wp_ret. replace (Z.of_nat i) with 1025 by lia.
    assert (splice i [] buf = buf) as E by (unfold splice; simpl; by rewrite Nat.add_0_r, take_drop).
    by rewrite E in HΦ.
  - apply Forall_cons in Hp as [Hbp Hp].
    eapply wp_read_char; [by left|done|lia|]. rewrite bool_decide_eq_false_2 by (by apply not_plain).
    eapply IH; [done| |lia|lia|].
    + rewrite splice_length; [done|simpl; lia].
    + by rewrite splice_cons by lia.
Qed.

Lemma discard_line : ∀ line fuel rest out buf (Φ : unit → terminal → Prop),
  Forall (λ b, b ≠ x0a) line → (length line < fuel)%nat → Φ tt (Term rest out buf) →
  wp (discard fuel) Φ (Term (line ++ x0a :: rest) out buf).
Proof.
  induction line as [|b line IH]; intros fuel rest out buf Φ Hp Hf HΦ;
    (destruct fuel as [|fuel]; [simpl in Hf; lia|]); cbn [discard app length] in *.
  - done.
  - apply Forall_cons in Hp as [Hb Hp]. wp_step. unfold wp at 1. cbn [getchar stdin].
    rewrite (proj2 (Z.eqb_neq _ newline)); [by apply IH; [..|lia|]|].
    intros E. apply Hb, byte_to_Z_inj. exact E.
Qed.

(** at the end of the input [getchar] answers EOF again and again *)
Lemma discard_eof : ∀ line fuel out buf,
  Forall (λ b, b ≠ x0a) line → discard fuel (Term line out buf) = NoFuel.
Proof.
  intros line fuel. revert line. induction fuel as [|fuel IH]; intros line out buf Hp; [done|].
  cbn [discard]. destruct line as [|b line].
  - exact (IH [] out buf Hp).
  - apply Forall_cons in Hp as [Hb Hp]. unfold mbind, M_bind. cbn [getchar stdin].
    rewrite (proj2 (Z.eqb_neq _ newline)); [by apply IH|].
    intros E. apply Hb, byte_to_Z_inj. exact E.
Qed.

(** reading and writing the buffer *)
Lemma wp_buffer_at i b inp out buf (Φ : Z → terminal → Prop) :
  buf !! i = Some b → Φ (char_value b) (Term inp out buf) →
  wp (buffer_at (Z.of_nat i)) Φ (Term inp out buf).
Proof.
  intros Hb HΦ. pose proof (lookup_lt_Some _ _ _ Hb). unfold buffer_at. wp_step. wp_step.
  cbn [buffer]. apply wp_rd; [lia|lia|]. cbn [stdin stdout]. wp_step.
  rewrite Nat2Z.id. unfold slice. rewrite (drop_S _ _ _ Hb). exact HΦ.
Qed.

Lemma splice_at i (bs l : list byte) j b : (i + length bs <= length l)%nat →
  bs !! j = Some b → splice i bs l !! (i + j)%nat = Some b.
Proof.
  intros Hl Hb. pose proof (lookup_lt_Some _ _ _ Hb). rewrite splice_lookup by done.
  rewrite decide_True by lia. by replace (i + j - i)%nat with j by lia.
Qed.

Lemma read_input_short line fuel rest out buf :
  Forall plain line → (length line <= 1024)%nat → length buf = 1025%nat →
  (length line < fuel)%nat →
  ∃ buf', read_input fuel (Term (line ++ x0a :: rest) out buf) =
      Ok (Some INPUT_SUCCESS, Term rest out buf') ∧
    length buf' = 1025%nat ∧ c_string buf' = Some (before_zero line).
Proof.
  intros Hp Hl Hb Hf.
  edestruct (wp_elim (read_input fuel) (λ r t, r = Some INPUT_SUCCESS ∧ ∃ buf', t = Term rest out buf' ∧
    length buf' = 1025%nat ∧ c_string buf' = Some (before_zero line))) as (r & t & H & -> & buf' & -> & H1 & H2);
    [|by exists buf'].
  unfold read_input. wp_step.
  eapply (read_chars_spec line fuel 0); [done|done|lia|done|by left|by left|].
  cbn [Nat.add]. set (buf1 := splice 0 (line ++ [x0a]) buf).
  assert (length (line ++ [x0a]) = S (length line)) as Hll by (rewrite app_length; simpl; lia).
  assert (length buf1 = 1025%nat) as Hb1 by (unfold buf1; rewrite splice_length; [done|simpl; lia]).
  assert (buf1 !! length line = Some x0a) as Hat.
  { apply (splice_at 0 _ _ (length line)); [lia|]. by rewrite list_lookup_middle by done. }
  replace (Z.of_nat (length line) + 1 - 1) with (Z.of_nat (length line)) by lia.
  wp_step. eapply wp_buffer_at; [exact Hat|]. change (char_value x0a =? EOF) with false. cbv iota zeta.
  wp_step. replace (Z.of_nat (length line) + 1 - 1) with (Z.of_nat (length line)) by lia.
  eapply wp_buffer_at; [exact Hat|]. change (char_value x0a =? newline) with true. cbn [negb].
  rewrite andb_false_r. wp_step. unfold set_buffer. wp_step. cbn [buffer]. apply wp_wr; [lia|cbn [length]; lia|].
  rewrite Nat2Z.id. cbn [stdin stdout]. wp_step. split; [done|]. eexists. split; [done|].
  split; [rewrite splice_length; [done|cbn [length]; lia]|].
  assert (buf1 = line ++ x0a :: drop (S (length line)) buf) as ->.
  { unfold buf1, splice. cbn [take app Nat.add]. by rewrite Hll, <- (assoc_L (++)). }
  rewrite splice_middle. apply c_string_zero.
Qed.

Lemma read_input_long line fuel rest out buf :
  Forall plain line → (1024 < length line)%nat → length buf = 1025%nat →
  (1025 < fuel)%nat →
  ∃ buf', length buf' = 1025%nat ∧
    read_input fuel (Term (line ++ rest) out buf) =
      (discard fuel;; mret (Some INPUT_TOO_LONG)) (Term (drop 1025 line ++ rest) out buf').
Proof.
  intros Hp Hl Hb Hf.
  assert (length (take 1025 line) = 1025%nat) as Hlt by (rewrite length_take; lia).
  destruct (wp_elim (read_chars fuel 0) (λ z t, z = 1025 ∧
    t = Term (drop 1025 line ++ rest) out (splice 0 (take 1025 line) buf))
    (Term (line ++ rest) out buf)) as (z & t & Hrun & -> & ->).
  { rewrite <- (take_drop 1025 line) at 1. rewrite <- (assoc_L (++)).
    eapply (read_chars_full (take 1025 line) fuel 0); [by apply Forall_take|done|lia|lia|done]. }
  exists (splice 0 (take 1025 line) buf). split; [rewrite splice_length; [done|lia]|].
  destruct (lookup_lt_is_Some_2 line 1024) as [b Hat]; [done|].
  assert (splice 0 (take 1025 line) buf !! 1024%nat = Some b) as Hat'.
  { apply (splice_at 0 _ _ 1024); [lia|]. by rewrite lookup_take_lt by lia. }
  rewrite Forall_lookup in Hp. destruct (Hp _ _ Hat) as [H1 H2].
  unfold read_input. set (k := discard fuel). unfold mbind at 1, M_bind at 1. rewrite Hrun.
  change (1025 - 1) with (Z.of_nat 1024).
  destruct (wp_elim (buffer_at (Z.of_nat 1024)) (λ z t, z = char_value b ∧
    t = Term (drop 1025 line ++ rest) out (splice 0 (take 1025 line) buf))
    (Term (drop 1025 line ++ rest) out (splice 0 (take 1025 line) buf))) as (z & t & Hrun2 & -> & ->).
  { by eapply wp_buffer_at. }
  unfold mbind at 1, M_bind at 1. rewrite Hrun2.
  rewrite (proj2 (Z.eqb_neq _ EOF)) by (by rewrite char_value_eof). cbv zeta.
  unfold mbind at 1, M_bind at 1. rewrite Hrun2.
  rewrite (proj2 (Z.eqb_neq _ newline)) by (by rewrite char_value_newline). done.
Qed.

(** the input ends, or holds the character 255, before the line does *)
Lemma read_input_end line fuel t rest out buf :
  Forall plain line → (length line <= 1024)%nat → length buf = 1025%nat →
  (length line < fuel)%nat → next_is t xff rest →
  ∃ buf', read_input fuel (Term (line ++ t) out buf) = Ok (None, Term rest out buf').
Proof.
  intros Hp Hl Hb Hf Ht.
  edestruct (wp_elim (read_input fuel) (λ r s, r = None ∧ ∃ buf', s = Term rest out buf'))
    as (r & s & H & -> & buf' & ->); [|by exists buf'].
  unfold read_input. wp_step.
  eapply (read_chars_spec line fuel 0); [done|done|lia|done|exact Ht|by right|].
  cbn [Nat.add]. replace (Z.of_nat (length line) + 1 - 1) with (Z.of_nat (length line)) by lia.
  wp_step. eapply wp_buffer_at.
  { apply (splice_at 0 _ _ (length line)); [rewrite app_length; simpl; lia|].
    by rewrite list_lookup_middle by done. }
  change (char_value xff =? EOF) with true. cbv iota. wp_step. split; [done|by eexists].
Qed.

(** ** Properties of the shell *)

(** C38: a line of at most 1024 characters is read whole, whatever the buffer
    held, and the buffer then is the C string of the line; a longer one is
    refused; in both cases exactly the line is taken from the input, and no
    character is written outside the buffer.  The loops need no more fuel than
    the line has characters, and the buffer. *)
Theorem read_input_reads_line line fuel rest out buf :
  Forall plain line → length buf = 1025%nat → (Nat.max 1025 (length line) < fuel)%nat →
  ∃ r buf', read_input fuel (Term (line ++ x0a :: rest) out buf) = Ok (Some r, Term rest out buf') ∧
    length buf' = 1025%nat ∧
    if decide (length line <= 1024)%nat
    then r = INPUT_SUCCESS ∧ c_string buf' = Some (before_zero line)
    else r = INPUT_TOO_LONG.
Proof.
  intros Hp Hb Hf. case_decide as Hl.
  - destruct (read_input_short line fuel rest out buf) as (buf' & H & ? & ?); [done|lia|done|lia|].
    by exists INPUT_SUCCESS, buf'.
  - destruct (read_input_long line fuel (x0a :: rest) out buf) as (buf' & Hb' & H); [done|lia|done|lia|].
    exists INPUT_TOO_LONG, buf'. split; [|done]. rewrite H.
    edestruct (wp_elim (discard fuel;; mret (Some INPUT_TOO_LONG)) (λ r t, r = Some INPUT_TOO_LONG ∧ t = Term rest out buf'))
      as (r & t & Hrun & -> & ->); [|exact Hrun].
    wp_step. apply discard_line; [|rewrite length_drop; lia|done].
    apply Forall_drop. eapply Forall_impl; [exact Hp|]. by intros b [].
Qed.

(** C39: how reading ends without a line: at the end of the input, and at a
    character 255, which a signed [char] cannot tell from EOF, the shell exits;
    but when more than 1024 characters are left without a newline the loop
    that discards the rest of the line never sees the end of the input, and
    never ends. *)
Theorem read_input_at_end line fuel t rest out buf :
  Forall plain line → length buf = 1025%nat → (1025 < fuel)%nat → next_is t xff rest →
  if decide (length line <= 1024)%nat
  then ∃ buf', read_input fuel (Term (line ++ t) out buf) = Ok (None, Term rest out buf')
  else t = [] → ∀ n, (1025 < n)%nat → read_input n (Term (line ++ t) out buf) = NoFuel.
Proof.
  intros Hp Hb Hf Ht. case_decide as Hl.
  - apply read_input_end; [done..|lia|done].
  - intros -> n Hn. destruct (read_input_long line n [] out buf) as (buf' & Hb' & H); [done|lia|done|lia|].
    rewrite H, app_nil_r. unfold mbind, M_bind. rewrite discard_eof; [done|].
    apply Forall_drop. eapply Forall_impl; [exact Hp|]. by intros b [].
Qed.

Lemma read_input_reads_line_witness :
  ∃ buf', read_input 1100 (Term ([x67; x65; x74] ++ [x0a]) [] (zeros 1025)) =
      Ok (Some INPUT_SUCCESS, Term [] [] buf') ∧ c_string buf' = Some [x67; x65; x74].
Proof.
  destruct (read_input_reads_line [x67; x65; x74] 1100 [] [] (zeros 1025)) as (r & buf' & H & _ & H2).
  - by repeat (constructor; [by split|]).
  - apply zeros_length.
  - cbn. lia.
  - rewrite decide_True in H2 by (cbn; lia). destruct H2 as [-> H2]. by exists buf'.
Defined.

Lemma read_input_at_end_witness :
  read_input 1100 (Term (replicate 1030 x61 ++ []) [] (zeros 1025)) = NoFuel.
Proof.
  pose proof (read_input_at_end (replicate 1030 x61) 1100 [] [] [] (zeros 1025)) as H.
  rewrite decide_False in H by (rewrite length_replicate; lia).
  apply H; [by apply Forall_replicate|apply zeros_length|lia|by right|done|lia].
Defined.

(** ** Words *)

Definition word (s : list byte) : Prop := s ≠ [] ∧ Forall (λ b, isspace b = false) s.
Definition space : list byte := [x20].

Lemma split_word_word s rest :
  Forall (λ b, isspace b = false) s → (rest = [] ∨ ∃ b r, rest = b :: r ∧ isspace b = true) →
  split_word (s ++ rest) = (s, rest).
Proof.
  intros Hs Hr. induction s as [|b s IH]; cbn [app split_word].
  - destruct Hr as [->|(b & r & -> & Hb)]; [done|]. cbn [split_word]. by rewrite Hb.
  - apply Forall_cons in Hs as [Hb Hs]. by rewrite Hb, IH.
Qed.

Lemma scan_word_word s rest :
  word s → (rest = [] ∨ ∃ b r, rest = b :: r ∧ isspace b = true) →
  scan_word (s ++ rest) = Some (s, rest).
Proof.
  intros [Hne Hs] Hr. unfold scan_word. destruct s as [|b s]; [done|].
  assert (skip_space ((b :: s) ++ rest) = (b :: s) ++ rest) as ->.
  { cbn [app skip_space]. apply Forall_cons in Hs as [-> _]. done. }
  by rewrite split_word_word.
Qed.

Lemma scan_word_space s rest :
  word s → (rest = [] ∨ ∃ b r, rest = b :: r ∧ isspace b = true) →
  scan_word (space ++ s ++ rest) = Some (s, rest).
Proof. intros. rewrite <- (scan_word_word s rest) by done. done. Qed.

Lemma space_ends rest : ∃ b r, space ++ rest = b :: r ∧ isspace b = true.
Proof. by exists x20, rest. Qed.

Lemma scan_key_line c k : word c → word k →
  scan_command (c ++ space ++ k) = Some c ∧ scan_key (c ++ space ++ k) = Some k.
Proof.
  intros Hc Hk. unfold scan_command, scan_key.
  rewrite scan_word_word by (try done; right; apply space_ends). split; [done|]. cbn -[space app scan_word].
  pose proof (scan_word_space k [] Hk (or_introl eq_refl)) as E. rewrite app_nil_r in E. by rewrite E.
Qed.

Lemma scan_key_value_line c k v : word c → word k → word v →
  scan_command (c ++ space ++ k ++ space ++ v) = Some c ∧
  scan_key_value (c ++ space ++ k ++ space ++ v) = Some (k, v).
Proof.
  intros Hc Hk Hv. unfold scan_command, scan_key_value.
  rewrite scan_word_word by (try done; right; apply space_ends). split; [done|]. cbn -[space app scan_word].
  rewrite scan_word_space by (try done; right; apply space_ends). cbn -[space app scan_word].
  pose proof (scan_word_space v [] Hv (or_introl eq_refl)) as E. rewrite app_nil_r in E. by rewrite E.
Qed.

Lemma command_word c : c = str "get" ∨ c = str "set" ∨ c = str "del" → word c.
Proof. intros [->|[->| ->]]; (split; [done|repeat constructor]). Qed.

(** C40: a line made of words is taken apart into those words: a get line calls
    [client::get] with the key, a set line [client::set] with the key and the
    value and a del line [client::del], and the line printed tells the value,
    or the exception. *)
Theorem run_line_calls_client k v :
  word k → word v →
  run_line (str "get" ++ space ++ k) = (r ← get k; mret (Some (print_get r))) ∧
  run_line (str "set" ++ space ++ k ++ space ++ v) = (r ← set k v; mret (Some (print_ok r))) ∧
  run_line (str "del" ++ space ++ k) = (r ← del k; mret (Some (print_ok r))).
Proof.
  intros Hk Hv. unfold run_line.
  assert (word (str "get") ∧ word (str "set") ∧ word (str "del")) as (Hg & Hs & Hd)
    by (split_and!; apply command_word; auto).
  split_and!; rewrite (bool_decide_eq_false_2 (_ = str "exit")) by (by intros [=]).
  - destruct (scan_key_line _ _ Hg Hk) as [-> ->]. done.
  - destruct (scan_key_value_line _ _ _ Hs Hk Hv) as [-> ->]. done.
  - destruct (scan_key_line _ _ Hd Hk) as [-> ->]. done.
Qed.

Lemma run_line_calls_client_witness :
  run_line (str "get k") = (r ← get [x6b]; mret (Some (print_get r))) ∧
  run_line (str "set k a") = (r ← set [x6b] [x61]; mret (Some (print_ok r))) ∧
  run_line (str "del k") = (r ← del [x6b]; mret (Some (print_ok r))).
Proof. apply (run_line_calls_client [x6b] [x61]); (split; [done|repeat constructor]). Defined.
